(* ===== verification/_CoqProject ===== *)
-Q . S2P
Prelude.v
Canonical.v
CanonicalRead.v
CanonicalScan.v
CanonicalPrefix.v
CanonicalLaws.v
CanonicalLines.v
JsonText.v
Text.v
Predicate.v
Gates.v
FileSystem.v
FileOps.v
FileOpsLaws.v
WorkspacePath.v
WorkspacePathLaws.v
TextLines.v
DiffApplier.v
DiffApplierLaws.v
Handshake.v
HandshakeLaws.v
SuiteChain.v
AssumptionsWal.v
Assumptions.v
AssumptionsGraph.v
AssumptionsReplay.v
AssumptionsLaws.v
AssumptionsClaims.v
Loop.v
LoopLaws.v
ToolGate.v
ToolGateLaws.v
Trace.v
Repair.v
RepairLaws.v
TraceWriter.v
TraceWriterLaws.v
TraceWriterClaims.v
Sidecar.v
TraceVerify.v
TraceVerifyLaws.v
TraceVerifyClaims.v
JsonLines.v
ManifestLedger.v
ManifestLedgerLaws.v
ManifestLedgerClaims.v
DependencyGraph.v
Matcher.v
MatcherLaws.v
Difflib.v
DiffRender.v
DiffRenderLaws.v
Undo.v
ReviewHunks.v
ReviewHunksLaws.v
PlanGate.v
PlanGateLaws.v
PlanRun.v
PlanRunLaws.v
UndoLaws.v
UndoClaims.v
Allowlist.v
AllowlistLaws.v
Grant.v
GrantLaws.v
Tier3.v
Tier3Laws.v
