(* ===== verification/Prelude.v ===== *)
(** * RACT: a verification library

    RACT runs a language model over a repository and lets the environment, not
    the model, decide what is done, what may run and what may be written.  This
    library models the parts of [src/ract/] that carry those decisions and the
    records behind them, and proves what each promises.

    ** The parts and how they meet

    A run starts with a suite of acceptance predicates ([core/predicate.py])
    compiled from the intent.  [core/loop.py] enters the loop with it: it asks
    the evaluators ([core/gates.py]) whether every required verifier is there,
    writes [suite.json] and entry 0 of the chain of suites
    ([core/suite_chain.py]), and then asks the causes T1 to T8 once per
    iteration.  T4 reads the assumption registry ([core/assumption_registry.py],
    durable through [core/assumptions_wal.py]), T6 the operator's handshakes
    ([handshake_registry.py]).  Within a step, tools pass the gate of
    [executor/tool_gate.py], commands the matcher of [policy/matcher.py], and
    every path a model names the rule of [workspace_path.py]; diffs are applied
    by [diff_applier.py].  Plans are ordered by [dependency_graph.py] and put to
    the operator once ([plan_gate.py], [approval_callback.py]); what the steps
    change is drawn ([diff_render.py]) and reviewed hunk by hunk, before it is
    applied or after ([review_hunks.py]).  Whatever a turn writes is journaled
    first ([undo_backup.py]), so [/undo], [/redo] and [/restore] take it back.
    A command of the third tier needs a grant the operator signed
    ([policy/grant.py]), the matcher, and an answer, its own or one an allow
    rule or the session stands for while no entry point changed
    ([policy/allowlist.py], [policy/tier3.py], [tools/tests_tool.py]).  What
    happened is an event log with a hash chain ([trace/events.py]), written and
    read by [trace/writer.py], closed after a crash by [trace/repair.py], and
    judged by [trace/verify.py], which keeps its checkpoint in a sidecar file
    bound to its run ([sidecar_header.py]).  Which manifest was in force when an
    environment was attested is an entry of an append-only ledger
    ([security/manifest_ledger.py]).  All records are written as
    canonical JSON ([canonical.py]) or as [json.dumps].

    ** Where each part is

    - this file: results and actions (state passing with errors), dicts in their
      insertion order, strings, sorting, hexadecimal, lines, and the interfaces
      [Sha256] and [Unicode] of what the interpreter provides, with their laws;
    - [Canonical] (the encoder over an object graph with sharing and cycles),
      [CanonicalRead] ([json.loads]), [CanonicalScan], [CanonicalPrefix],
      [CanonicalLines] (what writers of lines use) and [CanonicalLaws];
    - [JsonText] ([json.dumps] and the conversions [str], [int], [float],
      [bytes.fromhex] of parsed values), [Text] and [TextLines] (strip,
      splitlines);
    - [Predicate], [Gates], [SuiteChain], [Loop], [LoopLaws];
    - [FileSystem] (a tree with links, the system's path walk and
      [os.path.realpath]), [WorkspacePath], [WorkspacePathLaws], [DiffApplier],
      [DiffApplierLaws];
    - [Handshake], [HandshakeLaws];
    - [AssumptionsWal], [Assumptions], [AssumptionsGraph] (propagation of a
      violation), [AssumptionsReplay] (codecs), [AssumptionsLaws] (the
      invariant), [AssumptionsClaims];
    - [ToolGate], [ToolGateLaws]; [Trace], [Repair], [RepairLaws];
      [TraceWriter] (the log's bytes, emit, checkpoint, reopening, the reader),
      [TraceWriterLaws] (the invariant, each operation), [TraceWriterClaims]
      (the life of a log as a step relation); [Sidecar] (headers of sidecar
      files), [TraceVerify] (the cold and the warm verdict), [TraceVerifyLaws],
      [TraceVerifyClaims]; [JsonLines] (files of one object a line),
      [ManifestLedger], [ManifestLedgerLaws] (chain, proofs, each operation),
      [ManifestLedgerClaims]; [DependencyGraph]; [Matcher], [MatcherLaws];
    - [Difflib] (the language's [SequenceMatcher], written out, and the laws of
      its opcodes), [DiffRender], [DiffRenderLaws] (the drawing, over the
      interface [CellLen] of terminal widths), [ReviewHunks],
      [ReviewHunksLaws] (the review, a state of file tree, inputs and screen,
      which records through [Undo], against a reading of the inputs of its own),
      [PlanGate] (parsing an answer and what it does to a plan), [PlanGateLaws]
      (the filter of file names against what names a file), [PlanRun],
      [PlanRunLaws] (the console's loop and the steps that run);
    - [FileOps], [FileOpsLaws] (reading, writing, folders and removal on the
      tree, and their laws at a place no link leads to or from), [Undo] (the
      journal), [UndoLaws] (its invariant, the end of a turn, a reversal),
      [UndoClaims] (turn, undo and redo put together, and a concrete project);
    - [Allowlist], [AllowlistLaws] (entry points and their record), [Grant],
      [GrantLaws] (policies, signatures, revocation), [Tier3], [Tier3Laws] (the
      decision before a command runs, over [Matcher], [Allowlist] and [Grant]).

    A definition has the name of the function or method it models.  Records are
    the dataclasses; a Python dict is an association list in insertion order; a
    text or a byte string is its UTF-8 bytes.  A method that changes an object
    or a file is an [action], a function from the state before to the state
    after and a value or an error, so the state an exception leaves is explicit.

    ** What the theorems show

    - Canonical JSON: [dumps_jcs] succeeds exactly on finite trees of
      encodable values (an integer has at most 4300 digits), independent of
      insertion order; without floats the text reads back; no proper prefix of
      an object's text parses (which is why a torn line is noticed).
    - Assumptions: files replay to memory after any calls with normal UTF-8
      texts, digests that are not empty and new ids, and, but for a cut inside a
      character, which is refused, after a kill inside an append; a violation
      reaches exactly the dependents; the lifecycle never goes back.
    - Suites: what the reader returns is well formed; [suite.json] reads back.
    - Chain of suites: it reads as what was appended, also after a kill.
    - Loop: complete exactly when every required predicate holds; it goes on
      exactly when no cause applies; it ends within its budget; the entry is
      refused with nothing written, or leaves suite and entry on disk.
    - Handshakes: whatever a repository ships, nothing is unlocked but by a
      decision made on this machine, with the pinned key for approvals.
    - Paths: an accepted write stays on the named file inside the project; an
      accepted read stays inside; what is sent is private neither by name nor
      by where it leads.  [FileSystem] proves that [realpath] names the place
      at which the system arrives.
    - Diffs: a hunk splices the lines it names; restoring undoes it; whatever
      the diff, only accepted files change and their bytes are backed up.
    - Tool gate and matcher: what is called or allowed passed every check, no
      shell passes, budgets bound the calls.
    - Event log: repair closes what is open, keeps the chain, and is idempotent;
      in every state a log reaches by the steps of [TraceWriterClaims] (calls, a
      file that cannot be opened, reopening, kills that tear a line behind
      others between two characters) it reads back as the committed events and
      verifies, and observers are told only of what is on disk.
    - Verdicts: a log is found valid exactly when it holds a chain of one run
      (soundness and completeness, the latter for the writer's format); a log
      of the run that was asked for, verified to the end of a line, that grew
      gets from its checkpoint the verdict of a verification from the start; a
      header is only accepted for the run and type it was written for.
    - Ledger of manifests: it verifies after any appends, one entry for each run
      and manifest; its last hash fixes every entry before it, and a proof that
      ends in it is of an entry at the place its length says, or SHA-256
      collides; every entry has such a proof.
    - Plan graph: [has_cycle] is right in any iteration order.
    - Drawing and review: the drawn lines are printable and their counts
      balance; each hunk is taken, left or replaced as the inputs' words
      say; a review changes nothing, or writes the one file it asked about with
      those bytes and records it, or raises where the record cannot be used.
    - Undo: what a turn does to files with ordinary names, none below another
      and none a link, an undo gives back, but for the files the user changed
      since, which it leaves alone and names; a redo takes the undo back;
      pruning never reaches a turn that is still needed.
    - Grants: one holds exactly when it is signed by the pinned key, valid,
      bound here, in time and never revoked; the pin fixes its files.
    - Tier 3: a command runs only under such a grant, unchanged until the run,
      and with a consent to its exact words; what stands for a question does so
      only while every entry point is as it was signed; a session's approvals
      are those the operator gave.
    - Plan approval: only an answer approves, an edit has no word with a
      separator or with a name and an extension that the plan did not list, and
      below the strong path the steps that run are the approved ones with the
      text that was shown.

    Theorems next to these, without a claim's number, show where the code does
    other than its comments say: torn tails that swallow the next entry, a
    rotation killed between its writes, a shipped handshake that blocks T6, form
    feeds rewritten by a hunk, a hunk that empties a file, a hunk before every
    header, a project directory that ends in a backslash, a plain argument with
    a last newline, a repair at the last timestamp, an event written behind a
    torn one, a log that a torn character or a blank line makes the writer
    refuse or cut, a failed sync that forks the chain, observers that miss
    events, a ledger's entry behind a torn one, a break named one entry late, a
    proof's unchecked index, a changed snapshot returned, verdicts that raise
    or disagree with the reader, a strong path that runs skipped steps, an edit
    that names a file without an extension, an integer too long to write, a text
    that is not normal or a digest that is empty changed by a restart, line ends rewritten by a partial review, a file left out
    of a turn's drawing without a word, a project's [manifest.json] lost to the
    journal's own, turns that cannot be undone (a folder for a file, a colon, a
    pruned folder), a link followed through a backslash, a versioned interpreter
    and a joined module let through as rules, and a name that makes signing
    raise half-way.

    ** Bounds and fuel

    Recursion that Python does on the heap or with [while] takes fuel, and is
    proved to have enough: [_walk] the number of objects ([dumps_jcs_terminates]),
    [propagate] the number of assumptions plus one, the depth-first search the
    number of nodes, [realpath] the number of nodes plus one ([real_total]),
    [free_name] the number of backups ([backup_fresh]), brace expansion the
    number of open braces ([brace_expansion_ends]), [mkdirs] the length of the
    path, [strip] and [splitlines] the length of the text, the matcher of lines
    twice their number plus one, the window of the spot check the length of the
    file plus one ([window_search_ends]).  The 40 links of the system's walk are
    Linux's limit.
    Timestamps keep the 64-bit width where the code packs them; floats are
    binary64 ([SpecFloat]).

    ** What the interpreter and other code provide

    NFC, the shortest decimal of a float, the Unicode tables, SHA-256,
    signatures, Base64 and dates are parameters with the laws their
    documentation gives ([RuntimeLaws], [Sha256Laws], [SigningLaws], ...), each
    met by an instance of the witnesses.  What YAML and the schema library make
    of a policy's text, the listing of git and the answers of the operator are
    arguments, with no law.

    ** Not modelled

    Windows (path rules, PATHEXT); two writers of one event log at once and a
    file that changes while it is verified; sidecars with a header line; dual
    suites of [antilazy/holdout.py]; the words of log lines and of
    [secret_kind]; the copies of [run_checkpoint.py], which [DiffApplier] and
    [Undo] record as calls; the run of a command and its sandbox; the
    interpreter's limits on nested calls, on memory, and on the digits of a
    number that is read ([json.loads] of more than 4300 digits raises; writing
    them is modelled, and no text that is written has them); providers,
    sandboxes, git, SQLite, terminals and the command line, whose effect is
    that of other programs. *)

From Stdlib Require Export Ascii ZArith Lia.
From stdpp Require Export prelude strings gmap sorting.

#[export] Set Default Goal Selector "!".
#[export] Set Default Proof Using "Type".

Declare Scope ract_scope.
Delimit Scope ract_scope with ract.

(** ** Tactics *)

(** [destr_match] splits on the scrutinee of the first [match] of the goal,
    [destr_match_in H] on the one of a hypothesis; both keep the equation. *)
Ltac destr_match :=
  match goal with
  | |- context [match ?x with _ => _ end] => destruct x eqn:?
  end.
Ltac destr_match_in H :=
  match type of H with
  | context [match ?x with _ => _ end] => destruct x eqn:?
  end.

(** [inv_ok H] peels the binds of a computation known to have returned. *)
Ltac inv_ok H :=
  repeat (simplify_eq/=; destr_match_in H); simplify_eq/=.

(** Boolean tests turned into propositions. *)
Ltac bool_prop :=
  repeat match goal with
  | H : _ && _ = true |- _ => apply andb_true_iff in H; destruct H
  | H : _ || _ = false |- _ => apply orb_false_iff in H; destruct H
  | H : negb _ = true |- _ => apply negb_true_iff in H
  | H : negb _ = false |- _ => apply negb_false_iff in H
  | H : bool_decide _ = true |- _ => apply bool_decide_eq_true in H
  | H : bool_decide _ = false |- _ => apply bool_decide_eq_false in H
  | H : String.eqb _ _ = true |- _ => apply String.eqb_eq in H
  | H : String.eqb _ _ = false |- _ => apply String.eqb_neq in H
  | H : Nat.eqb _ _ = true |- _ => apply Nat.eqb_eq in H
  | H : Nat.leb _ _ = true |- _ => apply Nat.leb_le in H
  | H : Nat.ltb _ _ = true |- _ => apply Nat.ltb_lt in H
  | H : Z.leb _ _ = true |- _ => apply Z.leb_le in H
  | H : Z.leb _ _ = false |- _ => apply Z.leb_gt in H
  | H : Z.ltb _ _ = true |- _ => apply Z.ltb_lt in H
  | H : Z.ltb _ _ = false |- _ => apply Z.ltb_ge in H
  end.

Create HintDb ract.

(** ** Computations that may raise

    A Python call returns or raises; [E] is the component's own type of
    exceptions. *)
Inductive result (E A : Type) : Type :=
| Ok (a : A)
| Err (e : E).
Arguments Ok {E A} a.
Arguments Err {E A} e.

#[export] Instance result_ret {E} : MRet (result E) := @Ok E.
#[export] Instance result_bind {E} : MBind (result E) := λ A B f r,
  match r with Ok a => f a | Err e => Err e end.
#[export] Instance result_fmap {E} : FMap (result E) := λ A B f r,
  match r with Ok a => Ok (f a) | Err e => Err e end.
#[export] Instance result_eq_dec {E A} `{EqDecision E, EqDecision A} :
  EqDecision (result E A).
Proof. solve_decision. Defined.

Definition is_ok {E A} (r : result E A) : bool :=
  match r with Ok _ => true | Err _ => false end.

Definition guard_or {E} (b : bool) (e : E) : result E unit :=
  if b then Ok () else Err e.

Lemma result_bind_ok {E A B} (r : result E A) (f : A → result E B) b :
  r ≫= f = Ok b ↔ ∃ a, r = Ok a ∧ f a = Ok b.
Proof. destruct r; naive_solver. Qed.

(** Code that also changes an object: the state is kept when it raises. *)
Definition action (S E A : Type) : Type := S → S * result E A.

#[export] Instance action_ret {S E} : MRet (action S E) := λ A a s, (s, Ok a).
#[export] Instance action_bind {S E} : MBind (action S E) := λ A B f m s,
  match m s with (s', Ok a) => f a s' | (s', Err e) => (s', Err e) end.

Definition raise {S E A} (e : E) : action S E A := λ s, (s, Err e).
Definition get_state {S E} : action S E S := λ s, (s, Ok s).
Definition modify {S E} (f : S → S) : action S E unit := λ s, (f s, Ok ()).
Definition ensure {S E} (b : bool) (e : E) : action S E unit := λ s, (s, guard_or b e).
Definition lift_result {S E A} (r : result E A) : action S E A := λ s, (s, r).

(** The call without its value. *)
Definition void {S E A} (m : action S E A) : action S E unit := λ s,
  let '(s', r) := m s in (s', (λ _, ()) <$> r).

Lemma action_bind_ok {S E A B} (m : action S E A) (f : A → action S E B) s s' b :
  (m ≫= f) s = (s', Ok b) ↔ ∃ s1 a, m s = (s1, Ok a) ∧ f a s1 = (s', Ok b).
Proof. unfold mbind, action_bind. destruct (m s) as [s1 [a|e]]; naive_solver. Qed.
Lemma action_bind_err {S E A B} (m : action S E A) (f : A → action S E B) s s' e :
  (m ≫= f) s = (s', Err e) ↔
  m s = (s', Err e) ∨ ∃ s1 a, m s = (s1, Ok a) ∧ f a s1 = (s', Err e).
Proof. unfold mbind, action_bind. destruct (m s) as [s1 [a|e']]; naive_solver. Qed.

(** ** Python's [dict]: an association list in insertion order *)
Module Dict.
Section dict.
Context {K V : Type} `{EqDecision K}.

Definition dict := list (K * V).

Fixpoint get (d : list (K * V)) (k : K) : option V :=
  match d with
  | [] => None
  | (k', v) :: d => if decide (k = k') then Some v else get d k
  end.

(** [d[k] = v]: in place for a key that is there, at the end otherwise. *)
Fixpoint set (d : list (K * V)) (k : K) (v : V) : list (K * V) :=
  match d with
  | [] => [(k, v)]
  | (k', v') :: d =>
      if decide (k = k') then (k', v) :: d else (k', v') :: set d k v
  end.

Definition mem (d : list (K * V)) (k : K) : bool := bool_decide (is_Some (get d k)).
Definition keys (d : list (K * V)) : list K := d.*1.
Definition values (d : list (K * V)) : list V := d.*2.

Fixpoint remove (d : list (K * V)) (k : K) : list (K * V) :=
  match d with
  | [] => []
  | (k', v) :: d => if decide (k = k') then d else (k', v) :: remove d k
  end.

(** The dict of the pairs [kvs], set one after the other. *)
Definition of_pairs (kvs : list (K * V)) : list (K * V) :=
  foldl (λ d kv, set d kv.1 kv.2) [] kvs.

Lemma get_set_eq d k v : get (set d k v) k = Some v.
Proof.
  induction d as [|[k' v'] d IH]; simpl; [by rewrite decide_True|].
  destruct (decide (k = k')) as [->|]; simpl.
  - by rewrite decide_True.
  - by rewrite decide_False.
Qed.

Lemma get_set_ne d k k' v : k ≠ k' → get (set d k v) k' = get d k'.
Proof.
  intros Hne. induction d as [|[k1 v1] d IH]; simpl.
  - by rewrite decide_False.
  - destruct (decide (k = k1)) as [->|]; simpl.
    + by rewrite !decide_False by done.
    + by rewrite IH.
Qed.

Lemma get_set d k k' v :
  get (set d k v) k' = if decide (k = k') then Some v else get d k'.
Proof.
  case_decide as H; [subst; apply get_set_eq|by apply get_set_ne].
Qed.

Lemma keys_cons k v d : keys ((k, v) :: d) = k :: keys d.
Proof. done. Qed.
Lemma keys_app d1 d2 : keys (d1 ++ d2) = keys d1 ++ keys d2.
Proof. apply fmap_app. Qed.

Lemma get_None d k : get d k = None ↔ k ∉ keys d.
Proof.
  induction d as [|[k' v'] d IH]; [set_solver|].
  rewrite keys_cons. simpl. case_decide; set_solver.
Qed.

Lemma get_is_Some d k : is_Some (get d k) ↔ k ∈ keys d.
Proof.
  destruct (get d k) eqn:E.
  - split; [|done]. intros _. destruct (decide (k ∈ keys d)); [done|].
    assert (get d k = None) by (by apply get_None). congruence.
  - apply get_None in E. split; [intros [? ?]; congruence|done].
Qed.

Lemma get_Some_elem d k v : get d k = Some v → (k, v) ∈ d.
Proof.
  induction d as [|[k' v'] d IH]; simpl; [done|].
  case_decide; intros; simplify_eq; set_solver.
Qed.

Lemma elem_get d k v : NoDup (keys d) → (k, v) ∈ d → get d k = Some v.
Proof.
  induction d as [|[k' v'] d IH]; [set_solver|]. rewrite keys_cons. simpl.
  intros [Hn Hd]%NoDup_cons [?|?]%elem_of_cons; simplify_eq.
  - by rewrite decide_True.
  - rewrite decide_False; [by apply IH|]. intros ->. apply Hn.
    apply list_elem_of_fmap. by exists (k', v).
Qed.

Lemma keys_set d k v :
  keys (set d k v) = if decide (k ∈ keys d) then keys d else keys d ++ [k].
Proof.
  induction d as [|[k' v'] d IH]; [done|].
  rewrite keys_cons. simpl. destruct (decide (k = k')) as [->|].
  - rewrite decide_True; set_solver.
  - rewrite keys_cons, IH. do 2 case_decide; set_solver.
Qed.

Lemma keys_set_in d k v : k ∈ keys d → keys (set d k v) = keys d.
Proof. intros. by rewrite keys_set, decide_True. Qed.

Lemma keys_set_notin d k v : k ∉ keys d → keys (set d k v) = keys d ++ [k].
Proof. intros. by rewrite keys_set, decide_False. Qed.

Lemma set_notin d k v : k ∉ keys d → set d k v = d ++ [(k, v)].
Proof.
  induction d as [|[k' v'] d IH]; [done|]. rewrite keys_cons. simpl. intros.
  rewrite decide_False by set_solver. f_equal. apply IH. set_solver.
Qed.

Lemma set_get_id d k v : get d k = Some v → set d k v = d.
Proof.
  induction d as [|[k' v'] d IH]; simpl; [done|].
  case_decide; intros; simplify_eq; [done|]. f_equal; auto.
Qed.

Lemma set_set d k v v' : set (set d k v) k v' = set d k v'.
Proof.
  induction d as [|[k1 v1] d IH]; simpl; [by rewrite decide_True|].
  destruct (decide (k = k1)) as [->|] eqn:E; simpl; rewrite E; [done|by rewrite IH].
Qed.

Lemma NoDup_keys_set d k v : NoDup (keys d) → NoDup (keys (set d k v)).
Proof.
  intros. rewrite keys_set. case_decide; [done|].
  apply NoDup_app. split_and!; [done| |apply NoDup_singleton]. set_solver.
Qed.

Lemma length_keys d : length (keys d) = length d.
Proof. apply length_fmap. Qed.

Lemma length_set_in d k v : k ∈ keys d → length (set d k v) = length d.
Proof. intros H. by rewrite <-!length_keys, keys_set_in. Qed.

(** Two dicts with the same keys in the same order and the same lookups are
    the same dict. *)
Lemma dict_eq d1 d2 :
  NoDup (keys d1) → keys d1 = keys d2 →
  (∀ k, get d1 k = get d2 k) → d1 = d2.
Proof.
  revert d2. induction d1 as [|[k v] d1 IH]; intros [|[k2 v2] d2]; try done.
  rewrite !keys_cons. intros [Hn Hd]%NoDup_cons Hk Hg.
  injection Hk as -> Hk'. pose proof (Hg k2) as Hgk. simpl in Hgk.
  rewrite !decide_True in Hgk by done. simplify_eq. f_equal.
  apply IH; [done..|]. intros k'.
  specialize (Hg k'). simpl in Hg. destruct (decide (k' = k2)) as [->|]; [|done].
  assert (get d1 k2 = None) as -> by (by apply get_None).
  symmetry. apply get_None. by rewrite <-Hk'.
Qed.

Lemma mem_true d k : mem d k = true ↔ k ∈ keys d.
Proof. unfold mem. by rewrite bool_decide_eq_true, get_is_Some. Qed.

Lemma of_pairs_snoc l k v : of_pairs (l ++ [(k, v)]) = set (of_pairs l) k v.
Proof. unfold of_pairs. by rewrite foldl_app. Qed.

Lemma of_pairs_NoDup (l : list (K * V)) : NoDup (keys l) → of_pairs l = l.
Proof.
  induction l as [|[k v] l IH] using rev_ind; [done|].
  rewrite keys_app, NoDup_app. intros (Hl & Hd & _).
  rewrite of_pairs_snoc, IH by done. apply set_notin. intros Hk.
  apply (Hd k Hk). unfold keys. simpl. set_solver.
Qed.

Lemma elem_of_set d k v kv : kv ∈ set d k v → kv = (k, v) ∨ kv ∈ d.
Proof.
  induction d as [|[k' v'] d IH]; cbn; [intros ->%list_elem_of_singleton; by left|].
  case_decide as E; [subst k'|]; intros [->|Hin]%elem_of_cons; [by left|by right; right|by right; left|].
  destruct (IH Hin) as [->|?]; [by left|by right; right].
Qed.

(** Lookup does not see the order of distinct keys. *)
Lemma get_perm d1 d2 k : NoDup (keys d1) → d1 ≡ₚ d2 → get d1 k = get d2 k.
Proof.
  intros Hn Hp. destruct (get d1 k) as [v|] eqn:E.
  - symmetry. apply elem_get.
    + unfold keys in *. by rewrite <-Hp.
    + rewrite <-Hp. by apply get_Some_elem.
  - symmetry. apply get_None in E. apply get_None. unfold keys in *. by rewrite <-Hp.
Qed.
End dict.
Lemma get_fmap {K V W} `{EqDecision K} (f : V → W) (d : list (K * V)) k :
  get ((λ kv, (kv.1, f kv.2)) <$> d) k = f <$> get d k.
Proof. induction d as [|[k' v] d IH]; [done|]. cbn. by case_decide. Qed.
Arguments dict : clear implicits.
End Dict.

#[export] Instance dict_keys_proper {K V} :
  Proper (Permutation ==> Permutation) (@Dict.keys K V).
Proof. intros d1 d2 Hd. by apply fmap_Permutation. Qed.

#[export] Hint Rewrite @Dict.get_set_eq @Dict.set_set : ract.
#[export] Hint Resolve Dict.NoDup_keys_set Dict.get_Some_elem : ract.

(** ** Strings

    A Python [str] is modelled by its UTF-8 encoding: a [string] whose
    characters are bytes.  ASCII tests and edits, code-point order (which is
    byte order in UTF-8), concatenation and equality read the same on both
    sides; a lone surrogate has no encoding and is outside the model. *)
Lemma str_app_cons c (s1 s2 : string) : String c s1 +:+ s2 = String c (s1 +:+ s2).
Proof. done. Qed.
Lemma str_app_nil_l (s : string) : "" +:+ s = s.
Proof. done. Qed.
Lemma str_app_nil_r (s : string) : s +:+ "" = s.
Proof. induction s as [|c s IH]; [done|]. by rewrite str_app_cons, IH. Qed.
Lemma str_app_assoc (s1 s2 s3 : string) : (s1 +:+ s2) +:+ s3 = s1 +:+ (s2 +:+ s3).
Proof. induction s1 as [|c s IH]; [done|]. by rewrite !str_app_cons, IH. Qed.
Lemma str_length_app (s1 s2 : string) :
  String.length (s1 +:+ s2) = String.length s1 + String.length s2.
Proof. induction s1 as [|c s IH]; [done|]. rewrite str_app_cons. simpl. by rewrite IH. Qed.
Lemma str_app_eq_nil (s1 s2 : string) : s1 +:+ s2 = "" → s1 = "" ∧ s2 = "".
Proof. by destruct s1. Qed.
Lemma str_app_id_r (s1 s2 : string) : s1 +:+ s2 = s1 → s2 = "".
Proof.
  intros H. apply (f_equal String.length) in H. rewrite str_length_app in H.
  destruct s2; [done|]. simpl in H. lia.
Qed.
Lemma str_app_inv_head (s s1 s2 : string) : s +:+ s1 = s +:+ s2 → s1 = s2.
Proof.
  induction s as [|c s IH]; [done|]. rewrite !str_app_cons. intros [= H]. by apply IH.
Qed.
Lemma str_app_inv_tail (s1 s2 s : string) : s1 +:+ s = s2 +:+ s → s1 = s2.
Proof.
  revert s2. induction s1 as [|c s1 IH]; intros [|c2 s2] H; [done|..];
    rewrite ?str_app_nil_l, ?str_app_cons in H.
  - apply (f_equal String.length) in H. simpl in H. rewrite str_length_app in H. lia.
  - apply (f_equal String.length) in H. simpl in H. rewrite str_length_app in H. lia.
  - injection H as -> H. f_equal. by apply IH.
Qed.

(** A prefix of [l] and one character: all of it, or a prefix of [l]. *)
Lemma str_app_snoc_prefix l c w r : l +:+ String c "" = w +:+ r →
  (w = l +:+ String c "" ∧ r = "") ∨ ∃ r', l = w +:+ r' ∧ r = r' +:+ String c "".
Proof.
  revert l. induction w as [|a w IH]; intros l; [right; by exists l|].
  rewrite str_app_cons. destruct l as [|b l]; rewrite ?str_app_nil_l, ?str_app_cons.
  - intros [= -> H]. symmetry in H. apply str_app_eq_nil in H as [-> ->]. by left.
  - intros [= -> H]. destruct (IH l H) as [[-> ->]|(r' & -> & ->)]; [by left|].
    right. by exists r'.
Qed.

#[export] Hint Rewrite str_app_nil_r str_app_nil_l str_app_cons str_app_assoc : str.

(** [sep.join(parts)] *)
Fixpoint str_join (sep : string) (parts : list string) : string :=
  match parts with
  | [] => ""
  | [p] => p
  | p :: ps => p +:+ sep +:+ str_join sep ps
  end.

Lemma str_join_cons2 sep p q ps :
  str_join sep (p :: q :: ps) = p +:+ sep +:+ str_join sep (q :: ps).
Proof. done. Qed.

(** [s.startswith(p)], with what follows the prefix. *)
Fixpoint str_drop_prefix (p s : string) : option string :=
  match p, s with
  | "", _ => Some s
  | String a p, String b s => if Ascii.eqb a b then str_drop_prefix p s else None
  | String _ _, "" => None
  end.
Definition startswith (s p : string) : bool :=
  bool_decide (is_Some (str_drop_prefix p s)).

Lemma str_drop_prefix_Some p s r : str_drop_prefix p s = Some r ↔ s = p +:+ r.
Proof.
  revert s. induction p as [|a p IH]; intros s; simpl.
  - split; [by intros [= ->]|by intros ->].
  - destruct s as [|b s]; [done|]. rewrite str_app_cons.
    destruct (Ascii.eqb_spec a b) as [->|].
    + rewrite IH. split; [by intros ->|by intros [= ->]].
    + split; [done|]. intros [=]; congruence.
Qed.

Lemma startswith_spec s p : startswith s p = true ↔ ∃ r, s = p +:+ r.
Proof.
  unfold startswith. rewrite bool_decide_eq_true. split.
  - intros [r ?%str_drop_prefix_Some]. eauto.
  - intros [r ?%str_drop_prefix_Some]. eauto.
Qed.

(** The characters of a string, as code units below 256. *)
Definition ord (c : ascii) : N := N_of_ascii c.
Definition str_forall (P : ascii → bool) : string → bool :=
  fix go s := match s with "" => true | String c s => P c && go s end.
Definition str_exists (P : ascii → bool) : string → bool :=
  fix go s := match s with "" => false | String c s => P c || go s end.

Lemma str_forall_app P s1 s2 :
  str_forall P (s1 +:+ s2) = str_forall P s1 && str_forall P s2.
Proof.
  induction s1 as [|c s IH]; [done|]. rewrite str_app_cons. simpl.
  by rewrite IH, andb_assoc.
Qed.

(** [len(s)] and [s[:n]] count code points: the bytes that do not continue one. *)
Definition starts_char (c : ascii) : bool := negb ((128 <=? ord c)%N && (ord c <=? 191)%N).
Fixpoint str_len (s : string) : nat :=
  match s with "" => 0 | String c s => (if starts_char c then 1 else 0) + str_len s end.
Fixpoint str_take (n : nat) (s : string) : string :=
  match s with
  | "" => ""
  | String c s =>
      if starts_char c
      then match n with O => "" | S n => String c (str_take n s) end
      else String c (str_take n s)
  end.

Lemma str_len_app s1 s2 : str_len (s1 +:+ s2) = str_len s1 + str_len s2.
Proof. induction s1 as [|c s IH]; [done|]. rewrite str_app_cons. cbn. rewrite IH. lia. Qed.
Lemma str_len_take n s : str_len (str_take n s) ≤ n.
Proof.
  revert n. induction s as [|c s IH]; intros n; cbn; [lia|].
  destruct (starts_char c) eqn:E; [destruct n as [|n]|]; cbn; rewrite ?E; [lia|..].
  - specialize (IH n). lia.
  - apply IH.
Qed.
Lemma str_take_prefix n s : ∃ r, s = str_take n s +:+ r.
Proof.
  revert n. induction s as [|c s IH]; intros n; cbn; [by exists ""|].
  destruct (starts_char c); [destruct n as [|n]; [by eexists|]|];
    destruct (IH n) as [r Hr]; exists r; rewrite str_app_cons; congruence.
Qed.

(** [x in s] *)
Fixpoint contains (s x : string) : bool :=
  startswith s x || match s with "" => false | String _ s => contains s x end.

(** ** [sorted], which is stable, and [sorted] of strings *)
Section sorted.
Context {A : Type} (le : A → A → bool).
Fixpoint insert_sorted (x : A) (l : list A) : list A :=
  match l with
  | [] => [x]
  | y :: l => if le x y then x :: y :: l else y :: insert_sorted x l
  end.
Definition py_sorted (l : list A) : list A := foldr insert_sorted [] l.

Lemma insert_sorted_perm x l : insert_sorted x l ≡ₚ x :: l.
Proof.
  induction l as [|y l IH]; simpl; [done|]. destruct (le x y); [done|].
  rewrite IH. apply Permutation_swap.
Qed.
Lemma py_sorted_perm l : py_sorted l ≡ₚ l.
Proof. induction l as [|x l IH]; simpl; [done|]. by rewrite insert_sorted_perm, IH. Qed.
Lemma length_py_sorted l : length (py_sorted l) = length l.
Proof. apply Permutation_length, py_sorted_perm. Qed.
Lemma elem_of_py_sorted x l : x ∈ py_sorted l ↔ x ∈ l.
Proof. by rewrite (py_sorted_perm l). Qed.

Context (le_total : ∀ x y, le x y = true ∨ le y x = true)
        (le_trans : ∀ x y z, le x y = true → le y z = true → le x z = true).

Lemma insert_sorted_ssorted x l :
  StronglySorted le l → StronglySorted le (insert_sorted x l).
Proof using Type*.
  induction 1 as [|y l Hl IH Hy]; simpl; [repeat constructor|].
  destruct (le x y) eqn:E.
  - constructor; [by constructor|]. constructor; [by rewrite E|].
    eapply Forall_impl; [exact Hy|]. simpl. intros z Hz.
    apply Is_true_true. apply Is_true_true in Hz. eauto.
  - constructor; [done|]. rewrite insert_sorted_perm. constructor; [|done].
    destruct (le_total x y) as [Hc|Hc]; [congruence|by rewrite Hc].
Qed.
Lemma py_sorted_ssorted l : StronglySorted le (py_sorted l).
Proof using Type*.
  induction l; simpl; [constructor|]. by apply insert_sorted_ssorted.
Qed.
Lemma py_sorted_id l : StronglySorted le l → py_sorted l = l.
Proof.
  induction 1 as [|y l Hl IH Hy]; simpl; [done|]. rewrite IH.
  destruct l as [|z l]; [done|]. simpl.
  apply Forall_cons in Hy as [Hyz%Is_true_true _]. by rewrite Hyz.
Qed.
End sorted.

Lemma str_leb_total (s1 s2 : string) : String.leb s1 s2 = true ∨ String.leb s2 s1 = true.
Proof. apply String.leb_total. Qed.
Lemma str_leb_trans (s1 s2 s3 : string) :
  String.leb s1 s2 = true → String.leb s2 s3 = true → String.leb s1 s3 = true.
Proof.
  intros H1%Is_true_true H2%Is_true_true. apply Is_true_true.
  exact (transitivity (R := String.le) H1 H2).
Qed.
Lemma str_leb_antisym (s1 s2 : string) :
  String.leb s1 s2 = true → String.leb s2 s1 = true → s1 = s2.
Proof. apply String.leb_antisym. Qed.

(** ** [filter] *)
Lemma filter_all {A} (P : A → Prop) `{∀ x, Decision (P x)} l : Forall P l → filter P l = l.
Proof. induction 1 as [|x l Hx _ IH]; [done|]. rewrite filter_cons_True by done. by rewrite IH. Qed.
Lemma filter_none {A} (P : A → Prop) `{∀ x, Decision (P x)} l : Forall (λ x, ¬ P x) l → filter P l = [].
Proof. induction 1 as [|x l Hx _ IH]; [done|]. by rewrite filter_cons_False. Qed.

(** ** [mapM] and the left fold in the result monad *)
Fixpoint foldlM {E A B} (f : B → A → result E B) (b : B) (l : list A) : result E B :=
  match l with [] => Ok b | x :: l => b' ← f b x; foldlM f b' l end.
Lemma foldlM_app {E A B} (f : B → A → result E B) b l1 l2 :
  foldlM f b (l1 ++ l2) = b' ← foldlM f b l1; foldlM f b' l2.
Proof.
  revert b. induction l1 as [|x l1 IH]; intros b; cbn; [done|].
  destruct (f b x); cbn; [apply IH|done].
Qed.

Section mapM.
Context {E A B : Type}.
Implicit Types (f : A → result E B).

Lemma mapM_Err f l e : mapM f l = Err e → ∃ x, x ∈ l ∧ f x = Err e.
Proof.
  induction l as [|x l IH]; simpl; [done|].
  destruct (f x) eqn:Ex; simpl.
  - destruct (mapM f l); simpl; [done|]. intros [= ->].
    destruct IH as (y & ? & ?); [done|]. exists y. set_solver.
  - intros [= ->]. exists x. set_solver.
Qed.

Lemma mapM_Ok f l k : mapM f l = Ok k ↔ Forall2 (λ x y, f x = Ok y) l k.
Proof.
  split.
  - revert k. induction l as [|x l IH]; simpl; intros k H.
    { injection H as <-. constructor. }
    destruct (f x) eqn:Ex; simpl in H; [|done].
    destruct (mapM f l); simpl in H; [|done]. injection H as <-. constructor; auto.
  - induction 1 as [|x y l k Hx H IH]; simpl; [done|]. by rewrite Hx, IH.
Qed.
End mapM.

Lemma mapM_ext_rel {E A A' B} (f : A → result E B) (g : A' → result E B) l l' :
  Forall2 (λ x x', f x = g x') l l' → mapM f l = mapM g l'.
Proof. induction 1 as [|x x' l l' Hx _ IH]; simpl; [done|]. by rewrite Hx, IH. Qed.

Lemma insert_sorted_rel {A B} (leA : A → A → bool) (leB : B → B → bool) (Q : A → B → Prop) :
  (∀ x y x' y', Q x y → Q x' y' → leA x x' = leB y y') →
  ∀ x y l k, Q x y → Forall2 Q l k →
    Forall2 Q (insert_sorted leA x l) (insert_sorted leB y k).
Proof.
  intros HQ x y l k Hxy. induction 1 as [|a b l k Hab Hlk IH]; simpl.
  - by repeat constructor.
  - rewrite (HQ x y a b) by done. destruct (leB y b); by repeat constructor.
Qed.

Lemma py_sorted_rel {A B} (leA : A → A → bool) (leB : B → B → bool) (Q : A → B → Prop) l k :
  (∀ x y x' y', Q x y → Q x' y' → leA x x' = leB y y') →
  Forall2 Q l k → Forall2 Q (py_sorted leA l) (py_sorted leB k).
Proof.
  intros HQ. induction 1 as [|x y l k Hxy H IH]; simpl; [done|].
  by eapply insert_sorted_rel.
Qed.

(** Sorting commutes with a map that keeps the order. *)
Lemma py_sorted_fmap {A B} (leA : A → A → bool) (leB : B → B → bool) (f : A → B) l :
  (∀ x y, leB (f x) (f y) = leA x y) → py_sorted leB (f <$> l) = f <$> py_sorted leA l.
Proof.
  intros Hf. symmetry. apply list_eq_Forall2, Forall2_fmap_l.
  eapply (py_sorted_rel leA leB (λ x y, f x = y)).
  - by intros x _ x' _ <- <-.
  - apply Forall2_fmap_r, Forall_Forall2_diag. by apply Forall_true.
Qed.

(** ** Bytes in hexadecimal: [bytes.hex] and [bytes.fromhex] *)
Definition nibble (n : N) : ascii :=
  if (n <? 10)%N then ascii_of_N (48 + n) else ascii_of_N (87 + n).
Definition nibble_value (c : ascii) : option N :=
  let n := ord c in
  if (48 <=? n)%N && (n <=? 57)%N then Some (n - 48)%N
  else if (97 <=? n)%N && (n <=? 102)%N then Some (n - 87)%N
  else if (65 <=? n)%N && (n <=? 70)%N then Some (n - 55)%N else None.

Fixpoint hex (s : string) : string :=
  match s with
  | "" => ""
  | String c s => String (nibble (ord c / 16)) (String (nibble (ord c mod 16)) (hex s))
  end.

(** Spaces between bytes are skipped, as in Python; [None] is [ValueError]. *)
Fixpoint fromhex (s : string) : option string :=
  match s with
  | "" => Some ""
  | String a t =>
      if Ascii.is_space a then fromhex t
      else match t with
      | String b u =>
          x ← nibble_value a; y ← nibble_value b;
          String (ascii_of_N (16 * x + y)) <$> fromhex u
      | "" => None
      end
  end.

Lemma fromhex_hex s : fromhex (hex s) = Some s.
Proof.
  induction s as [|c s IH]; [done|].
  destruct c as [[] [] [] [] [] [] [] []]; cbn -[hex fromhex]; cbn [fromhex]; cbn;
    by rewrite IH.
Qed.
#[export] Instance hex_inj : Inj (=) (=) hex.
Proof.
  intros s t H. apply (f_equal fromhex) in H. rewrite !fromhex_hex in H. congruence.
Qed.
Lemma hex_nil s : hex s = "" → s = "".
Proof. by destruct s. Qed.
Lemma hex_ascii s : str_forall (λ c, (ord c <? 128)%N) (hex s) = true.
Proof.
  induction s as [|c s IH]; [done|]. simpl. rewrite IH.
  by destruct c as [[] [] [] [] [] [] [] []].
Qed.

(** ** Lines: [text.split(sep)] at a character *)
Fixpoint split_char (sep : ascii) (s : string) : list string :=
  match s with
  | "" => [""]
  | String c s =>
      if Ascii.eqb c sep then "" :: split_char sep s
      else match split_char sep s with
           | l :: ls => String c l :: ls
           | [] => [String c ""]
           end
  end.
Definition newline : ascii := "010"%char.
Definition no_char (sep : ascii) (s : string) : bool := str_forall (λ c, negb (Ascii.eqb c sep)) s.

Lemma split_char_nonempty sep s : split_char sep s ≠ [].
Proof.
  induction s as [|c s IH]; simpl; [done|]. destruct (Ascii.eqb c sep); [done|].
  by destruct (split_char sep s).
Qed.
Lemma split_char_app sep l s :
  no_char sep l = true → split_char sep (l +:+ String sep s) = l :: split_char sep s.
Proof.
  unfold no_char. induction l as [|c l IH]; intros Hl.
  - rewrite str_app_nil_l. simpl. by rewrite Ascii.eqb_refl.
  - rewrite str_app_cons. simpl in *. apply andb_true_iff in Hl as [Hc Hl].
    apply negb_true_iff in Hc. by rewrite Hc, IH.
Qed.
Lemma split_char_last sep l : no_char sep l = true → split_char sep l = [l].
Proof.
  unfold no_char. induction l as [|c l IH]; [done|]. simpl.
  intros [Hc%negb_true_iff Hl]%andb_true_iff. by rewrite Hc, IH.
Qed.

(** The concatenation of newline-terminated lines, and its lines. *)
Fixpoint join_lines (ls : list string) : string :=
  match ls with [] => "" | l :: ls => l +:+ String newline (join_lines ls) end.
Lemma join_lines_app ls1 ls2 : join_lines (ls1 ++ ls2) = join_lines ls1 +:+ join_lines ls2.
Proof.
  induction ls1 as [|l ls IH]; simpl; [done|]. by rewrite IH, str_app_assoc, str_app_cons.
Qed.
Lemma split_join_lines ls tail :
  Forall (λ l, no_char newline l = true) ls → no_char newline tail = true →
  split_char newline (join_lines ls +:+ tail) = ls ++ [tail].
Proof.
  intros Hls Ht. induction Hls as [|l ls Hl _ IH]; simpl; [by apply split_char_last|].
  by rewrite str_app_assoc, str_app_cons, split_char_app, IH.
Qed.

(** [hashlib.sha256(data).digest()], a function of the bytes. *)
Class Sha256 := sha256 : string → string.
Class Sha256Laws (Sh : Sha256) : Prop := sha256_length : ∀ s, String.length (sha256 s) = 32.

(** What the language takes from the Unicode database: [str.lower],
    [str.casefold] and [str.isdigit].  On ASCII text they are the ASCII ones. *)
Class Unicode := {
  lower : string → string;
  casefold : string → string;
  isdigit : string → bool;
}.

(** Lower case in ASCII. *)
Definition ascii_lower (c : ascii) : ascii :=
  if (65 <=? ord c)%N && (ord c <=? 90)%N then ascii_of_N (ord c + 32) else c.
Fixpoint str_lower (s : string) : string :=
  match s with "" => "" | String c s => String (ascii_lower c) (str_lower s) end.

(** The reference database of the witnesses: ASCII only. *)
Definition plain_unicode : Unicode := {|
  lower := str_lower; casefold := str_lower;
  isdigit := λ s, negb (String.eqb s "") && str_forall (λ c, (48 <=? ord c)%N && (ord c <=? 57)%N) s |}.
Class UnicodeLaws (U : Unicode) : Prop := {
  lower_ascii : ∀ s, str_forall (λ c, (ord c <? 128)%N) s = true → lower s = str_lower s;
}.
#[export] Instance plain_unicode_laws : UnicodeLaws plain_unicode.
Proof. done. Qed.
