(* ===== verification/Canonical.v ===== *)
(** * Canonical JSON ([src/src/ract/canonical.py])

    The serialiser [dumps_jcs] over a heap of Python objects (identity matters:
    the cycle guard keeps a set of object ids), the JSON reader [json.loads] as
    [loads_jcs] uses it, and [is_canonical].  The pure encoder [encode] on
    finite JSON trees is the specification [dumps_jcs] refines. *)

From S2P Require Import Prelude.
From stdpp Require Import pretty.
From Stdlib Require Import Floats.SpecFloat.

(** What the module takes from CPython's runtime: [unicodedata.normalize] at
    NFC, [repr] of a float and [float] of a number literal. *)
Class Runtime := {
  nfc : string → string;
  float_repr : spec_float → string;
  float_of : string → spec_float;
}.

(** Documented facts of NFC: it is idempotent and leaves ASCII text alone. *)
Class RuntimeLaws (R : Runtime) : Prop := {
  nfc_idemp : ∀ s, nfc (nfc s) = nfc s;
  nfc_ascii : ∀ s, str_forall (λ c, N.ltb (ord c) 128) s = true → nfc s = s;
}.

(** The reference runtime of the witnesses: text that is already normal. *)
Definition plain_runtime : Runtime := {|
  nfc := λ s, s; float_repr := λ _, "0.5"; float_of := λ _, S754_zero false |}.
#[export] Instance plain_runtime_laws : RuntimeLaws plain_runtime.
Proof. by split. Qed.

(** JSON values as [json.loads] returns them: an object is a dict. *)
Inductive json : Type :=
| JNull
| JBool (b : bool)
| JInt (n : Z)
| JFloat (f : spec_float)
| JStr (s : string)
| JArr (l : list json)
| JObj (kvs : list (string * json)).

(** The errors of the module: [CanonicalJSONError] with its causes, the
    [ValueError] of [int()] on an exponent, and that of [str()] on an integer
    of too many digits. *)
Inductive jcs_error : Type :=
| NotFinite
| NonStringKey (type_name : string)
| DuplicateKey (key : string)
| SupplementaryKey (key : string)
| Cycle (id : N)
| Unsupported (type_name : string)
| BadExponent (text : string)
| IntTooLong
| OutOfFuel.

(** ** Numbers *)
Definition _INT_SAFE_MAX : Z := Z.shiftl 1 53 - 1.
Definition _INT_SAFE_MIN : Z := - _INT_SAFE_MAX.

(** [sys.int_info.default_max_str_digits]: [str] of an integer raises a
    [ValueError] past it (CPython from 3.11 on; the sign is not a digit). *)
Definition default_max_str_digits : Z := 4300.
Definition int_digits (value : Z) : Z := Z.of_nat (String.length (pretty (Z.abs value))).

Definition _encode_int (value : Z) : result jcs_error string :=
  if (int_digits value <=? default_max_str_digits)%Z then Ok (pretty value) else Err IntTooLong.

(** [value.is_integer()] and [int(value)] of a finite float. *)
Definition float_as_int (f : spec_float) : option Z :=
  match f with
  | S754_zero _ => Some 0%Z
  | S754_finite s m e =>
      let sgn := if s then (-1)%Z else 1%Z in
      if (0 <=? e)%Z then Some (sgn * (Z.pos m * 2 ^ e))%Z
      else if (Z.pos m mod 2 ^ (- e) =? 0)%Z
           then Some (sgn * (Z.pos m / 2 ^ (- e)))%Z else None
  | _ => None
  end.

Definition is_digit (c : ascii) : bool := (48 <=? ord c)%N && (ord c <=? 57)%N.

(** Horner value of a digit string. *)
Fixpoint digits_value (acc : Z) (s : string) : Z :=
  match s with
  | "" => acc
  | String c s => digits_value (10 * acc + Z.of_N (ord c - 48)) s
  end.

(** [int(text)] of the exponent part of a [repr]: a sign and digits. *)
Definition int_of_exponent (s : string) : option Z :=
  let digits t := if str_forall is_digit t && negb (String.eqb t "")
                  then Some (digits_value 0 t) else None in
  match s with
  | String "-" t => Z.opp <$> digits t
  | String "+" t => digits t
  | _ => digits s
  end.

(** [text.partition(sep)] at a character: the part before, and the part after
    when the character is there. *)
Fixpoint partition_at (sep : ascii) (s : string) : string * option string :=
  match s with
  | "" => ("", None)
  | String c s =>
      if Ascii.eqb c sep then ("", Some s)
      else let '(a, b) := partition_at sep s in (String c a, b)
  end.

Fixpoint zeros (n : nat) : string :=
  match n with O => "" | S n => String "0" (zeros n) end.

(** [s.rstrip(c)] *)
Fixpoint rstrip_char (c : ascii) (s : string) : string :=
  match s with
  | "" => ""
  | String a s =>
      let r := rstrip_char c s in
      if String.eqb r "" && Ascii.eqb a c then "" else String a r
  end.

Definition contains_char (c : ascii) (s : string) : bool := str_exists (Ascii.eqb c) s.

Definition fixed_form (digits : string) (k : Z) : string :=
  let n := Z.of_nat (String.length digits) in
  let fixed :=
    if (0 <=? k)%Z then
      if (n <=? k + 1)%Z then digits +:+ zeros (Z.to_nat (k + 1 - n))
      else String.substring 0 (Z.to_nat (k + 1)) digits +:+ "." +:+
           String.substring (Z.to_nat (k + 1)) (Z.to_nat (n - (k + 1))) digits
    else "0." +:+ zeros (Z.to_nat (- k - 1)) +:+ digits in
  let fixed := if contains_char "." fixed
               then rstrip_char "." (rstrip_char "0" fixed) else fixed in
  if String.eqb fixed "" || String.eqb fixed "-" then "0" else fixed.

(** [_js_number_repr] on the [repr] of the value. *)
Definition _js_number_repr (text : string) : result jcs_error string :=
  if negb (contains_char "e" text) && negb (contains_char "E" text) then Ok text
  else
    let '(sign_str, body) :=
      match text with String "-" b => ("-", b) | _ => ("", text) end in
    let '(mantissa, exp_part) := partition_at "e" (str_lower body) in
    let exp_part := default "" exp_part in
    match int_of_exponent exp_part with
    | None => Err (BadExponent exp_part)
    | Some exp =>
        let '(int_part, frac) := partition_at "." mantissa in
        let digits := int_part +:+ default "" frac in
        let k := (exp + Z.of_nat (String.length int_part) - 1)%Z in
        if (-6 <=? k)%Z && (k <? 21)%Z then Ok (sign_str +:+ fixed_form digits k)
        else Ok (sign_str +:+ mantissa +:+ "e" +:+
                 (if (0 <=? exp)%Z then "+" else "-") +:+ pretty (Z.abs exp))
    end.

(** ** Strings *)
Notation dquote := ("034"%char : ascii).

Definition hex_digit (n : N) : ascii :=
  if (n <? 10)%N then ascii_of_N (48 + n) else ascii_of_N (87 + n).

(** One character of [_encode_string]: [_ESCAPE_MAP], the other controls as
    a four-digit escape, everything else as it is. *)
Definition escape_char (c : ascii) (rest : string) : string :=
  let cp := ord c in
  if (cp =? 0x22)%N then String "\" (String dquote rest)
  else if (cp =? 0x5C)%N then String "\" (String "\" rest)
  else if (cp =? 0x08)%N then String "\" (String "b" rest)
  else if (cp =? 0x0C)%N then String "\" (String "f" rest)
  else if (cp =? 0x0A)%N then String "\" (String "n" rest)
  else if (cp =? 0x0D)%N then String "\" (String "r" rest)
  else if (cp =? 0x09)%N then String "\" (String "t" rest)
  else if (cp <? 0x20)%N then
    String "\" (String "u" (String "0" (String "0"
      (String (hex_digit (cp / 16)) (String (hex_digit (cp mod 16)) rest)))))
  else String c rest.

Fixpoint escape_body (s : string) : string :=
  match s with "" => "" | String c s => escape_char c (escape_body s) end.

(** A key of the basic plane only: in UTF-8, no byte from 0xF0 up. *)
Definition _check_bmp_only (key : string) : bool :=
  str_forall (λ c, (ord c <? 0xF0)%N) key.

Definition key_le {A} (a b : string * A) : bool := String.leb a.1 b.1.

(** ** The object graph

    A value is a scalar or a reference; the heap says what object has the
    id: one with a [__json_snapshot__] method (and what it returns), a list
    or tuple, a dict (its keys may be of any type), or another type. *)
Inductive pyvalue : Type :=
| VNone
| VBool (b : bool)
| VInt (n : Z)
| VFloat (f : spec_float)
| VStr (s : string)
| VRef (id : N).

Inductive pykey : Type :=
| KStr (s : string)
| KOther (type_name : string).

Inductive pyobj : Type :=
| OSnapshot (snapshot : pyvalue)
| OSeq (items : list pyvalue)
| ODict (items : list (pykey * pyvalue))
| OOther (type_name : string).

Notation heap := (gmap N pyobj).

Section encoder.
Context {R : Runtime}.

Definition _encode_string (value : string) : string :=
  String dquote (escape_body (nfc value) +:+ String dquote "").

Definition _encode_float (value : spec_float) : result jcs_error string :=
  match value with
  | S754_nan | S754_infinity _ => Err NotFinite
  | S754_zero _ => Ok "0"
  | S754_finite _ _ _ =>
      match float_as_int value with
      | Some n => if (_INT_SAFE_MIN <=? n)%Z && (n <=? _INT_SAFE_MAX)%Z
                  then Ok (pretty n) else _js_number_repr (float_repr value)
      | None => _js_number_repr (float_repr value)
      end
  end.

(** The key loop of [_encode_dict]: NFC, and no two equal normal forms. *)
Fixpoint normalise_keys {A} (seen_keys : list string) (items : list (pykey * A))
    : result jcs_error (list (string * A)) :=
  match items with
  | [] => Ok []
  | (KOther t, _) :: _ => Err (NonStringKey t)
  | (KStr raw_key, item) :: items =>
      let key := nfc raw_key in
      if bool_decide (key ∈ seen_keys) then Err (DuplicateKey key)
      else rest ← normalise_keys (key :: seen_keys) items; Ok ((key, item) :: rest)
  end.

Fixpoint check_keys {A} (normalised : list (string * A)) : result jcs_error unit :=
  match normalised with
  | [] => Ok ()
  | (key, _) :: rest =>
      if _check_bmp_only key then check_keys rest else Err (SupplementaryKey key)
  end.

(** [_encode_dict]: the member texts in key order, with [walk] for a value. *)
Definition _encode_dict {A} (walk : A → result jcs_error string)
    (items : list (pykey * A)) : result jcs_error string :=
  normalised ← normalise_keys [] items;
  _ ← check_keys normalised;
  members ← mapM (λ '(key, item),
              v ← walk item; Ok (_encode_string key +:+ ":" +:+ v))
            (py_sorted key_le normalised);
  Ok ("{" +:+ str_join "," members +:+ "}").

Definition _encode_seq {A} (walk : A → result jcs_error string)
    (items : list A) : result jcs_error string :=
  parts ← mapM walk items;
  Ok ("[" +:+ str_join "," parts +:+ "]").

(** [_walk]; [fuel] bounds the depth of the recursion. *)
Fixpoint _walk (fuel : nat) (h : heap) (value : pyvalue) (seen : gset N)
    : result jcs_error string :=
  match value with
  | VNone => Ok "null"
  | VBool b => Ok (if b then "true" else "false")
  | VInt n => _encode_int n
  | VFloat f => _encode_float f
  | VStr s => Ok (_encode_string s)
  | VRef vid =>
      match h !! vid with
      | None => Err (Unsupported "dangling reference")
      | Some (OOther t) => Err (Unsupported t)
      | Some o =>
          if decide (vid ∈ seen) then Err (Cycle vid)
          else match fuel with
               | O => Err OutOfFuel
               | S fuel =>
                   let walk v := _walk fuel h v ({[vid]} ∪ seen) in
                   match o with
                   | OSnapshot v => walk v
                   | OSeq items => _encode_seq walk items
                   | ODict items => _encode_dict walk items
                   | OOther t => Err (Unsupported t)
                   end
               end
      end
  end.

(** [dumps_jcs]: the guard admits each object once on a path, so a depth of
    the number of objects is enough (proved below). *)
Definition dumps_jcs (h : heap) (value : pyvalue) : result jcs_error string :=
  _walk (size (dom h)) h value ∅.

(** *** The specification: the encoding of a finite JSON tree *)
Fixpoint encode (v : json) : result jcs_error string :=
  match v with
  | JNull => Ok "null"
  | JBool b => Ok (if b then "true" else "false")
  | JInt n => _encode_int n
  | JFloat f => _encode_float f
  | JStr s => Ok (_encode_string s)
  | JArr l => _encode_seq encode l
  | JObj kvs => _encode_dict id ((λ kv, (KStr kv.1, encode kv.2)) <$> kvs)
  end.

(** The finite tree a value stands for, if its graph unfolds in [n] levels. *)
Fixpoint reify (n : nat) (h : heap) (v : pyvalue) : option json :=
  match v with
  | VNone => Some JNull
  | VBool b => Some (JBool b)
  | VInt z => Some (JInt z)
  | VFloat f => Some (JFloat f)
  | VStr s => Some (JStr s)
  | VRef id =>
      match n, h !! id with
      | S n, Some (OSnapshot v) => reify n h v
      | S n, Some (OSeq items) => JArr <$> mapM (reify n h) items
      | S n, Some (ODict items) =>
          JObj <$> mapM (λ kx, match kx.1 with
                               | KStr s => (s,.) <$> reify n h kx.2
                               | KOther _ => None end) items
      | _, _ => None
      end
  end.

(** What a reader gets back: the members in key order, the text normal. *)
Fixpoint canon (v : json) : json :=
  match v with
  | JStr s => JStr (nfc s)
  | JArr l => JArr (canon <$> l)
  | JObj kvs => JObj (py_sorted key_le ((λ kv, (nfc kv.1, canon kv.2)) <$> kvs))
  | v => v
  end.

(** No float anywhere. *)
Fixpoint no_float (v : json) : bool :=
  match v with
  | JFloat _ => false
  | JArr l => forallb no_float l
  | JObj kvs => forallb (λ kv, no_float kv.2) kvs
  | _ => true
  end.
End encoder.

(** ** Reading: UTF-8 and [json.loads] *)
Definition byte_in (lo hi : N) (c : ascii) : bool := (lo <=? ord c)%N && (ord c <=? hi)%N.
Definition continuation (c : ascii) : bool := byte_in 0x80 0xBF c.

(** [data.decode("utf-8")], strict: whether the bytes decode. *)
Fixpoint utf8_valid (s : string) : bool :=
  match s with
  | "" => true
  | String a s1 =>
      if byte_in 0 0x7F a then utf8_valid s1
      else match s1 with
      | "" => false
      | String b s2 =>
          if byte_in 0xC2 0xDF a then continuation b && utf8_valid s2
          else match s2 with
          | "" => false
          | String c s3 =>
              if byte_in 0xE0 0xEF a then
                (if (ord a =? 0xE0)%N then byte_in 0xA0 0xBF b
                 else if (ord a =? 0xED)%N then byte_in 0x80 0x9F b else continuation b)
                && continuation c && utf8_valid s3
              else match s3 with
              | "" => false
              | String d s4 =>
                  byte_in 0xF0 0xF4 a &&
                  (if (ord a =? 0xF0)%N then byte_in 0x90 0xBF b
                   else if (ord a =? 0xF4)%N then byte_in 0x80 0x8F b else continuation b)
                  && continuation c && continuation d && utf8_valid s4
              end
          end
      end
  end.

Definition is_ws (c : ascii) : bool :=
  Ascii.eqb c " " || Ascii.eqb c "009" || Ascii.eqb c "010" || Ascii.eqb c "013".

Fixpoint skip_ws (s : string) : string :=
  match s with String c t => if is_ws c then skip_ws t else s | "" => "" end.

(** The digits at the head of [s], and what follows. *)
Fixpoint span_digits (s : string) : string * string :=
  match s with
  | String c t => if is_digit c then let '(d, r) := span_digits t in (String c d, r)
                  else ("", s)
  | "" => ("", "")
  end.

Definition hex_value (c : ascii) : option N :=
  if byte_in 48 57 c then Some (ord c - 48)%N
  else if byte_in 97 102 c then Some (ord c - 87)%N
  else if byte_in 65 70 c then Some (ord c - 55)%N else None.

Definition hex4 (a b c d : ascii) : option N :=
  x ← hex_value a; y ← hex_value b; z ← hex_value c; w ← hex_value d;
  Some (4096 * x + 256 * y + 16 * z + w)%N.

(** A code point in UTF-8. *)
Definition utf8_encode (cp : N) : string :=
  let cont k := ascii_of_N (0x80 + (N.shiftr cp k) mod 64) in
  if (cp <? 0x80)%N then String (ascii_of_N cp) ""
  else if (cp <? 0x800)%N then String (ascii_of_N (0xC0 + N.shiftr cp 6)) (String (cont 0%N) "")
  else if (cp <? 0x10000)%N then
    String (ascii_of_N (0xE0 + N.shiftr cp 12)) (String (cont 6%N) (String (cont 0%N) ""))
  else String (ascii_of_N (0xF0 + N.shiftr cp 18))
         (String (cont 12%N) (String (cont 6%N) (String (cont 0%N) ""))).

Definition is_high (cp : N) : bool := (0xD800 <=? cp)%N && (cp <=? 0xDBFF)%N.
Definition is_low (cp : N) : bool := (0xDC00 <=? cp)%N && (cp <=? 0xDFFF)%N.

Definition simple_escape (c : ascii) : option ascii :=
  if Ascii.eqb c dquote then Some dquote
  else if Ascii.eqb c "\" then Some "\"%char
  else if Ascii.eqb c "/" then Some "/"%char
  else if Ascii.eqb c "b" then Some "008"%char
  else if Ascii.eqb c "f" then Some "012"%char
  else if Ascii.eqb c "n" then Some "010"%char
  else if Ascii.eqb c "r" then Some "013"%char
  else if Ascii.eqb c "t" then Some "009"%char else None.

(** The body of a string after its opening quote: the text and what follows
    the closing quote.  Strict mode: no raw control character.  An escaped
    lone surrogate has no UTF-8 form and is refused by the model. *)
Fixpoint scan_string (s : string) : option (string * string) :=
  match s with
  | "" => None
  | String c t =>
      if Ascii.eqb c dquote then Some ("", t)
      else if (ord c <? 0x20)%N then None
      else if Ascii.eqb c "\" then
        match t with
        | "" => None
        | String e t1 =>
            if Ascii.eqb e "u" then
              match t1 with
              | String x1 (String x2 (String x3 (String x4 t2))) =>
                  cp ← hex4 x1 x2 x3 x4;
                  if is_high cp then
                    match t2 with
                    | String b (String u (String y1 (String y2 (String y3 (String y4 t3))))) =>
                        if Ascii.eqb b "\" && Ascii.eqb u "u" then
                          lo ← hex4 y1 y2 y3 y4;
                          if is_low lo then
                            '(body, r) ← scan_string t3;
                            Some (utf8_encode (0x10000 + (cp - 0xD800) * 1024 + (lo - 0xDC00))
                                    +:+ body, r)
                          else None
                        else None
                    | _ => None
                    end
                  else if is_low cp then None
                  else '(body, r) ← scan_string t2; Some (utf8_encode cp +:+ body, r)
              | _ => None
              end
            else
              ch ← simple_escape e;
              '(body, r) ← scan_string t1; Some (String ch body, r)
        end
      else '(body, r) ← scan_string t; Some (String c body, r)
  end.

(** [NUMBER_RE], part by part: an integer without leading zeros, an optional
    fraction and an optional exponent. *)
Definition scan_int_part (s : string) : string * string :=
  match s with String "0" t => ("0", t) | _ => span_digits s end.
Definition scan_frac (s : string) : string * string :=
  match s with
  | String "." t =>
      let '(d, r) := span_digits t in
      if String.eqb d "" then ("", s) else ("." +:+ d, r)
  | _ => ("", s)
  end.
Definition scan_expo (s : string) : string * string :=
  match s with
  | String c t =>
      if Ascii.eqb c "e" || Ascii.eqb c "E" then
        let '(sg, t1) := match t with
                         | String "+" r => ("+", r)
                         | String "-" r => ("-", r)
                         | _ => ("", t)
                         end in
        let '(d, r) := span_digits t1 in
        if String.eqb d "" then ("", s) else (String c (sg +:+ d), r)
      else ("", s)
  | "" => ("", s)
  end.

Section decoder.
Context {R : Runtime}.

Definition scan_unsigned (neg : bool) (s1 : string) : option (json * string) :=
  let '(intp, s2) := scan_int_part s1 in
  if String.eqb intp "" then None
  else
    let '(frac, s3) := scan_frac s2 in
    let '(expo, s4) := scan_expo s3 in
    if String.eqb frac "" && String.eqb expo "" then
      let n := digits_value 0 intp in Some (JInt (if neg then - n else n), s4)
    else Some (JFloat (float_of ((if neg then "-" else "") +:+ intp +:+ frac +:+ expo)), s4).

Definition scan_number (s : string) : option (json * string) :=
  match s with String "-" t => scan_unsigned true t | _ => scan_unsigned false s end.

Definition scan_literal (lit : string) (v : json) (s : string) : option (json * string) :=
  r ← str_drop_prefix lit s; Some (v, r).

(** The literals: [null], [true], [false], [NaN], the infinities, or a number. *)
Definition scan_scalar (s : string) : option (json * string) :=
  match s with
  | "" => None
  | String c _ =>
      if Ascii.eqb c "n" then scan_literal "null" JNull s
      else if Ascii.eqb c "t" then scan_literal "true" (JBool true) s
      else if Ascii.eqb c "f" then scan_literal "false" (JBool false) s
      else if Ascii.eqb c "N" then scan_literal "NaN" (JFloat S754_nan) s
      else if Ascii.eqb c "I" then scan_literal "Infinity" (JFloat (S754_infinity false)) s
      else if startswith s "-Infinity"
           then scan_literal "-Infinity" (JFloat (S754_infinity true)) s
      else scan_number s
  end.

(** [scan_once], with the loops of the object and array readers.  Each call
    reads at least one character, so the length of the text is fuel enough
    (proved below). *)
Fixpoint scan_once (fuel : nat) (s : string) : option (json * string) :=
  match fuel with
  | O => None
  | S fuel =>
      match s with
      | "" => None
      | String c t =>
          if Ascii.eqb c dquote then
            '(str, r) ← scan_string t; Some (JStr str, r)
          else if Ascii.eqb c "{" then
            match skip_ws t with
            | String "}" r => Some (JObj [], r)
            | t' => '(kvs, r) ← scan_members fuel t'; Some (JObj (Dict.of_pairs kvs), r)
            end
          else if Ascii.eqb c "[" then
            match skip_ws t with
            | String "]" r => Some (JArr [], r)
            | t' => '(vs, r) ← scan_items fuel t'; Some (JArr vs, r)
            end
          else scan_scalar s
      end
  end
with scan_members (fuel : nat) (s : string) : option (list (string * json) * string) :=
  match fuel with
  | O => None
  | S fuel =>
      match s with
      | String c t =>
          if Ascii.eqb c dquote then
            '(key, r) ← scan_string t;
            match skip_ws r with
            | String ":" r1 =>
                '(v, r2) ← scan_once fuel (skip_ws r1);
                match skip_ws r2 with
                | String "," r3 =>
                    '(kvs, r4) ← scan_members fuel (skip_ws r3); Some ((key, v) :: kvs, r4)
                | String "}" r3 => Some ([(key, v)], r3)
                | _ => None
                end
            | _ => None
            end
          else None
      | "" => None
      end
  end
with scan_items (fuel : nat) (s : string) : option (list json * string) :=
  match fuel with
  | O => None
  | S fuel =>
      '(v, r) ← scan_once fuel s;
      match skip_ws r with
      | String "," r1 => '(vs, r2) ← scan_items fuel (skip_ws r1); Some (v :: vs, r2)
      | String "]" r1 => Some ([v], r1)
      | _ => None
      end
  end.

(** [json.loads] of a [str]; [None] is [JSONDecodeError]. *)
Definition json_loads (s : string) : option json :=
  '(v, r) ← scan_once (2 * S (String.length s)) (skip_ws s);
  if String.eqb (skip_ws r) "" then Some v else None.

(** [loads_jcs] of bytes; [None] is a [UnicodeDecodeError] or a [JSONDecodeError]. *)
Definition loads_jcs (data : string) : option json :=
  if utf8_valid data then json_loads data else None.

Definition is_canonical (data : string) : bool :=
  match loads_jcs data with
  | Some parsed =>
      match encode parsed with Ok s => String.eqb s data | Err _ => false end
  | None => false
  end.
End decoder.

(** What [_encode_int] writes is the decimal text, where it writes one; it
    does below the limit. *)
Lemma encode_int_Ok n s :
  _encode_int n = Ok s ↔ s = pretty n ∧ (int_digits n ≤ default_max_str_digits)%Z.
Proof.
  unfold _encode_int. destruct (Z.leb_spec (int_digits n) default_max_str_digits);
    split; [by intros [= <-]|by intros [-> _]|done|intros [_ ?]; lia].
Qed.

(** ** The walk terminates and refines the tree encoding *)
Section walk_proofs.
Context {R : Runtime}.

Lemma normalise_keys_elem {A} seen (items : list (pykey * A)) l k x :
  normalise_keys seen items = Ok l → (k, x) ∈ l → ∃ raw, (KStr raw, x) ∈ items.
Proof.
  revert seen l. induction items as [|[[raw|t] y] items IH]; intros seen l; simpl; [|..].
  - intros [= <-]. set_solver.
  - case_bool_decide as Hd; [done|]. intros H Hk.
    destruct (normalise_keys _ items) eqn:E; simplify_eq/=.
    apply elem_of_cons in Hk as [?|?]; simplify_eq; [exists raw; set_solver|].
    edestruct IH as [raw' ?]; [done..|]. exists raw'. set_solver.
  - done.
Qed.

Lemma normalise_keys_fuel {A} seen (items : list (pykey * A)) :
  normalise_keys seen items ≠ Err OutOfFuel.
Proof.
  revert seen. induction items as [|[[raw|t] y] items IH]; intros seen; simpl; try done.
  case_bool_decide; [done|]. destruct (normalise_keys _ items) eqn:E; simpl; [done|].
  intros [= ->]. by eapply IH.
Qed.

Lemma check_keys_fuel {A} (l : list (string * A)) : check_keys l ≠ Err OutOfFuel.
Proof. induction l as [|[k x] l IH]; simpl; [done|]. by destruct (_check_bmp_only k). Qed.

Lemma encode_seq_err {A} (w : A → result jcs_error string) items e :
  _encode_seq w items = Err e → ∃ x, x ∈ items ∧ w x = Err e.
Proof.
  unfold _encode_seq. destruct (mapM w items) eqn:E; simpl; [done|].
  intros [= ->]. by apply mapM_Err.
Qed.

Lemma encode_dict_fuel {A} (w : A → result jcs_error string) items :
  _encode_dict w items = Err OutOfFuel → ∃ k x, (k, x) ∈ items ∧ w x = Err OutOfFuel.
Proof.
  unfold _encode_dict. destruct (normalise_keys [] items) as [l|] eqn:El; simpl.
  2: { intros [= ->]. by apply normalise_keys_fuel in El. }
  destruct (check_keys l) eqn:Ec; simpl.
  2: { intros [= ->]. by apply check_keys_fuel in Ec. }
  destruct (mapM _ (py_sorted key_le l)) eqn:Em; simpl; [done|]. intros [= ->].
  apply mapM_Err in Em as ([k x] & Hx & Hw). apply elem_of_py_sorted in Hx.
  destruct (w x) eqn:Ew; simplify_eq/=.
  destruct (normalise_keys_elem _ _ _ _ _ El Hx) as [raw ?]. eauto.
Qed.

Lemma js_number_repr_fuel text : _js_number_repr text ≠ Err OutOfFuel.
Proof. unfold _js_number_repr. repeat case_match; done. Qed.
Lemma encode_float_fuel f : _encode_float f ≠ Err OutOfFuel.
Proof.
  destruct f; simpl; try done. repeat case_match; try done; apply js_number_repr_fuel.
Qed.

Lemma encode_int_fuel n : _encode_int n ≠ Err OutOfFuel.
Proof. unfold _encode_int. by case_match. Qed.

(** The guard admits a new id at every level, so the ids left bound the depth. *)
Lemma walk_fuel h fuel v seen :
  seen ⊆ dom h → size (dom h) ≤ fuel + size seen →
  _walk fuel h v seen ≠ Err OutOfFuel.
Proof.
  revert v seen. induction fuel as [|fuel IH]; intros v seen Hsub Hsize;
    destruct v as [|b|n|f|s|vid]; try (by destruct b); try done;
    try apply encode_float_fuel; try apply encode_int_fuel; simpl.
  all: destruct (h !! vid) as [o|] eqn:Ho; [|done].
  all: assert (vid ∈ dom h) as Hd by (apply elem_of_dom; eauto).
  all: destruct (decide (vid ∈ seen)) as [|Hn]; [by destruct o|].
  - assert (size ({[vid]} ∪ seen) ≤ size (dom h)) as Hs.
    { apply subseteq_size. set_solver. }
    rewrite size_union, size_singleton in Hs by set_solver. lia.
  - assert (∀ v, _walk fuel h v ({[vid]} ∪ seen) ≠ Err OutOfFuel) as HIH.
    { intros v. apply IH; [set_solver|].
      rewrite size_union, size_singleton by set_solver. lia. }
    destruct o as [v|items|items|t]; [done|..|done]; intros H.
    + apply encode_seq_err in H as (x & _ & Hx). by apply HIH in Hx.
    + apply encode_dict_fuel in H as (k & x & _ & Hx). by apply HIH in Hx.
Qed.

Lemma normalise_keys_rel {A B} (Q : A → B → Prop) (items : list (pykey * A)) items' seen :
  Forall2 (λ i i', i.1 = i'.1 ∧ Q i.2 i'.2) items items' →
  match normalise_keys seen items, normalise_keys seen items' with
  | Ok l, Ok l' => Forall2 (λ i i', i.1 = i'.1 ∧ Q i.2 i'.2) l l'
  | Err e, Err e' => e = e'
  | _, _ => False
  end.
Proof.
  intros H. revert seen.
  induction H as [|[k x] [k' x'] items items' [Hk Hx] Hr IH]; intros seen;
    simplify_eq/=; [done|].
  destruct k' as [raw|t]; simpl; [|done]. case_bool_decide; [done|].
  specialize (IH (nfc raw :: seen)).
  destruct (normalise_keys _ items), (normalise_keys _ items'); simplify_eq/=; try done.
  by constructor.
Qed.

Lemma check_keys_rel {A B} (l : list (string * A)) (l' : list (string * B)) :
  l.*1 = l'.*1 → check_keys l = check_keys l'.
Proof.
  revert l'. induction l as [|[k x] l IH]; intros [|[k' x'] l']; intros; simplify_eq/=;
    [done|]. destruct (_check_bmp_only k'); [|done]. by apply IH.
Qed.

(** Two dicts with the same keys and equal value encodings encode alike. *)
Lemma encode_dict_rel {A B} (f : A → result jcs_error string)
    (g : B → result jcs_error string) items items' :
  Forall2 (λ i i', i.1 = i'.1 ∧ f i.2 = g i'.2) items items' →
  _encode_dict f items = _encode_dict g items'.
Proof.
  intros H. unfold _encode_dict.
  pose proof (normalise_keys_rel (λ x y, f x = g y) _ _ [] H) as Hn.
  destruct (normalise_keys [] items) as [l|], (normalise_keys [] items') as [l'|];
    simplify_eq/=; try done.
  rewrite (check_keys_rel l l').
  2: { clear H. induction Hn as [|[??] [??] ?? [??] ? IH]; simplify_eq/=; [done|].
       by f_equal. }
  destruct (check_keys l'); simpl; [|done].
  f_equal. apply mapM_ext_rel. eapply Forall2_impl.
  - eapply (py_sorted_rel key_le key_le); [|exact Hn].
    intros [??] [??] [??] [??] [? _] [? _]. unfold key_le. simplify_eq/=. done.
  - intros [k x] [k' x'] [? Hxy]. simplify_eq/=. by rewrite Hxy.
Qed.


Lemma option_mapM_Forall2 {A B} (f : A → option B) l k :
  mapM f l = Some k ↔ Forall2 (λ x y, f x = Some y) l k.
Proof. apply mapM_Some. Qed.

Lemma reify_mono n h v j : reify n h v = Some j → reify (S n) h v = Some j.
Proof.
  revert v j. induction n as [|n IH]; intros v j; destruct v; try done.
  cbn [reify]. destruct (h !! id) as [[v|items|items|t]|]; try done.
  - by apply IH.
  - intros (l & Hl%mapM_Some & ->)%fmap_Some. apply fmap_Some. exists l. split; [|done].
    apply mapM_Some. eapply Forall2_impl; [done|]. intros. by apply IH.
  - intros (l & Hl%mapM_Some & ->)%fmap_Some. apply fmap_Some. exists l. split; [|done].
    apply mapM_Some. eapply Forall2_impl; [done|].
    intros [[k|t] x] y; [|done]. cbn. rewrite !fmap_Some. intros (z & Hz & ->).
    exists z. split; [by apply IH|done].
Qed.

Lemma reify_le n m h v j : n ≤ m → reify n h v = Some j → reify m h v = Some j.
Proof. induction 1; [done|]. intros. apply reify_mono. auto. Qed.

(** A value's least unfolding level. *)
Lemma reify_least n h v j :
  reify n h v = Some j →
  ∃ m, m ≤ n ∧ reify m h v = Some j ∧ ∀ k, k < m → reify k h v = None.
Proof.
  induction n as [|n IH]; intros H; [exists 0; split_and!; [lia|done|lia]|].
  destruct (reify n h v) as [j'|] eqn:E.
  - assert (j' = j) as -> by (apply reify_mono in E; congruence).
    destruct IH as (m & ? & ? & ?); [done|]. exists m. split_and!; [lia|done|done].
  - exists (S n). split_and!; [lia|done|]. intros k Hk.
    destruct (reify k h v) eqn:E'; [|done].
    apply (reify_le k n) in E'; [congruence|lia].
Qed.

(** On a value that unfolds to a tree the walk meets no cycle and writes the
    tree's encoding. *)
Lemma walk_encode n h fuel v seen j :
  reify n h v = Some j →
  seen ⊆ dom h → size (dom h) ≤ fuel + size seen →
  (∀ i k, i ∈ seen → k ≤ n → reify k h (VRef i) = None) →
  _walk fuel h v seen = encode j.
Proof.
  revert fuel v seen j. induction n as [n IH] using lt_wf_ind.
  intros fuel v seen j Hr Hsub Hsize Hseen.
  destruct v as [|b|z|f|s|vid]; try (by destruct n, fuel; simplify_eq/=).
  destruct (reify_least _ _ _ _ Hr) as (m & Hm & Hrm & Hleast).
  destruct m as [|m]; [done|]. cbn [reify] in Hrm.
  destruct (h !! vid) as [o|] eqn:Ho; [|done].
  assert (vid ∈ dom h) as Hd by (apply elem_of_dom; eauto).
  destruct (decide (vid ∈ seen)) as [Hin|Hnin].
  { specialize (Hseen vid (S m) Hin Hm). cbn [reify] in Hseen.
    rewrite Ho in Hseen. destruct o; congruence. }
  assert (1 + size seen ≤ size (dom h)) as Hs.
  { trans (size ({[vid]} ∪ seen)).
    - rewrite size_union, size_singleton by set_solver. lia.
    - apply subseteq_size. set_solver. }
  destruct fuel as [|fuel]; [lia|].
  assert (∀ v j, reify m h v = Some j →
            _walk fuel h v ({[vid]} ∪ seen) = encode j) as HIH.
  { intros v' j' Hv'. eapply (IH m); [lia|done|set_solver|..].
    - rewrite size_union, size_singleton by set_solver. lia.
    - intros i k [->%elem_of_singleton|Hi]%elem_of_union Hk.
      + apply Hleast. lia.
      + apply Hseen; [done|lia]. }
  cbn [_walk]. rewrite Ho. destruct o as [v'|items|items|t]; [..|done];
    rewrite decide_False by done.
  - by apply HIH.
  - apply fmap_Some in Hrm as (l & Hl%mapM_Some & ->). cbn [encode].
    unfold _encode_seq. f_equal. apply mapM_ext_rel.
    eapply Forall2_impl; [exact Hl|]. intros x y Hxy. by apply HIH.
  - apply fmap_Some in Hrm as (l & Hl%mapM_Some & ->). cbn [encode].
    apply encode_dict_rel. apply Forall2_fmap_r. eapply Forall2_impl; [exact Hl|].
    intros [[k|t] x] y; [|done]. cbn. rewrite fmap_Some. intros (z & Hz & ->).
    split; [done|]. by apply HIH.
Qed.
End walk_proofs.

(** ** The encoding does not depend on the order of a dict *)
Section order_proofs.
Context {R : Runtime}.

(** The items of an all-string dict, and its normalised keys. *)
Definition str_items {A} (kvs : list (string * A)) : list (pykey * A) :=
  (λ kv, (KStr kv.1, kv.2)) <$> kvs.
Definition nfc_items {A} (kvs : list (string * A)) : list (string * A) :=
  (λ kv, (nfc kv.1, kv.2)) <$> kvs.

#[local] Arguments str_items : simpl never.
#[local] Arguments nfc_items : simpl never.
Lemma str_items_cons {A} k (x : A) kvs :
  str_items ((k, x) :: kvs) = (KStr k, x) :: str_items kvs.
Proof. done. Qed.
Lemma nfc_items_cons {A} k (x : A) kvs :
  nfc_items ((k, x) :: kvs) = (nfc k, x) :: nfc_items kvs.
Proof. done. Qed.

Lemma normalise_str_items {A} seen (kvs : list (string * A)) l :
  normalise_keys seen (str_items kvs) = Ok l ↔
  l = nfc_items kvs ∧ NoDup (Dict.keys l) ∧ ∀ k, k ∈ Dict.keys l → k ∉ seen.
Proof.
  revert seen l. induction kvs as [|[k x] kvs IH]; intros seen l.
  { split; [intros [= <-]|by intros (-> & _)].
    split_and!; [done|constructor|set_solver]. }
  rewrite nfc_items_cons, str_items_cons. simpl. case_bool_decide as Hk.
  { split; [done|]. intros (-> & _ & Hd). rewrite Dict.keys_cons in Hd. set_solver. }
  specialize (IH (nfc k :: seen)).
  destruct (normalise_keys _ (str_items kvs)) as [l'|e] eqn:E; simpl.
  - destruct (proj1 (IH l') eq_refl) as (-> & Hn & Hd).
    split; [intros [= <-]|by intros (-> & _)]. rewrite Dict.keys_cons, NoDup_cons.
    split_and!; [done|intros Hin; apply (Hd _ Hin); set_solver|done|].
    intros k' [->|Hk']%elem_of_cons; [done|]. specialize (Hd _ Hk'). set_solver.
  - split; [done|]. intros (-> & Hn & Hd). rewrite Dict.keys_cons in Hn, Hd.
    apply NoDup_cons in Hn as [Hn1 Hn2].
    enough (Err e = Ok (nfc_items kvs)) by done. apply IH. split_and!; [done..|].
    intros k' Hk' [->|Hs]%elem_of_cons; [done|].
    apply (Hd k'); [|done]. apply elem_of_cons. by right.
Qed.

Lemma check_keys_Ok {A} (l : list (string * A)) :
  check_keys l = Ok () ↔ Forall (λ k, _check_bmp_only k = true) (Dict.keys l).
Proof.
  induction l as [|[k x] l IH]; simpl; [by split|]. rewrite Forall_cons.
  destruct (_check_bmp_only k) eqn:E; [naive_solver|]. split; [done|]. by intros [? _].
Qed.

(** Sorting by distinct keys forgets the order of the list. *)
Lemma py_sorted_key_perm {A} (l l' : list (string * A)) :
  NoDup (Dict.keys l) → l ≡ₚ l' → py_sorted key_le l = py_sorted key_le l'.
Proof.
  intros Hn Hp.
  apply (StronglySorted_unique_strong (λ a b : string * A, key_le a b)).
  - intros [k1 x1] [k2 x2]. rewrite !elem_of_py_sorted. unfold key_le. simpl.
    intros H1 H2 Hle1%Is_true_true Hle2%Is_true_true.
    assert (k1 = k2) as -> by (by apply str_leb_antisym).
    rewrite <-Hp in H2. f_equal.
    pose proof (Dict.elem_get _ _ _ Hn H1). pose proof (Dict.elem_get _ _ _ Hn H2).
    congruence.
  - apply py_sorted_ssorted; unfold key_le; eauto using str_leb_total, str_leb_trans.
  - apply py_sorted_ssorted; unfold key_le; eauto using str_leb_total, str_leb_trans.
  - by rewrite !py_sorted_perm.
Qed.

Lemma encode_dict_Ok {A} (w : A → result jcs_error string) (kvs : list (string * A)) s :
  _encode_dict w (str_items kvs) = Ok s ↔
  NoDup (Dict.keys (nfc_items kvs)) ∧ Forall (λ k, _check_bmp_only k = true) (Dict.keys (nfc_items kvs)) ∧
  ∃ ms, Forall2 (λ kx m, ∃ t, w kx.2 = Ok t ∧ m = _encode_string kx.1 +:+ ":" +:+ t)
          (py_sorted key_le (nfc_items kvs)) ms ∧
        s = "{" +:+ str_join "," ms +:+ "}".
Proof.
  unfold _encode_dict. rewrite result_bind_ok. split.
  - intros (l & (-> & Hn & _)%normalise_str_items & H).
    apply result_bind_ok in H as ([] & Hc%check_keys_Ok & H).
    apply result_bind_ok in H as (ms & Hms%mapM_Ok & [= <-]).
    split_and!; [done..|]. exists ms. split; [|done].
    eapply Forall2_impl; [exact Hms|]. intros [k x] m (t & ? & [= <-])%result_bind_ok. eauto.
  - intros (Hn & Hc & ms & Hms & ->). exists (nfc_items kvs). split.
    { apply normalise_str_items. split_and!; [done..|set_solver]. }
    apply result_bind_ok. exists (). split; [by apply check_keys_Ok|].
    apply result_bind_ok. exists ms. split; [|done]. apply mapM_Ok.
    eapply Forall2_impl; [exact Hms|]. intros [k x] m (t & Ht & ->). cbn in *. by rewrite Ht.
Qed.

Lemma encode_dict_perm {A} (w : A → result jcs_error string) (kvs kvs' : list (string * A)) s :
  kvs ≡ₚ kvs' → _encode_dict w (str_items kvs) = Ok s → _encode_dict w (str_items kvs') = Ok s.
Proof.
  intros Hp. rewrite !encode_dict_Ok. intros (Hn & Hc & ms & Hms & ->).
  assert (nfc_items kvs ≡ₚ nfc_items kvs') as Hp' by (by apply fmap_Permutation).
  split_and!; [by rewrite <-Hp'|by rewrite <-Hp'|]. exists ms. split; [|done].
  by rewrite <-(py_sorted_key_perm _ _ Hn Hp').
Qed.

Lemma encode_obj kvs :
  encode (JObj kvs) = _encode_dict id (str_items ((λ kv, (kv.1, encode kv.2)) <$> kvs)).
Proof. cbn. unfold str_items. by rewrite <-list_fmap_compose. Qed.
End order_proofs.

(** Induction on JSON trees, through lists and objects. *)
Lemma json_ind' (P : json → Prop) :
  P JNull → (∀ b, P (JBool b)) → (∀ n, P (JInt n)) → (∀ f, P (JFloat f)) →
  (∀ s, P (JStr s)) → (∀ l, Forall P l → P (JArr l)) →
  (∀ kvs, Forall (λ kv, P kv.2) kvs → P (JObj kvs)) → ∀ v, P v.
Proof.
  intros Hn Hb Hi Hf Hs Ha Ho.
  fix IH 1. intros [|b|n|f|s|l|kvs]; [done|done|done|done|done|..].
  - apply Ha. induction l as [|v l IHl]; constructor; [apply IH|apply IHl].
  - apply Ho. induction kvs as [|[k v] kvs IHl]; constructor; [apply IH|apply IHl].
Qed.
