(* ===== verification/CanonicalRead.v ===== *)
(** * Reading back canonical JSON

    [json.loads] of an encoding gives back the value in canonical form; no
    proper prefix of an object's encoding parses; the reader's fuel is always
    enough. *)

From S2P Require Import Prelude Canonical.
From stdpp Require Import pretty.

(** ** Numbers *)
Lemma digits_value_app a s1 s2 :
  digits_value a (s1 +:+ s2) = digits_value (digits_value a s1) s2.
Proof. revert a. induction s1 as [|c s IH]; intros a; [done|]. rewrite str_app_cons. apply IH. Qed.

Lemma pretty_N_char_digit n :
  (n < 10)%N → is_digit (pretty_N_char n) = true ∧ (ord (pretty_N_char n) - 48 = n)%N ∧
               (n ≠ 0 → pretty_N_char n ≠ "0"%char)%N.
Proof.
  intros. assert (n = 0 ∨ n = 1 ∨ n = 2 ∨ n = 3 ∨ n = 4 ∨ n = 5 ∨ n = 6 ∨ n = 7 ∨
                  n = 8 ∨ n = 9)%N as Hn by lia.
  repeat (destruct Hn as [->|Hn]; [done|]). by subst.
Qed.

(** The digits [pretty] writes: no leading zero, and their value. *)
Lemma pretty_N_go_digits x acc :
  ∃ ds, pretty_N_go x acc = ds +:+ acc ∧ str_forall is_digit ds = true ∧
        digits_value 0 ds = Z.of_N x ∧ (x = 0%N → ds = "") ∧
        (x ≠ 0%N → ∃ c t, ds = String c t ∧ c ≠ "0"%char).
Proof.
  revert acc. induction (N.lt_wf_0 x) as [x _ IH]; intros acc.
  destruct (decide (x = 0%N)) as [->|Hx].
  { exists "". rewrite pretty_N_go_0. by split_and!. }
  rewrite pretty_N_go_step by lia.
  assert (x mod 10 < 10)%N as Hm by (apply N.mod_lt; lia).
  destruct (pretty_N_char_digit _ Hm) as (Hd & Hv & H0).
  destruct (IH (x `div` 10)%N) with (acc := String (pretty_N_char (x mod 10)) acc)
    as (ds & -> & Hds & Hval & Hnil & Hhd); [apply N.div_lt; lia|].
  exists (ds +:+ String (pretty_N_char (x mod 10)) "").
  rewrite str_app_assoc, str_forall_app, digits_value_app, Hval, Hds.
  split_and!; [done|by simpl; rewrite Hd|..].
  - unfold digits_value. rewrite Hv. pose proof (N.div_mod x 10). lia.
  - done.
  - intros _. destruct (decide (x `div` 10 = 0)%N) as [Hz|Hz].
    + rewrite (Hnil Hz), str_app_nil_l. exists (pretty_N_char (x mod 10)), "".
      split; [done|]. apply H0. intros E. pose proof (N.div_mod x 10). lia.
    + destruct (Hhd Hz) as (c & t & -> & Hc). rewrite str_app_cons. eauto.
Qed.

(** What may follow a number without being read as part of it. *)
Definition number_end (s : string) : bool :=
  match s with
  | "" => true
  | String c _ => negb (is_digit c || Ascii.eqb c "." || Ascii.eqb c "e" || Ascii.eqb c "E")
  end.

Lemma span_digits_app ds r :
  str_forall is_digit ds = true → number_end r = true → span_digits (ds +:+ r) = (ds, r).
Proof.
  intros Hd Hr. induction ds as [|c ds IH].
  - rewrite str_app_nil_l. destruct r as [|c r]; [done|]. simpl in *.
    apply negb_true_iff in Hr. repeat (apply orb_false_iff in Hr as [Hr _]). by rewrite Hr.
  - rewrite str_app_cons. simpl in *. apply andb_true_iff in Hd as [-> Hd].
    by rewrite IH.
Qed.

Lemma is_digit_inv c :
  is_digit c = true →
  c ∈ (["0"; "1"; "2"; "3"; "4"; "5"; "6"; "7"; "8"; "9"]%char : list ascii).
Proof.
  intros H. apply list_elem_of_In.
  destruct c as [[] [] [] [] [] [] [] []]; try done; cbn; tauto.
Qed.

(** The text of an integer: an optional minus and digits. *)
Lemma pretty_Z_text n :
  ∃ ds, pretty n = (if (n <? 0)%Z then "-" else "") +:+ ds ∧
        str_forall is_digit ds = true ∧ digits_value 0 ds = Z.abs n ∧
        (ds = "0" ∨ ∃ c t, ds = String c t ∧ c ≠ "0"%char).
Proof.
  assert (∀ x : N, ∃ ds, pretty x = ds ∧ str_forall is_digit ds = true ∧
            digits_value 0 ds = Z.of_N x ∧
            (ds = "0" ∨ ∃ c t, ds = String c t ∧ c ≠ "0"%char)) as HN.
  { intros x. unfold pretty, pretty_N. case_decide as Hx.
    - exists "0". subst. split_and!; auto.
    - destruct (pretty_N_go_digits x "") as (ds & -> & ? & ? & _ & Hd).
      exists ds. rewrite str_app_nil_r. split_and!; auto. }
  destruct n as [|p|p].
  - exists "0". split_and!; auto.
  - destruct (HN (N.pos p)) as (ds & E & H1 & H2 & H3). exists ds.
    rewrite str_app_nil_l. split_and!; [exact E|done..].
  - destruct (HN (N.pos p)) as (ds & E & H1 & H2 & H3). exists ds.
    split_and!; [|done..]. change (pretty (Z.neg p)) with ("-" +:+ pretty (N.pos p)).
    by rewrite E.
Qed.

(** How many digits: no more than the bound has. *)
Lemma pretty_N_go_length k x acc : (x < 10 ^ N.of_nat k)%N →
  String.length (pretty_N_go x acc) ≤ k + String.length acc.
Proof.
  revert x acc. induction k as [|k IH]; intros x acc Hx.
  - assert (x = 0%N) as -> by (cbn in Hx; lia). by rewrite pretty_N_go_0.
  - destruct (decide (x = 0%N)) as [->|]; [rewrite pretty_N_go_0; lia|].
    rewrite pretty_N_go_step by lia. etrans; [apply IH|cbn; lia].
    apply N.Div0.div_lt_upper_bound. rewrite <-N.pow_succ_r'. by rewrite <-Nat2N.inj_succ.
Qed.
Lemma int_digits_bound k n : 1 ≤ k → (Z.abs n < 10 ^ Z.of_nat k)%Z → (int_digits n ≤ Z.of_nat k)%Z.
Proof.
  intros Hk Hn. unfold int_digits. apply Nat2Z.inj_le.
  assert (pretty (Z.abs n) = pretty (Z.to_N (Z.abs n))) as -> by (by destruct n).
  unfold pretty, pretty_N. case_decide as Hz; [cbn; lia|].
  etrans; [apply (pretty_N_go_length k)|cbn; lia].
  apply N2Z.inj_lt. rewrite N2Z.inj_pow, Z2N.id, nat_N_Z by lia. exact Hn.
Qed.

Lemma digits_value_lt a s : str_forall is_digit s = true →
  (digits_value a s < (a + 1) * 10 ^ Z.of_nat (String.length s))%Z.
Proof.
  revert a. induction s as [|c s IH]; intros a; cbn -[Z.of_nat]; [lia|].
  intros [Hc Hs]%andb_true_iff. specialize (IH (10 * a + Z.of_N (ord c - 48))%Z Hs).
  eapply Z.lt_le_trans; [exact IH|]. rewrite Nat2Z.inj_succ, Z.pow_succ_r, Z.mul_assoc by lia.
  apply Z.mul_le_mono_nonneg_r; [lia|].
  apply andb_true_iff in Hc as [_ Hc%N.leb_le]. lia.
Qed.
(** An integer has at most [k] digits exactly when it is below [10 ^ k]. *)
Lemma int_digits_le k n : 1 ≤ k → (int_digits n ≤ Z.of_nat k ↔ Z.abs n < 10 ^ Z.of_nat k)%Z.
Proof.
  intros Hk. split; [|by apply int_digits_bound]. unfold int_digits.
  destruct (pretty_Z_text (Z.abs n)) as (ds & -> & Hd & Hv & _).
  apply digits_value_lt with (a := 0%Z) in Hd. rewrite Hv in Hd.
  assert ((Z.abs n <? 0)%Z = false) as -> by lia. rewrite str_app_nil_l. intros Hl.
  eapply Z.lt_le_trans; [replace (Z.abs n) with (Z.abs (Z.abs n)) by lia; exact Hd|].
  rewrite Z.mul_1_l. apply Z.pow_le_mono_r; lia.
Qed.

Section read.
Context {R : Runtime}.

Lemma scan_int_part_app ds r :
  str_forall is_digit ds = true → (ds = "0" ∨ ∃ c t, ds = String c t ∧ c ≠ "0"%char) →
  number_end r = true → scan_int_part (ds +:+ r) = (ds, r).
Proof.
  intros Hd Hhd Hr. destruct Hhd as [->|(c & t & -> & Hc)]; [done|].
  rewrite <-(span_digits_app (String c t) r) by done. rewrite str_app_cons.
  by destruct c as [[] [] [] [] [] [] [] []].
Qed.
Lemma scan_frac_end r : number_end r = true → scan_frac r = ("", r).
Proof. destruct r as [|c r]; [done|]. by destruct c as [[] [] [] [] [] [] [] []]. Qed.
Lemma scan_expo_end r : number_end r = true → scan_expo r = ("", r).
Proof. destruct r as [|c r]; [done|]. by destruct c as [[] [] [] [] [] [] [] []]. Qed.

Lemma scan_number_int n r :
  number_end r = true → scan_number (pretty n +:+ r) = Some (JInt n, r).
Proof.
  intros Hr. destruct (pretty_Z_text n) as (ds & -> & Hd & Hv & Hhd).
  pose proof (scan_int_part_app ds r Hd Hhd Hr) as Hint.
  assert (String.eqb ds "" = false) as Hne by (by destruct Hhd as [->|(?&?&->&?)]).
  rewrite str_app_assoc.
  assert (scan_number ((if (n <? 0)%Z then "-" else "") +:+ ds +:+ r) =
          scan_unsigned (n <? 0)%Z (ds +:+ r)) as ->.
  { destruct (n <? 0)%Z; [done|]. rewrite str_app_nil_l.
    destruct Hhd as [->|(c & t & -> & Hc)]; [done|]. rewrite str_app_cons.
    apply andb_true_iff in Hd as [Hd%is_digit_inv _]. set_unfold in Hd. naive_solver. }
  unfold scan_unsigned.
  rewrite Hint, Hne, scan_frac_end, scan_expo_end by done. simpl. rewrite Hv.
  destruct (n <? 0)%Z eqn:E; do 3 f_equal; lia.
Qed.

Lemma scan_escape_char c t body r :
  scan_string t = Some (body, r) →
  scan_string (escape_char c t) = Some (String c body, r).
Proof.
  intros H. destruct c as [[] [] [] [] [] [] [] []]; simpl; by rewrite H.
Qed.

Lemma scan_escape_body s r :
  scan_string (escape_body s +:+ String dquote r) = Some (s, r).
Proof.
  induction s as [|c s IH]; [done|].
  assert (∀ c t u, escape_char c t +:+ u = escape_char c (t +:+ u)) as Happ.
  { intros c' t u. unfold escape_char. repeat case_match; by rewrite ?str_app_cons. }
  simpl. rewrite Happ. by apply scan_escape_char.
Qed.

Lemma scan_encode_string s r :
  ∃ t, _encode_string s +:+ r = String dquote t ∧ scan_string t = Some (nfc s, r).
Proof.
  unfold _encode_string. rewrite str_app_cons, str_app_assoc, str_app_cons, str_app_nil_l.
  eexists. split; [done|]. apply scan_escape_body.
Qed.

(** The first character of an encoding is none of the reader's separators. *)
Definition value_head (c : ascii) : bool :=
  negb (is_ws c || Ascii.eqb c "]" || Ascii.eqb c "}" || Ascii.eqb c "," ||
        Ascii.eqb c ":").

Lemma encode_head v s :
  encode v = Ok s → no_float v = true → ∃ c t, s = String c t ∧ value_head c = true.
Proof.
  destruct v as [|b|n|f|s'|l|kvs]; intros H Hf.
  - injection H as <-. eauto.
  - destruct b; injection H as <-; eauto.
  - apply encode_int_Ok in H as [-> _]. destruct (pretty_Z_text n) as (ds & -> & Hd & _ & Hhd).
    destruct (n <? 0)%Z; [rewrite str_app_cons; eauto|]. rewrite str_app_nil_l.
    destruct Hhd as [->|(c & t & -> & _)]; [eauto|]. exists c, t. split; [done|].
    simpl in Hd. apply andb_true_iff in Hd as [Hd%is_digit_inv _].
    set_unfold in Hd. naive_solver.
  - done.
  - injection H as <-. unfold _encode_string. eauto.
  - cbn in H. unfold _encode_seq in H. apply result_bind_ok in H as (ms & _ & [= <-]).
    rewrite str_app_cons. eauto.
  - rewrite encode_obj in H. apply encode_dict_Ok in H as (_ & _ & ms & _ & ->).
    rewrite str_app_cons. eauto.
Qed.

Lemma skip_ws_head c t : value_head c = true → skip_ws (String c t) = String c t.
Proof.
  unfold value_head. intros H%negb_true_iff. simpl.
  do 4 apply orb_false_iff in H as [H _]. by rewrite H.
Qed.
Lemma skip_ws_sep c t :
  c ∈ ([","; ":"; "}"; "]"; dquote; "{"; "["]%char : list ascii) →
  skip_ws (String c t) = String c t.
Proof. intros H. set_unfold in H. naive_solver. Qed.
End read.

Section roundtrip.
Context {R : Runtime}.

(** Reading the encoding of [v] in any context gives [v] in canonical form. *)
Definition reads (v : json) : Prop :=
  ∀ s, encode v = Ok s → no_float v = true →
  ∀ fuel r, number_end r = true → 2 * String.length s ≤ fuel →
  scan_once fuel (s +:+ r) = Some (canon v, r).

Lemma members_head (w : json → result jcs_error string) L ms :
  Forall2 (λ kv m, ∃ t, w kv.2 = Ok t ∧ m = _encode_string kv.1 +:+ ":" +:+ t) L ms →
  ms ≠ [] → ∃ t, str_join "," ms = String dquote t.
Proof.
  destruct 1 as [|kv m L ms (t & _ & ->) _]; [done|]. intros _. unfold _encode_string.
  destruct ms; rewrite ?str_join_cons2; simpl; rewrite !str_app_cons; eauto.
Qed.

Lemma scan_members_ok L ms fuel r :
  Forall2 (λ kv m, ∃ t, encode kv.2 = Ok t ∧ m = _encode_string kv.1 +:+ ":" +:+ t) L ms →
  Forall (λ kv, reads kv.2 ∧ no_float kv.2 = true ∧ nfc kv.1 = kv.1) L → L ≠ [] →
  2 * String.length (str_join "," ms) + 1 ≤ fuel →
  scan_members fuel (str_join "," ms +:+ "}" +:+ r) =
    Some ((λ kv, (kv.1, canon kv.2)) <$> L, r).
Proof.
  intros H. revert fuel. induction H as [|[k v] m L ms (t & Ht & ->) Hms IH];
    intros fuel HS Hne Hfuel; [done|]. simpl in Ht.
  apply Forall_cons in HS as [(Hv & Hf & Hk) HS]. simpl in Hv, Hf, Hk.
  destruct fuel as [|fuel]; [lia|].
  destruct (encode_head _ _ Ht Hf) as (c & u & -> & Hc).
  set (t := String c u) in *.
  assert (∃ sep rest, number_end (String sep rest) = true ∧
    str_join "," ((_encode_string k +:+ ":" +:+ t) :: ms) +:+ "}" +:+ r
      = _encode_string k +:+ ":" +:+ (t +:+ String sep rest) ∧
    (ms = [] ∧ sep = "}"%char ∧ rest = r ∨
     ms ≠ [] ∧ sep = ","%char ∧ rest = str_join "," ms +:+ "}" +:+ r)) as
    (sep & rest & Hsep & Heq & Hcase).
  { destruct ms as [|m' ms'].
    - exists "}"%char, r. simpl. rewrite !str_app_assoc. split_and!; [done..|by left].
    - exists ","%char, (str_join "," (m' :: ms') +:+ "}" +:+ r).
      rewrite str_join_cons2, !str_app_assoc. split_and!; [done..|]. right. done. }
  change ((k, v).1) with k in *. rewrite Heq. destruct (scan_encode_string k (":" +:+ (t +:+ String sep rest)))
    as (u' & -> & Hscan). cbn [scan_members]. rewrite Ascii.eqb_refl, Hscan. cbn -[scan_once].
  rewrite Hk.
  assert (skip_ws (":" +:+ (t +:+ String sep rest)) = String ":" (t +:+ String sep rest))
    as -> by done. cbn -[scan_once].
  assert (skip_ws (t +:+ String sep rest) = t +:+ String sep rest) as ->.
  { unfold t. rewrite str_app_cons. by apply skip_ws_head. }
  assert (2 * String.length t ≤ fuel) as Hft.
  { destruct ms; rewrite ?str_join_cons2 in Hfuel; simpl in Hfuel;
      rewrite !str_length_app in Hfuel; lia. }
  rewrite (Hv t Ht Hf fuel (String sep rest)) by done. cbn -[scan_members].
  destruct Hcase as [(-> & -> & ->)|(Hms' & -> & ->)].
  - apply Forall2_nil_inv_r in Hms as ->. done.
  - destruct (members_head _ _ _ Hms Hms') as (u2 & Hu2).
    assert (L ≠ []) as HneS by (intros ->; by apply Forall2_nil_inv_l in Hms as ->).
    change (is_ws ",") with false. cbn -[scan_members str_join skip_ws].
    assert (skip_ws (str_join "," ms +:+ "}" +:+ r) = str_join "," ms +:+ "}" +:+ r) as ->.
    { rewrite Hu2, str_app_cons. apply skip_ws_sep. set_solver. }
    rewrite IH; [done|done|done|]. destruct ms as [|m' ms]; [done|].
    rewrite str_join_cons2, !str_length_app in Hfuel.
    change (String.length ",") with 1 in Hfuel.
    change (String.length ":") with 1 in Hfuel. lia.
Qed.

Lemma scan_items_ok L ms fuel r :
  Forall2 (λ v t, encode v = Ok t) L ms →
  Forall (λ v, reads v ∧ no_float v = true) L → L ≠ [] →
  2 * String.length (str_join "," ms) + 1 ≤ fuel →
  scan_items fuel (str_join "," ms +:+ "]" +:+ r) = Some (canon <$> L, r).
Proof.
  intros H. revert fuel. induction H as [|v t L ms Ht Hms IH];
    intros fuel HL Hne Hfuel; [done|].
  apply Forall_cons in HL as [(Hv & Hf) HL]. destruct fuel as [|fuel]; [lia|].
  assert (2 * String.length t ≤ fuel) as Hft.
  { destruct ms; rewrite ?str_join_cons2 in Hfuel; simpl in Hfuel;
      rewrite ?str_length_app in Hfuel; lia. }
  cbn [scan_items]. destruct ms as [|m ms].
  - apply Forall2_nil_inv_r in Hms as ->. simpl.
    by rewrite (Hv t Ht Hf fuel ("]" +:+ r)).
  - rewrite str_join_cons2, !str_app_assoc.
    rewrite (Hv t Ht Hf fuel _) by done. cbn -[scan_items str_join skip_ws].
    change (skip_ws ("," +:+ str_join "," (m :: ms) +:+ "]" +:+ r))
      with (String "," (str_join "," (m :: ms) +:+ "]" +:+ r)).
    cbn -[scan_items str_join skip_ws].
    inversion Hms as [|v' ? L' ? Hv' ?]; subst.
    apply Forall_cons in HL as HL'. destruct HL' as [[_ Hf'] _].
    destruct (encode_head _ _ Hv' Hf') as (c & u & -> & Hc).
    assert (∃ w, str_join "," (String c u :: ms) = String c w) as [w Hw].
    { destruct ms; rewrite ?str_join_cons2; simpl; rewrite ?str_app_cons; eauto. }
    assert (skip_ws (str_join "," (String c u :: ms) +:+ "]" +:+ r) =
            str_join "," (String c u :: ms) +:+ "]" +:+ r) as ->.
    { rewrite Hw, str_app_cons. by apply skip_ws_head. }
    rewrite IH; [done|done|done|].
    rewrite str_join_cons2, !str_length_app in Hfuel.
    change (String.length ",") with 1 in Hfuel. lia.
Qed.
End roundtrip.

Section roundtrip_main.
Context {R : Runtime} {RL : RuntimeLaws R}.

(** The members of an object in the order they are written. *)
Definition sorted_members (kvs : list (string * json)) : list (string * json) :=
  py_sorted key_le ((λ kv, (nfc kv.1, kv.2)) <$> kvs).

Lemma sorted_members_map {B} (f : json → B) kvs :
  py_sorted key_le (nfc_items ((λ kv, (kv.1, f kv.2)) <$> kvs)) =
  (λ kv, (kv.1, f kv.2)) <$> sorted_members kvs.
Proof.
  unfold sorted_members. rewrite <-(py_sorted_fmap key_le key_le (λ kv, (kv.1, f kv.2))) by done.
  unfold nfc_items. by rewrite <-!list_fmap_compose.
Qed.

Lemma canon_obj kvs :
  canon (JObj kvs) = JObj ((λ kv, (kv.1, canon kv.2)) <$> sorted_members kvs).
Proof.
  cbn. f_equal. rewrite <-sorted_members_map. unfold nfc_items.
  by rewrite <-list_fmap_compose.
Qed.

Lemma elem_of_sorted_members kvs kv :
  kv ∈ sorted_members kvs → ∃ kv', kv' ∈ kvs ∧ kv.1 = nfc kv'.1 ∧ kv.2 = kv'.2.
Proof.
  unfold sorted_members. rewrite elem_of_py_sorted, list_elem_of_fmap.
  intros (kv' & -> & ?). eauto.
Qed.

Lemma encode_obj_Ok kvs s :
  encode (JObj kvs) = Ok s →
  NoDup (Dict.keys (sorted_members kvs)) ∧
  ∃ ms, Forall2 (λ kv m, ∃ t, encode kv.2 = Ok t ∧ m = _encode_string kv.1 +:+ ":" +:+ t)
          (sorted_members kvs) ms ∧ s = "{" +:+ str_join "," ms +:+ "}".
Proof.
  rewrite encode_obj, encode_dict_Ok. intros (Hn & _ & ms & Hms & ->).
  rewrite sorted_members_map in Hms. apply Forall2_fmap_l in Hms. split; [|eauto].
  assert (Dict.keys (sorted_members kvs) ≡ₚ
          Dict.keys (nfc_items ((λ kv, (kv.1, encode kv.2)) <$> kvs))) as ->; [|done].
  unfold sorted_members. rewrite (py_sorted_perm key_le).
  unfold Dict.keys, nfc_items. by rewrite <-!list_fmap_compose.
Qed.

Lemma scan_encode v : reads v.
Proof using RL.
  induction v as [|b|n|f|s|l IH|kvs IH] using json_ind';
    intros t Ht Hf fuel r Hr Hfuel.
  - injection Ht as <-. destruct fuel; [simpl in Hfuel; lia|reflexivity].
  - destruct b; injection Ht as <-; (destruct fuel; [simpl in Hfuel; lia|reflexivity]).
  - apply encode_int_Ok in Ht as [-> _]. pose proof (scan_number_int n r Hr) as Hs.
    destruct (pretty_Z_text n) as (ds & E & Hd & _ & Hhd). rewrite E in *.
    destruct fuel as [|fuel].
    { rewrite str_length_app in Hfuel. destruct Hhd as [->|(?&?&->&_)]; simpl in Hfuel; lia. }
    change (Some (canon (JInt n), r)) with (Some (JInt n, r)).
    rewrite <-Hs. rewrite str_app_assoc in *.
    assert (∀ c u, is_digit c = true →
      scan_once (S fuel) (String c u) = scan_number (String c u)) as Hdig.
    { intros c u Hc%is_digit_inv. set_unfold in Hc. naive_solver. }
    assert (∀ c u, is_digit c = true →
      scan_once (S fuel) (String "-" (String c u)) = scan_number (String "-" (String c u)))
      as Hneg.
    { intros c u Hc%is_digit_inv. set_unfold in Hc. naive_solver. }
    assert (∃ c u, ds = String c u ∧ is_digit c = true) as (c & u & -> & Hc).
    { destruct Hhd as [->|(c & u & -> & _)]; [eauto|].
      simpl in Hd. apply andb_true_iff in Hd as [Hc _]. eauto. }
    destruct (n <? 0)%Z; [apply Hneg|apply Hdig]; done.
  - done.
  - injection Ht as <-. destruct (scan_encode_string s r) as (u & Hu & Hs). rewrite Hu.
    destruct fuel as [|fuel]; [simpl in Hfuel; lia|]. cbn [scan_once].
    rewrite Ascii.eqb_refl, Hs. done.
  - cbn in Ht. unfold _encode_seq in Ht.
    apply result_bind_ok in Ht as (ms & Hms%mapM_Ok & [= <-]).
    destruct fuel as [|fuel]; [rewrite str_app_cons in Hfuel; simpl in Hfuel; lia|].
    rewrite !str_length_app in Hfuel. simpl in Hfuel.
    rewrite str_app_assoc, str_app_cons, str_app_nil_l, str_app_assoc.
    destruct l as [|v l]; [by apply Forall2_nil_inv_l in Hms as ->|].
    assert (Forall (λ v, reads v ∧ no_float v = true) (v :: l)) as HL.
    { apply Forall_forall. intros x Hx. split; [by eapply Forall_forall in IH|].
      change (forallb no_float (v :: l) = true) in Hf.
      rewrite forallb_forall in Hf. apply Hf. by apply list_elem_of_In. }
    assert (∃ c w, str_join "," ms = String c w ∧ value_head c = true) as (c & w & Hw & Hc).
    { inversion Hms as [|? m ? ms' Hm _]; subst.
      apply Forall_cons in HL as [[_ Hfv] _].
      destruct (encode_head _ _ Hm Hfv) as (c & u & -> & ?).
      destruct ms'; rewrite ?str_join_cons2; simpl; rewrite ?str_app_cons; eauto. }
    cbn -[scan_items skip_ws str_join].
    pose proof (scan_items_ok (v :: l) ms fuel r Hms HL ltac:(done) ltac:(lia)) as Hit.
    rewrite Hw, str_app_cons in Hit |- *. rewrite skip_ws_head by done.
    destruct c as [[] [] [] [] [] [] [] []]; try done; by rewrite Hit.
  - pose proof (encode_obj_Ok _ _ Ht) as (Hn & ms & Hms & ->). rewrite canon_obj.
    destruct fuel as [|fuel]; [rewrite str_app_cons in Hfuel; simpl in Hfuel; lia|].
    rewrite !str_length_app in Hfuel. simpl in Hfuel.
    rewrite str_app_assoc, str_app_cons, str_app_nil_l, str_app_assoc.
    destruct (decide (ms = [])) as [->|Hne].
    { by apply Forall2_nil_inv_r in Hms as ->. }
    destruct (members_head _ _ _ Hms Hne) as (w & Hw).
    assert (Forall (λ kv, reads kv.2 ∧ no_float kv.2 = true ∧ nfc kv.1 = kv.1)
              (sorted_members kvs)) as HL.
    { apply Forall_forall. intros kv ([k x] & Hin & -> & ->)%elem_of_sorted_members.
      rewrite nfc_idemp. split_and!; [|..|done].
      - by eapply Forall_forall in IH.
      - cbn in Hf. rewrite forallb_forall in Hf. apply (Hf (k, x)).
        by apply list_elem_of_In. }
    assert (sorted_members kvs ≠ []) as HneL.
    { intros E. rewrite E in Hms. by apply Forall2_nil_inv_l in Hms as ->. }
    cbn -[scan_members skip_ws str_join].
    pose proof (scan_members_ok _ ms fuel r Hms HL HneL ltac:(lia)) as Hit.
    rewrite Hw, str_app_cons in Hit |- *. rewrite skip_ws_sep by set_solver.
    rewrite Hit. simpl. rewrite Dict.of_pairs_NoDup; [done|].
    unfold Dict.keys in *. by rewrite <-list_fmap_compose.
Qed.

(** [json.loads(dumps_jcs(v))] is [v] in canonical form. *)
Lemma loads_encode v s :
  encode v = Ok s → no_float v = true → json_loads s = Some (canon v).
Proof using RL.
  intros Hs Hf. unfold json_loads. destruct (encode_head _ _ Hs Hf) as (c & t & -> & Hc).
  rewrite skip_ws_head by done.
  rewrite <-(str_app_nil_r (String c t)) at 2.
  rewrite (scan_encode v (String c t)) by (done || lia). done.
Qed.
End roundtrip_main.
