(* ===== verification/CanonicalScan.v ===== *)
(** * The JSON reader on extended and truncated text

    A complete value is read the same when more text follows, so no proper
    prefix of an object's encoding is a JSON text; and the reader's fuel, twice
    the length of the text, is always enough. *)

From S2P Require Import Prelude Canonical CanonicalRead.
From stdpp Require Import pretty.
From Stdlib Require Import Floats.SpecFloat.

(** Case analysis on the character a reader branches on. *)
Ltac cases_char c := destruct c as [[] [] [] [] [] [] [] []].

Lemma str_app_eq_cons_nil (s1 s2 : string) c t : s1 +:+ s2 = String c t → s1 = "" → s2 = String c t.
Proof. by intros H ->. Qed.

Lemma skip_ws_app s x c t :
  skip_ws s = String c t → skip_ws (s +:+ x) = String c (t +:+ x).
Proof.
  induction s as [|a s IH]; [done|]. rewrite str_app_cons. simpl.
  destruct (is_ws a); [done|]. by intros [= -> ->].
Qed.

Lemma skip_ws_length s : String.length (skip_ws s) ≤ String.length s.
Proof. induction s as [|a s IH]; simpl; [lia|]. destruct (is_ws a); simpl; lia. Qed.

Lemma str_drop_prefix_app p s r x :
  str_drop_prefix p s = Some r → str_drop_prefix p (s +:+ x) = Some (r +:+ x).
Proof. rewrite !str_drop_prefix_Some. intros ->. by rewrite str_app_assoc. Qed.

Lemma str_length_ind (P : string → Prop) :
  (∀ s, (∀ t, String.length t < String.length s → P t) → P s) → ∀ s, P s.
Proof.
  intros H s. remember (String.length s) as n eqn:E. revert s E.
  induction n as [n IH] using lt_wf_ind. intros s ->. apply H. intros t Ht. by eapply IH.
Qed.

(** One unfolding of the string reader, by the first character. *)
Lemma scan_string_app s x body r :
  scan_string s = Some (body, r) → scan_string (s +:+ x) = Some (body, r +:+ x).
Proof.
  revert body r. induction s as [s IH] using str_length_ind. intros body r.
  destruct s as [|c s]; [done|]. rewrite str_app_cons. simpl.
  destruct (Ascii.eqb c dquote); [by intros [= <- <-]|].
  destruct (ord c <? 32)%N; [done|].
  destruct (Ascii.eqb c "\").
  2: { destruct (scan_string s) as [[b' r']|] eqn:E; [|done]. intros [= <- <-].
       by rewrite (IH s ltac:(simpl; lia) _ _ E). }
  destruct s as [|e s]; [done|]. rewrite str_app_cons.
  destruct (Ascii.eqb e "u").
  2: { destruct (simple_escape e); [|done]. simpl.
       destruct (scan_string s) as [[b' r']|] eqn:E; [|done]. intros [= <- <-].
       by rewrite (IH s ltac:(simpl; lia) _ _ E). }
  destruct s as [|x1 [|x2 [|x3 [|x4 s]]]]; try done. rewrite !str_app_cons.
  destruct (hex4 x1 x2 x3 x4) as [cp|]; [|done]. simpl.
  destruct (is_high cp).
  - destruct s as [|b [|u [|y1 [|y2 [|y3 [|y4 s]]]]]]; try done. rewrite !str_app_cons.
    destruct (_ && _); [|done]. destruct (hex4 y1 y2 y3 y4) as [lo|]; [|done]. simpl.
    destruct (is_low lo); [|done].
    destruct (scan_string s) as [[b' r']|] eqn:E; [|done]. intros [= <- <-].
    by rewrite (IH s ltac:(simpl; lia) _ _ E).
  - destruct (is_low cp); [done|].
    destruct (scan_string s) as [[b' r']|] eqn:E; [|done]. intros [= <- <-].
    by rewrite (IH s ltac:(simpl; lia) _ _ E).
Qed.

Lemma scan_string_length s body r :
  scan_string s = Some (body, r) → String.length r < String.length s.
Proof.
  revert body r. induction s as [s IH] using str_length_ind. intros body r.
  assert (∀ t b r, scan_string t = Some (b, r) → String.length t < String.length s →
            String.length r < String.length s) as Hlt.
  { intros t b r' Ht Hl. specialize (IH t Hl _ _ Ht). lia. }
  destruct s as [|c s]; [done|]. simpl in *.
  destruct (Ascii.eqb c dquote); [intros [= <- <-]; lia|].
  destruct (ord c <? 32)%N; [done|].
  destruct (Ascii.eqb c "\").
  2: { destruct (scan_string s) as [[b' r']|] eqn:E; [|done]. intros [= <- <-]. eauto with lia. }
  destruct s as [|e s]; [done|]. simpl in *.
  destruct (Ascii.eqb e "u").
  2: { destruct (simple_escape e); [|done]. simpl.
       destruct (scan_string s) as [[b' r']|] eqn:E; [|done]. intros [= <- <-]. eauto with lia. }
  destruct s as [|x1 [|x2 [|x3 [|x4 s]]]]; try done. simpl in *.
  destruct (hex4 x1 x2 x3 x4) as [cp|]; [|done]. simpl.
  destruct (is_high cp).
  - destruct s as [|b [|u [|y1 [|y2 [|y3 [|y4 s]]]]]]; try done. simpl in *.
    destruct (_ && _); [|done]. destruct (hex4 y1 y2 y3 y4) as [lo|]; [|done]. simpl.
    destruct (is_low lo); [|done].
    destruct (scan_string s) as [[b' r']|] eqn:E; [|done]. intros [= <- <-]. eauto with lia.
  - destruct (is_low cp); [done|].
    destruct (scan_string s) as [[b' r']|] eqn:E; [|done]. intros [= <- <-]. eauto with lia.
Qed.

(** *** Numbers *)
Lemma span_digits_length s d r : span_digits s = (d, r) →
  String.length s = String.length d + String.length r.
Proof.
  revert d r. induction s as [|c s IH]; simpl; intros d r; [by intros [= <- <-]|].
  destruct (is_digit c); [|by intros [= <- <-]].
  destruct (span_digits s) as [d' r']. intros [= <- <-]. simpl. by rewrite (IH d' r').
Qed.

Lemma span_digits_stable s x d r :
  span_digits s = (d, r) → r ≠ "" → span_digits (s +:+ x) = (d, r +:+ x).
Proof.
  revert d r. induction s as [|c s IH]; simpl; intros d r; [by intros [= <- <-]|].
  destruct (is_digit c).
  - destruct (span_digits s) as [d' r']. intros [= <- <-] Hr. by rewrite (IH d' r').
  - by intros [= <- <-].
Qed.

Lemma scan_int_part_stable s x d r :
  scan_int_part s = (d, r) → r ≠ "" → scan_int_part (s +:+ x) = (d, r +:+ x).
Proof.
  intros H Hr. destruct s as [|c s]; [cbn in H; by simplify_eq|].
  pose proof (span_digits_stable (String c s) x d r) as Hs. rewrite str_app_cons in *.
  cases_char c; simpl in H; auto. by simplify_eq/=.
Qed.

Lemma scan_frac_stable s x d r :
  scan_frac s = (d, r) → r ≠ "" → (∀ t, r ≠ String "." t) →
  scan_frac (s +:+ x) = (d, r +:+ x).
Proof.
  intros H Hr Hn. destruct s as [|c s]; [cbn in H; by simplify_eq|]. rewrite str_app_cons.
  cases_char c; simpl in H; simplify_eq/=; try done.
  destruct (span_digits s) as [d' r'] eqn:E. destruct (String.eqb_spec d' ""); simplify_eq.
  - by destruct (Hn s).
  - by rewrite (span_digits_stable _ _ _ _ E), (proj2 (String.eqb_neq d' "")).
Qed.

Lemma scan_expo_stable s x d r :
  scan_expo s = (d, r) → r ≠ "" → number_end r = true → scan_expo (s +:+ x) = (d, r +:+ x).
Proof.
  intros H Hr Hn. destruct s as [|c s]; [cbn in H; by simplify_eq|]. rewrite str_app_cons.
  simpl in *. destruct (Ascii.eqb c "e" || Ascii.eqb c "E") eqn:Ec; [|by simplify_eq/=].
  assert (∀ d' r' sg t1, span_digits t1 = (d', r') →
    (if String.eqb d' "" then ("", String c s) else (String c (sg +:+ d'), r')) = (d, r) →
    d' ≠ "" ∧ d = String c (sg +:+ d') ∧ r' = r) as Haux.
  { intros d' r' sg t1 E E'. destruct (String.eqb_spec d' ""); simplify_eq; [|done].
    exfalso. simpl in Hn. apply negb_true_iff, orb_false_iff in Hn as [Hn1 Hn2].
    apply orb_false_iff in Hn1 as [_ Hn1]. rewrite Hn1, Hn2 in Ec. done. }
  assert (∀ sg t1, (let '(d', r') := span_digits t1 in
      if String.eqb d' "" then ("", String c s) else (String c (sg +:+ d'), r')) = (d, r) →
    (let '(d', r') := span_digits (t1 +:+ x) in
      if String.eqb d' "" then ("", String c (s +:+ x)) else (String c (sg +:+ d'), r'))
      = (d, r +:+ x)) as Hmain.
  { intros sg t1 E. destruct (span_digits t1) as [d' r'] eqn:E1.
    destruct (Haux d' r' sg t1 E1 E) as (Hd & -> & ->).
    rewrite (span_digits_stable _ x _ _ E1 Hr). by rewrite (proj2 (String.eqb_neq d' "")). }
  destruct s as [|c2 s2]; [by apply (Haux "" "" "" "") in H as [[] _]|].
  rewrite str_app_cons. rewrite str_app_cons in Hmain.
  cases_char c2;
    first [ by apply (Hmain "+" s2) | by apply (Hmain "-" s2)
          | by apply (Hmain "" (String _ s2)) in H ].
Qed.

Lemma scan_int_part_length s d r :
  scan_int_part s = (d, r) → d ≠ "" → String.length r < String.length s.
Proof.
  intros H Hd. destruct s as [|c s]; [cbn in H; by simplify_eq|].
  pose proof (span_digits_length (String c s) d r) as Hs.
  assert (0 < String.length d) by (destruct d; simpl; [done|lia]).
  cases_char c; try (specialize (Hs H); lia). cbn in H. simplify_eq/=. lia.
Qed.
Lemma scan_frac_length s d r : scan_frac s = (d, r) → String.length r ≤ String.length s.
Proof.
  intros H. destruct s as [|c s]; [cbn in H; by simplify_eq|].
  assert ((d, r) = ("", String c s) ∨
          ∃ d' r', span_digits s = (d', r') ∧ r = r') as [?|(d' & r' & E & ->)].
  { cases_char c; simpl in H; try (left; congruence).
    destruct (span_digits s) as [d' r'] eqn:E. destruct (String.eqb d' ""); simplify_eq; eauto. }
  - by simplify_eq.
  - apply span_digits_length in E. simpl. lia.
Qed.
Lemma scan_expo_length s d r : scan_expo s = (d, r) → String.length r ≤ String.length s.
Proof.
  intros H. destruct s as [|c s]; [cbn in H; by simplify_eq|]. simpl in H.
  destruct (_ || _); [|by simplify_eq].
  assert (∀ sg t1, String.length t1 ≤ String.length s →
    (let '(d', r') := span_digits t1 in
      if String.eqb d' "" then ("", String c s) else (String c (sg +:+ d'), r')) = (d, r) →
    String.length r ≤ String.length (String c s)) as Hmain.
  { intros sg t1 Hl E. destruct (span_digits t1) as [d' r'] eqn:E1.
    apply span_digits_length in E1. destruct (String.eqb d' ""); simplify_eq/=; lia. }
  destruct s as [|c2 s2]; [by eapply (Hmain "" "")|].
  assert (String.length s2 ≤ String.length (String c2 s2)) by (simpl; lia).
  cases_char c2; first [by apply (Hmain "+" s2) | by apply (Hmain "-" s2) | by eapply (Hmain "") in H].
Qed.

Section scanners.
Context {R : Runtime}.

Lemma scan_unsigned_stable neg s x v r :
  scan_unsigned neg s = Some (v, r) → r ≠ "" → number_end r = true →
  scan_unsigned neg (s +:+ x) = Some (v, r +:+ x).
Proof.
  unfold scan_unsigned. intros H Hr Hn. destruct (scan_int_part s) as [i s2] eqn:Ei.
  destruct (String.eqb_spec i "") as [|Hi]; [done|].
  destruct (scan_frac s2) as [f s3] eqn:Ef. destruct (scan_expo s3) as [e s4] eqn:Ee.
  assert (s4 = r) as -> by (destruct (_ && _); by simplify_eq).
  pose proof (scan_expo_length _ _ _ Ee). pose proof (scan_frac_length _ _ _ Ef).
  assert (0 < String.length r) by (destruct r; simpl; [done|lia]).
  assert (s3 ≠ "") as Hs3 by (intros ->; simpl in *; lia).
  assert (s2 ≠ "") as Hs2 by (intros ->; simpl in *; lia).
  rewrite (scan_int_part_stable _ x _ _ Ei Hs2), (proj2 (String.eqb_neq i "")) by done.
  rewrite (scan_frac_stable _ x _ _ Ef Hs3), (scan_expo_stable _ x _ _ Ee Hr Hn).
  - destruct (_ && _); by simplify_eq.
  - intros t ->. cbn in Ee. by simplify_eq.
Qed.

Lemma scan_number_stable s x v r :
  scan_number s = Some (v, r) → r ≠ "" → number_end r = true →
  scan_number (s +:+ x) = Some (v, r +:+ x).
Proof.
  destruct s as [|c s]; [done|]. intros H Hr Hn.
  pose proof (scan_unsigned_stable true s x v r).
  pose proof (scan_unsigned_stable false (String c s) x v r) as Hf.
  rewrite str_app_cons in *. cases_char c; auto.
Qed.

Lemma scan_number_length s v r :
  scan_number s = Some (v, r) → String.length r < String.length s.
Proof.
  assert (∀ neg t, scan_unsigned neg t = Some (v, r) → String.length r < String.length t) as Hu.
  { intros neg t. unfold scan_unsigned. destruct (scan_int_part t) as [i s2] eqn:Ei.
    destruct (String.eqb_spec i "") as [|Hi]; [done|].
    destruct (scan_frac s2) as [f s3] eqn:Ef. destruct (scan_expo s3) as [e s4] eqn:Ee.
    intros H. assert (s4 = r) as -> by (destruct (_ && _); by simplify_eq).
    pose proof (scan_expo_length _ _ _ Ee). pose proof (scan_frac_length _ _ _ Ef).
    pose proof (scan_int_part_length _ _ _ Ei Hi). lia. }
  destruct s as [|c s]; [done|]. intros H.
  specialize (Hu true s) as H1. specialize (Hu false (String c s)) as H2.
  cases_char c; simpl in *; first [by apply H2 | specialize (H1 H); lia].
Qed.

(** A value whose end its text shows: everything but a number. *)
Definition self_delimited (v : json) : bool :=
  match v with JInt _ | JFloat _ => false | _ => true end.

Lemma scan_literal_app lit v s x w r :
  scan_literal lit v s = Some (w, r) → scan_literal lit v (s +:+ x) = Some (w, r +:+ x).
Proof.
  unfold scan_literal. destruct (str_drop_prefix lit s) eqn:E; [|done].
  intros [= <- <-]. by rewrite (str_drop_prefix_app _ _ _ _ E).
Qed.
Lemma scan_literal_length c lit v s w r :
  scan_literal (String c lit) v s = Some (w, r) → String.length r < String.length s.
Proof.
  unfold scan_literal. destruct (str_drop_prefix _ s) eqn:E; [|done].
  intros [= <- <-]. apply str_drop_prefix_Some in E as ->.
  rewrite str_length_app. simpl. lia.
Qed.

Lemma scan_scalar_stable s x v r :
  scan_scalar s = Some (v, r) →
  self_delimited v = true ∨ (r ≠ "" ∧ number_end r = true) →
  scan_scalar (s +:+ x) = Some (v, r +:+ x).
Proof.
  destruct s as [|c s]; [done|]. intros H Hend. rewrite str_app_cons. unfold scan_scalar in *.
  repeat match goal with
  | H : context [Ascii.eqb c ?d] |- _ =>
      destruct (Ascii.eqb c d); [by apply (scan_literal_app _ _ _ x) in H|]
  end.
  destruct (startswith (String c s) "-Infinity") eqn:Es.
  - assert (startswith (String c (s +:+ x)) "-Infinity" = true) as ->.
    { apply startswith_spec in Es as [t Et]. apply startswith_spec. exists (t +:+ x).
      by rewrite <-str_app_cons, Et, str_app_assoc. }
    by apply (scan_literal_app _ _ _ x) in H.
  - destruct Hend as [Hv|[Hr Hn]].
    { exfalso. unfold scan_number, scan_unsigned in H. repeat case_match; simplify_eq. }
    pose proof (scan_number_stable _ x _ _ H Hr Hn) as H'. rewrite str_app_cons in H'.
    destruct (startswith (String c (s +:+ x)) "-Infinity") eqn:Es'; [|done].
    exfalso. apply startswith_spec in Es' as [t Et].
    cbn in Et. injection Et as -> Et. cbn in H.
    destruct s as [|c2 s2]; [cbn in H; done|]. injection Et as -> Et.
    unfold scan_unsigned in H. cbn in H. done.
Qed.

Lemma scan_scalar_length s v r :
  scan_scalar s = Some (v, r) → String.length r < String.length s.
Proof.
  destruct s as [|c s]; [done|]. unfold scan_scalar.
  repeat (destruct (Ascii.eqb _ _); [apply scan_literal_length|]).
  destruct (startswith _ _); [apply scan_literal_length|apply scan_number_length].
Qed.

End scanners.

Section reader.
Context {R : Runtime}.

Lemma skip_ws_number_end r c t :
  skip_ws r = String c t → number_end (String c t) = true → r ≠ "" ∧ number_end r = true.
Proof.
  destruct r as [|a r]; [done|]. simpl. destruct (is_ws a) eqn:Ha; [|by intros [= -> ->]].
  intros _ _. split; [done|]. unfold is_ws in Ha.
  repeat apply orb_true_iff in Ha as [Ha|Ha]; apply Ascii.eqb_eq in Ha as ->; done.
Qed.

(** The separators the object and array loops look for. *)
Lemma skip_ws_cases (P : string → Prop) r :
  P "" → (∀ c t, P (String c t)) → P (skip_ws r).
Proof. destruct (skip_ws r); auto. Qed.

Lemma scan_stable fuel :
  (∀ s x v r, scan_once fuel s = Some (v, r) →
     self_delimited v = true ∨ (r ≠ "" ∧ number_end r = true) →
     scan_once fuel (s +:+ x) = Some (v, r +:+ x)) ∧
  (∀ s x kvs r, scan_members fuel s = Some (kvs, r) →
     scan_members fuel (s +:+ x) = Some (kvs, r +:+ x)) ∧
  (∀ s x vs r, scan_items fuel s = Some (vs, r) →
     scan_items fuel (s +:+ x) = Some (vs, r +:+ x)).
Proof.
  induction fuel as [|fuel (IHv & IHm & IHi)]; [done|]. split_and!.
  - intros s x v r. destruct s as [|c s]; [done|]. rewrite str_app_cons.
    cbn [scan_once]. destruct (Ascii.eqb c dquote).
    { destruct (scan_string s) as [[b r']|] eqn:E; [|done]. intros [= <- <-] _.
      by rewrite (scan_string_app _ x _ _ E). }
    destruct (Ascii.eqb c "{").
    { destruct (skip_ws s) as [|c' s'] eqn:E.
      - by destruct fuel.
      - rewrite (skip_ws_app _ x _ _ E). specialize (IHm (String c' s') x).
        rewrite str_app_cons in IHm.
        destruct (scan_members fuel (String c' s')) as [[kvs r']|] eqn:Em.
        + specialize (IHm _ _ eq_refl).
          cases_char c'; rewrite ?Em, ?IHm; by intros [= <- <-].
        + cases_char c'; rewrite ?Em; try done. by intros [= <- <-]. }
    destruct (Ascii.eqb c "[").
    { destruct (skip_ws s) as [|c' s'] eqn:E.
      - by destruct fuel as [|[|]].
      - rewrite (skip_ws_app _ x _ _ E). specialize (IHi (String c' s') x).
        rewrite str_app_cons in IHi.
        destruct (scan_items fuel (String c' s')) as [[vs r']|] eqn:Em.
        + specialize (IHi _ _ eq_refl).
          cases_char c'; rewrite ?Em, ?IHi; by intros [= <- <-].
        + cases_char c'; rewrite ?Em; try done. by intros [= <- <-]. }
    rewrite <-str_app_cons. apply scan_scalar_stable.
  - intros s x kvs r. destruct s as [|c s]; [done|]. rewrite str_app_cons.
    cbn [scan_members]. destruct (Ascii.eqb c dquote); [|done].
    destruct (scan_string s) as [[b r1]|] eqn:Es; [|done].
    rewrite (scan_string_app _ x _ _ Es). cbn -[scan_once scan_members skip_ws].
    destruct (skip_ws r1) as [|c1 t1] eqn:E1; [done|]. rewrite (skip_ws_app _ x _ _ E1).
    destruct (Ascii.eqb_spec c1 ":") as [->|Hc1].
    2: { cases_char c1; done. }
    destruct (skip_ws t1) as [|c2 t2] eqn:E2; [by destruct fuel|].
    rewrite (skip_ws_app _ x _ _ E2), <-str_app_cons.
    destruct (scan_once fuel (String c2 t2)) as [[v r2]|] eqn:Ev; [|done].
    cbn -[scan_once scan_members skip_ws].
    destruct (skip_ws r2) as [|c3 t3] eqn:E3; [done|].
    assert (number_end (String c3 t3) = true →
      scan_once fuel (String c2 t2 +:+ x) = Some (v, r2 +:+ x)) as Hv.
    { intros Hn. apply IHv; [done|]. right. by eapply skip_ws_number_end. }
    destruct (Ascii.eqb_spec c3 ",") as [->|Hc3].
    + rewrite Hv by done. cbn -[scan_once scan_members skip_ws].
      rewrite (skip_ws_app _ x _ _ E3).
      destruct (skip_ws t3) as [|c4 t4] eqn:E4; [by destruct fuel|].
      rewrite (skip_ws_app _ x _ _ E4), <-str_app_cons.
      destruct (scan_members fuel (String c4 t4)) as [[kvs' r4]|] eqn:Em; [|done].
      rewrite (IHm _ x _ _ Em). by intros [= <- <-].
    + destruct (Ascii.eqb_spec c3 "}") as [->|Hc3'].
      * rewrite Hv by done. cbn -[scan_once scan_members skip_ws].
        rewrite (skip_ws_app _ x _ _ E3). by intros [= <- <-].
      * cases_char c3; done.
  - intros s x vs r. cbn [scan_items].
    destruct (scan_once fuel s) as [[v r1]|] eqn:Ev; [|done].
    cbn -[scan_once scan_items skip_ws].
    destruct (skip_ws r1) as [|c1 t1] eqn:E1; [done|].
    assert (number_end (String c1 t1) = true →
      scan_once fuel (s +:+ x) = Some (v, r1 +:+ x)) as Hv.
    { intros Hn. apply IHv; [done|]. right. by eapply skip_ws_number_end. }
    destruct (Ascii.eqb_spec c1 ",") as [->|Hc1].
    + rewrite Hv by done. cbn -[scan_once scan_items skip_ws].
      rewrite (skip_ws_app _ x _ _ E1).
      destruct (skip_ws t1) as [|c2 t2] eqn:E2; [by destruct fuel as [|[|]]|].
      rewrite (skip_ws_app _ x _ _ E2), <-str_app_cons.
      destruct (scan_items fuel (String c2 t2)) as [[vs' r2]|] eqn:Ei; [|done].
      rewrite (IHi _ x _ _ Ei). by intros [= <- <-].
    + destruct (Ascii.eqb_spec c1 "]") as [->|Hc1'].
      * rewrite Hv by done. cbn -[scan_once scan_items skip_ws].
        rewrite (skip_ws_app _ x _ _ E1). by intros [= <- <-].
      * cases_char c1; done.
Qed.
End reader.
