(* ===== verification/CanonicalPrefix.v ===== *)
(** * Fuel, prefixes and idempotence of canonical JSON

    The reader's fuel suffices, a proper prefix of an object's encoding does
    not parse (what a torn append leaves behind), and the encoding of a
    canonical value is itself. *)

From S2P Require Import Prelude Canonical CanonicalRead CanonicalScan.

(** ** The reader's fuel *)
Section fuel.
Context {R : Runtime}.

Lemma skip_ws_cons_length s c t :
  skip_ws s = String c t → S (String.length t) ≤ String.length s.
Proof. intros H. pose proof (skip_ws_length s). rewrite H in *. simpl in *. lia. Qed.

Lemma scan_length fuel :
  (∀ s v r, scan_once fuel s = Some (v, r) → String.length r < String.length s) ∧
  (∀ s kvs r, scan_members fuel s = Some (kvs, r) → String.length r < String.length s) ∧
  (∀ s vs r, scan_items fuel s = Some (vs, r) → String.length r < String.length s).
Proof.
  induction fuel as [|fuel (IHv & IHm & IHi)]; [done|]. split_and!.
  - intros s v r. destruct s as [|c s]; [done|]. cbn [scan_once].
    destruct (Ascii.eqb c dquote).
    { destruct (scan_string s) as [[b r']|] eqn:E; [|done]. intros [= <- <-].
      apply scan_string_length in E. simpl. lia. }
    destruct (Ascii.eqb c "{").
    { destruct (skip_ws s) as [|c' s'] eqn:E; [by destruct fuel|].
      apply skip_ws_cons_length in E. change (String.length (String c s)) with (S (String.length s)).
      destruct (scan_members fuel (String c' s')) as [[kvs r']|] eqn:Em;
        [pose proof (IHm _ _ _ Em) as Hl; simpl in Hl|]; cases_char c'; rewrite ?Em; try done;
        intros [= <- <-]; lia. }
    destruct (Ascii.eqb c "[").
    { destruct (skip_ws s) as [|c' s'] eqn:E; [by destruct fuel as [|[|]]|].
      apply skip_ws_cons_length in E. change (String.length (String c s)) with (S (String.length s)).
      destruct (scan_items fuel (String c' s')) as [[kvs r']|] eqn:Em;
        [pose proof (IHi _ _ _ Em) as Hl; simpl in Hl|]; cases_char c'; rewrite ?Em; try done;
        intros [= <- <-]; lia. }
    apply scan_scalar_length.
  - intros s kvs r. destruct s as [|c s]; [done|]. cbn [scan_members].
    destruct (Ascii.eqb c dquote); [|done].
    destruct (scan_string s) as [[b r1]|] eqn:Es; [|done]. apply scan_string_length in Es.
    cbn -[scan_once scan_members skip_ws]. destruct (skip_ws r1) as [|c1 t1] eqn:E1; [done|].
    apply skip_ws_cons_length in E1.
    destruct (Ascii.eqb_spec c1 ":") as [->|Hc1]; [|cases_char c1; done].
    pose proof (skip_ws_length t1).
    destruct (scan_once fuel (skip_ws t1)) as [[v r2]|] eqn:Ev; [|done]. apply IHv in Ev.
    cbn -[scan_once scan_members skip_ws]. destruct (skip_ws r2) as [|c3 t3] eqn:E3; [done|].
    apply skip_ws_cons_length in E3. pose proof (skip_ws_length t3).
    destruct (scan_members fuel (skip_ws t3)) as [[kvs' r4]|] eqn:Em;
      [apply IHm in Em|]; cases_char c3; try done; intros [= <- <-]; lia.
  - intros s vs r. cbn [scan_items].
    destruct (scan_once fuel s) as [[v r1]|] eqn:Ev; [|done]. apply IHv in Ev.
    cbn -[scan_once scan_items skip_ws]. destruct (skip_ws r1) as [|c1 t1] eqn:E1; [done|].
    apply skip_ws_cons_length in E1. pose proof (skip_ws_length t1).
    destruct (scan_items fuel (skip_ws t1)) as [[vs' r2]|] eqn:Ei;
      [apply IHi in Ei|]; cases_char c1; try done; intros [= <- <-]; lia.
Qed.

(** Twice the length is fuel enough: more changes nothing. *)
Lemma scan_fuel fuel :
  (∀ fuel' s, 2 * String.length s ≤ fuel → fuel ≤ fuel' → scan_once fuel' s = scan_once fuel s) ∧
  (∀ fuel' s, 2 * String.length s + 1 ≤ fuel → fuel ≤ fuel' →
     scan_members fuel' s = scan_members fuel s) ∧
  (∀ fuel' s, 2 * String.length s + 1 ≤ fuel → fuel ≤ fuel' →
     scan_items fuel' s = scan_items fuel s).
Proof.
  induction fuel as [|fuel (IHv & IHm & IHi)].
  { split_and!; intros fuel' s Hs; [|lia..]. destruct s; [by destruct fuel'|simpl in Hs; lia]. }
  split_and!; intros [|fuel'] s Hs Hle; try lia.
  - destruct s as [|c s]; [done|]. cbn [scan_once]. simpl in Hs.
    pose proof (skip_ws_length s).
    pose proof (IHm fuel' (skip_ws s) ltac:(lia) ltac:(lia)) as Hm.
    pose proof (IHi fuel' (skip_ws s) ltac:(lia) ltac:(lia)) as Hi.
    destruct (skip_ws s) as [|c' s']; [by rewrite Hm, Hi|].
    cases_char c'; by rewrite ?Hm, ?Hi.
  - destruct s as [|c s]; [done|]. cbn [scan_members]. simpl in Hs.
    destruct (Ascii.eqb c dquote); [|done].
    destruct (scan_string s) as [[b r1]|] eqn:Es; [|done]. apply scan_string_length in Es.
    cbn -[scan_once scan_members skip_ws]. destruct (skip_ws r1) as [|c1 t1] eqn:E1; [done|].
    apply skip_ws_cons_length in E1. pose proof (skip_ws_length t1).
    rewrite (IHv fuel' (skip_ws t1)) by lia.
    destruct (scan_once fuel (skip_ws t1)) as [[v r2]|] eqn:Ev; [|done].
    apply (proj1 (scan_length fuel)) in Ev. cbn -[scan_once scan_members skip_ws].
    destruct (skip_ws r2) as [|c3 t3] eqn:E3; [done|].
    apply skip_ws_cons_length in E3. pose proof (skip_ws_length t3).
    by rewrite (IHm fuel' (skip_ws t3)) by lia.
  - cbn [scan_items]. rewrite (IHv fuel' s) by lia.
    destruct (scan_once fuel s) as [[v r1]|] eqn:Ev; [|done].
    apply (proj1 (scan_length fuel)) in Ev. cbn -[scan_once scan_items skip_ws].
    destruct (skip_ws r1) as [|c1 t1] eqn:E1; [done|].
    apply skip_ws_cons_length in E1. pose proof (skip_ws_length t1).
    by rewrite (IHi fuel' (skip_ws t1)) by lia.
Qed.

Lemma scan_once_fuel fuel s :
  2 * String.length s ≤ fuel → scan_once fuel s = scan_once (2 * String.length s) s.
Proof. intros. by apply scan_fuel. Qed.

Lemma scan_once_brace fuel t v r :
  scan_once fuel (String "{" t) = Some (v, r) → self_delimited v = true.
Proof.
  destruct fuel as [|fuel]; [done|]. cbn -[scan_members skip_ws].
  destruct (skip_ws t) as [|c t']; [by destruct fuel|].
  destruct (scan_members fuel (String c t')) as [[kvs r']|] eqn:E;
    cases_char c; rewrite ?E; try done; by intros [= <- <-].
Qed.

(** No proper prefix of an object's encoding is a JSON text. *)
Lemma loads_prefix_None {RL : RuntimeLaws R} kvs p x :
  encode (JObj kvs) = Ok (p +:+ x) → no_float (JObj kvs) = true → x ≠ "" →
  json_loads p = None.
Proof.
  intros He Hf Hx. pose proof (encode_obj_Ok _ _ He) as (_ & ms & _ & Hms).
  destruct p as [|c p]; [done|]. rewrite str_app_cons in Hms. injection Hms as -> _.
  set (s := String "{" p) in *.
  unfold json_loads. change (skip_ws s) with s.
  set (G := 2 * S (String.length (s +:+ x))).
  assert (2 * String.length s ≤ G) by (unfold G; rewrite str_length_app; lia).
  assert (scan_once (2 * S (String.length s)) s = scan_once G s) as ->.
  { rewrite (scan_once_fuel G), scan_once_fuel by lia. done. }
  destruct (scan_once G s) as [[v r]|] eqn:E; [|done]. cbn -[skip_ws].
  pose proof (scan_once_brace _ _ _ _ E) as Hv.
  pose proof (proj1 (scan_stable _) _ x _ _ E (or_introl Hv)) as E'.
  pose proof (scan_encode _ _ He Hf G "" eq_refl ltac:(unfold G; lia)) as Hfull.
  rewrite str_app_nil_r, E' in Hfull. injection Hfull as _ Hr.
  by apply str_app_eq_nil in Hr as [_ ?].
Qed.

(** The encoder is idempotent through [canon]: a canonical text is its own
    canonical form. *)
Lemma encode_canon {RL : RuntimeLaws R} v s :
  encode v = Ok s → encode (canon v) = Ok s.
Proof.
  revert s. induction v as [|b|n|f|s|l IH|kvs IH] using json_ind'; intros t Ht; try done.
  - cbn in *. unfold _encode_string in *. by rewrite nfc_idemp.
  - cbn in *. unfold _encode_seq in *.
    apply result_bind_ok in Ht as (ms & Hms%mapM_Ok & [= <-]).
    apply result_bind_ok. exists ms. split; [|done]. apply mapM_Ok, Forall2_fmap_l.
    apply Forall2_same_length_lookup. apply Forall2_same_length_lookup in Hms as [Hl Hms].
    split; [done|]. intros i x y Hx Hy. rewrite Forall_lookup in IH. eauto.
  - rewrite encode_obj, encode_dict_Ok in Ht. destruct Ht as (Hn & Hb & ms & Hms & ->).
    rewrite sorted_members_map in Hms. apply Forall2_fmap_l in Hms.
    rewrite canon_obj, encode_obj, encode_dict_Ok, <-list_fmap_compose.
    set (L := compose _ _ <$> sorted_members kvs).
    assert (Dict.keys L ≡ₚ Dict.keys (nfc_items ((λ kv, (kv.1, encode kv.2)) <$> kvs))) as HkL.
    { unfold L, Dict.keys, nfc_items. rewrite <-!list_fmap_compose.
      unfold sorted_members. by rewrite (py_sorted_perm key_le), <-list_fmap_compose. }
    assert (nfc_items L = L) as HnL.
    { unfold nfc_items, L. rewrite <-list_fmap_compose. apply list_fmap_ext.
      intros i [k x] (kv & _ & Hk & _)%list_elem_of_lookup_2%elem_of_sorted_members.
      simpl in *. by rewrite Hk, nfc_idemp. }
    assert (py_sorted key_le L = L) as HsL.
    { unfold L. rewrite (py_sorted_fmap key_le key_le) by done. f_equal.
      apply py_sorted_id, py_sorted_ssorted; unfold key_le;
        eauto using str_leb_total, str_leb_trans. }
    rewrite HnL, HkL, HsL. split_and!; [done..|]. exists ms. split; [|done].
    apply Forall2_fmap_l. apply Forall2_same_length_lookup.
    apply Forall2_same_length_lookup in Hms as [Hl Hms]. split; [done|].
    intros i [k x] m Hx Hm. destruct (Hms i (k, x) m Hx Hm) as (t & Ht & ->).
    exists t. split; [|done]. simpl in *.
    apply list_elem_of_lookup_2, elem_of_sorted_members in Hx as ([k' x'] & Hin & _ & Hx2).
    simpl in Hx2. subst x. rewrite Forall_forall in IH. by apply (IH (k', x')).
Qed.
End fuel.
