(* ===== verification/CanonicalLaws.v ===== *)
(** * What [canonical.py] guarantees

    Termination on every object graph, exactness against the tree encoder,
    independence of dict order, the round trip through [json.loads], and the
    fate of truncated text. *)

From S2P Require Import Prelude Canonical CanonicalRead CanonicalScan CanonicalPrefix.

Section laws.
Context {R : Runtime}.

Lemma encode_seq_Ok {A} (w : A → result jcs_error string) items s :
  _encode_seq w items = Ok s ↔
  ∃ ms, Forall2 (λ x m, w x = Ok m) items ms ∧ s = "[" +:+ str_join "," ms +:+ "]".
Proof.
  unfold _encode_seq. rewrite result_bind_ok. setoid_rewrite mapM_Ok. naive_solver.
Qed.

(** A dict that encodes has string keys only. *)
Lemma normalise_keys_str {A} seen (items : list (pykey * A)) l :
  normalise_keys seen items = Ok l → ∃ kvs, items = str_items kvs.
Proof.
  revert seen l. induction items as [|[[k|t] x] items IH]; intros seen l; [|..|done].
  - intros _. by exists [].
  - simpl. case_bool_decide; [done|].
    destruct (normalise_keys _ items) as [l'|] eqn:E; [|done]. intros _.
    destruct (IH _ _ E) as [kvs ->]. by exists ((k, x) :: kvs).
Qed.

Lemma encode_dict_str {A} (w : A → result jcs_error string) items s :
  _encode_dict w items = Ok s → ∃ kvs, items = str_items kvs.
Proof.
  unfold _encode_dict. intros (l & Hl & _)%result_bind_ok. by eapply normalise_keys_str.
Qed.

(** Every value of a dict that encodes was encoded. *)
Lemma encode_dict_values {A} (w : A → result jcs_error string) kvs s :
  _encode_dict w (str_items kvs) = Ok s → Forall (λ kx, is_Some (match w kx.2 with Ok t => Some t | Err _ => None end)) kvs.
Proof.
  rewrite encode_dict_Ok. intros (_ & _ & ms & Hms & _).
  apply Forall_forall. intros [k x] Hin.
  assert ((nfc k, x) ∈ py_sorted key_le (nfc_items kvs)) as Hs.
  { apply elem_of_py_sorted, list_elem_of_fmap. by exists (k, x). }
  apply list_elem_of_lookup in Hs as [i Hi].
  destruct (Forall2_lookup_l _ _ _ _ _ Hms Hi) as (m & _ & t & Ht & _).
  simpl in *. by rewrite Ht.
Qed.

(** A walk that returns has unfolded the value to a tree. *)
Lemma walk_reify fuel h v seen s :
  _walk fuel h v seen = Ok s → ∃ j, reify fuel h v = Some j ∧ encode j = Ok s.
Proof.
  revert v seen s. induction fuel as [|fuel IH]; intros v seen s;
    (destruct v as [|b|n|f|t|vid]; cbn [_walk reify]; [by eauto..|]);
    destruct (h !! vid) as [[v|items|items|t]|] eqn:Ho; try done;
    (destruct (decide (vid ∈ seen)); [done|]); try done.
  - apply IH.
  - intros (ms & Hms & ->)%encode_seq_Ok.
    assert (∃ js, mapM (reify fuel h) items = Some js ∧ Forall2 (λ j m, encode j = Ok m) js ms)
      as (js & -> & Hjs).
    { clear Ho. induction Hms as [|x m items ms Hx _ IHms]; [by exists []|].
      destruct IHms as (js & Hjs & ?). destruct (IH _ _ _ Hx) as (j & Hj & ?).
      exists (j :: js). simpl. rewrite Hj, Hjs. by repeat constructor. }
    eexists. split; [done|]. cbn [encode]. apply encode_seq_Ok. eauto.
  - intros H. destruct (encode_dict_str _ _ _ H) as [kvs ->].
    pose proof (encode_dict_values _ _ _ H) as Hv.
    assert (∃ js, mapM (λ kx : pykey * pyvalue, match kx.1 with
               | KStr s => (s,.) <$> reify fuel h kx.2 | KOther _ => None end) (str_items kvs)
               = Some js ∧
             Forall2 (λ kx kj, kx.1 = kj.1 ∧
                _walk fuel h kx.2 ({[vid]} ∪ seen) = encode kj.2) kvs js) as (js & -> & Hjs).
    { clear Ho H. induction kvs as [|[k x] kvs IHkvs]; [by exists []|].
      apply Forall_cons in Hv as [Hx Hv]. destruct (IHkvs Hv) as (js & Hjs & ?).
      simpl in Hx. destruct (_walk fuel h x _) as [t|] eqn:Et; [|by destruct Hx].
      destruct (IH _ _ _ Et) as (j & Hj & ?). exists ((k, j) :: js).
      rewrite str_items_cons. simpl. rewrite Hj, Hjs. split; [done|].
      constructor; [simpl; split; congruence|done]. }
    eexists. split; [done|]. rewrite <-H, encode_obj. symmetry. apply encode_dict_rel.
    unfold str_items. rewrite <-list_fmap_compose. apply Forall2_fmap.
    eapply Forall2_impl; [exact Hjs|]. intros [k x] [k' j] [? ?]. by simplify_eq/=.
Qed.

Lemma encode_seq_mono {A} (w w' : A → result jcs_error string) items s :
  (∀ x t, w x = Ok t → w' x = Ok t) →
  _encode_seq w items = Ok s → _encode_seq w' items = Ok s.
Proof.
  intros Hw. rewrite !encode_seq_Ok. intros (ms & Hms & ->). exists ms. split; [|done].
  eapply Forall2_impl; eauto.
Qed.
Lemma encode_dict_mono {A} (w w' : A → result jcs_error string) items s :
  (∀ x t, w x = Ok t → w' x = Ok t) →
  _encode_dict w items = Ok s → _encode_dict w' items = Ok s.
Proof.
  intros Hw H. destruct (encode_dict_str _ _ _ H) as [kvs ->]. revert H.
  rewrite !encode_dict_Ok. intros (? & ? & ms & Hms & ->). split_and!; [done..|].
  exists ms. split; [|done]. eapply Forall2_impl; [exact Hms|]. naive_solver.
Qed.

(** Reordering one dict object of the heap changes no encoding. *)
Lemma walk_reorder fuel h id items items' v seen s :
  h !! id = Some (ODict items) → items ≡ₚ items' →
  _walk fuel h v seen = Ok s → _walk fuel (<[id := ODict items']> h) v seen = Ok s.
Proof.
  intros Hid Hp. revert v seen s. induction fuel as [|fuel IH]; intros v seen s;
    (destruct v as [|b|n|f|t|vid]; [done..|]); cbn [_walk].
  { destruct (h !! vid) as [[]|]; try done; by destruct (decide (vid ∈ seen)). }
  destruct (decide (vid = id)) as [->|Hne];
    [rewrite lookup_insert_eq, Hid|rewrite lookup_insert_ne by done].
  - destruct (decide (id ∈ seen)); [done|]. intros H.
    destruct (encode_dict_str _ _ _ H) as [kvs ->].
    destruct (Permutation_map_inv _ _ (symmetry Hp)) as (kvs' & -> & Hk).
    apply (encode_dict_mono (λ v, _walk fuel h v ({[id]} ∪ seen))).
    { intros x t. apply IH. }
    by apply (encode_dict_perm _ kvs kvs').
  - destruct (h !! vid) as [[v|l|l|t]|]; [..|done|done];
      (destruct (decide (vid ∈ seen)); [done|]).
    + apply IH.
    + apply encode_seq_mono. intros x t. apply IH.
    + apply encode_dict_mono. intros x t. apply IH.
Qed.
End laws.

(** ** The guarantees *)

(** C38: [dumps_jcs] returns on every object graph, cyclic ones included: the
    set of visited ids bounds the recursion by the number of objects, so the
    walk never runs out of depth. *)
Theorem dumps_jcs_terminates {R : Runtime} h v : dumps_jcs h v ≠ Err OutOfFuel.
Proof.
  apply walk_fuel; [set_solver|]. rewrite size_empty. lia.
Qed.

Lemma dumps_jcs_encodes {R : Runtime} h v s :
  dumps_jcs h v = Ok s ↔ ∃ n j, reify n h v = Some j ∧ encode j = Ok s.
Proof.
  split.
  - intros (j & ? & ?)%walk_reify. eauto.
  - intros (n & j & Hj & <-). eapply walk_encode; [done|set_solver| |set_solver].
    rewrite size_empty. lia.
Qed.


(** An integer is encoded exactly below [10 ^ 4300]: past that [str] raises,
    though the docstring promises the digits of any magnitude. *)
Theorem int_encodes_iff n :
  (∃ s, _encode_int n = Ok s) ↔ (Z.abs n < 10 ^ default_max_str_digits)%Z.
Proof.
  setoid_rewrite encode_int_Ok. pose proof (int_digits_le (Z.to_nat default_max_str_digits) n) as H.
  rewrite Z2Nat.id in H by done. rewrite <-H by (apply Nat.leb_le; vm_compute; done). naive_solver.
Qed.

(** The encoding of a value does not depend on the insertion order of any
    dict in its graph: reordering the items of a dict object in the heap leaves
    the canonical bytes as they are. *)
Theorem dumps_jcs_order_independent {R : Runtime} h id items items' v s :
  h !! id = Some (ODict items) → items ≡ₚ items' → dumps_jcs h v = Ok s →
  dumps_jcs (<[id := ODict items']> h) v = Ok s.
Proof.
  intros Hid Hp Hs. unfold dumps_jcs. rewrite dom_insert_lookup_L by (by eexists).
  by eapply walk_reorder.
Qed.

(** C10: for a value without floats, reading back canonical bytes gives the value
    in canonical form: [json.loads(dumps_jcs(v))] is its tree with the
    members in key order and the text normalised, and encoding that again gives
    the same bytes. *)
Theorem loads_dumps_roundtrip {R : Runtime} {RL : RuntimeLaws R} h v n j s :
  reify n h v = Some j → no_float j = true → dumps_jcs h v = Ok s →
  json_loads s = Some (canon j) ∧ encode (canon j) = Ok s.
Proof.
  intros Hj Hf Hs. apply dumps_jcs_encodes in Hs as (m & j' & Hj' & Hs).
  assert (j' = j) as ->.
  { apply (reify_le _ (n `max` m)) in Hj, Hj'; [congruence|lia..]. }
  split; [by apply loads_encode|by apply encode_canon].
Qed.

(** A text cut short never parses: no proper prefix of the canonical bytes
    of a dict is a JSON text, so a torn line is told from a whole one. *)
Theorem truncated_dict_unreadable {R : Runtime} {RL : RuntimeLaws R} kvs p x :
  encode (JObj kvs) = Ok (p +:+ x) → no_float (JObj kvs) = true → x ≠ "" →
  json_loads p = None.
Proof. apply loads_prefix_None. Qed.

(** ** The guarantees at work *)
Definition sample_heap : heap :=
  {[ 1%N := ODict [(KStr "b", VRef 2); (KStr "a", VInt (-7))];
     2%N := OSeq [VStr "x"; VNone; VBool true] ]}.
Definition sample_text : string :=
  String "{" (_encode_string (R := plain_runtime) "a") +:+ ":-7," +:+
  _encode_string (R := plain_runtime) "b" +:+ ":[" +:+
  _encode_string (R := plain_runtime) "x" +:+ ",null,true]}".

Lemma dumps_jcs_order_independent_witness :
  dumps_jcs (R := plain_runtime) sample_heap (VRef 1) = Ok sample_text ∧
  dumps_jcs (R := plain_runtime)
    (<[1%N := ODict [(KStr "a", VInt (-7)); (KStr "b", VRef 2)]]> sample_heap) (VRef 1)
    = Ok sample_text.
Proof.
  split; [vm_compute; reflexivity|].
  apply (dumps_jcs_order_independent sample_heap 1
    [(KStr "b", VRef 2); (KStr "a", VInt (-7))]); [reflexivity|apply perm_swap|].
  vm_compute. reflexivity.
Defined.

Lemma loads_dumps_roundtrip_witness :
  json_loads (R := plain_runtime) sample_text =
    Some (JObj [("a", JInt (-7)); ("b", JArr [JStr "x"; JNull; JBool true])]).
Proof.
  apply (loads_dumps_roundtrip (R := plain_runtime) sample_heap (VRef 1) 2
    (JObj [("b", JArr [JStr "x"; JNull; JBool true]); ("a", JInt (-7))]));
    vm_compute; reflexivity.
Defined.

Lemma truncated_dict_unreadable_witness :
  json_loads (R := plain_runtime) (String "{" (_encode_string (R := plain_runtime) "a" +:+ ":-7")) = None.
Proof.
  apply (truncated_dict_unreadable (R := plain_runtime) [("a", JInt (-7))] _ "}");
    [vm_compute; reflexivity|reflexivity|discriminate].
Defined.

(** A list that holds itself is refused, not walked forever. *)
Example cyclic_list_refused :
  dumps_jcs (R := plain_runtime) {[ 1%N := OSeq [VInt 0; VRef 1] ]} (VRef 1) = Err (Cycle 1).
Proof. vm_compute. reflexivity. Qed.
