(* ===== verification/CanonicalLines.v ===== *)
(** * Canonical JSON as a line of a log

    The encoding of a value holds no newline, and it is UTF-8 when the texts in
    it are: a JSONL file splits where the writer put the newlines and decodes. *)

From S2P Require Import Prelude Canonical CanonicalRead CanonicalScan CanonicalPrefix.
From stdpp Require Import pretty.

(** ** UTF-8 *)
Lemma utf8_valid_app a b : utf8_valid a = true → utf8_valid (a +:+ b) = utf8_valid b.
Proof.
  revert b. induction a as [a IH] using str_length_ind; intros b.
  destruct a as [|c1 a1]; [done|]. rewrite str_app_cons. cbn [utf8_valid].
  destruct (byte_in 0 127 c1); [intros; apply IH; [simpl; lia|done]|].
  destruct a1 as [|c2 a2]; [done|]. rewrite str_app_cons.
  destruct (byte_in 194 223 c1).
  { intros [-> H]%andb_true_iff. simpl. apply IH; [simpl; lia|done]. }
  destruct a2 as [|c3 a3]; [done|]. rewrite str_app_cons.
  destruct (byte_in 224 239 c1).
  { intros [H1 H]%andb_true_iff. rewrite H1. simpl. apply IH; [simpl; lia|done]. }
  destruct a3 as [|c4 a4]; [done|]. rewrite str_app_cons.
  intros [H1 H]%andb_true_iff. rewrite H1. simpl. apply IH; [simpl; lia|done].
Qed.

Lemma utf8_valid_ascii s : str_forall (λ c, (ord c <? 128)%N) s = true → utf8_valid s = true.
Proof.
  induction s as [|c s IH]; [done|]. simpl. intros [Hc Hs]%andb_true_iff.
  assert (byte_in 0 127 c = true) as ->; [|by apply IH].
  unfold byte_in. apply N.ltb_lt in Hc. apply andb_true_iff. rewrite !N.leb_le. lia.
Qed.

Lemma escape_char_high c t : byte_in 0 127 c = false → escape_char c t = String c t.
Proof. by cases_char c. Qed.
Lemma escape_char_low c t :
  byte_in 0 127 c = true → utf8_valid t = true → utf8_valid (escape_char c t) = true.
Proof. cases_char c; try done; intros _ Ht; simpl; exact Ht. Qed.

Lemma byte_in_high lo hi c : (128 <= lo)%N → byte_in lo hi c = true → byte_in 0 127 c = false.
Proof.
  unfold byte_in. rewrite andb_true_iff, !N.leb_le, andb_false_iff, !N.leb_gt. lia.
Qed.
Lemma continuation_high c : continuation c = true → byte_in 0 127 c = false.
Proof. by apply byte_in_high. Qed.

Lemma escape_body_utf8 s : utf8_valid s = true → utf8_valid (escape_body s) = true.
Proof.
  induction s as [s IH] using str_length_ind.
  destruct s as [|c1 s1]; [done|]. cbn [utf8_valid escape_body].
  destruct (byte_in 0 127 c1) eqn:H1.
  { intros H. apply escape_char_low; [done|]. apply IH; [simpl; lia|done]. }
  rewrite escape_char_high by done. cbn [utf8_valid]. rewrite H1.
  destruct s1 as [|c2 s2]; [done|]. cbn [escape_body].
  destruct (byte_in 194 223 c1) eqn:H2.
  { intros [Hc H]%andb_true_iff. rewrite escape_char_high, Hc by by apply continuation_high.
    apply IH; [simpl; lia|done]. }
  destruct s2 as [|c3 s3]; [done|]. cbn [escape_body].
  assert (∀ b : bool, (if b then byte_in 160 191 c2
     else if (ord c1 =? 237)%N then byte_in 128 159 c2 else continuation c2) = true →
    byte_in 0 127 c2 = false) as Hb3.
  { intros [] Hb; [by eapply byte_in_high in Hb|].
    destruct (ord c1 =? 237)%N; [by eapply byte_in_high in Hb|by apply continuation_high]. }
  assert (∀ b : bool, (if b then byte_in 144 191 c2
     else if (ord c1 =? 244)%N then byte_in 128 143 c2 else continuation c2) = true →
    byte_in 0 127 c2 = false) as Hb4.
  { intros [] Hb; [by eapply byte_in_high in Hb|].
    destruct (ord c1 =? 244)%N; [by eapply byte_in_high in Hb|by apply continuation_high]. }
  destruct (byte_in 224 239 c1) eqn:H3.
  { intros [[Hx Hy]%andb_true_iff H]%andb_true_iff.
    rewrite (escape_char_high c2) by (by eapply Hb3).
    rewrite (escape_char_high c3) by by apply continuation_high.
    rewrite Hx, Hy. apply IH; [simpl; lia|done]. }
  destruct s3 as [|c4 s4]; [done|]. cbn [escape_body].
  intros [[[[Hw Hx]%andb_true_iff Hy]%andb_true_iff Hz]%andb_true_iff H]%andb_true_iff.
  rewrite (escape_char_high c2) by (by eapply Hb4).
  rewrite (escape_char_high c3), (escape_char_high c4) by by apply continuation_high.
  rewrite Hw, Hx, Hy, Hz. apply IH; [simpl; lia|done].
Qed.

Lemma utf8_join sep ms :
  utf8_valid sep = true → Forall (λ m, utf8_valid m = true) ms →
  utf8_valid (str_join sep ms) = true.
Proof.
  intros Hs. induction 1 as [|m ms Hm Hms IH]; [done|]. destruct ms; [done|].
  rewrite str_join_cons2, !utf8_valid_app; done.
Qed.

Lemma digits_utf8 ds : str_forall is_digit ds = true → utf8_valid ds = true.
Proof.
  induction ds as [|c ds IH]; [done|]. simpl. intros [Hc%is_digit_inv H]%andb_true_iff.
  set_unfold in Hc. naive_solver.
Qed.

Lemma pretty_Z_utf8 (n : Z) : utf8_valid (pretty n) = true.
Proof.
  destruct (pretty_Z_text n) as (ds & -> & Hd & _). apply digits_utf8 in Hd.
  by destruct (n <? 0)%Z; rewrite utf8_valid_app.
Qed.

Section lines.
Context {R : Runtime}.

(** Every text of the value decodes. *)
Fixpoint json_utf8 (v : json) : bool :=
  match v with
  | JStr s => utf8_valid (nfc s)
  | JArr l => forallb json_utf8 l
  | JObj kvs => forallb (λ kv, utf8_valid (nfc kv.1) && utf8_valid (nfc (nfc kv.1))
                                && json_utf8 kv.2) kvs
  | _ => true
  end.

Lemma encode_string_utf8 s : utf8_valid (nfc s) = true → utf8_valid (_encode_string s) = true.
Proof.
  intros Hs%escape_body_utf8. unfold _encode_string. simpl. by rewrite utf8_valid_app.
Qed.

Lemma encode_utf8 v s :
  encode v = Ok s → no_float v = true → json_utf8 v = true → utf8_valid s = true.
Proof.
  revert s. induction v as [|b|n|f|t|l IH|kvs IH] using json_ind'; intros s Hs Hf Hu.
  - by injection Hs as <-.
  - by destruct b; injection Hs as <-.
  - apply encode_int_Ok in Hs as [-> _]. apply pretty_Z_utf8.
  - done.
  - injection Hs as <-. by apply encode_string_utf8.
  - cbn in Hs. unfold _encode_seq in Hs.
    apply result_bind_ok in Hs as (ms & Hms%mapM_Ok & [= <-]).
    cbn in Hf, Hu. rewrite forallb_forall in Hf, Hu.
    rewrite (utf8_valid_app "["), utf8_valid_app; [done| |done]. apply utf8_join; [done|].
    eapply Forall2_Forall_r; [exact Hms|]. apply Forall_forall. intros x Hx m Hm.
    rewrite Forall_forall in IH. apply list_elem_of_In in Hx as Hx'. by apply (IH x Hx m); auto.
  - rewrite encode_obj, encode_dict_Ok in Hs. destruct Hs as (_ & _ & ms & Hms & ->).
    rewrite sorted_members_map in Hms. apply Forall2_fmap_l in Hms.
    cbn in Hf, Hu. rewrite forallb_forall in Hf, Hu.
    rewrite (utf8_valid_app "{"), utf8_valid_app; [done| |done]. apply utf8_join; [done|].
    eapply Forall2_Forall_r; [exact Hms|]. apply Forall_forall. intros [k x] Hx m (t & Ht & ->).
    apply elem_of_sorted_members in Hx as ([k' x'] & Hin & Hk & Hx2). simpl in *. subst k x'.
    apply list_elem_of_In in Hin as Hin'. specialize (Hu _ Hin'). simpl in Hu.
    apply andb_true_iff in Hu as [[_ Hu1]%andb_true_iff Hu2].
    rewrite utf8_valid_app by by apply encode_string_utf8. rewrite (utf8_valid_app ":") by done.
    rewrite Forall_forall in IH. eapply (IH (k', x)); [done|done|apply (Hf _ Hin')|done].
Qed.

(** *** No control character, no newline among them *)
Lemma no_char_app c s1 s2 : no_char c (s1 +:+ s2) = no_char c s1 && no_char c s2.
Proof. apply str_forall_app. Qed.

Definition no_ctl (s : string) : bool := str_forall (λ c, (31 <? ord c)%N) s.
Lemma no_ctl_app s1 s2 : no_ctl (s1 +:+ s2) = no_ctl s1 && no_ctl s2.
Proof. apply str_forall_app. Qed.
Lemma no_ctl_no_char c s : (ord c <= 31)%N → no_ctl s = true → no_char c s = true.
Proof.
  intros Hc. unfold no_ctl, no_char. induction s as [|x s IH]; [done|]. cbn.
  intros [Hx%N.ltb_lt Hs]%andb_true_iff. rewrite IH by done. rewrite andb_true_r.
  apply negb_true_iff, Ascii.eqb_neq. intros ->. lia.
Qed.

Lemma escape_body_no_ctl s : no_ctl (escape_body s) = true.
Proof.
  induction s as [|c s IH]; [done|]. simpl. cases_char c; simpl; exact IH.
Qed.
Lemma encode_string_no_ctl s : no_ctl (_encode_string s) = true.
Proof.
  unfold _encode_string. change (no_ctl (escape_body (nfc s) +:+ String dquote "") = true).
  by rewrite no_ctl_app, escape_body_no_ctl.
Qed.
Lemma join_no_ctl ms :
  Forall (λ m, no_ctl m = true) ms → no_ctl (str_join "," ms) = true.
Proof.
  induction 1 as [|m ms Hm Hms IH]; [done|]. destruct ms; [done|].
  by rewrite str_join_cons2, !no_ctl_app, Hm, IH.
Qed.

Lemma pretty_Z_no_ctl (n : Z) : no_ctl (pretty n) = true.
Proof.
  destruct (pretty_Z_text n) as (ds & -> & Hd & _). rewrite no_ctl_app.
  apply andb_true_iff. split; [by destruct (n <? 0)%Z|].
  induction ds as [|c ds IH]; [done|]. simpl in *.
  apply andb_true_iff in Hd as [Hc%is_digit_inv Hd]. unfold no_ctl in *. simpl.
  rewrite IH by done. set_unfold in Hc. naive_solver.
Qed.

Lemma encode_no_ctl v s :
  encode v = Ok s → no_float v = true → no_ctl s = true.
Proof.
  revert s. induction v as [|b|n|f|t|l IH|kvs IH] using json_ind'; intros s Hs Hf.
  - by injection Hs as <-.
  - by destruct b; injection Hs as <-.
  - apply encode_int_Ok in Hs as [-> _]. apply pretty_Z_no_ctl.
  - done.
  - injection Hs as <-. apply encode_string_no_ctl.
  - cbn in Hs. unfold _encode_seq in Hs.
    apply result_bind_ok in Hs as (ms & Hms%mapM_Ok & [= <-]).
    cbn in Hf. rewrite forallb_forall in Hf. rewrite !no_ctl_app.
    apply andb_true_iff. split; [done|]. apply andb_true_iff. split; [|done].
    apply join_no_ctl.
    eapply Forall2_Forall_r; [exact Hms|]. apply Forall_forall. intros x Hx m Hm.
    rewrite Forall_forall in IH. apply list_elem_of_In in Hx as Hx'. by apply (IH x Hx m); auto.
  - rewrite encode_obj, encode_dict_Ok in Hs. destruct Hs as (_ & _ & ms & Hms & ->).
    rewrite sorted_members_map in Hms. apply Forall2_fmap_l in Hms.
    cbn in Hf. rewrite forallb_forall in Hf. rewrite !no_ctl_app.
    apply andb_true_iff. split; [done|]. apply andb_true_iff. split; [|done].
    apply join_no_ctl.
    eapply Forall2_Forall_r; [exact Hms|]. apply Forall_forall. intros [k x] Hx m (t & Ht & ->).
    apply elem_of_sorted_members in Hx as ([k' x'] & Hin & Hk & Hx2). cbn [fst snd] in *. subst k x'.
    apply list_elem_of_In in Hin as Hin'.
    rewrite !no_ctl_app, encode_string_no_ctl. apply andb_true_iff. split; [done|].
    apply andb_true_iff. split; [done|].
    rewrite Forall_forall in IH. eapply (IH (k', x)); [done|done|apply (Hf _ Hin')].
Qed.
Lemma encode_no_newline v s :
  encode v = Ok s → no_float v = true → no_char newline s = true.
Proof. intros Hs Hf. apply no_ctl_no_char; [by vm_compute|]. by eapply encode_no_ctl. Qed.

(** *** Values a log writes: normal, decodable text under ASCII keys; in
    [plain_json] also integers that [str] writes, so that they encode *)
Definition int_fits (n : Z) : bool := (int_digits n <=? default_max_str_digits)%Z.
Definition ascii_text (s : string) : bool := str_forall (λ c, (ord c <? 128)%N) s.
Definition plain_text (s : string) : bool := String.eqb (nfc s) s && utf8_valid s.

Fixpoint plain_with (ok : Z → bool) (v : json) : bool :=
  match v with
  | JInt n => ok n
  | JFloat _ => false
  | JStr s => plain_text s
  | JArr l => forallb (plain_with ok) l
  | JObj kvs => bool_decide (NoDup (Dict.keys kvs)) &&
                forallb (λ kv, ascii_text kv.1 && plain_with ok kv.2) kvs
  | _ => true
  end.

Lemma ascii_bmp s : ascii_text s = true → _check_bmp_only s = true.
Proof.
  unfold ascii_text, _check_bmp_only. induction s as [|c s IH]; [done|]. simpl.
  intros [Hc Hs]%andb_true_iff. rewrite IH by done. apply N.ltb_lt in Hc.
  rewrite andb_true_r. apply N.ltb_lt. lia.
Qed.

Context {RL : RuntimeLaws R}.

Lemma ascii_nfc s : ascii_text s = true → nfc s = s.
Proof using RL. apply nfc_ascii. Qed.

Lemma ascii_plain s : ascii_text s = true → plain_text s = true.
Proof using RL.
  intros Hs. unfold plain_text. rewrite (ascii_nfc s Hs), String.eqb_refl.
  by apply utf8_valid_ascii.
Qed.

Lemma plain_text_nfc s : plain_text s = true → nfc s = s.
Proof. unfold plain_text. by intros [?%String.eqb_eq _]%andb_true_iff. Qed.

Lemma plain_keys {ok} kvs : plain_with ok (JObj kvs) = true →
  NoDup (Dict.keys kvs) ∧ Forall (λ kv, nfc kv.1 = kv.1 ∧ ascii_text kv.1 = true) kvs ∧
  Forall (λ kv, plain_with ok kv.2 = true) kvs.
Proof using RL.
  cbn. intros [Hn%bool_decide_eq_true Hk]%andb_true_iff. rewrite forallb_forall in Hk.
  split_and!; [done|..]; apply Forall_forall; intros kv Hkv%list_elem_of_In%Hk;
    apply andb_true_iff in Hkv as [Ha Hv]; [|done]. split; [by apply ascii_nfc|done].
Qed.

Lemma nfc_items_plain {A} (kvs : list (string * A)) :
  Forall (λ kv, nfc kv.1 = kv.1) kvs → nfc_items kvs = kvs.
Proof.
  induction 1 as [|[k v] kvs Hk _ IH]; [done|]. unfold nfc_items in *. cbn in *. congruence.
Qed.

Lemma plain_no_float {ok} v : plain_with ok v = true → no_float v = true.
Proof.
  induction v as [|b|n|f|t|l IH|kvs IH] using json_ind'; try done; cbn.
  - rewrite !forallb_forall. intros H x Hx. rewrite Forall_forall in IH.
    apply IH; [by apply list_elem_of_In|by apply H].
  - intros [_ H]%andb_true_iff. revert H. rewrite !forallb_forall. intros H x Hx.
    rewrite Forall_forall in IH. apply IH; [by apply list_elem_of_In|].
    by apply H, andb_true_iff in Hx as [_ ?].
Qed.

Lemma plain_utf8 {ok} v : plain_with ok v = true → json_utf8 v = true.
Proof using RL.
  induction v as [|b|n|f|t|l IH|kvs IH] using json_ind'; try done.
  - cbn. intros Ht. rewrite (plain_text_nfc _ Ht). by apply andb_true_iff in Ht as [_ ?].
  - cbn. rewrite !forallb_forall. intros H x Hx. rewrite Forall_forall in IH.
    apply IH; [by apply list_elem_of_In|by apply H].
  - intros (_ & Hk & Hv)%plain_keys. cbn. apply forallb_forall. intros x Hx%list_elem_of_In.
    rewrite Forall_forall in IH, Hk, Hv. destruct (Hk _ Hx) as [Hn Ha].
    rewrite !Hn, (utf8_valid_ascii _ Ha), (IH _ Hx) by by apply Hv. done.
Qed.

Lemma mapM_is_ok {E A B} (f : A → result E B) l :
  Forall (λ x, is_ok (f x) = true) l → ∃ ys, mapM f l = Ok ys.
Proof.
  induction 1 as [|x l Hx _ [ys IH]]; [by exists []|]. cbn.
  destruct (f x) as [y|]; [|done]. exists (y :: ys). by rewrite IH.
Qed.

Lemma plain_encode v : plain_with int_fits v = true → is_ok (encode v) = true.
Proof using RL.
  induction v as [|b|n|f|t|l IH|kvs IH] using json_ind'; try done.
  - cbn. unfold int_fits, _encode_int. by intros ->.
  - cbn. rewrite forallb_forall. intros H. unfold _encode_seq.
    destruct (mapM_is_ok encode l) as [ys ->]; [|done].
    rewrite Forall_forall in IH |- *. intros x Hx. apply IH; [done|].
    by apply H, list_elem_of_In.
  - intros (Hn & Hk & Hv)%plain_keys. rewrite encode_obj. unfold _encode_dict.
    set (es := (λ kv, (kv.1, encode kv.2)) <$> kvs).
    assert (Forall (λ kv, nfc kv.1 = kv.1) es) as Hes.
    { apply Forall_fmap. eapply Forall_impl; [exact Hk|]. by intros kv [? _]. }
    assert (normalise_keys [] (str_items es) = Ok es) as ->.
    { apply normalise_str_items. rewrite nfc_items_plain by done.
      split_and!; [done| |set_solver]. unfold es, Dict.keys in *.
      by rewrite <-list_fmap_compose. }
    cbn. assert (check_keys es = Ok ()) as ->.
    { apply check_keys_Ok. unfold es, Dict.keys. rewrite <-list_fmap_compose.
      apply Forall_fmap. eapply Forall_impl; [exact Hk|]. intros kv [_ ?]. by apply ascii_bmp. }
    cbn. match goal with |- context [mapM ?f ?l] => destruct (mapM_is_ok f l) as [ys ->] end; [|done].
    rewrite py_sorted_perm. apply Forall_fmap. rewrite Forall_forall in IH, Hv |- *.
    intros [k x] Hx. specialize (IH _ Hx (Hv _ Hx)). cbn in *. by destruct (encode x).
Qed.

(** Reading a member back from the canonical form. *)
Lemma get_canon_keys kvs : NoDup (Dict.keys kvs) → Forall (λ kv, ascii_text kv.1 = true) kvs →
  ∃ kvs', canon (JObj kvs) = JObj kvs' ∧ ∀ k, Dict.get kvs' k = canon <$> Dict.get kvs k.
Proof using RL.
  intros Hn Hk. eexists. split; [apply canon_obj|]. intros k.
  assert (sorted_members kvs = py_sorted key_le kvs) as ->.
  { unfold sorted_members. f_equal. apply nfc_items_plain.
    eapply Forall_impl; [exact Hk|]. intros kv. apply ascii_nfc. }
  rewrite (Dict.get_perm kvs (py_sorted key_le kvs)); [|done|by rewrite py_sorted_perm].
  apply Dict.get_fmap.
Qed.
Lemma get_canon {ok} kvs : plain_with ok (JObj kvs) = true →
  ∃ kvs', canon (JObj kvs) = JObj kvs' ∧ ∀ k, Dict.get kvs' k = canon <$> Dict.get kvs k.
Proof using RL.
  intros (Hn & Hk & _)%plain_keys. apply get_canon_keys; [done|].
  eapply Forall_impl; [exact Hk|]. by intros kv [_ ?].
Qed.

Lemma plain_hex b : plain_text (hex b) = true.
Proof using RL. apply ascii_plain, hex_ascii. Qed.
Lemma nfc_hex b : nfc (hex b) = hex b.
Proof using RL. apply plain_text_nfc, plain_hex. Qed.

Lemma plain_obj {ok} (p : list (string * json)) :
  bool_decide (NoDup (Dict.keys p)) = true →
  Forall (λ kv, ascii_text kv.1 = true ∧ plain_with ok kv.2 = true) p →
  plain_with ok (JObj p) = true.
Proof.
  intros Hn Hp. cbn. rewrite Hn. apply forallb_forall. intros kv Hkv%list_elem_of_In.
  rewrite Forall_forall in Hp. apply andb_true_iff. by apply Hp.
Qed.

Lemma plain_set {ok} p k v : plain_with ok (JObj p) = true → ascii_text k = true →
  plain_with ok v = true → plain_with ok (JObj (Dict.set p k v)) = true.
Proof using RL.
  intros (Hn & Hk & Hv)%plain_keys Hak Hpv. apply plain_obj.
  - apply bool_decide_eq_true. by apply Dict.NoDup_keys_set.
  - clear Hn. induction p as [|[k' v'] p IH]; cbn; [by repeat constructor|].
    apply Forall_cons in Hk as [[_ Hk1] Hk], Hv as [Hv1 Hv]. cbn in *.
    case_decide; subst; (constructor; [done|]); [|by apply IH].
    rewrite Forall_forall in Hk, Hv |- *. intros x Hx. split; [by apply Hk|by apply Hv].
Qed.
End lines.

Notation plain_json := (plain_with int_fits).
Notation text_json := (plain_with (λ _, true)).
