(* ===== verification/JsonText.v ===== *)
(** * [json.dumps] and what [json.loads] makes of it

    The standard library's writer as the program calls it: text escaped to
    ASCII, floats by their [repr], an optional indent, optional sorted keys.
    Reading a written value gives the value back ([loads_dumps]). *)

From S2P Require Import Prelude Canonical CanonicalRead CanonicalScan CanonicalPrefix CanonicalLines.
From stdpp Require Import pretty.
From Stdlib Require Import Floats.SpecFloat.

(** Decides the comparisons of two literal keys. *)
Ltac decide_keys :=
  repeat match goal with
  | |- context [decide (?a = ?b)] =>
      first [rewrite (decide_True (P := a = b)) by reflexivity
            |rewrite (decide_False (P := a = b)) by discriminate]
  end.
Ltac decide_keys_in H :=
  repeat match type of H with
  | context [decide (?a = ?b)] =>
      first [rewrite (decide_True (P := a = b)) in H by reflexivity
            |rewrite (decide_False (P := a = b)) in H by discriminate]
  end.

(** ** Code points *)

(** The code points of UTF-8 text; bytes that do not decode end it. *)
Definition low6 (c : ascii) : N := (ord c - 0x80)%N.
Fixpoint utf8_decode (s : string) : list N :=
  match s with
  | "" => []
  | String a s1 =>
      if byte_in 0 0x7F a then ord a :: utf8_decode s1
      else match s1 with
      | "" => []
      | String b s2 =>
          if byte_in 0xC2 0xDF a then ((ord a - 0xC0) * 64 + low6 b)%N :: utf8_decode s2
          else match s2 with
          | "" => []
          | String c s3 =>
              if byte_in 0xE0 0xEF a
              then ((ord a - 0xE0) * 4096 + low6 b * 64 + low6 c)%N :: utf8_decode s3
              else match s3 with
              | "" => []
              | String d s4 =>
                  ((ord a - 0xF0) * 262144 + low6 b * 4096 + low6 c * 64 + low6 d)%N
                    :: utf8_decode s4
              end
          end
      end
  end.
Definition str_concat (l : list string) : string := foldr (λ a b, a +:+ b) "" l.
Definition utf8_text (cps : list N) : string := str_concat (utf8_encode <$> cps).

(** A Unicode scalar value. *)
Definition scalar (cp : N) : bool := (cp <? 0x110000)%N && negb (is_high cp || is_low cp).

(** ** Writing *)
Definition u_escape (n : N) : string :=
  String "\" (String "u" (String (hex_digit (n / 4096)) (String (hex_digit (n / 256 mod 16))
    (String (hex_digit (n / 16 mod 16)) (String (hex_digit (n mod 16)) ""))))).

(** [ESCAPE_DCT] and [ESCAPE_ASCII] of [json.encoder]. *)
Definition escape_cp (cp : N) : string :=
  if (cp =? 0x22)%N then String "\" (String dquote "")
  else if (cp =? 0x5C)%N then "\\"
  else if (cp =? 0x0A)%N then "\n"
  else if (cp =? 0x0D)%N then "\r"
  else if (cp =? 0x09)%N then "\t"
  else if (cp =? 0x0C)%N then "\f"
  else if (cp =? 0x08)%N then "\b"
  else if (0x20 <=? cp)%N && (cp <=? 0x7E)%N then String (ascii_of_N cp) ""
  else if (cp <? 0x10000)%N then u_escape cp
  else u_escape (0xD800 + (cp - 0x10000) / 1024) +:+ u_escape (0xDC00 + (cp - 0x10000) mod 1024).

Definition dumps_str (s : string) : string :=
  String dquote (str_concat (escape_cp <$> utf8_decode s)) +:+ String dquote "".

(** The layout: [indent=None] with [", "] between items, or an indent. *)
Fixpoint spaces (n : nat) : string := match n with O => "" | S n => String " " (spaces n) end.
Definition line_break (indent : option nat) (level : nat) : string :=
  match indent with None => "" | Some n => String newline (spaces (n * level)) end.
Definition after_comma (indent : option nat) (level : nat) : string :=
  match indent with None => " " | Some _ => line_break indent level end.

Fixpoint sort_keys (v : json) : json :=
  match v with
  | JArr l => JArr (sort_keys <$> l)
  | JObj kvs => JObj (py_sorted key_le ((λ kv, (kv.1, sort_keys kv.2)) <$> kvs))
  | v => v
  end.

Section text.
Context {R : Runtime}.

Definition dumps_float (f : spec_float) : string :=
  match f with
  | S754_nan => "NaN"
  | S754_infinity false => "Infinity"
  | S754_infinity true => "-Infinity"
  | f => float_repr f
  end.

Fixpoint render (indent : option nat) (level : nat) (v : json) : string :=
  match v with
  | JNull => "null"
  | JBool true => "true"
  | JBool false => "false"
  | JInt n => pretty n
  | JFloat f => dumps_float f
  | JStr s => dumps_str s
  | JArr [] => "[]"
  | JArr l =>
      "[" +:+ line_break indent (S level) +:+
      str_join ("," +:+ after_comma indent (S level)) (render indent (S level) <$> l) +:+
      line_break indent level +:+ "]"
  | JObj [] => "{}"
  | JObj kvs =>
      "{" +:+ line_break indent (S level) +:+
      str_join ("," +:+ after_comma indent (S level))
        ((λ kv, dumps_str kv.1 +:+ ": " +:+ render indent (S level) kv.2) <$> kvs) +:+
      line_break indent level +:+ "}"
  end.

(** [json.dumps(v, indent=indent)] and [json.dumps(v, indent=indent, sort_keys=True)] *)
Definition json_dumps (indent : option nat) (v : json) : string := render indent 0 v.
Definition json_dumps_sorted (indent : option nat) (v : json) : string :=
  render indent 0 (sort_keys v).
End text.

(** ** Reading a string back *)
Lemma str_concat_cons a l : str_concat (a :: l) = a +:+ str_concat l.
Proof. done. Qed.

Lemma hex_value_digit n : (n < 16)%N → hex_value (hex_digit n) = Some n.
Proof.
  intros H.
  assert (n ∈ [0;1;2;3;4;5;6;7;8;9;10;11;12;13;14;15]%N) as Hn.
  { apply list_elem_of_In. simpl. lia. }
  set_unfold in Hn. naive_solver.
Qed.

Lemma scan_u_escape n (r : string) : (n < 0x10000)%N →
  ∃ a b c d, u_escape n = String "\" (String "u" (String a (String b (String c (String d ""))))) ∧
             hex4 a b c d = Some n.
Proof.
  intros Hn. unfold u_escape. eexists _, _, _, _. split; [done|].
  unfold hex4. rewrite !hex_value_digit by (try apply N.mod_lt; try apply N.Div0.div_lt_upper_bound; lia).
  cbn -[N.mul N.div N.modulo N.add]. f_equal. zify. Z.to_euclidean_division_equations. lia.
Qed.

Lemma ascii_cases (P : N → Prop) : (∀ c : ascii, (ord c <? 128)%N = true → P (ord c)) →
  ∀ cp, (cp < 128)%N → P cp.
Proof.
  intros H cp Hcp. specialize (H (ascii_of_N cp)). unfold ord in H.
  rewrite N_ascii_embedding in H by lia. apply H. by apply N.ltb_lt.
Qed.

Lemma scan_escape_cp_ascii cp t body r : (cp < 128)%N →
  scan_string t = Some (body, r) →
  scan_string (escape_cp cp +:+ t) = Some (utf8_encode cp +:+ body, r).
Proof.
  intros Hcp H. revert cp Hcp. apply ascii_cases. intros c Hc.
  destruct c as [[] [] [] [] [] [] [] []]; try done; clear Hc;
  match goal with |- context [escape_cp ?n] =>
    let v := eval vm_compute in (escape_cp n) in change (escape_cp n) with v;
    let u := eval vm_compute in (utf8_encode n) in change (utf8_encode n) with u
  end; rewrite !str_app_cons, !str_app_nil_l; simpl; by rewrite H.
Qed.

Lemma escape_cp_high cp : (128 <= cp)%N → escape_cp cp =
  if (cp <? 0x10000)%N then u_escape cp
  else u_escape (0xD800 + (cp - 0x10000) / 1024) +:+ u_escape (0xDC00 + (cp - 0x10000) mod 1024).
Proof.
  intros H. unfold escape_cp.
  repeat match goal with |- context [(cp =? ?n)%N] =>
    destruct (N.eqb_spec cp n); [lia|] end.
  destruct (N.leb_spec cp 0x7E); [lia|]. by rewrite andb_false_r.
Qed.

Lemma scan_bmp x1 x2 x3 x4 cp t body r :
  hex4 x1 x2 x3 x4 = Some cp → is_high cp = false → is_low cp = false →
  scan_string t = Some (body, r) →
  scan_string (String "\" (String "u" (String x1 (String x2 (String x3 (String x4 t)))))) =
  Some (utf8_encode cp +:+ body, r).
Proof. intros Hx Hh Hl Ht. cbn -[hex4 utf8_encode is_high is_low]. rewrite Hx.
  cbn -[utf8_encode is_high is_low]. by rewrite Hh, Hl, Ht.
Qed.

Lemma scan_pair x1 x2 x3 x4 y1 y2 y3 y4 hi lo t body r :
  hex4 x1 x2 x3 x4 = Some hi → is_high hi = true → hex4 y1 y2 y3 y4 = Some lo →
  is_low lo = true → scan_string t = Some (body, r) →
  scan_string (String "\" (String "u" (String x1 (String x2 (String x3 (String x4
    (String "\" (String "u" (String y1 (String y2 (String y3 (String y4 t)))))))))))) =
  Some (utf8_encode (0x10000 + (hi - 0xD800) * 1024 + (lo - 0xDC00)) +:+ body, r).
Proof.
  intros Hx Hh Hy Hl Ht. cbn -[hex4 utf8_encode is_high is_low N.add N.mul N.sub].
  rewrite Hx. cbn -[hex4 utf8_encode is_high is_low N.add N.mul N.sub]. rewrite Hh, Hy.
  cbn -[utf8_encode is_high is_low N.add N.mul N.sub]. by rewrite Hl, Ht.
Qed.

Lemma scan_escape_cp cp t body r : scalar cp = true →
  scan_string t = Some (body, r) →
  scan_string (escape_cp cp +:+ t) = Some (utf8_encode cp +:+ body, r).
Proof.
  unfold scalar. intros [Hmax Hs]%andb_true_iff Ht. apply N.ltb_lt in Hmax.
  apply negb_true_iff, orb_false_iff in Hs as [Hh Hl].
  destruct (N.lt_ge_cases cp 128) as [Hc|Hc]; [by apply scan_escape_cp_ascii|].
  rewrite escape_cp_high by done. destruct (N.ltb_spec cp 0x10000) as [Hb|Hb].
  - destruct (scan_u_escape cp r Hb) as (x1 & x2 & x3 & x4 & -> & Hx).
    rewrite !str_app_cons, str_app_nil_l. by apply scan_bmp.
  - set (hi := (0xD800 + (cp - 0x10000) / 1024)%N). set (lo := (0xDC00 + (cp - 0x10000) mod 1024)%N).
    assert (hi < 0xDC00)%N as Hhi.
    { unfold hi. enough ((cp - 0x10000) / 1024 < 1024)%N by lia.
      apply N.Div0.div_lt_upper_bound. lia. }
    assert (lo < 0xE000)%N as Hlo.
    { unfold lo. enough ((cp - 0x10000) mod 1024 < 1024)%N by lia. by apply N.mod_lt. }
    destruct (scan_u_escape hi r) as (x1 & x2 & x3 & x4 & -> & Hx); [lia|].
    destruct (scan_u_escape lo r) as (y1 & y2 & y3 & y4 & -> & Hy); [lia|].
    assert (is_high hi = true) as Hhi2.
    { unfold is_high. apply andb_true_iff. rewrite !N.leb_le. split; [apply N.le_add_r|lia]. }
    assert (is_low lo = true) as Hlo2.
    { unfold is_low. apply andb_true_iff. rewrite !N.leb_le. split; [apply N.le_add_r|lia]. }
    rewrite !str_app_cons, !str_app_nil_l, !str_app_cons, str_app_nil_l.
    rewrite (scan_pair _ _ _ _ _ _ _ _ hi lo _ body r) by done. do 4 f_equal.
    unfold hi, lo. zify. Z.to_euclidean_division_equations. lia.
Qed.

Lemma scan_escape_cps cps r : forallb scalar cps = true →
  scan_string (str_concat (escape_cp <$> cps) +:+ String dquote r) = Some (utf8_text cps, r).
Proof.
  induction cps as [|cp cps IH]; [done|]. cbn [forallb]. intros [Hc H]%andb_true_iff.
  rewrite fmap_cons, str_concat_cons, str_app_assoc.
  by apply scan_escape_cp; [|apply IH].
Qed.

(** Valid UTF-8 is the encoding of its code points. *)
Lemma ascii_ord c n : (ord c = n)%N → ascii_of_N n = c.
Proof. intros <-. apply ascii_N_embedding. Qed.

Lemma encode_1 a : byte_in 0 127 a = true → utf8_encode (ord a) = String a "" ∧ scalar (ord a) = true.
Proof. intros H. destruct a as [[] [] [] [] [] [] [] []]; done. Qed.

Lemma byte_in_iff lo hi c : byte_in lo hi c = true ↔ (lo ≤ ord c ∧ ord c ≤ hi)%N.
Proof. unfold byte_in. by rewrite andb_true_iff, !N.leb_le. Qed.
Lemma scalar_iff cp : scalar cp = true ↔ (cp < 0x110000 ∧ (cp < 0xD800 ∨ 0xDFFF < cp))%N.
Proof.
  unfold scalar, is_high, is_low.
  rewrite andb_true_iff, negb_true_iff, orb_false_iff, !andb_false_iff, N.ltb_lt, !N.leb_gt. lia.
Qed.

(** The arithmetic of the bytes, with the shifts as divisions. *)
Ltac byte_arith :=
  rewrite ?N.shiftr_div_pow2; repeat (f_equal; []); repeat f_equal; apply ascii_ord;
  change (2 ^ 18)%N with 262144%N; change (2 ^ 12)%N with 4096%N;
  change (2 ^ 6)%N with 64%N; change (2 ^ 0)%N with 1%N;
  zify; Z.to_euclidean_division_equations; lia.

Lemma encode_2 a b cp : byte_in 0xC2 0xDF a = true → continuation b = true →
  cp = ((ord a - 0xC0) * 64 + low6 b)%N →
  utf8_encode cp = String a (String b "") ∧ scalar cp = true.
Proof.
  unfold continuation, low6. rewrite !byte_in_iff, scalar_iff. intros Ha Hb Hcp.
  split; [|lia]. unfold utf8_encode.
  destruct (N.ltb_spec cp 0x80); [lia|]. destruct (N.ltb_spec cp 0x800); [|lia]. byte_arith.
Qed.

Lemma encode_3 a b c cp : byte_in 0xE0 0xEF a = true →
  (if (ord a =? 0xE0)%N then byte_in 0xA0 0xBF b
   else if (ord a =? 0xED)%N then byte_in 0x80 0x9F b else continuation b) = true →
  continuation c = true → cp = ((ord a - 0xE0) * 4096 + low6 b * 64 + low6 c)%N →
  utf8_encode cp = String a (String b (String c "")) ∧ scalar cp = true.
Proof.
  unfold continuation, low6. rewrite scalar_iff. intros Ha Hb Hc Hcp.
  apply byte_in_iff in Ha, Hc.
  assert (0x80 ≤ ord b ≤ 0xBF ∧ (ord a = 0xE0 → 0xA0 ≤ ord b) ∧ (ord a = 0xED → ord b ≤ 0x9F))%N as Hb'.
  { destruct (N.eqb_spec (ord a) 0xE0); [|destruct (N.eqb_spec (ord a) 0xED)];
      apply byte_in_iff in Hb; lia. }
  clear Hb. split; [|lia]. unfold utf8_encode.
  destruct (N.ltb_spec cp 0x80); [lia|]. destruct (N.ltb_spec cp 0x800); [lia|].
  destruct (N.ltb_spec cp 0x10000); [|lia]. byte_arith.
Qed.

Lemma encode_4 a b c d cp : byte_in 0xF0 0xF4 a = true →
  (if (ord a =? 0xF0)%N then byte_in 0x90 0xBF b
   else if (ord a =? 0xF4)%N then byte_in 0x80 0x8F b else continuation b) = true →
  continuation c = true → continuation d = true →
  cp = ((ord a - 0xF0) * 262144 + low6 b * 4096 + low6 c * 64 + low6 d)%N →
  utf8_encode cp = String a (String b (String c (String d ""))) ∧ scalar cp = true.
Proof.
  unfold continuation, low6. rewrite scalar_iff. intros Ha Hb Hc Hd Hcp.
  apply byte_in_iff in Ha, Hc, Hd.
  assert (0x80 ≤ ord b ≤ 0xBF ∧ (ord a = 0xF0 → 0x90 ≤ ord b) ∧ (ord a = 0xF4 → ord b ≤ 0x8F))%N as Hb'.
  { destruct (N.eqb_spec (ord a) 0xF0); [|destruct (N.eqb_spec (ord a) 0xF4)];
      apply byte_in_iff in Hb; lia. }
  clear Hb. split; [|lia]. unfold utf8_encode.
  destruct (N.ltb_spec cp 0x80); [lia|]. destruct (N.ltb_spec cp 0x800); [lia|].
  destruct (N.ltb_spec cp 0x10000); [lia|]. byte_arith.
Qed.

Lemma utf8_text_cons cp cps : utf8_text (cp :: cps) = utf8_encode cp +:+ utf8_text cps.
Proof. done. Qed.

Lemma utf8_decode_valid s : utf8_valid s = true →
  utf8_text (utf8_decode s) = s ∧ forallb scalar (utf8_decode s) = true.
Proof.
  induction s as [s IH] using str_length_ind. destruct s as [|a s1]; [done|].
  assert (∀ cp e rest, utf8_valid rest = true → String.length rest < String.length (String a s1) →
    utf8_encode cp = e ∧ scalar cp = true →
    utf8_text (cp :: utf8_decode rest) = e +:+ rest ∧
    forallb scalar (cp :: utf8_decode rest) = true) as Hstep.
  { intros cp e rest Hv Hlen [He Hs]. rewrite utf8_text_cons. cbn [forallb].
    destruct (IH rest Hlen Hv) as [-> ->]. by rewrite He, Hs. }
  cbn [utf8_valid utf8_decode]. destruct (byte_in 0 127 a) eqn:H1.
  { intros Hv. by apply (Hstep _ (String a "")); [|simpl; lia|apply encode_1]. }
  destruct s1 as [|b s2]; [done|]. destruct (byte_in 194 223 a) eqn:H2.
  { intros [Hb Hv]%andb_true_iff.
    by apply (Hstep _ (String a (String b ""))); [|simpl; lia|eapply encode_2]. }
  destruct s2 as [|c s3]; [done|]. destruct (byte_in 224 239 a) eqn:H3.
  { intros [[Hb Hc]%andb_true_iff Hv]%andb_true_iff.
    by apply (Hstep _ (String a (String b (String c "")))); [|simpl; lia|eapply encode_3]. }
  destruct s3 as [|d s4]; [done|].
  intros [[[[Ha Hb]%andb_true_iff Hc]%andb_true_iff Hd]%andb_true_iff Hv]%andb_true_iff.
  by apply (Hstep _ (String a (String b (String c (String d ""))))); [|simpl; lia|eapply encode_4].
Qed.

Lemma scan_dumps_str s r : utf8_valid s = true →
  ∃ t, dumps_str s +:+ r = String dquote t ∧ scan_string t = Some (s, r).
Proof.
  intros [Ht Hs]%utf8_decode_valid. unfold dumps_str.
  rewrite str_app_assoc, !str_app_cons, str_app_nil_l. eexists. split; [done|].
  rewrite scan_escape_cps by done. by rewrite Ht.
Qed.

(** ** Reading a value back *)
Section reading.
Context {R : Runtime}.

(** A float whose text reads back: the round trip of [repr]. *)
Definition float_reads (f : spec_float) : Prop :=
  ascii_text (dumps_float f) = true ∧
  ∀ r, number_end r = true → scan_scalar (dumps_float f +:+ r) = Some (JFloat f, r).

(** A value of the texts, keys and floats JSON carries without loss. *)
Inductive json_good : json → Prop :=
| good_null : json_good JNull
| good_bool b : json_good (JBool b)
| good_int n : json_good (JInt n)
| good_float f : float_reads f → json_good (JFloat f)
| good_str s : utf8_valid s = true → json_good (JStr s)
| good_arr l : Forall json_good l → json_good (JArr l)
| good_obj kvs : NoDup (Dict.keys kvs) → Forall (λ kv, utf8_valid kv.1 = true) kvs →
    Forall (λ kv, json_good kv.2) kvs → json_good (JObj kvs).

Definition all_ws (w : string) : bool := str_forall is_ws w.
Lemma skip_all_ws w s : all_ws w = true → skip_ws (w +:+ s) = skip_ws s.
Proof.
  induction w as [|c w IH]; [done|]. unfold all_ws in *. rewrite str_app_cons. simpl.
  intros [-> Hw]%andb_true_iff. by apply IH.
Qed.
Lemma all_ws_spaces n : all_ws (spaces n) = true.
Proof. by induction n. Qed.
Lemma all_ws_break i n : all_ws (line_break i n) = true.
Proof. destruct i; [apply all_ws_spaces|done]. Qed.
Lemma all_ws_comma i n : all_ws (after_comma i n) = true.
Proof. destruct i; [apply all_ws_spaces|done]. Qed.

(** The head of a value's text is no separator. *)
Lemma render_head i n v : json_good v → ∃ c t, render i n v = String c t ∧ value_head c = true.
Proof.
  destruct 1 as [|[]|z|f Hf|s _|[|v l] _|[|kv kvs] _ _ _]; cbn [render]; try (by eexists _, _).
  - destruct (pretty_Z_text z) as (ds & -> & Hd & _ & Hhd).
    destruct (z <? 0)%Z; [rewrite str_app_cons; eauto|]. rewrite str_app_nil_l.
    destruct Hhd as [->|(c & t & -> & _)]; [eauto|]. exists c, t. split; [done|].
    simpl in Hd. apply andb_true_iff in Hd as [Hd%is_digit_inv _].
    set_unfold in Hd. naive_solver.
  - destruct Hf as [_ Hf]. specialize (Hf "" eq_refl). rewrite str_app_nil_r in Hf.
    destruct (dumps_float f) as [|c t]; [done|]. exists c, t. split; [done|].
    destruct (value_head c) eqn:E; [done|]. exfalso. revert Hf E. clear.
    destruct c as [[] [] [] [] [] [] [] []]; done.
Qed.

Definition text_reads (i : option nat) (v : json) : Prop := json_good v →
  ∀ n fuel r, number_end r = true → 2 * String.length (render i n v) ≤ fuel →
  scan_once fuel (render i n v +:+ r) = Some (v, r).

Lemma number_end_ws w s : all_ws w = true → number_end s = true → number_end (w +:+ s) = true.
Proof.
  destruct w as [|c w]; [done|]. unfold all_ws. rewrite str_app_cons. cbn [str_forall number_end].
  intros [Hc _]%andb_true_iff _. by destruct c as [[] [] [] [] [] [] [] []].
Qed.

Lemma skip_ws_render i n v w s : json_good v → all_ws w = true →
  skip_ws (w +:+ (render i n v +:+ s)) = render i n v +:+ s.
Proof.
  intros (c & t & -> & Hc)%(render_head i n) Hw.
  rewrite skip_all_ws, str_app_cons by done. by apply skip_ws_head.
Qed.

Lemma scan_items_text i n w2 w0 l fuel r :
  all_ws w2 = true → all_ws w0 = true → Forall (text_reads i) l → Forall json_good l → l ≠ [] →
  2 * String.length (str_join ("," +:+ w2) (render i n <$> l)) + 1 ≤ fuel →
  scan_items fuel (str_join ("," +:+ w2) (render i n <$> l) +:+ w0 +:+ "]" +:+ r) = Some (l, r).
Proof.
  intros Hw2 Hw0. revert fuel. induction l as [|v l IH]; intros fuel Ht Hg Hne Hf; [done|].
  apply Forall_cons in Ht as [Hv Ht]. apply Forall_cons in Hg as [Hgv Hg].
  destruct fuel as [|fuel]; [lia|]. cbn [scan_items]. destruct l as [|v' l].
  - cbn in Hf |- *. rewrite (Hv Hgv n fuel) by (lia || by apply number_end_ws).
    cbn. by rewrite skip_all_ws.
  - rewrite !fmap_cons in Hf |- *. rewrite str_join_cons2 in Hf |- *.
    rewrite !str_length_app in Hf. change (String.length ",") with 1 in Hf.
    rewrite !str_app_assoc. rewrite (Hv Hgv n fuel) by (lia || done).
    cbn -[scan_items str_join skip_ws].
    change (skip_ws ("," +:+ ?x)) with (String "," x). cbn -[scan_items str_join skip_ws].
    assert (∃ c t, str_join ("," +:+ w2) (render i n <$> v' :: l) = String c t ∧
                   value_head c = true) as (c & t & Hc & Hh).
    { apply Forall_cons in Hg as [Hg' _]. destruct (render_head i n v' Hg') as (c & t & E & Hh).
      rewrite fmap_cons, E. destruct (render i n <$> l); rewrite ?str_join_cons2; cbn;
        rewrite ?str_app_cons; eauto. }
    rewrite <-fmap_cons in Hf |- *.
    rewrite skip_all_ws by done. rewrite Hc, str_app_cons, skip_ws_head, <-str_app_cons, <-Hc by done.
    rewrite IH; [done|done|done|done|lia].
Qed.

Definition member i n (kv : string * json) : string := dumps_str kv.1 +:+ ": " +:+ render i n kv.2.

Lemma scan_members_text i n w2 w0 l fuel r :
  all_ws w2 = true → all_ws w0 = true → Forall (λ kv, text_reads i kv.2) l →
  Forall (λ kv, utf8_valid kv.1 = true) l → Forall (λ kv, json_good kv.2) l → l ≠ [] →
  2 * String.length (str_join ("," +:+ w2) (member i n <$> l)) + 1 ≤ fuel →
  scan_members fuel (str_join ("," +:+ w2) (member i n <$> l) +:+ w0 +:+ "}" +:+ r) = Some (l, r).
Proof.
  intros Hw2 Hw0. revert fuel. induction l as [|[k v] l IH]; intros fuel Ht Hk Hg Hne Hf; [done|].
  apply Forall_cons in Ht as [Hv Ht]. apply Forall_cons in Hg as [Hgv Hg].
  apply Forall_cons in Hk as [Hkv Hk]. cbn in Hv, Hgv, Hkv.
  destruct fuel as [|fuel]; [lia|].
  set (rest := match l with [] => w0 +:+ "}" +:+ r
     | _ => "," +:+ (w2 +:+ (str_join ("," +:+ w2) (member i n <$> l) +:+ w0 +:+ "}" +:+ r)) end).
  assert (str_join ("," +:+ w2) (member i n <$> (k, v) :: l) +:+ w0 +:+ "}" +:+ r =
          dumps_str k +:+ (": " +:+ (render i n v +:+ rest))) as ->.
  { unfold rest. destruct l; rewrite !fmap_cons, ?str_join_cons2; cbn [str_join fmap list_fmap]; unfold member at 1;
      cbn [fst snd]; by rewrite !str_app_assoc. }
  assert (2 * String.length (render i n v) ≤ fuel) as Hfv.
  { destruct l; rewrite !fmap_cons, ?str_join_cons2 in Hf; cbn [str_join fmap list_fmap] in Hf;
      unfold member at 1 in Hf; cbn [fst snd] in Hf; rewrite !str_length_app in Hf; lia. }
  destruct (scan_dumps_str k (": " +:+ (render i n v +:+ rest)) Hkv) as (t & -> & Hs).
  cbn [scan_members]. rewrite Ascii.eqb_refl, Hs. cbn -[scan_once skip_ws render].
  change (skip_ws (": " +:+ ?x)) with (String ":" (" " +:+ x)). cbn -[scan_once skip_ws render].
  rewrite (skip_ws_render i n v " ") by done.
  assert (number_end rest = true) as Hrest by (unfold rest; destruct l; [by apply number_end_ws|done]).
  rewrite (Hv Hgv n fuel rest) by done. cbn -[scan_members skip_ws]. unfold rest.
  destruct l as [|[k' v'] l]; [by rewrite skip_all_ws|].
  change (skip_ws ("," +:+ ?x)) with (String "," x). cbn -[scan_members skip_ws str_join fmap].
  rewrite skip_all_ws by done.
  assert (∃ t, str_join ("," +:+ w2) (member i n <$> (k', v') :: l) = String dquote t) as [u Hu].
  { rewrite fmap_cons. unfold member at 1. cbn [fst]. unfold dumps_str.
    destruct (member i n <$> l); rewrite ?str_join_cons2; cbn; rewrite ?str_app_cons; eauto. }
  rewrite Hu, str_app_cons, skip_ws_head, <-str_app_cons, <-Hu by done.
  rewrite IH; [done..|]. rewrite !fmap_cons, str_join_cons2, !str_length_app in Hf.
  change (String.length ",") with 1 in Hf. rewrite <-fmap_cons in Hf. lia.
Qed.

Lemma scan_once_scalar fuel c t v r :
  scan_scalar (String c t) = Some (v, r) → scan_once (S fuel) (String c t) = Some (v, r).
Proof. intros H. destruct c as [[] [] [] [] [] [] [] []]; done. Qed.

Lemma scan_scalar_int z r : number_end r = true → scan_scalar (pretty z +:+ r) = Some (JInt z, r).
Proof.
  intros Hr. rewrite <-(scan_number_int z r Hr).
  destruct (pretty_Z_text z) as (ds & -> & Hd & _ & Hhd).
  assert (∃ c u, ds = String c u ∧ is_digit c = true) as (c & u & -> & Hc%is_digit_inv).
  { destruct Hhd as [->|(c & u & -> & _)]; [by eexists _, _|].
    simpl in Hd. apply andb_true_iff in Hd as [Hc _]. eauto. }
  destruct (z <? 0)%Z; set_unfold in Hc; naive_solver.
Qed.

Lemma render_reads i v : text_reads i v.
Proof.
  induction v as [|b|z|f|s|l IH|kvs IH] using json_ind'; intros Hg n fuel r Hr Hf;
    pose proof (render_head i n _ Hg) as (c & t & Hct & Hc);
    (destruct fuel as [|fuel]; [rewrite Hct in Hf; simpl in Hf; lia|]).
  - done.
  - by destruct b.
  - rewrite Hct, str_app_cons. apply scan_once_scalar. rewrite <-str_app_cons, <-Hct.
    by apply scan_scalar_int.
  - rewrite Hct, str_app_cons. apply scan_once_scalar. rewrite <-str_app_cons, <-Hct.
    inversion Hg as [| | |? [_ Hfl]| | |]; subst. by apply Hfl.
  - inversion Hg as [| | | |? Hs| |]; subst.
    destruct (scan_dumps_str s r Hs) as (u & Hu & Hsc). cbn [render]. rewrite Hu.
    cbn [scan_once]. by rewrite Ascii.eqb_refl, Hsc.
  - inversion Hg as [| | | | |? Hl|]; subst. destruct l as [|v l]; [done|].
    clear c t Hct Hc. cbn [render] in Hf |- *. set (w2 := after_comma i (S n)) in *.
    rewrite !str_app_assoc, str_app_cons, str_app_nil_l.
    rewrite !str_length_app in Hf. change (String.length "[") with 1 in Hf.
    pose proof (scan_items_text i (S n) w2 (line_break i n) (v :: l) fuel r
      (all_ws_comma _ _) (all_ws_break _ _) IH Hl ltac:(done) ltac:(lia)) as Hit.
    assert (∃ c u, str_join ("," +:+ w2) (render i (S n) <$> v :: l) = String c u ∧
              value_head c = true) as (c & u & Hcu & Hc).
    { apply Forall_cons in Hl as [Hv _]. destruct (render_head i (S n) v Hv) as (c & u & E & Hc).
      rewrite fmap_cons, E.
      destruct (render i (S n) <$> l); rewrite ?str_join_cons2; cbn; rewrite ?str_app_cons; eauto. }
    cbn -[scan_items skip_ws str_join fmap]. rewrite skip_all_ws by apply all_ws_break.
    rewrite Hcu, str_app_cons in Hit |- *. rewrite skip_ws_head by done.
    destruct c as [[] [] [] [] [] [] [] []]; try done; by rewrite Hit.
  - inversion Hg as [| | | | | |? Hn Hk Hl]; subst. destruct kvs as [|kv kvs]; [done|].
    clear c t Hct Hc. cbn [render] in Hf |- *. set (w2 := after_comma i (S n)) in *.
    change (λ kv0 : string * json, dumps_str kv0.1 +:+ ": " +:+ render i (S n) kv0.2)
      with (member i (S n)) in *.
    rewrite !str_app_assoc, str_app_cons, str_app_nil_l.
    rewrite !str_length_app in Hf. change (String.length "{") with 1 in Hf.
    pose proof (scan_members_text i (S n) w2 (line_break i n) (kv :: kvs) fuel r
      (all_ws_comma _ _) (all_ws_break _ _) IH Hk Hl ltac:(done) ltac:(lia)) as Hit.
    assert (∃ u, str_join ("," +:+ w2) (member i (S n) <$> kv :: kvs) = String dquote u) as (u & Hu).
    { rewrite fmap_cons. unfold member at 1, dumps_str.
      destruct (member i (S n) <$> kvs); rewrite ?str_join_cons2; cbn; rewrite ?str_app_cons; eauto. }
    cbn -[scan_members skip_ws str_join fmap]. rewrite skip_all_ws by apply all_ws_break.
    rewrite Hu, str_app_cons in Hit |- *. rewrite skip_ws_head by done. rewrite Hit. simpl.
    by rewrite Dict.of_pairs_NoDup.
Qed.

(** [json.loads(json.dumps(v, indent=i)) == v], white space after it or not. *)
Lemma loads_dumps_ws i v w : json_good v → all_ws w = true →
  json_loads (json_dumps i v +:+ w) = Some v.
Proof.
  intros Hg Hw. unfold json_loads, json_dumps. destruct (render_head i 0 v Hg) as (c & t & E & Hc).
  rewrite E, str_app_cons, skip_ws_head, <-str_app_cons, <-E by done.
  assert (number_end w = true) as Hn.
  { rewrite <-(str_app_nil_r w). by apply number_end_ws. }
  rewrite (render_reads i v Hg 0) by (done || (rewrite str_length_app; lia)). cbn.
  rewrite <-(str_app_nil_r w), skip_all_ws by done. done.
Qed.
Lemma loads_dumps i v : json_good v → json_loads (json_dumps i v) = Some v.
Proof. intros Hg. rewrite <-(str_app_nil_r (json_dumps i v)). by apply loads_dumps_ws. Qed.

Lemma sort_keys_obj kvs :
  sort_keys (JObj kvs) = JObj (py_sorted key_le ((λ kv, (kv.1, sort_keys kv.2)) <$> kvs)).
Proof. done. Qed.

Lemma sort_keys_str s : sort_keys (JStr s) = JStr s.
Proof. done. Qed.
Lemma sort_keys_arr l : sort_keys (JArr l) = JArr (sort_keys <$> l).
Proof. done. Qed.

Lemma sort_keys_good v : json_good v → json_good (sort_keys v).
Proof.
  induction v as [|b|z|f|s|l IH|kvs IH] using json_ind'; intros Hg; try done.
  - inversion Hg as [| | | | |? Hl|]; subst. constructor. apply Forall_fmap.
    eapply Forall_impl; [exact (proj2 (Forall_and _ _) (conj IH Hl))|]. cbn. naive_solver.
  - inversion Hg as [| | | | | |? Hn Hk Hl]; subst. rewrite sort_keys_obj.
    set (kvs' := (λ kv, (kv.1, sort_keys kv.2)) <$> kvs).
    assert (Dict.keys kvs' = Dict.keys kvs) as Hkeys.
    { unfold Dict.keys, kvs'. by rewrite <-list_fmap_compose. }
    constructor.
    + by rewrite (py_sorted_perm key_le), Hkeys.
    + rewrite (py_sorted_perm key_le). apply Forall_fmap. exact Hk.
    + rewrite (py_sorted_perm key_le). apply Forall_fmap.
      eapply Forall_impl; [exact (proj2 (Forall_and _ _) (conj IH Hl))|]. cbn. naive_solver.
Qed.

(** [json.loads(json.dumps(v, indent=i, sort_keys=True))] *)
Lemma loads_dumps_sorted i v w : json_good v → all_ws w = true →
  json_loads (json_dumps_sorted i v +:+ w) = Some (sort_keys v).
Proof. intros Hg Hw. apply loads_dumps_ws; [by apply sort_keys_good|done]. Qed.

(** A member of a sorted dict is the sorted member. *)
Lemma get_sort_keys kvs k : NoDup (Dict.keys kvs) →
  Dict.get (py_sorted key_le ((λ kv, (kv.1, sort_keys kv.2)) <$> kvs)) k =
  sort_keys <$> Dict.get kvs k.
Proof.
  intros Hn. rewrite <-Dict.get_fmap. symmetry. apply Dict.get_perm.
  - unfold Dict.keys. rewrite <-list_fmap_compose. exact Hn.
  - by rewrite (py_sorted_perm key_le).
Qed.
End reading.

#[export] Hint Rewrite sort_keys_str sort_keys_arr : json.

(** The texts are ASCII, so every reader decodes them. *)
Section ascii.
Context {R : Runtime}.

Lemma ascii_app a b : ascii_text a = true → ascii_text b = true → ascii_text (a +:+ b) = true.
Proof. unfold ascii_text. rewrite str_forall_app. by intros -> ->. Qed.
Lemma ascii_join sep ms :
  ascii_text sep = true → Forall (λ m, ascii_text m = true) ms → ascii_text (str_join sep ms) = true.
Proof.
  intros Hs. induction 1 as [|m ms Hm Hms IH]; [done|].
  destruct ms; [done|]. rewrite str_join_cons2. eauto using ascii_app.
Qed.
Lemma ascii_break i n : ascii_text (line_break i n) = true.
Proof. destruct i as [m|]; [|done]. cbn. by induction (m * n). Qed.
Lemma ascii_comma i n : ascii_text ("," +:+ after_comma i n) = true.
Proof. apply ascii_app; [done|]. destruct i; [apply ascii_break|done]. Qed.

Lemma ord_ascii_of n : (n < 256)%N → ord (ascii_of_N n) = n.
Proof. apply N_ascii_embedding. Qed.
Lemma ascii_u_escape n : (n < 0x10000)%N → ascii_text (u_escape n) = true.
Proof.
  intros Hn. assert (∀ d, (d < 16)%N → (ord (hex_digit d) <? 128)%N = true) as Hd.
  { intros d H. unfold hex_digit. apply N.ltb_lt.
    destruct (N.ltb_spec d 10); rewrite ord_ascii_of; lia. }
  unfold ascii_text, u_escape. cbn [str_forall].
  by rewrite !Hd by (try apply N.mod_lt; try apply N.Div0.div_lt_upper_bound; lia).
Qed.
Lemma ascii_escape_cp cp : scalar cp = true → ascii_text (escape_cp cp) = true.
Proof.
  rewrite scalar_iff. intros [Hm Hs]. unfold escape_cp.
  repeat match goal with |- context [(cp =? ?n)%N] => destruct (cp =? n)%N; [done|] end.
  destruct ((0x20 <=? cp)%N && (cp <=? 0x7E)%N) eqn:E.
  { apply andb_true_iff in E as [_ E%N.leb_le]. unfold ascii_text. cbn.
    rewrite ord_ascii_of by lia. rewrite andb_true_r. apply N.ltb_lt. lia. }
  destruct (N.ltb_spec cp 0x10000); [by apply ascii_u_escape|].
  apply ascii_app; apply ascii_u_escape.
  - enough ((cp - 0x10000) / 1024 < 1024)%N by lia. apply N.Div0.div_lt_upper_bound. lia.
  - enough ((cp - 0x10000) mod 1024 < 1024)%N by lia. by apply N.mod_lt.
Qed.
Lemma ascii_dumps_str s : utf8_valid s = true → ascii_text (dumps_str s) = true.
Proof.
  intros [_ Hs]%utf8_decode_valid. unfold dumps_str. apply ascii_app; [|done].
  unfold ascii_text. cbn [str_forall]. change (ascii_text (str_concat (escape_cp <$> utf8_decode s)) = true).
  induction (utf8_decode s) as [|cp cps IH]; [done|]. cbn [forallb] in Hs.
  apply andb_true_iff in Hs as [Hc Hs]. rewrite fmap_cons, str_concat_cons.
  apply ascii_app; [by apply ascii_escape_cp|auto].
Qed.
Lemma ascii_pretty z : ascii_text (pretty (z : Z)) = true.
Proof.
  destruct (pretty_Z_text z) as (ds & -> & Hd & _). apply ascii_app; [by destruct (z <? 0)%Z|].
  unfold ascii_text. clear z. induction ds as [|c ds IH]; [done|]. cbn in Hd |- *.
  apply andb_true_iff in Hd as [Hc Hd]. rewrite IH, andb_true_r by done.
  unfold is_digit in Hc. apply andb_true_iff in Hc as [_ Hc%N.leb_le]. apply N.ltb_lt. lia.
Qed.

Lemma render_ascii i n v : json_good v → ascii_text (render i n v) = true.
Proof.
  revert n. induction v as [|b|z|f|s|l IH|kvs IH] using json_ind'; intros n Hg; cbn [render].
  - done.
  - by destruct b.
  - apply ascii_pretty.
  - by inversion Hg as [| | |? [Hf _]| | |].
  - apply ascii_dumps_str. by inversion Hg.
  - inversion Hg as [| | | | |? Hl|]; subst. destruct l as [|v l]; [done|].
    repeat (apply ascii_app; [done || apply ascii_break|]).
    apply ascii_app; [|by apply ascii_app; [apply ascii_break|]].
    apply ascii_join; [apply ascii_comma|]. apply Forall_fmap.
    eapply Forall_impl; [exact (proj2 (Forall_and _ _) (conj IH Hl))|]. cbn. naive_solver.
  - inversion Hg as [| | | | | |? Hn Hk Hl]; subst. destruct kvs as [|kv kvs]; [done|].
    repeat (apply ascii_app; [done || apply ascii_break|]).
    apply ascii_app; [|by apply ascii_app; [apply ascii_break|]].
    apply ascii_join; [apply ascii_comma|]. apply Forall_fmap.
    eapply Forall_impl; [exact (proj2 (Forall_and _ _) (conj IH (proj2 (Forall_and _ _) (conj Hk Hl))))|].
    intros x (H1 & H2 & H3). cbn. apply ascii_app; [by apply ascii_dumps_str|].
    apply ascii_app; [done|]. by apply H1.
Qed.

Lemma dumps_utf8 i v : json_good v → utf8_valid (json_dumps i v) = true.
Proof. intros. by apply utf8_valid_ascii, render_ascii. Qed.
End ascii.

Example dumps_indented : json_dumps (R := plain_runtime) (Some 2) (JArr [JInt 1; JNull]) =
  "[" +:+ String newline ("  1," +:+ String newline ("  null" +:+ String newline "]")).
Proof. vm_compute. reflexivity. Qed.
Example dumps_escaped :
  json_dumps (R := plain_runtime) None (JStr (String "195" (String "169" "/"))) =
  String dquote ("\u00e9/" +:+ String dquote "").
Proof. vm_compute. reflexivity. Qed.

(** ** Python's conversions of a JSON value

    [str], [int], [float] and [bool] of what [json.loads] returns.  The text of
    a list or a dict, and the numbers a text reads as, are CPython's. *)
Inductive py_error : Type :=
| ValueError (what : string)
| KeyError (key : string)
| TypeError
| AttributeError
| OverflowError.
#[export] Instance py_error_eq_dec : EqDecision py_error.
Proof. solve_decision. Defined.

Class PyText := {
  container_str : json → string;
  str_repr : string → string;
  int_of_str : string → option Z;
  float_of_str : string → option spec_float;
}.
Definition plain_pytext : PyText := {|
  container_str := λ _, "[]"; str_repr := λ s, "'" +:+ s +:+ "'";
  int_of_str := λ _, None; float_of_str := λ _, None |}.

Section conversions.
Context {R : Runtime} {T : PyText}.

Definition py_str (v : json) : string :=
  match v with
  | JNull => "None"
  | JBool true => "True"
  | JBool false => "False"
  | JInt n => pretty n
  | JFloat S754_nan => "nan"
  | JFloat (S754_infinity false) => "inf"
  | JFloat (S754_infinity true) => "-inf"
  | JFloat f => float_repr f
  | JStr s => s
  | v => container_str v
  end.

(** [int(f)] of a float, towards zero. *)
Definition float_trunc (f : spec_float) : result py_error Z :=
  match f with
  | S754_zero _ => Ok 0%Z
  | S754_nan => Err (ValueError "nan")
  | S754_infinity _ => Err OverflowError
  | S754_finite s m e =>
      let a := if (0 <=? e)%Z then (Z.pos m * 2 ^ e)%Z else (Z.pos m / 2 ^ (- e))%Z in
      Ok (if s then - a else a)%Z
  end.
Definition py_int (v : json) : result py_error Z :=
  match v with
  | JInt n => Ok n
  | JBool b => Ok (Z.b2z b)
  | JFloat f => float_trunc f
  | JStr s => match int_of_str s with Some n => Ok n | None => Err (ValueError "int") end
  | _ => Err TypeError
  end.
Definition py_float (v : json) : result py_error spec_float :=
  match v with
  | JFloat f => Ok f
  | JInt n => match binary_normalize 53 1024 n 0 false with
              | S754_infinity _ => Err OverflowError
              | f => Ok f
              end
  | JBool b => Ok (binary_normalize 53 1024 (Z.b2z b) 0 false)
  | JStr s => match float_of_str s with Some f => Ok f | None => Err (ValueError "float") end
  | _ => Err TypeError
  end.
Definition py_bool (v : json) : bool :=
  match v with
  | JNull => false
  | JBool b => b
  | JInt n => negb (n =? 0)%Z
  | JFloat (S754_zero _) => false
  | JFloat _ => true
  | JStr s => negb (String.eqb s "")
  | JArr l => bool_decide (l ≠ [])
  | JObj kvs => bool_decide (kvs ≠ [])
  end.
(** [iter(v)]: the characters of a text, the keys of a dict. *)
Definition chars (s : string) : list string := utf8_encode <$> utf8_decode s.
Definition py_iter (v : json) : result py_error (list json) :=
  match v with
  | JArr l => Ok l
  | JObj kvs => Ok (JStr <$> Dict.keys kvs)
  | JStr s => Ok (JStr <$> chars s)
  | _ => Err TypeError
  end.

(** [data[key]] and [data.get(key)] of what should be a dict. *)
Definition as_dict (v : json) : result py_error (list (string * json)) :=
  match v with JObj kvs => Ok kvs | _ => Err AttributeError end.
Definition item (kvs : list (string * json)) (k : string) : result py_error json :=
  match Dict.get kvs k with Some v => Ok v | None => Err (KeyError k) end.
Definition get_or (kvs : list (string * json)) (k : string) (d : json) : json :=
  default d (Dict.get kvs k).
Definition py_fromhex (v : json) : result py_error string :=
  match fromhex (py_str v) with Some b => Ok b | None => Err (ValueError "hex") end.
End conversions.
