(* ===== verification/Text.v ===== *)
(** * Text operations

    [str.strip], [str.rpartition] and [str.replace] on UTF-8 text, and how they
    change the number of occurrences of a character. *)

From Stdlib Require Import Floats.SpecFloat.
From S2P Require Import Prelude Canonical CanonicalRead CanonicalLines JsonText.

(** The white space of [str.strip], in UTF-8. *)
Definition space_encodings : list string := utf8_encode <$>
  [9; 10; 11; 12; 13; 28; 29; 30; 31; 32; 0x85; 0xA0; 0x1680; 0x2000; 0x2001; 0x2002; 0x2003;
   0x2004; 0x2005; 0x2006; 0x2007; 0x2008; 0x2009; 0x200A; 0x2028; 0x2029; 0x202F; 0x205F;
   0x3000]%N.
Definition first_space (s : string) : option string :=
  foldr (λ e acc, match str_drop_prefix e s with Some t => Some t | None => acc end)
    None space_encodings.
Fixpoint lstrip_fuel (n : nat) (s : string) : string :=
  match n with
  | O => s
  | S n => match first_space s with Some t => lstrip_fuel n t | None => s end
  end.
Definition lstrip (s : string) : string := lstrip_fuel (String.length s) s.
Fixpoint rstrip (s : string) : string :=
  match s with
  | "" => ""
  | String c t => if String.eqb (lstrip s) "" then "" else String c (rstrip t)
  end.
Definition strip (s : string) : string := lstrip (rstrip s).

(** [s.rpartition(sep)] at a character that is there. *)
Fixpoint rpartition_at (sep : ascii) (s : string) : option (string * string) :=
  match s with
  | "" => None
  | String c t =>
      match rpartition_at sep t with
      | Some (h, u) => Some (String c h, u)
      | None => if Ascii.eqb c sep then Some ("", t) else None
      end
  end.
Fixpoint replace_char (a b : ascii) (s : string) : string :=
  match s with
  | "" => ""
  | String c t => String (if Ascii.eqb c a then b else c) (replace_char a b t)
  end.
Fixpoint count_char (c : ascii) (s : string) : nat :=
  match s with "" => 0 | String a t => (if Ascii.eqb a c then 1 else 0) + count_char c t end.

(** ** Counting a character *)
Lemma elem_of_concat {A} (x : A) (ls : list (list A)) : x ∈ concat ls ↔ ∃ l, x ∈ l ∧ l ∈ ls.
Proof.
  induction ls as [|k ls IH]; cbn; [set_solver|]. rewrite elem_of_app, IH. set_solver.
Qed.
Lemma count_char_app c a b : count_char c (a +:+ b) = count_char c a + count_char c b.
Proof. induction a as [|x a IH]; [done|]. rewrite str_app_cons. cbn. rewrite IH. lia. Qed.
Lemma partition_at_Some c s a b : partition_at c s = (a, Some b) →
  s = a +:+ String c b ∧ no_char c a = true.
Proof.
  revert a. induction s as [|x s IH]; intros a; [done|]. cbn.
  destruct (Ascii.eqb_spec x c) as [->|Hx]; [by intros [= <- <-]|].
  destruct (partition_at c s) as [a' o]. intros [= <- ->].
  destruct (IH a' eq_refl) as [-> Hn]. split; [by rewrite str_app_cons|].
  unfold no_char in *. cbn. apply Ascii.eqb_neq in Hx. by rewrite Hx.
Qed.
Lemma count_split c sep s b : c ≠ sep → b ∈ split_char sep s → count_char c b ≤ count_char c s.
Proof.
  intros Hc. revert b. induction s as [|x s IH]; intros b; cbn; [set_solver|].
  destruct (Ascii.eqb_spec x sep) as [->|Hx].
  - intros [->|Hb]%elem_of_cons; [cbn; lia|]. specialize (IH b Hb). lia.
  - destruct (split_char sep s) as [|l ls] eqn:E; [by apply split_char_nonempty in E|].
    intros [->|Hb]%elem_of_cons; cbn.
    + assert (count_char c l ≤ count_char c s) by (apply IH; left). lia.
    + assert (count_char c b ≤ count_char c s) by (apply IH; by right). lia.
Qed.
Lemma count_lstrip c s : count_char c (lstrip s) ≤ count_char c s.
Proof.
  unfold lstrip. generalize (String.length s) as n. intros n. revert s.
  induction n as [|n IH]; intros s; [done|]. cbn [lstrip_fuel].
  destruct (first_space s) as [t|] eqn:E; [|done]. rewrite IH. clear IH.
  unfold first_space in E. induction space_encodings as [|e l IH]; [done|]. cbn in E.
  destruct (str_drop_prefix e s) as [u|] eqn:Eu; [|by apply IH].
  injection E as ->. apply str_drop_prefix_Some in Eu as ->. rewrite count_char_app. lia.
Qed.
Lemma count_rstrip c s : count_char c (rstrip s) ≤ count_char c s.
Proof.
  induction s as [|x s IH]; [done|]. cbn [rstrip]. destruct (String.eqb _ _); cbn; lia.
Qed.
Lemma count_strip c s : count_char c (strip s) ≤ count_char c s.
Proof. unfold strip. rewrite count_lstrip. apply count_rstrip. Qed.
