(* ===== verification/Predicate.v ===== *)
(** * Compiled acceptance predicates

    Models [core/predicate.py]: the six kinds of invocation, the predicate and
    the suite with the checks of their constructors, the canonical form, the
    digest, the JSON text and its reader. *)

From stdpp Require Import pretty.
From Stdlib Require Import Floats.SpecFloat.
From S2P Require Import Prelude Canonical CanonicalRead CanonicalLines JsonText.

(** ** Invocations *)
Inductive PredicateInvocation : Type :=
| PytestInvocation (selector : string) (timeout_seconds : Z)
| MypyInvocation (target : string) (strict : bool)
| HypothesisInvocation (target : string) (max_examples : Z)
| AssertionInvocation (callable_ref : string)
| ArtifactInvocation (path : string) (must_have_rootknot : bool)
| RelatedFileCoverageInvocation (source_glob must_also_touch_glob rationale : string).
#[export] Instance invocation_eq_dec : EqDecision PredicateInvocation.
Proof. solve_decision. Defined.

(** The class attribute [kind]. *)
Definition invocation_kind (i : PredicateInvocation) : string :=
  match i with
  | PytestInvocation _ _ => "test"
  | MypyInvocation _ _ => "type"
  | HypothesisInvocation _ _ => "property"
  | AssertionInvocation _ => "invariant"
  | ArtifactInvocation _ _ => "artifact"
  | RelatedFileCoverageInvocation _ _ _ => "related_file_coverage"
  end.

Definition invocation_to_canonical (i : PredicateInvocation) : list (string * json) :=
  match i with
  | PytestInvocation selector timeout_seconds =>
      [("type", JStr "pytest"); ("selector", JStr selector);
       ("timeout_seconds", JInt timeout_seconds)]
  | MypyInvocation target strict =>
      [("type", JStr "mypy"); ("target", JStr target); ("strict", JBool strict)]
  | HypothesisInvocation target max_examples =>
      [("type", JStr "hypothesis"); ("target", JStr target); ("max_examples", JInt max_examples)]
  | AssertionInvocation callable_ref =>
      [("type", JStr "assertion"); ("callable_ref", JStr callable_ref)]
  | ArtifactInvocation path must_have_rootknot =>
      [("type", JStr "artifact"); ("path", JStr path);
       ("must_have_rootknot", JBool must_have_rootknot)]
  | RelatedFileCoverageInvocation source_glob must_also_touch_glob rationale =>
      [("type", JStr "related_file_coverage"); ("source_glob", JStr source_glob);
       ("must_also_touch_glob", JStr must_also_touch_glob); ("rationale", JStr rationale)]
  end.

(** ** Predicates *)
Record AcceptancePredicate := {
  id : string;
  kind : string;
  invocation : PredicateInvocation;
  required : bool;
  depends_on : list string;
}.

Definition len_is (n : nat) (s : string) : bool := Nat.eqb (String.length s) n.

(** [AcceptancePredicate.__post_init__] and the construction. *)
Definition predicate_post_init (p : AcceptancePredicate) : result py_error unit :=
  _ ← guard_or (len_is 16 (id p)) (ValueError "predicate id must be a 16-byte UUID");
  _ ← guard_or (forallb (len_is 16) (depends_on p))
        (ValueError "each dependency id must be a 16-byte UUID");
  guard_or (String.eqb (kind p) (invocation_kind (invocation p)))
    (ValueError "predicate.kind and invocation.kind disagree").
Definition make_predicate (p : AcceptancePredicate) : result py_error AcceptancePredicate :=
  _ ← predicate_post_init p; Ok p.

Definition predicate_to_canonical (p : AcceptancePredicate) : json :=
  JObj [("id", JStr (hex (id p))); ("kind", JStr (kind p)); ("required", JBool (required p));
        ("depends_on", JArr ((λ d, JStr (hex d)) <$> depends_on p));
        ("invocation", JObj (invocation_to_canonical (invocation p)))].

(** ** Suites *)
Definition CANONICAL_COMPILER_VERSION : string := "0.4.0".
Definition _KNOWN_COMPILER_VERSIONS : list string := ["0.4.0"].

Record AcceptanceSuite := {
  intent_id : string;
  predicates : list AcceptancePredicate;
  coverage_gate : spec_float;
  compiled_from : string;
  compiler_version : string;
  prompt_digest : option string;
}.

(** [0.0], [1.0] and [0.85] in binary64. *)
Definition float_zero : spec_float := S754_zero false.
Definition float_one : spec_float := S754_finite false 4503599627370496 (-52).
Definition float_085 : spec_float := S754_finite false 7656119366529843 (-53).
Definition unit_interval (f : spec_float) : bool := SFleb float_zero f && SFleb f float_one.

(** The loop over [seen]. *)
Fixpoint check_duplicates (seen : list string) (ps : list AcceptancePredicate)
    : result py_error unit :=
  match ps with
  | [] => Ok ()
  | p :: ps =>
      if decide (id p ∈ seen) then Err (ValueError "duplicate predicate id")
      else check_duplicates (id p :: seen) ps
  end.

Definition suite_post_init (s : AcceptanceSuite) : result py_error unit :=
  _ ← guard_or (len_is 16 (intent_id s)) (ValueError "intent_id must be a 16-byte UUID");
  _ ← guard_or (unit_interval (coverage_gate s)) (ValueError "coverage_gate out of [0.0, 1.0]");
  _ ← guard_or (bool_decide (compiler_version s ∈ _KNOWN_COMPILER_VERSIONS))
        (ValueError "unknown compiler_version");
  _ ← guard_or (match prompt_digest s with None => true | Some d => len_is 32 d end)
        (ValueError "prompt_digest must be a 32-byte SHA-256 digest");
  check_duplicates [] (predicates s).
Definition make_suite (s : AcceptanceSuite) : result py_error AcceptanceSuite :=
  _ ← suite_post_init s; Ok s.

(** [AcceptanceSuite.required] *)
Definition required_predicates (s : AcceptanceSuite) : list AcceptancePredicate :=
  filter (λ p, required p = true) (predicates s).

Definition to_canonical (s : AcceptanceSuite) : list (string * json) :=
  [("compiler_version", JStr (compiler_version s)); ("compiled_from", JStr (compiled_from s));
   ("coverage_gate", JFloat (coverage_gate s)); ("intent_id", JStr (hex (intent_id s)));
   ("predicates", JArr (predicate_to_canonical <$> predicates s))] ++
  match prompt_digest s with
  | Some d => [("prompt_digest", JStr (hex d))]
  | None => []
  end.

Section suites.
Context {R : Runtime} {Sh : Sha256} {T : PyText}.

(** [AcceptanceSuite.digest] *)
Definition digest (s : AcceptanceSuite) : result jcs_error string :=
  bytes ← encode (JObj (to_canonical s)); Ok (hex (sha256 bytes)).

(** [AcceptanceSuite.to_json] *)
Definition to_json (s : AcceptanceSuite) : string :=
  json_dumps_sorted (Some 2) (JObj (to_canonical s)) +:+ String newline "".

(** ** Reading *)
Definition _invocation_from_canonical (v : json) : result py_error PredicateInvocation :=
  data ← as_dict v;
  match Dict.get data "type" with
  | Some (JStr "pytest") =>
      selector ← item data "selector";
      timeout ← py_int (get_or data "timeout_seconds" (JInt 60));
      Ok (PytestInvocation (py_str selector) timeout)
  | Some (JStr "mypy") =>
      target ← item data "target";
      Ok (MypyInvocation (py_str target) (py_bool (get_or data "strict" (JBool true))))
  | Some (JStr "hypothesis") =>
      target ← item data "target";
      n ← py_int (get_or data "max_examples" (JInt 100));
      Ok (HypothesisInvocation (py_str target) n)
  | Some (JStr "assertion") =>
      ref ← item data "callable_ref"; Ok (AssertionInvocation (py_str ref))
  | Some (JStr "artifact") =>
      path ← item data "path";
      Ok (ArtifactInvocation (py_str path) (py_bool (get_or data "must_have_rootknot" (JBool false))))
  | Some (JStr "related_file_coverage") =>
      src ← item data "source_glob";
      dst ← item data "must_also_touch_glob";
      Ok (RelatedFileCoverageInvocation (py_str src) (py_str dst)
            (py_str (get_or data "rationale" (JStr ""))))
  | _ => Err (ValueError "unknown invocation type")
  end.

(** A kind that is not text equals no invocation's kind. *)
Definition _predicate_from_canonical (v : json) : result py_error AcceptancePredicate :=
  match v with
  | JObj data =>
      i ← item data "id"; i ← py_fromhex i;
      k ← item data "kind";
      inv ← item data "invocation"; inv ← _invocation_from_canonical inv;
      let req := py_bool (get_or data "required" (JBool true)) in
      deps ← py_iter (get_or data "depends_on" (JArr []));
      deps ← mapM py_fromhex deps;
      make_predicate {| id := i; kind := match k with JStr k => k | _ => "" end;
                        invocation := inv; required := req; depends_on := deps |}
  | _ => Err TypeError
  end.

Definition suite_from_canonical (data : list (string * json)) : result py_error AcceptanceSuite :=
  version ← match Dict.get data "compiler_version" with
            | Some (JArr _) | Some (JObj _) => Err TypeError
            | Some (JStr v) => if decide (v ∈ _KNOWN_COMPILER_VERSIONS) then Ok v
                               else Err (ValueError "unknown compiler_version")
            | _ => Err (ValueError "unknown compiler_version")
            end;
  digest ← match get_or data "prompt_digest" JNull with
           | JNull => Ok None
           | raw => Some <$> py_fromhex raw
           end;
  intent ← item data "intent_id"; intent ← py_fromhex intent;
  ps ← py_iter (get_or data "predicates" (JArr []));
  ps ← mapM _predicate_from_canonical ps;
  gate ← py_float (get_or data "coverage_gate" (JFloat float_085));
  make_suite {| intent_id := intent; predicates := ps; coverage_gate := gate;
                compiled_from := py_str (get_or data "compiled_from" (JStr ""));
                compiler_version := version; prompt_digest := digest |}.

(** [suite_from_json]; a text that is no JSON is a [ValueError]. *)
Definition suite_from_json (text : string) : result py_error AcceptanceSuite :=
  match json_loads text with
  | Some v => data ← as_dict v; suite_from_canonical data
  | None => Err (ValueError "JSONDecodeError")
  end.
End suites.

(** ** What the constructors guarantee *)
Definition wf_predicate (p : AcceptancePredicate) : Prop :=
  String.length (id p) = 16 ∧ Forall (λ d, String.length d = 16) (depends_on p) ∧
  kind p = invocation_kind (invocation p).
Definition wf_suite (s : AcceptanceSuite) : Prop :=
  String.length (intent_id s) = 16 ∧ unit_interval (coverage_gate s) = true ∧
  compiler_version s = CANONICAL_COMPILER_VERSION ∧
  (∀ d, prompt_digest s = Some d → String.length d = 32) ∧
  NoDup (id <$> predicates s) ∧ Forall wf_predicate (predicates s).

Lemma guard_or_ok {E} (b : bool) (e : E) : guard_or b e = Ok () ↔ b = true.
Proof. by destruct b. Qed.
Lemma len_is_true n s : len_is n s = true ↔ String.length s = n.
Proof. apply Nat.eqb_eq. Qed.
Lemma bind_unit_ok {E} (m : result E unit) (n : result E unit) :
  (m ≫= λ _, n) = Ok () ↔ m = Ok () ∧ n = Ok ().
Proof. destruct m as [[]|]; cbn; naive_solver. Qed.

Lemma predicate_post_init_ok p : predicate_post_init p = Ok () ↔ wf_predicate p.
Proof.
  unfold predicate_post_init, wf_predicate.
  rewrite !bind_unit_ok, !guard_or_ok, len_is_true, String.eqb_eq, forallb_forall, Forall_forall.
  setoid_rewrite len_is_true. setoid_rewrite list_elem_of_In. done.
Qed.

Lemma check_duplicates_ok seen ps :
  check_duplicates seen ps = Ok () ↔ NoDup (id <$> ps) ∧ ∀ p, p ∈ ps → id p ∉ seen.
Proof.
  revert seen. induction ps as [|p ps IH]; intros seen; cbn.
  { split; [intros _; split; [constructor|set_solver]|done]. }
  rewrite NoDup_cons, list_elem_of_fmap. case_decide as Hp.
  { split; [done|]. intros [_ H]. exfalso. apply (H p); set_solver. }
  rewrite IH. split.
  - intros [Hn Hs]. split_and!; [|done|].
    + intros (q & Hq & Hin). apply (Hs q Hin). set_solver.
    + intros q [->|Hq]%elem_of_cons; [done|]. specialize (Hs q Hq). set_solver.
  - intros [[Hp' Hn] Hs]. split; [done|]. intros q Hq [Heq|Hin]%elem_of_cons.
    + apply Hp'. eauto.
    + apply (Hs q); set_solver.
Qed.

Lemma suite_post_init_ok s : suite_post_init s = Ok () ↔
  String.length (intent_id s) = 16 ∧ unit_interval (coverage_gate s) = true ∧
  compiler_version s = CANONICAL_COMPILER_VERSION ∧
  (∀ d, prompt_digest s = Some d → String.length d = 32) ∧ NoDup (id <$> predicates s).
Proof.
  unfold suite_post_init.
  rewrite !bind_unit_ok, !guard_or_ok, len_is_true, bool_decide_eq_true, check_duplicates_ok.
  assert (compiler_version s ∈ _KNOWN_COMPILER_VERSIONS ↔
          compiler_version s = CANONICAL_COMPILER_VERSION) as -> by (unfold _KNOWN_COMPILER_VERSIONS; set_solver).
  assert (match prompt_digest s with None => true | Some d => len_is 32 d end = true ↔
          ∀ d, prompt_digest s = Some d → String.length d = 32) as ->.
  { destruct (prompt_digest s) as [d|]; [rewrite len_is_true|]; naive_solver. }
  set_solver.
Qed.

(** ** Reading what was written *)

Section roundtrip.
Context {R : Runtime} {T : PyText}.

Lemma invocation_roundtrip i :
  _invocation_from_canonical (sort_keys (JObj (invocation_to_canonical i))) = Ok i.
Proof. by destruct i. Qed.

Lemma py_fromhex_hex d : py_fromhex (JStr (hex d)) = Ok d.
Proof. unfold py_fromhex. cbn [py_str]. by rewrite fromhex_hex. Qed.
Lemma mapM_hex ds :
  mapM py_fromhex (sort_keys <$> ((λ d, JStr (hex d)) <$> ds)) = Ok ds.
Proof.
  induction ds as [|d ds IH]; [done|]. cbn -[py_fromhex hex].
  rewrite py_fromhex_hex. cbn -[py_fromhex]. by rewrite IH.
Qed.

Lemma predicate_roundtrip p : wf_predicate p →
  _predicate_from_canonical (sort_keys (predicate_to_canonical p)) = Ok p.
Proof.
  intros Hp. unfold predicate_to_canonical. rewrite sort_keys_obj.
  unfold _predicate_from_canonical, item, get_or.
  rewrite !get_sort_keys by (apply (bool_decide_unpack _); by vm_compute).
  cbn -[invocation_to_canonical hex py_fromhex sort_keys _invocation_from_canonical]. decide_keys.
  cbn -[invocation_to_canonical hex py_fromhex sort_keys _invocation_from_canonical].
  autorewrite with json. rewrite py_fromhex_hex.
  cbn -[invocation_to_canonical hex py_fromhex sort_keys _invocation_from_canonical].
  rewrite invocation_roundtrip. cbn -[hex py_fromhex sort_keys]. rewrite mapM_hex. cbn. unfold make_predicate.
  destruct p. cbn [id kind invocation required depends_on].
  by rewrite (proj2 (predicate_post_init_ok _) Hp).
Qed.

Lemma predicates_roundtrip ps : Forall wf_predicate ps →
  mapM _predicate_from_canonical (sort_keys <$> (predicate_to_canonical <$> ps)) = Ok ps.
Proof.
  induction 1 as [|p ps Hp _ IH]; [done|]. rewrite !fmap_cons. cbn [mapM].
  rewrite predicate_roundtrip by done. cbn -[predicate_to_canonical]. by rewrite IH.
Qed.

Lemma to_canonical_keys s : NoDup (Dict.keys (to_canonical s)).
Proof.
  unfold to_canonical. destruct (prompt_digest s); apply (bool_decide_unpack _); by vm_compute.
Qed.

Lemma suite_roundtrip s : wf_suite s →
  suite_from_canonical
    (py_sorted key_le ((λ kv, (kv.1, sort_keys kv.2)) <$> to_canonical s)) = Ok s.
Proof.
  intros (H1 & H2 & Hv & H4 & H5 & Hps). unfold suite_from_canonical, item, get_or.
  rewrite !get_sort_keys by apply to_canonical_keys.
  assert (Dict.get (to_canonical s) "prompt_digest" = (λ d, JStr (hex d)) <$> prompt_digest s) as ->.
  { by unfold to_canonical; destruct (prompt_digest s). }
  unfold to_canonical.
  cbn -[hex py_fromhex sort_keys predicate_to_canonical float_085]. decide_keys.
  cbn -[hex py_fromhex sort_keys predicate_to_canonical float_085].
  autorewrite with json. rewrite (decide_True (P := compiler_version s ∈ _)) by (rewrite Hv; set_solver).
  cbn -[hex py_fromhex sort_keys predicate_to_canonical float_085].
  assert (match default JNull (sort_keys <$> ((λ d, JStr (hex d)) <$> prompt_digest s)) with
          | JNull => Ok None | raw => Some <$> py_fromhex raw end = Ok (prompt_digest s)) as Hd.
  { destruct (prompt_digest s) as [d|]; [|done]. cbn -[hex py_fromhex]. by rewrite py_fromhex_hex. }
  cbn -[hex py_fromhex sort_keys predicate_to_canonical float_085] in Hd. rewrite Hd.
  cbn -[hex py_fromhex sort_keys predicate_to_canonical float_085].
  autorewrite with json. rewrite py_fromhex_hex.
  cbn -[hex py_fromhex sort_keys predicate_to_canonical float_085].
  rewrite predicates_roundtrip by done. cbn. unfold make_suite.
  destruct s. cbn. by rewrite (proj2 (suite_post_init_ok _)).
Qed.
End roundtrip.

(** ** The suite on disk *)
Section claims.
Context {R : Runtime} {T : PyText}.

Definition invocation_texts (i : PredicateInvocation) : list string :=
  match i with
  | PytestInvocation s _ | MypyInvocation s _ | HypothesisInvocation s _
  | AssertionInvocation s | ArtifactInvocation s _ => [s]
  | RelatedFileCoverageInvocation a b c => [a; b; c]
  end.
(** The texts decode and the gate's [repr] reads back. *)
Definition suite_writable (s : AcceptanceSuite) : Prop :=
  float_reads (coverage_gate s) ∧ utf8_valid (compiled_from s) = true ∧
  Forall (λ p, Forall (λ t, utf8_valid t = true) (invocation_texts (invocation p))) (predicates s).

Lemma good_hex b : json_good (JStr (hex b)).
Proof. constructor. apply utf8_valid_ascii, hex_ascii. Qed.
Lemma good_literal_obj kvs : bool_decide (NoDup (Dict.keys kvs)) = true →
  forallb utf8_valid (Dict.keys kvs) = true → Forall (λ kv, json_good kv.2) kvs → json_good (JObj kvs).
Proof.
  intros Hn Hk Hv. constructor; [by apply bool_decide_eq_true in Hn| |done].
  rewrite forallb_forall in Hk. apply Forall_forall. intros kv Hkv. apply Hk.
  apply list_elem_of_In, list_elem_of_fmap. eauto.
Qed.

Lemma invocation_good i : Forall (λ t, utf8_valid t = true) (invocation_texts i) →
  json_good (JObj (invocation_to_canonical i)).
Proof.
  intros H. destruct i; apply good_literal_obj; try done; cbn in H;
    repeat match goal with
    | H : Forall _ (_ :: _) |- _ => apply Forall_cons in H as [? H]
    end; repeat constructor; done.
Qed.

Lemma predicate_good p : wf_predicate p →
  Forall (λ t, utf8_valid t = true) (invocation_texts (invocation p)) →
  json_good (predicate_to_canonical p).
Proof.
  intros (_ & _ & Hk) Ht. apply good_literal_obj; [done..|].
  repeat (apply Forall_cons; split; cbn [snd]).
  - apply good_hex.
  - constructor. rewrite Hk. by destruct (invocation p).
  - constructor.
  - constructor. apply Forall_fmap, Forall_true. intros d. apply good_hex.
  - by apply invocation_good.
  - constructor.
Qed.

Lemma suite_good s : wf_suite s → suite_writable s → json_good (JObj (to_canonical s)).
Proof.
  intros (_ & _ & Hv & _ & _ & Hwf) (Hf & Hc & Ht). apply good_literal_obj.
  - apply bool_decide_eq_true, to_canonical_keys.
  - unfold to_canonical. by destruct (prompt_digest s).
  - unfold to_canonical. apply Forall_app. split.
    + repeat (apply Forall_cons; split; cbn [snd]); try by constructor.
      * constructor. by rewrite Hv.
      * apply good_hex.
      * constructor. apply Forall_fmap. eapply Forall_impl;
          [exact (proj2 (Forall_and _ _) (conj Hwf Ht))|]. intros p [? ?]. by apply predicate_good.
    + destruct (prompt_digest s); [|constructor]. apply Forall_singleton, good_hex.
Qed.

Lemma predicate_from_canonical_wf v p : _predicate_from_canonical v = Ok p → wf_predicate p.
Proof.
  destruct v as [| | | | | |data]; try done. unfold _predicate_from_canonical. intros H.
  do 7 (apply result_bind_ok in H as (? & _ & H)).
  unfold make_predicate in H. apply result_bind_ok in H as ([] & Hp & [= <-]).
  by apply predicate_post_init_ok.
Qed.

(** C35: every suite the reader returns, whatever the dict it was given, has
    16-byte ids, all different, dependencies of 16 bytes, kinds that agree with
    their invocations, a gate between 0 and 1, the known compiler version and a
    digest of 32 bytes or none. *)
Theorem suite_reader_types data s : suite_from_canonical data = Ok s → wf_suite s.
Proof.
  unfold suite_from_canonical. intros H.
  apply result_bind_ok in H as (v & _ & H). apply result_bind_ok in H as (d & _ & H).
  apply result_bind_ok in H as (i & _ & H). apply result_bind_ok in H as (i' & _ & H).
  apply result_bind_ok in H as (vs & _ & H). apply result_bind_ok in H as (ps & Hps & H).
  apply result_bind_ok in H as (g & _ & H). unfold make_suite in H.
  apply result_bind_ok in H as ([] & Hs & [= <-]). apply suite_post_init_ok in Hs.
  unfold wf_suite. split_and!; try apply Hs. cbn. apply mapM_Ok in Hps.
  eapply Forall2_Forall_r; [exact Hps|]. apply Forall_true.
  intros x p Hp. by eapply predicate_from_canonical_wf.
Qed.

Lemma suite_reads_back s : wf_suite s → suite_writable s →
  suite_from_json (to_json s) = Ok s.
Proof.
  intros Hwf Hw. unfold suite_from_json, to_json.
  rewrite (loads_dumps_sorted (Some 2) _ (String newline "")) by (done || by apply suite_good).
  rewrite sort_keys_obj. cbn [as_dict]. by apply suite_roundtrip.
Qed.

(** a suite written to [suite.json] reads back as the same suite: all its
    predicates in their order, their invocations, the gate and the digest. *)
Theorem suite_json_roundtrip s : wf_suite s → suite_writable s →
  suite_from_json (to_json s) = Ok s.
Proof. apply suite_reads_back. Qed.
End claims.

(** *** A concrete suite *)
Definition gate_runtime : Runtime := {|
  nfc := λ s, s; float_repr := λ _, "0.85"; float_of := λ _, float_085 |}.
Definition sample_id (c : ascii) : string := "0123456789abcde" +:+ String c "".
Definition sample_suite : AcceptanceSuite := {|
  intent_id := sample_id "f";
  predicates :=
    [{| id := sample_id "a"; kind := "test"; invocation := PytestInvocation "tests/test_x.py" 60;
        required := true; depends_on := [] |};
     {| id := sample_id "b"; kind := "artifact"; invocation := ArtifactInvocation "out/report.md" true;
        required := false; depends_on := [sample_id "a"] |}];
  coverage_gate := float_085; compiled_from := "write a report"; compiler_version := "0.4.0";
  prompt_digest := Some "0123456789abcdef0123456789abcdef" |}.

Lemma sample_suite_wf : wf_suite sample_suite.
Proof.
  assert (suite_post_init sample_suite = Ok ()) as H by (by vm_compute).
  apply suite_post_init_ok in H as (H1 & H2 & H3 & H4 & H5).
  unfold wf_suite. split_and!; try done. repeat constructor.
Qed.
Lemma gate_reads : float_reads (R := gate_runtime) float_085.
Proof.
  split; [done|]. intros [|c r]; [done|]. by destruct c as [[] [] [] [] [] [] [] []].
Qed.
Lemma sample_suite_writable : suite_writable (R := gate_runtime) sample_suite.
Proof. split_and!; [apply gate_reads|done|repeat constructor]. Qed.

Lemma suite_reader_types_witness :
  ∃ data s, suite_from_canonical (R := gate_runtime) (T := plain_pytext) data = Ok s ∧ wf_suite s.
Proof.
  exists (to_canonical sample_suite), sample_suite.
  assert (suite_from_canonical (R := gate_runtime) (T := plain_pytext)
            (to_canonical sample_suite) = Ok sample_suite) as H by (by vm_compute).
  split; [exact H|]. exact (suite_reader_types (R := gate_runtime) (T := plain_pytext) _ _ H).
Defined.

Lemma suite_json_roundtrip_witness :
  suite_from_json (R := gate_runtime) (T := plain_pytext) (to_json (R := gate_runtime) sample_suite)
    = Ok sample_suite.
Proof.
  apply suite_json_roundtrip; [apply sample_suite_wf|apply sample_suite_writable].
Defined.
