(* ===== verification/Gates.v ===== *)
(** * Evaluators of acceptance predicates

    Models [core/gates.py] and the two methods of [core/predicate.py] that call
    it: the evaluators over a snapshot's recorded results, the availability
    check, and the glob matching of the coupling predicate. *)

From stdpp Require Import pretty.
From Stdlib Require Import Floats.SpecFloat.
From S2P Require Import Prelude Canonical CanonicalRead CanonicalLines JsonText Text Predicate.

(** ** Globs *)

(** [s.replace("**/", by)] *)
Fixpoint replace_globstar (by_ s : string) : string :=
  match s with
  | String "*" (String "*" (String "/" t)) => by_ +:+ replace_globstar by_ t
  | String c t => String c (replace_globstar by_ t)
  | "" => ""
  end.
Fixpoint has_globstar (s : string) : bool :=
  match s with
  | "" => false
  | String c t => startswith s "**/" || has_globstar t
  end.

(** ** [fnmatch.fnmatchcase], over code points *)
Inductive glob_item : Type :=
| Star
| AnyChar
| Lit (c : N)
| CharSet (negated : bool) (ranges : list (N * N)).

(** The body of a bracket up to its [\]], which may come first. *)
Fixpoint span_bracket (first : bool) (p : list N) : option (list N * list N) :=
  match p with
  | [] => None
  | c :: p =>
      if (c =? 93)%N && negb first then Some ([], p)
      else '(b, r) ← span_bracket false p; Some (c :: b, r)
  end.
(** Characters and ranges; a hyphen at the end or after a range is itself, and
    a range that runs backwards is empty. *)
Fixpoint bracket_ranges (p : list N) : list (N * N) :=
  match p with
  | a :: 45%N :: b :: p => (a, b) :: bracket_ranges p
  | a :: p => (a, a) :: bracket_ranges p
  | [] => []
  end.
Fixpoint glob_parse (fuel : nat) (p : list N) : list glob_item :=
  match fuel with
  | O => []
  | S fuel =>
      match p with
      | [] => []
      | 42%N :: p => Star :: glob_parse fuel p
      | 63%N :: p => AnyChar :: glob_parse fuel p
      | 91%N :: p =>
          let '(neg, q) := match p with 33%N :: q => (true, q) | _ => (false, p) end in
          match span_bracket true q with
          | Some (body, r) => CharSet neg (bracket_ranges body) :: glob_parse fuel r
          | None => Lit 91 :: glob_parse fuel p
          end
      | c :: p => Lit c :: glob_parse fuel p
      end
  end.
Definition in_ranges (c : N) (rs : list (N * N)) : bool :=
  existsb (λ r, (r.1 <=? c)%N && (c <=? r.2)%N) rs.
Definition item_matches (g : glob_item) (c : N) : bool :=
  match g with
  | Star => false
  | AnyChar => true
  | Lit d => (c =? d)%N
  | CharSet neg rs => xorb neg (in_ranges c rs)
  end.
Fixpoint glob_match (g : list glob_item) : list N → bool :=
  match g with
  | [] => λ s, match s with [] => true | _ => false end
  | Star :: g => fix go s := glob_match g s || match s with [] => false | _ :: s => go s end
  | i :: g => λ s, match s with c :: s => item_matches i c && glob_match g s | [] => false end
  end.
Definition fnmatchcase (name pat : string) : bool :=
  let p := utf8_decode pat in glob_match (glob_parse (length p) p) (utf8_decode name).

(** ** Glob expansion *)

(** One group of braces after the other; each expansion has one closing brace
    less, so their number is fuel enough (proved below). *)
Fixpoint expand_braces (fuel : nat) (pattern : string) : option (list string) :=
  match fuel with
  | O => None
  | S fuel =>
      match partition_at "{" pattern with
      | (_, None) => Some [pattern]
      | (prefix, Some rest) =>
          match partition_at "}" rest with
          | (_, None) => Some [pattern]
          | (body, Some suffix) =>
              results ← mapM (λ branch, expand_braces fuel (prefix +:+ strip branch +:+ suffix))
                          (split_char "," body);
              Some (concat results)
          end
      end
  end.
Definition _expand_braces (pattern : string) : list string :=
  default [] (expand_braces (S (count_char "}" pattern)) pattern).

Definition _globstar_variants (pattern : string) : list string :=
  if has_globstar pattern then [replace_globstar "" pattern; replace_globstar "*/" pattern]
  else [pattern].

Definition path_matches (path pattern : string) : bool :=
  existsb (fnmatchcase path) (_globstar_variants pattern).
Definition _fnmatch_hits (paths : list string) (glob : string) : list string :=
  py_sorted String.leb (remove_dups
    (concat ((λ pattern, filter (λ path, path_matches path pattern = true) paths)
               <$> _expand_braces glob))).

Definition _sidecar_path (path : string) : string :=
  match rpartition_at "/" path with
  | Some (head, name) => head +:+ "/." +:+ name +:+ ".rootknot.json"
  | None => "." +:+ path +:+ ".rootknot.json"
  end.

(** ** Snapshots and results *)
Record WorkspaceSnapshot := {
  files : list (string * string);
  timestamp : spec_float;
  metadata : list (string * json);
}.
Record PredicateResult := {
  ok : bool;
  reason : string;
  evidence : list (string * json);
  duration_ns : Z;
}.

(** Importing: [ImportError], [AttributeError] and [ValueError], which the
    callers catch, and any other exception. *)
Inductive import_failure : Type :=
| ImportFailed (type_name message : string)
| ImportCrashed (type_name message : string).

(** The machine: [shutil.which], [importlib.util.find_spec], the attribute of
    an imported module, a callable's verdict ([None] and its text when it
    raises), and the clock. *)
Class Host := {
  which : string → bool;
  find_spec : string → result import_failure bool;
  import_attr : string → string → result import_failure (WorkspaceSnapshot → result string bool);
  elapsed : Z;
}.

Section gates.
Context {R : Runtime} {T : PyText} {H : Host}.

Definition _meta (ws : WorkspaceSnapshot) (channel : string) : list (string * json) :=
  match Dict.get (metadata ws) channel with Some (JObj kvs) => kvs | _ => [] end.

(** [{key: name, **entry.get("evidence", {})}] *)
Definition merge_evidence (base : list (string * json)) (v : json) : result py_error (list (string * json)) :=
  match v with
  | JObj kvs => Ok (foldl (λ d kv, Dict.set d kv.1 kv.2) base kvs)
  | _ => Err TypeError
  end.
Definition no_record (why : string) (ev : list (string * json)) : PredicateResult :=
  {| ok := false; reason := why; evidence := ev; duration_ns := elapsed |}.
(** The result an entry of a channel records. *)
Definition recorded (entry : json) (base : list (string * json)) : result py_error PredicateResult :=
  e ← as_dict entry;
  ev ← merge_evidence base (get_or e "evidence" (JObj []));
  Ok {| ok := py_bool (get_or e "ok" (JBool false)); reason := py_str (get_or e "reason" (JStr ""));
        evidence := ev; duration_ns := elapsed |}.

Definition evaluate_pytest (selector : string) (ws : WorkspaceSnapshot) : result py_error PredicateResult :=
  match get_or (_meta ws "pytest") selector JNull with
  | JNull => Ok (no_record ("no pytest record for selector " +:+ str_repr selector)
                   [("selector", JStr selector)])
  | entry => recorded entry [("selector", JStr selector)]
  end.
Definition evaluate_mypy (target : string) (strict : bool) (ws : WorkspaceSnapshot)
    : result py_error PredicateResult :=
  match get_or (_meta ws "mypy") target JNull with
  | JNull => Ok (no_record ("no mypy record for target " +:+ str_repr target)
                   [("target", JStr target); ("strict", JBool strict)])
  | entry => recorded entry [("target", JStr target)]
  end.
Definition evaluate_hypothesis (target : string) (max_examples : Z) (ws : WorkspaceSnapshot)
    : result py_error PredicateResult :=
  match get_or (_meta ws "hypothesis") target JNull with
  | JNull => Ok (no_record ("no hypothesis record for target " +:+ str_repr target)
                   [("target", JStr target); ("max_examples", JInt max_examples)])
  | entry => recorded entry [("target", JStr target)]
  end.

Definition _resolve_callable (ref : string)
    : result import_failure (WorkspaceSnapshot → result string bool) :=
  match partition_at ":" ref with
  | (module_path, Some attr) => import_attr module_path attr
  | (_, None) =>
      match rpartition_at "." ref with
      | None => Err (ImportFailed "ValueError" ("callable_ref must be dotted: " +:+ str_repr ref))
      | Some (module_path, attr) => import_attr module_path attr
      end
  end.

(** A crash of the import escapes the evaluator. *)
Definition evaluate_assertion (callable_ref : string) (ws : WorkspaceSnapshot)
    : result py_error PredicateResult :=
  let ev := [("callable_ref", JStr callable_ref)] in
  match _resolve_callable callable_ref with
  | Err (ImportFailed _ msg) =>
      Ok (no_record ("could not resolve callable " +:+ str_repr callable_ref +:+ ": " +:+ msg) ev)
  | Err (ImportCrashed t _) => Err (ValueError t)
  | Ok target =>
      match target ws with
      | Err msg => Ok (no_record ("invariant callable raised: " +:+ msg) ev)
      | Ok outcome =>
          Ok {| ok := outcome;
                reason := if outcome then "invariant callable returned True"
                          else "invariant callable returned False";
                evidence := ev; duration_ns := elapsed |}
      end
  end.

Definition evaluate_artifact (path : string) (must_have_rootknot : bool) (ws : WorkspaceSnapshot)
    : PredicateResult :=
  if negb (Dict.mem (files ws) path)
  then no_record ("artifact " +:+ str_repr path +:+ " not present in snapshot") [("path", JStr path)]
  else if must_have_rootknot && negb (Dict.mem (files ws) (_sidecar_path path))
  then no_record ("rootknot sidecar " +:+ str_repr (_sidecar_path path) +:+
                  " missing for artifact " +:+ str_repr path)
         [("path", JStr path); ("sidecar", JStr (_sidecar_path path))]
  else {| ok := true; reason := "artifact " +:+ str_repr path +:+ " present";
          evidence := [("path", JStr path); ("must_have_rootknot", JBool must_have_rootknot)];
          duration_ns := elapsed |}.

(** The changed paths of the channel, with forward slashes. *)
Definition changed_files (raw : json) : result py_error (list string) :=
  if py_bool raw
  then fmap (M := list) (λ p, replace_char "\" "/" (py_str p)) <$> py_iter raw
  else Ok [].

Definition str_list (l : list string) : json := JArr (JStr <$> l).
Definition evaluate_related_file_coverage (source_glob must_also_touch_glob rationale : string)
    (ws : WorkspaceSnapshot) : result py_error PredicateResult :=
  let globs := [("source_glob", JStr source_glob); ("must_also_touch_glob", JStr must_also_touch_glob)] in
  match Dict.get (metadata ws) "changed_files" with
  | None =>
      Ok (no_record ("no ws.metadata['changed_files'] channel; cannot evaluate " +:+
                     "related_file_coverage") globs)
  | Some raw =>
      changed ← changed_files raw;
      let source_hits := _fnmatch_hits changed source_glob in
      if decide (source_hits = []) then
        Ok {| ok := true;
              reason := "no changes matching source_glob " +:+ str_repr source_glob +:+
                        "; coupling vacuously satisfied";
              evidence := globs ++ [("source_hits", JArr []); ("target_hits", JArr [])];
              duration_ns := elapsed |}
      else
        let target_hits := _fnmatch_hits changed must_also_touch_glob in
        if decide (target_hits = []) then
          Ok (no_record ("modified " +:+ container_str (str_list source_hits) +:+ " but not " +:+
                         str_repr must_also_touch_glob)
                (globs ++ [("source_hits", str_list source_hits); ("target_hits", JArr []);
                           ("rationale", JStr rationale)]))
        else
          Ok {| ok := true;
                reason := "coupling satisfied: touched " +:+ container_str (str_list source_hits) +:+
                          " and " +:+ container_str (str_list target_hits);
                evidence := globs ++ [("source_hits", str_list source_hits);
                              ("target_hits", str_list target_hits); ("rationale", JStr rationale)];
                duration_ns := elapsed |}
  end.

Definition evaluate_invocation (i : PredicateInvocation) (ws : WorkspaceSnapshot)
    : result py_error PredicateResult :=
  match i with
  | PytestInvocation selector _ => evaluate_pytest selector ws
  | MypyInvocation target strict => evaluate_mypy target strict ws
  | HypothesisInvocation target n => evaluate_hypothesis target n ws
  | AssertionInvocation ref => evaluate_assertion ref ws
  | ArtifactInvocation path rk => Ok (evaluate_artifact path rk ws)
  | RelatedFileCoverageInvocation src dst why => evaluate_related_file_coverage src dst why ws
  end.

(** [check_invocation_available]; a crash is an exception it does not catch. *)
Definition check_invocation_available (i : PredicateInvocation)
    : result import_failure (bool * string) :=
  match i with
  | PytestInvocation _ _ =>
      Ok (if which "pytest" then (true, "") else (false, "binary 'pytest' not on PATH"))
  | MypyInvocation _ _ =>
      Ok (if which "mypy" then (true, "") else (false, "binary 'mypy' not on PATH"))
  | HypothesisInvocation _ _ =>
      match find_spec "hypothesis" with
      | Err (ImportFailed _ msg) => Ok (false, "hypothesis package not importable: " +:+ msg)
      | Err e => Err e
      | Ok false => Ok (false, "hypothesis package not installed")
      | Ok true => Ok (true, "")
      end
  | AssertionInvocation ref =>
      match _resolve_callable ref with
      | Err (ImportFailed t msg) =>
          Ok (false, "callable_ref " +:+ str_repr ref +:+ " did not resolve: " +:+ t +:+ ": " +:+ msg)
      | Err e => Err e
      | Ok _ => Ok (true, "")
      end
  | ArtifactInvocation _ _ | RelatedFileCoverageInvocation _ _ _ => Ok (true, "")
  end.

(** ** [AcceptancePredicate.available] and [evaluate] *)
Definition available (p : AcceptancePredicate) : result import_failure (bool * string) :=
  check_invocation_available (invocation p).

Context {Sh : Sha256}.
Definition event := (string * list (string * json))%type.
Definition _redacted_predicate_id (raw : string) : string :=
  "redacted:" +:+ String.substring 0 16 (hex (sha256 raw)).
(** The result, and the event it emits. *)
Definition evaluate (redact : bool) (p : AcceptancePredicate) (ws : WorkspaceSnapshot)
    : action (list event) py_error PredicateResult :=
  res ← lift_result (evaluate_invocation (invocation p) ws);
  _ ← modify (λ es, es ++
        [("predicate.evaluated",
          [("predicate_id", JStr (if redact then _redacted_predicate_id (id p) else hex (id p)));
           ("kind", JStr (kind p)); ("required", JBool (required p)); ("ok", JBool (ok res));
           ("reason", JStr (reason res)); ("duration_ns", JInt (duration_ns res))])]);
  mret res.
End gates.

(** ** Brace expansion ends *)
Lemma split_groups pattern prefix rest body suffix branch :
  partition_at "{" pattern = (prefix, Some rest) → partition_at "}" rest = (body, Some suffix) →
  branch ∈ split_char "," body →
  count_char "}" (prefix +:+ strip branch +:+ suffix) < count_char "}" pattern.
Proof.
  intros [-> _]%partition_at_Some [-> _]%partition_at_Some Hb.
  pose proof (count_split "}" "," body branch ltac:(done) Hb).
  pose proof (count_strip "}" branch). rewrite !count_char_app. cbn. rewrite count_char_app. cbn. lia.
Qed.

Lemma expand_braces_some n pattern : count_char "}" pattern < n →
  ∃ l, expand_braces n pattern = Some l.
Proof.
  revert pattern. induction n as [|n IH]; intros pattern Hn; [lia|]. cbn [expand_braces].
  destruct (partition_at "{" pattern) as [prefix [rest|]] eqn:E1; [|eauto].
  destruct (partition_at "}" rest) as [body [suffix|]] eqn:E2; [|eauto].
  destruct (mapM (λ branch, expand_braces n (prefix +:+ strip branch +:+ suffix))
              (split_char "," body)) as [l|] eqn:E; [cbn; eauto|].
  apply mapM_None in E. apply Exists_exists in E as (b & Hb & Hnone).
  destruct (IH (prefix +:+ strip b +:+ suffix)) as [l Hl]; [|congruence].
  pose proof (split_groups _ _ _ _ _ _ E1 E2 Hb). lia.
Qed.

(** A pattern without a brace group. *)
Definition no_group (p : string) : Prop :=
  ∀ prefix rest, partition_at "{" p = (prefix, Some rest) → (partition_at "}" rest).2 = None.

Lemma expand_braces_flat n pattern l : expand_braces n pattern = Some l → Forall no_group l.
Proof.
  revert pattern l. induction n as [|n IH]; intros pattern l; [done|]. cbn [expand_braces].
  destruct (partition_at "{" pattern) as [prefix [rest|]] eqn:E1.
  2: { intros [= <-]. constructor; [|constructor]. intros ?? H. congruence. }
  destruct (partition_at "}" rest) as [body [suffix|]] eqn:E2.
  2: { intros [= <-]. constructor; [|constructor]. intros ?? H. rewrite E1 in H.
       injection H as <- <-. by rewrite E2. }
  intros (ls & Hls%mapM_Some & [= <-])%bind_Some. apply Forall_concat.
  eapply Forall2_Forall_r; [exact Hls|]. apply Forall_true. intros b k. apply IH.
Qed.

(** Declarative: the pattern itself without a group; else an expansion of one
    of its branches. *)
Inductive expands : string → string → Prop :=
| expands_flat p : no_group p → expands p p
| expands_branch p prefix rest body suffix branch q :
    partition_at "{" p = (prefix, Some rest) → partition_at "}" rest = (body, Some suffix) →
    branch ∈ split_char "," body → expands (prefix +:+ strip branch +:+ suffix) q →
    expands p q.

Lemma expand_braces_spec n pattern l : expand_braces n pattern = Some l →
  ∀ q, q ∈ l ↔ expands pattern q.
Proof.
  revert pattern l. induction n as [|n IH]; intros pattern l; [done|]. cbn [expand_braces].
  destruct (partition_at "{" pattern) as [prefix [rest|]] eqn:E1.
  2: { intros [= <-] q. rewrite list_elem_of_singleton. split.
       - intros ->. constructor. intros ?? H. congruence.
       - destruct 1; [done|congruence]. }
  destruct (partition_at "}" rest) as [body [suffix|]] eqn:E2.
  2: { intros [= <-] q. rewrite list_elem_of_singleton. split.
       - intros ->. constructor. intros ?? H. rewrite E1 in H. injection H as <- <-. by rewrite E2.
       - destruct 1; [done|]. congruence. }
  intros (ls & Hls%mapM_Some & [= <-])%bind_Some q. rewrite elem_of_concat. split.
  - intros (k & Hq & Hk). apply list_elem_of_lookup in Hk as [i Hi].
    apply (Forall2_lookup_r _ _ _ _ _ Hls) in Hi as (b & Hb & Hk).
    eapply expands_branch; [done..| |by eapply IH]. by eapply list_elem_of_lookup_2.
  - intros Hq. inversion Hq as [p Hno|p p1 r1 b1 s1 br q' F1 F2 Hbr Hex]; subst.
    { specialize (Hno _ _ E1). by rewrite E2 in Hno. }
    rewrite E1 in F1. injection F1 as <- <-. rewrite E2 in F2. injection F2 as <- <-.
    apply list_elem_of_lookup in Hbr as [i Hi].
    apply (Forall2_lookup_l _ _ _ _ _ Hls) in Hi as (k & Hk & Hbk).
    exists k. split; [by eapply IH|by eapply list_elem_of_lookup_2].
Qed.

Lemma elem_of_expand pattern q : q ∈ _expand_braces pattern ↔ expands pattern q.
Proof.
  unfold _expand_braces.
  destruct (expand_braces_some (S (count_char "}" pattern)) pattern) as [l Hl]; [lia|].
  rewrite Hl. by eapply expand_braces_spec.
Qed.

(** ** When a predicate holds *)
Section satisfied.
Context {R : Runtime} {T : PyText} {H : Host}.

(** Some changed path matches some expansion of the glob. *)
Definition touches (changed : list string) (glob : string) : Prop :=
  ∃ path pattern, path ∈ changed ∧ expands glob pattern ∧ path_matches path pattern = true.

(** A channel's entry that records a pass. *)
Definition passes (ws : WorkspaceSnapshot) (channel name : string) : Prop :=
  ∃ e, Dict.get (_meta ws channel) name = Some (JObj e) ∧
       py_bool (get_or e "ok" (JBool false)) = true ∧
       ∃ ev, get_or e "evidence" (JObj []) = JObj ev.

Definition satisfied (i : PredicateInvocation) (ws : WorkspaceSnapshot) : Prop :=
  match i with
  | PytestInvocation selector _ => passes ws "pytest" selector
  | MypyInvocation target _ => passes ws "mypy" target
  | HypothesisInvocation target _ => passes ws "hypothesis" target
  | AssertionInvocation ref =>
      ∃ target, _resolve_callable ref = Ok target ∧ target ws = Ok true
  | ArtifactInvocation path rk =>
      path ∈ Dict.keys (files ws) ∧ (rk = true → _sidecar_path path ∈ Dict.keys (files ws))
  | RelatedFileCoverageInvocation src dst _ =>
      ∃ raw changed, Dict.get (metadata ws) "changed_files" = Some raw ∧
        changed_files raw = Ok changed ∧ (touches changed src → touches changed dst)
  end.

Lemma hits_nonempty changed glob : _fnmatch_hits changed glob ≠ [] ↔ touches changed glob.
Proof.
  assert (∀ p, p ∈ _fnmatch_hits changed glob ↔
    p ∈ changed ∧ ∃ q, expands glob q ∧ path_matches p q = true) as Hp.
  { intros p. unfold _fnmatch_hits.
    rewrite elem_of_py_sorted, elem_of_remove_dups, elem_of_concat.
    setoid_rewrite list_elem_of_fmap. split.
    - intros (l & Hl & (q & -> & Hq%elem_of_expand)). apply list_elem_of_filter in Hl as [? ?]. eauto.
    - intros (Hc & q & Hq%elem_of_expand & Hm). eexists. split; [|eauto].
      by apply list_elem_of_filter. }
  split.
  - intros Hne. destruct (_fnmatch_hits changed glob) as [|p l] eqn:E; [done|].
    destruct (proj1 (Hp p)) as (? & q & ? & ?); [left|]. exists p, q. done.
  - intros (p & q & Hc & Hq & Hm) E. rewrite E in Hp.
    assert (p ∈ []) as ?%not_elem_of_nil by (apply Hp; eauto). done.
Qed.

Lemma recorded_ok entry base :
  (∃ r, recorded entry base = Ok r ∧ ok r = true) ↔
  ∃ e, entry = JObj e ∧ py_bool (get_or e "ok" (JBool false)) = true ∧
       ∃ ev, get_or e "evidence" (JObj []) = JObj ev.
Proof.
  unfold recorded. destruct entry as [| | | | | |e]; try naive_solver. cbn [as_dict].
  destruct (get_or e "evidence" (JObj [])) as [| | | | | |ev] eqn:E;
    cbn -[get_or py_bool]; rewrite E; cbn -[get_or py_bool]; try (split; [by intros (? & ? & _)|intros (? & [= <-] & _ & ? & ?); congruence]).
  split.
  - intros (r & [= <-] & Ho). eauto.
  - intros (? & [= <-] & Ho & _). eauto.
Qed.

Lemma channel_ok ws channel name r0 base :
  ok r0 = false →
  (∃ r, match get_or (_meta ws channel) name JNull with
        | JNull => Ok r0 | entry => recorded entry base end = Ok r ∧ ok r = true) ↔
  passes ws channel name.
Proof.
  intros H0. unfold passes, get_or at 1.
  destruct (Dict.get (_meta ws channel) name) as [v|]; cbn [default].
  2: { split; [intros (r & [= <-] & Hr); congruence|by intros (e & ? & _)]. }
  destruct v as [| | | | | |e]; cbn -[recorded get_or py_bool]; try (rewrite recorded_ok; split;
    [intros (? & [= <-] & ? & ?); eauto|intros (? & [= <-] & ? & ?); eauto]).
  split; [intros (r & [= <-] & Hr); congruence|by intros (e & ? & _)].
Qed.

#[local] Ltac not_ok :=
  split; [intros (? & ? & ?); by simplify_eq/=|intros; destruct_and?; repeat match goal with H : ∃ _, _ |- _ => destruct H end; destruct_and?; simplify_eq/=; intuition congruence].

(** The evaluator of an invocation answers [ok] exactly when it is satisfied. *)
Lemma evaluate_ok i ws :
  (∃ r, evaluate_invocation i ws = Ok r ∧ ok r = true) ↔ satisfied i ws.
Proof.
  destruct i as [s z|t b|t z|ref|path rk|src dst why]; cbn [evaluate_invocation satisfied].
  - by apply channel_ok.
  - by apply channel_ok.
  - by apply channel_ok.
  - unfold evaluate_assertion. destruct (_resolve_callable ref) as [f|[]]; [|not_ok..].
    destruct (f ws) as [[]|] eqn:E; [split; eauto|not_ok..].
  - unfold evaluate_artifact. pose proof (Dict.mem_true (files ws) path) as Hp.
    pose proof (Dict.mem_true (files ws) (_sidecar_path path)) as Hs.
    destruct (Dict.mem (files ws) path); cbn; [|not_ok].
    destruct rk; cbn; [|split; [intros _; split; [by apply Hp|done]|eauto]].
    destruct (Dict.mem (files ws) (_sidecar_path path)); cbn; [|not_ok].
    split; [intros _; split; [by apply Hp|intros _; by apply Hs]|eauto].
  - unfold evaluate_related_file_coverage.
    destruct (Dict.get (metadata ws) "changed_files") as [raw|]; [|not_ok].
    destruct (changed_files raw) as [changed|] eqn:Ec; [|not_ok]. cbn -[_fnmatch_hits].
    pose proof (hits_nonempty changed src) as Hs. pose proof (hits_nonempty changed dst) as Hd.
    destruct (decide (_fnmatch_hits changed src = [])) as [E|E].
    { split; [|eauto]. intros _. exists raw, changed. split_and!; [done..|]. intros H1%Hs. done. }
    destruct (decide (_fnmatch_hits changed dst = [])) as [E'|E'].
    + split; [by intros (r & [= <-] & Hr)|]. intros (raw' & ch & [= <-] & Hch & Ht).
      rewrite Ec in Hch. injection Hch as <-. exfalso. by apply Hs, Ht, Hd in E.
    + split; [|eauto]. intros _. exists raw, changed. split_and!; [done..|]. intros _. by apply Hd.
Qed.
End satisfied.

(** Expanding the braces of a glob ends, on every text, and gives exactly
    the expansions of its branches; none of them has a brace group left. *)
Theorem brace_expansion_ends pattern :
  ∃ l, expand_braces (S (count_char "}" pattern)) pattern = Some l ∧
       (∀ q, q ∈ l ↔ expands pattern q) ∧ Forall no_group l.
Proof.
  destruct (expand_braces_some (S (count_char "}" pattern)) pattern) as [l Hl]; [lia|].
  exists l. eauto using expand_braces_spec, expand_braces_flat.
Qed.

Example expand_ex : _expand_braces "src/{a,b}/*.{py,md}" =
  ["src/a/*.py"; "src/a/*.md"; "src/b/*.py"; "src/b/*.md"].
Proof. vm_compute. reflexivity. Qed.
Example hits_ex : _fnmatch_hits ["src/x/y.py"; "docs/a.md"; "src/z.py"] "src/**/*.py" =
  ["src/x/y.py"; "src/z.py"].
Proof. vm_compute. reflexivity. Qed.
