(* ===== verification/FileSystem.v ===== *)
(** * A POSIX file system, as [os] and [os.path] see it

    Paths, nodes, the system's own path walk with its limit on links, and the
    standard library's [realpath] with its table of links, related by
    [realpath_walk]: where the system arrives is what [realpath] says. *)

From S2P Require Import Prelude.

(** A path from the root, by its components. *)
Notation path := (list string).

Inductive fnode : Type :=
| Dir
| Regular (data : string) (nlink : Z)
| SymLink (target : string)
| Special.
#[export] Instance fnode_eq_dec : EqDecision fnode.
Proof. solve_decision. Defined.
Notation fs := (gmap path fnode).

Definition is_abs (s : string) : bool := startswith s "/".
Definition comps (s : string) : list string := split_char "/" s.
Definition path_str (p : path) : string := "/" +:+ str_join "/" p.
Definition parent (p : path) : path := removelast p.

Section walk.
Context (F : fs).

Definition is_dir (p : path) : bool :=
  match p with [] => true | _ => match F !! p with Some Dir => true | _ => false end end.
(** Where a link at [p] starts, and what it says. *)
Definition link_base (p : path) (t : string) : path := if is_abs t then [] else parent p.

(** ** The system's walk

    [n] links may still be followed (40 on Linux); the result has the links
    left.  Every component is looked up in a directory; the last one may be
    missing. *)
Fixpoint walk (n : nat) : path → list string → option (path * nat) :=
  fix go cur todo :=
    match todo with
    | [] => Some (cur, n)
    | name :: todo =>
        if String.eqb name "" then go cur todo
        else if negb (is_dir cur) then None
        else if String.eqb name "." then go cur todo
        else if String.eqb name ".." then go (parent cur) todo
        else match F !! (cur ++ [name]), n with
             | Some (SymLink t), O => None
             | Some (SymLink t), S n =>
                 walk n (link_base (cur ++ [name]) t) (comps t ++ todo)
             | _, _ => go (cur ++ [name]) todo
             end
    end.
Definition MAXSYMLINKS : nat := 40.
(** Where the system arrives at a path from the root, following its last link. *)
Definition leads (p r : path) : Prop := ∃ m, walk MAXSYMLINKS [] p = Some (r, m).

(** [os.lstat]: the last component is not followed. *)
Definition lstat (p : path) : option fnode :=
  match last p with
  | None => Some Dir
  | Some name =>
      match walk MAXSYMLINKS [] (parent p) with
      | Some (q, _) => if is_dir q then F !! (q ++ [name]) else None
      | None => None
      end
  end.
Definition lexists (p : path) : bool := match lstat p with Some _ => true | None => false end.
Definition islink (p : path) : bool := match lstat p with Some (SymLink _) => true | _ => false end.

(** ** [os.path.realpath], not strict *)
Notation table := (gmap path (option path)).
Fixpoint real (fuel : nat) : path → list string → table → option (path * bool * table) :=
  match fuel with
  | O => λ _ _ _, None
  | S fuel =>
      fix go cur rest seen :=
        match rest with
        | [] => Some (cur, true, seen)
        | name :: rest =>
            if String.eqb name "" || String.eqb name "." then go cur rest seen
            else if String.eqb name ".." then go (parent cur) rest seen
            else let new := cur ++ [name] in
            match F !! new with
            | Some (SymLink t) =>
                match seen !! new with
                | Some (Some q) => go q rest seen
                | Some None => Some (new ++ rest, false, seen)
                | None =>
                    match real fuel (link_base new t) (comps t) (<[new := None]> seen) with
                    | Some (q, true, seen) => go q rest (<[new := Some q]> seen)
                    | Some (q, false, seen) => Some (q ++ rest, false, seen)
                    | None => None
                    end
                end
            | _ => go new rest seen
            end
        end
  end.

(** [abspath] of what is left of a loop. *)
Fixpoint normpath (acc : path) (l : list string) : path :=
  match l with
  | [] => acc
  | name :: l =>
      if String.eqb name "" || String.eqb name "." then normpath acc l
      else if String.eqb name ".." then normpath (parent acc) l
      else normpath (acc ++ [name]) l
  end.
(** Every link enters the table once, so their number bounds the depth. *)
Definition realpath_from (cur : path) (rest : list string) : path :=
  match real (S (size F)) cur rest ∅ with
  | Some (q, true, _) => q
  | Some (q, false, _) => normpath [] q
  | None => []
  end.
Definition realpath (cwd : path) (s : string) : path :=
  realpath_from (if is_abs s then [] else cwd) (comps s).

(** ** The walk *)
Lemma walk_nil n cur : walk n cur [] = Some (cur, n).
Proof. by destruct n. Qed.
Lemma walk_cons n cur name todo : walk n cur (name :: todo) =
  if String.eqb name "" then walk n cur todo
  else if negb (is_dir cur) then None
  else if String.eqb name "." then walk n cur todo
  else if String.eqb name ".." then walk n (parent cur) todo
  else match F !! (cur ++ [name]), n with
       | Some (SymLink t), O => None
       | Some (SymLink t), S n => walk n (link_base (cur ++ [name]) t) (comps t ++ todo)
       | _, _ => walk n (cur ++ [name]) todo
       end.
Proof. by destruct n. Qed.

Lemma walk_app n cur a b : walk n cur (a ++ b) =
  match walk n cur a with Some (q, m) => walk m q b | None => None end.
Proof.
  revert cur a. induction n as [|n IHn]; intros cur a; revert cur;
    (induction a as [|name a IHa]; intros cur; [done|]); rewrite <-app_comm_cons, !walk_cons, !IHa.
  all: repeat case_match; try done.
  all: rewrite (assoc_L (++)), IHn; by simplify_option_eq.
Qed.

Lemma walk_left n cur todo q m : walk n cur todo = Some (q, m) → m ≤ n.
Proof.
  revert cur todo. induction n as [|n IHn]; intros cur todo; revert cur;
    (induction todo as [|name todo IH]; intros cur; [cbn; by intros [= _ <-]|]); rewrite walk_cons.
  all: repeat case_match; try done; eauto.
Qed.

(** The links followed do not depend on how many were allowed. *)
Lemma walk_shift n cur todo q m k : walk n cur todo = Some (q, m) → walk (n + k) cur todo = Some (q, m + k).
Proof.
  revert cur todo. induction n as [|n IHn]; intros cur todo; revert cur;
    (induction todo as [|name todo IH]; intros cur; [rewrite !walk_nil; by intros [= -> ->]|]); rewrite !walk_cons.
  all: repeat case_match; try done; eauto.
  intros Hw%IHn. by simplify_eq/=.
Qed.
Lemma walk_functional n n' cur todo q q' m m' :
  walk n cur todo = Some (q, m) → walk n' cur todo = Some (q', m') → q = q' ∧ n - m = n' - m'.
Proof.
  intros H H'. pose proof (walk_left _ _ _ _ _ H). pose proof (walk_left _ _ _ _ _ H').
  pose proof (walk_shift _ _ _ _ _ n' H) as E. pose proof (walk_shift _ _ _ _ _ n H') as E'.
  rewrite (Nat.add_comm n' n) in E'. rewrite E in E'. injection E' as <- ?. split; [done|lia].
Qed.

(** ** [realpath] agrees with the walk *)

Lemma real_cons fuel cur name rest seen : real (S fuel) cur (name :: rest) seen =
  if String.eqb name "" || String.eqb name "." then real (S fuel) cur rest seen
  else if String.eqb name ".." then real (S fuel) (parent cur) rest seen
  else let new := cur ++ [name] in
  match F !! new with
  | Some (SymLink t) =>
      match seen !! new with
      | Some (Some q) => real (S fuel) q rest seen
      | Some None => Some (new ++ rest, false, seen)
      | None =>
          match real fuel (link_base new t) (comps t) (<[new := None]> seen) with
          | Some (q, true, seen) => real (S fuel) q rest (<[new := Some q]> seen)
          | Some (q, false, seen) => Some (q ++ rest, false, seen)
          | None => None
          end
      end
  | _ => real (S fuel) new rest seen
  end.
Proof. done. Qed.

(** The table during a job that follows [c] links: what it says of a finished
    link is where it leads, and the links still being resolved take more than
    [c] links. *)
Record table_ok (c : nat) (seen : table) : Prop := {
  table_done p t q : F !! p = Some (SymLink t) → seen !! p = Some (Some q) →
    ∃ n m, walk n (link_base p t) (comps t) = Some (q, m);
  table_pending p t n q m : F !! p = Some (SymLink t) → seen !! p = Some None →
    walk n (link_base p t) (comps t) = Some (q, m) → c ≤ n - m;
  table_links p : is_Some (seen !! p) → is_Some (F !! p);
}.
Definition same_pending (seen seen' : table) : Prop :=
  ∀ p, seen' !! p = Some None ↔ seen !! p = Some None.
(** The links that may still enter. *)
Definition fresh (seen : table) : nat := size (dom F ∖ dom seen).

Lemma fresh_mono (seen seen' : table) : dom seen ⊆ dom seen' → fresh seen' ≤ fresh seen.
Proof. intros H. unfold fresh. apply (subseteq_size (C := gset path)). set_solver. Qed.

Lemma table_ok_weaken c c' seen : table_ok c seen → c' ≤ c → table_ok c' seen.
Proof. intros [? Hp ?] Hc. split; [done| |done]. intros. etrans; [exact Hc|eauto]. Qed.

Lemma fresh_insert (seen : table) p x : is_Some (F !! p) → seen !! p = None →
  fresh (<[p := x]> seen) < fresh seen.
Proof.
  intros Hp Hs. unfold fresh. apply subset_size. rewrite dom_insert_L.
  apply elem_of_dom in Hp. apply not_elem_of_dom in Hs. set_solver.
Qed.

Lemma table_ok_pending c c' seen seen' : table_ok c seen → table_ok c' seen' →
  same_pending seen seen' → table_ok c seen'.
Proof.
  intros [_ Hp _] [Hd _ Hl] Hs. split; [done| |done].
  intros p t n q m ? ?%Hs. by eapply Hp.
Qed.
Lemma table_ok_enter n m k seen p t q : table_ok k seen → n - m ≤ k →
  F !! p = Some (SymLink t) → walk n (link_base p t) (comps t) = Some (q, m) →
  table_ok (n - m) (<[p := None]> seen).
Proof.
  intros [Hd Hp Hl] Hk El Hw. split.
  - intros p' t' q' E [[<- ?]|[_ Es]]%lookup_insert_Some; [done|by eapply Hd].
  - intros p' t' n' q' m' E [[<- _]|[_ Es]]%lookup_insert_Some Hw'; simplify_eq.
    + by destruct (walk_functional _ _ _ _ _ _ _ _ Hw Hw') as [_ ->].
    + etrans; [exact Hk|by eapply Hp].
  - intros p' [x [[<- _]|[_ Es]]%lookup_insert_Some]; eauto.
Qed.
Lemma table_ok_leave n m k seen0 seen p t q : table_ok k seen0 → seen0 !! p = None →
  table_ok (n - m) seen → same_pending (<[p := None]> seen0) seen →
  F !! p = Some (SymLink t) → walk n (link_base p t) (comps t) = Some (q, m) →
  same_pending seen0 (<[p := Some q]> seen) ∧ table_ok k (<[p := Some q]> seen).
Proof.
  intros Hk E0 [Hd _ Hl] Hs El Hw.
  assert (same_pending seen0 (<[p := Some q]> seen)) as Hs'.
  { intros p'. specialize (Hs p'). destruct (decide (p' = p)) as [->|].
    - rewrite E0, lookup_insert_eq. naive_solver.
    - by rewrite lookup_insert_ne, Hs, lookup_insert_ne. }
  split; [done|]. destruct Hk as [_ Hp _]. split.
  - intros p' t' q' E [[<- [= <-]]|[_ Es]]%lookup_insert_Some; [|by eapply Hd].
    simplify_eq. eauto.
  - intros p' t' n' q' m' E Ep%Hs'. by eapply Hp.
  - intros p' [x [[<- _]|[_ Es]]%lookup_insert_Some]; eauto.
Qed.

Lemma real_walk fuel cur rest n r m seen :
  walk n cur rest = Some (r, m) → table_ok (n - m) seen → fresh seen < fuel →
  ∃ seen', real fuel cur rest seen = Some (r, true, seen') ∧
           table_ok (n - m) seen' ∧ same_pending seen seen' ∧ dom seen ⊆ dom seen'.
Proof.
  revert cur rest n r m seen. induction fuel as [|fuel IHf]; [lia|].
  intros cur rest. revert cur. induction rest as [|name rest IH]; intros cur n r m seen.
  { rewrite walk_nil. intros [= <- <-] Ht _. by exists seen. }
  rewrite walk_cons, real_cons. intros Hw Ht Hf.
  destruct (String.eqb name "") eqn:E1; [by eapply IH|].
  destruct (negb (is_dir cur)); [done|]. cbn [orb].
  destruct (String.eqb name "."); [by eapply IH|].
  destruct (String.eqb name ".."); [by eapply IH|]. cbv zeta.
  destruct (F !! (cur ++ [name])) as [[| |t|]|] eqn:El; try (by eapply IH).
  destruct n as [|n]; [done|]. set (new := cur ++ [name]) in *. rewrite walk_app in Hw.
  destruct (walk n (link_base new t) (comps t)) as [[q m1]|] eqn:Hl; [|done].
  pose proof (walk_left _ _ _ _ _ Hl). pose proof (walk_left _ _ _ _ _ Hw).
  destruct (seen !! new) as [[q'|]|] eqn:Es.
  - destruct (table_done _ _ Ht _ _ _ El Es) as (n' & m' & Hl').
    destruct (walk_functional _ _ _ _ _ _ _ _ Hl Hl') as [<- _].
    destruct (IH q m1 r m seen Hw) as (seen' & Hr & Ht' & Hp & Hd); [|done|].
    { eapply table_ok_weaken; [exact Ht|lia]. }
    exists seen'. split_and!; [done| |done..]. by eapply table_ok_pending.
  - pose proof (table_pending _ _ Ht _ _ _ _ _ El Es Hl). lia.
  - set (seen1 := <[new := None]> seen).
    destruct (IHf (link_base new t) (comps t) n q m1 seen1 Hl) as (seen2 & -> & Ht2 & Hp2 & Hd2).
    { eapply (table_ok_enter n m1 (S n - m)); eauto with lia. }
    { pose proof (fresh_insert seen new None ltac:(eauto) Es). unfold seen1. lia. }
    destruct (table_ok_leave n m1 (S n - m) seen seen2 new t q Ht Es Ht2 Hp2 El Hl) as [Hp3 Ht3].
    assert (dom seen ⊆ dom (<[new := Some q]> seen2)) as Hd3 by (unfold seen1 in Hd2; set_solver).
    destruct (IH q m1 r m (<[new := Some q]> seen2) Hw) as (seen' & Hr & Ht' & Hp & Hd).
    { eapply table_ok_weaken; [exact Ht3|lia]. }
    { eapply Nat.le_lt_trans; [|exact Hf]. by apply fresh_mono. }
    exists seen'. split_and!; [done| | |].
    + by eapply table_ok_pending.
    + intros p. etrans; [apply Hp|apply Hp3].
    + by etrans.
Qed.

(** [realpath] always answers: its table bounds its depth. *)
Lemma real_total fuel cur rest seen : fresh seen < fuel →
  ∃ q b seen', real fuel cur rest seen = Some (q, b, seen') ∧ dom seen ⊆ dom seen'.
Proof.
  revert cur rest seen. induction fuel as [|fuel IHf]; [lia|].
  intros cur rest. revert cur. induction rest as [|name rest IH]; intros cur seen Hf.
  { by eexists _, _, _. }
  rewrite real_cons. destruct (_ || _); [by apply IH|]. destruct (String.eqb name ".."); [by apply IH|].
  cbv zeta. set (new := cur ++ [name]).
  destruct (F !! new) as [[| |t|]|] eqn:El; try (by apply IH).
  destruct (seen !! new) as [[q|]|] eqn:Es; [by apply IH|by eexists _, _, _|].
  destruct (IHf (link_base new t) (comps t) (<[new := None]> seen)) as (q & b & seen2 & -> & Hd2).
  { pose proof (fresh_insert seen new None ltac:(eauto) Es). lia. }
  rewrite dom_insert_L in Hd2. destruct b; [|eexists _, _, _; split; [done|set_solver]].
  destruct (IH q (<[new := Some q]> seen2)) as (q' & b & seen3 & -> & Hd3).
  { eapply Nat.le_lt_trans; [|exact Hf]. apply fresh_mono. rewrite dom_insert_L. set_solver. }
  eexists _, _, _. split; [done|]. rewrite dom_insert_L in Hd3. set_solver.
Qed.

Lemma fresh_empty : fresh ∅ < S (size F).
Proof. unfold fresh. rewrite dom_empty_L, difference_empty_L, size_dom. lia. Qed.

(** Where the system arrives is what [realpath] says. *)
Lemma realpath_walk n cur rest r m : walk n cur rest = Some (r, m) → realpath_from cur rest = r.
Proof.
  intros Hw. unfold realpath_from.
  destruct (real_walk (S (size F)) cur rest n r m ∅ Hw) as (seen & -> & _); [|apply fresh_empty|done].
  split; intros *; rewrite ?lookup_empty; [done|done|by intros []].
Qed.

(** A path of plain names that meets no link leads where it says. *)
Definition plain_name (s : string) : Prop := s ≠ "" ∧ s ≠ "." ∧ s ≠ "..".
Lemma walk_no_links n cur rest r m : Forall plain_name rest →
  (∀ k name, rest !! k = Some name → ∀ t, F !! (cur ++ take (S k) rest) ≠ Some (SymLink t)) →
  walk n cur rest = Some (r, m) → r = cur ++ rest ∧ m = n.
Proof.
  intros Hp. revert cur. induction Hp as [|name rest (H1 & H2 & H3) _ IH]; intros cur Hl.
  { rewrite walk_nil, app_nil_r. by intros [= <- <-]. }
  rewrite walk_cons. apply String.eqb_neq in H1, H2, H3. rewrite H1, H2, H3.
  destruct (negb (is_dir cur)); [done|].
  assert (walk n (cur ++ [name]) rest = Some (r, m) → r = cur ++ name :: rest ∧ m = n) as Hgo.
  { intros Hw. destruct (IH (cur ++ [name])) with (2 := Hw) as [-> ->].
    - intros k nm Hk t. rewrite <-(assoc_L (++)). apply (Hl (S k) nm Hk t).
    - by rewrite <-(assoc_L (++)). }
  destruct (F !! (cur ++ [name])) as [[| |t|]|] eqn:E; try done.
  exfalso. by apply (Hl 0 name eq_refl t).
Qed.

(** ** Where a walk arrives *)

(** Every component is looked up in a directory and none is a link. *)
Inductive solid : path → Prop :=
| solid_nil : solid []
| solid_snoc p name : solid p → plain_name name → no_char "/" name = true → is_dir p = true →
    (∀ t, F !! (p ++ [name]) ≠ Some (SymLink t)) → solid (p ++ [name]).

Lemma solid_parent p : solid p → solid (parent p).
Proof.
  intros [|q name Hq _ _ _ _]; [constructor|]. unfold parent. by rewrite removelast_last.
Qed.
Lemma solid_walk p k : solid p → walk k [] p = Some (p, k).
Proof.
  induction 1 as [|p name _ IH (H1 & H2 & H3) _ Hd Hl]; [apply walk_nil|].
  rewrite walk_app, IH, walk_cons, Hd. apply String.eqb_neq in H1, H2, H3. rewrite H1, H2, H3.
  destruct (F !! (p ++ [name])) as [[| |t|]|] eqn:E; try apply walk_nil. by destruct (Hl t).
Qed.
Lemma solid_names p : solid p → Forall plain_name p ∧ Forall (λ s, no_char "/" s = true) p.
Proof.
  induction 1 as [|p name _ [IH1 IH2] Hn Hs _ _]; [by split|]. by rewrite !Forall_app, !Forall_singleton.
Qed.

Definition no_slash (l : list string) : Prop := Forall (λ s, no_char "/" s = true) l.
Lemma split_no_char sep s : Forall (λ p, no_char sep p = true) (split_char sep s).
Proof.
  induction s as [|c s IH]; [by repeat constructor|]. cbn.
  destruct (Ascii.eqb c sep) eqn:E; [by constructor|].
  destruct (split_char sep s) as [|l ls].
  - repeat constructor. unfold no_char. cbn. by rewrite E.
  - apply Forall_cons in IH as [Hl Hls]. constructor; [|done]. unfold no_char in *. cbn. by rewrite E.
Qed.
Lemma comps_no_slash s : no_slash (comps s).
Proof. apply split_no_char. Qed.

Lemma walk_solid n cur todo r m : walk n cur todo = Some (r, m) → solid cur → no_slash todo → solid r.
Proof.
  revert cur todo. induction n as [|n IHn]; intros cur todo; revert cur;
    (induction todo as [|name todo IH]; intros cur; [rewrite walk_nil; by intros [= -> _]|]);
    rewrite walk_cons; intros Hw Hs [Hn Ht]%Forall_cons.
  all: destruct (String.eqb_spec name ""); [by eapply IH|].
  all: destruct (is_dir cur) eqn:Hd; [|done]; cbn [negb] in Hw.
  all: destruct (String.eqb_spec name "."); [by eapply IH|].
  all: destruct (String.eqb_spec name ".."); [eapply IH; eauto using solid_parent|].
  all: destruct (F !! (cur ++ [name])) as [[| |t|]|] eqn:E; try done;
    try (eapply IH; [exact Hw|apply solid_snoc; [done|by split_and!|done|done|congruence]|done]).
  eapply IHn; [exact Hw| |by apply Forall_app_2, Ht; apply comps_no_slash].
  unfold link_base. destruct (is_abs t); [constructor|]. unfold parent. by rewrite removelast_last.
Qed.

(** ** The names of a real path *)
Definition real_name (s : string) : Prop := plain_name s ∧ no_char "/" s = true.
Notation names p := (Forall real_name p).

Lemma names_parent p : names p → names (parent p).
Proof.
  unfold parent. destruct p as [|a p _] using rev_ind; [done|]. rewrite removelast_last.
  by intros [? _]%Forall_app.
Qed.
Lemma names_snoc p a : names p → plain_name a → no_char "/" a = true → names (p ++ [a]).
Proof. intros. apply Forall_app. split; [done|]. constructor; [by split|constructor]. Qed.
Lemma names_base p t : names p → names (link_base p t).
Proof. intros. unfold link_base. destruct (is_abs t); [constructor|by apply names_parent]. Qed.
Lemma names_slash p : names p → no_slash p.
Proof. intros H. eapply Forall_impl; [exact H|]. by intros a [_ ?]. Qed.

Definition table_names (seen : table) : Prop := ∀ p q, seen !! p = Some (Some q) → names q.

Lemma real_names fuel cur rest seen q b seen' : real fuel cur rest seen = Some (q, b, seen') →
  names cur → no_slash rest → table_names seen →
  (b = true → names q) ∧ no_slash q ∧ table_names seen'.
Proof.
  revert cur rest seen q b seen'. induction fuel as [|fuel IHf]; [done|].
  intros cur rest. revert cur. induction rest as [|name rest IH]; intros cur seen q b seen' Hr Hc Hs Ht.
  { injection Hr as <- <- <-. split_and!; [done|by apply names_slash|done]. }
  rewrite real_cons in Hr. apply Forall_cons in Hs as [Hn Hs].
  destruct (String.eqb_spec name ""); cbn [orb] in Hr; [by eapply IH|].
  destruct (String.eqb_spec name "."); [by eapply IH|].
  destruct (String.eqb_spec name ".."); [eapply IH; eauto using names_parent|]. cbv zeta in Hr.
  assert (names (cur ++ [name])) as Hnew by (by apply names_snoc).
  set (new := cur ++ [name]) in *.
  destruct (F !! new) as [[| |t|]|] eqn:El; try (by eapply IH).
  destruct (seen !! new) as [[q'|]|] eqn:Es; [eapply IH; eauto| |].
  { injection Hr as <- <- <-. split_and!; [done| |done]. apply Forall_app.
    split; [by apply names_slash|done]. }
  destruct (real fuel _ _ _) as [[[q' [|]] seen2]|] eqn:Er; [| |done];
    (apply IHf in Er as (Hq & Hq2 & Ht2); [|by apply names_base|apply comps_no_slash|]).
  - eapply IH; [exact Hr|by apply Hq|done|].
    intros p x [[_ [= <-]]|[_ Hx]]%lookup_insert_Some; [by apply Hq|by eapply Ht2].
  - intros p x [[_ [=]]|[_ Hx]]%lookup_insert_Some. by eapply Ht.
  - injection Hr as <- <- <-. split_and!; [done| |done]. by apply Forall_app.
  - intros p x [[_ [=]]|[_ Hx]]%lookup_insert_Some. by eapply Ht.
Qed.
Lemma normpath_names acc l : names acc → no_slash l → names (normpath acc l).
Proof.
  revert acc. induction l as [|name l IH]; intros acc Ha; [done|]. intros [Hn Hl]%Forall_cons. cbn.
  destruct (String.eqb_spec name ""); cbn [orb]; [by apply IH|].
  destruct (String.eqb_spec name "."); [by apply IH|].
  destruct (String.eqb_spec name ".."); apply IH; auto using names_parent. by apply names_snoc.
Qed.
Lemma realpath_names cur rest : names cur → no_slash rest → names (realpath_from cur rest).
Proof.
  intros Hc Hr. unfold realpath_from.
  destruct (real _ cur rest ∅) as [[[q b] seen]|] eqn:E; [|constructor].
  apply real_names in E as (H1 & H2 & _); [|done|done|by intros p q'; rewrite lookup_empty].
  destruct b; [by apply H1|]. apply normpath_names; [constructor|done].
Qed.
Lemma solid_real p : solid p → names p.
Proof.
  intros [H1 H2]%solid_names. unfold real_name. apply Forall_and. by split.
Qed.
End walk.
Notation names p := (Forall real_name p).

(** ** A tree: what is there is in a directory *)
Section tree.
Context (F : fs).

Definition wf_fs : Prop := ∀ p name, is_Some (F !! (p ++ [name])) → is_dir F p = true.
Lemma is_dir_snoc p a : is_dir F (p ++ [a]) = true ↔ F !! (p ++ [a]) = Some Dir.
Proof.
  unfold is_dir. destruct (p ++ [a]) as [|x l] eqn:E; [by destruct p|].
  destruct (F !! (x :: l)) as [[]|]; naive_solver.
Qed.

Lemma wf_prefix p q : wf_fs → q ≠ [] → is_Some (F !! (p ++ q)) → is_dir F p = true.
Proof.
  intros Hwf. revert p. induction q as [|a q IH]; [done|]. intros p _ Hs.
  destruct (decide (q = [])) as [->|Hq]; [by eapply Hwf|].
  apply (Hwf p a). specialize (IH (p ++ [a]) Hq). rewrite <-(assoc_L (++)) in IH.
  specialize (IH Hs). apply is_dir_snoc in IH. by rewrite IH.
Qed.
End tree.
