(* ===== verification/FileOps.v ===== *)
(** * What the program does to files

    [pathlib]'s questions and the system calls behind [mkdir], [open] for
    writing, [unlink], [iterdir] and [rmtree], on the tree of [FileSystem];
    links are followed where the system follows them.  A call that fails
    changes nothing.  The laws are about a [place]: a path that meets no link,
    has room for a file and is not in the way of another. *)

From S2P Require Import Prelude FileSystem.

Section ops.
Context (F : fs).

Definition node_at (r : path) : option fnode := match r with [] => Some Dir | _ => F !! r end.
Definition stat (p : path) : option fnode :=
  match walk F MAXSYMLINKS [] p with
  | Some (r, _) => node_at r
  | None => None
  end.
Definition read_bytes (p : path) : option string :=
  match stat p with Some (Regular data _) => Some data | _ => None end.
Definition is_file (p : path) : bool := match stat p with Some (Regular _ _) => true | _ => false end.
Definition is_folder (p : path) : bool := match stat p with Some Dir => true | _ => false end.
Definition exists_at (p : path) : bool := match stat p with Some _ => true | _ => false end.

(** Why a walk does not arrive. *)
Inductive errno : Type := ENOENT | ENOTDIR | ELOOP.
Fixpoint walk_errno (n : nat) : path → list string → errno :=
  fix go cur todo :=
    match todo with
    | [] => ENOENT
    | name :: todo =>
        if String.eqb name "" then go cur todo
        else if negb (is_dir F cur) then match F !! cur with None => ENOENT | _ => ENOTDIR end
        else if String.eqb name "." then go cur todo
        else if String.eqb name ".." then go (parent cur) todo
        else match F !! (cur ++ [name]), n with
             | Some (SymLink t), O => ELOOP
             | Some (SymLink t), S n =>
                 walk_errno n (link_base (cur ++ [name]) t) (comps t ++ todo)
             | _, _ => go (cur ++ [name]) todo
             end
    end.
(** [read_bytes] that tells a missing file from other failures. *)
Definition open_read (p : path) : result errno (option string) :=
  match walk F MAXSYMLINKS [] p with
  | Some (r, _) =>
      match node_at r with
      | Some (Regular data _) => Ok (Some data)
      | None => Ok None
      | _ => Err ENOTDIR
      end
  | None => match walk_errno MAXSYMLINKS [] p with ENOENT => Ok None | e => Err e end
  end.

(** [os.mkdir]: the last component is not followed. *)
Inductive made : Type := Made (F' : fs) | Exists_ | NoParent.
Definition make_dir (p : path) : made :=
  match last p with
  | None => Exists_
  | Some name =>
      match walk F MAXSYMLINKS [] (parent p) with
      | Some (q, _) =>
          if is_dir F q then
            match F !! (q ++ [name]) with
            | None => Made (<[q ++ [name] := Dir]> F)
            | Some _ => Exists_
            end
          else NoParent
      | None => NoParent
      end
  end.

(** [open(p, "wb")] and the bytes: a last link is followed. *)
Definition put (p : path) (data : string) : option fs :=
  match walk F MAXSYMLINKS [] p with
  | Some ([], _) | None => None
  | Some (r, _) =>
      match F !! r with
      | Some (Regular _ n) => Some (<[r := Regular data n]> F)
      | None => Some (<[r := Regular data 1]> F)
      | Some _ => None
      end
  end.
(** [os.unlink]: the last component is not followed. *)
Definition unlink (p : path) : option fs :=
  match last p with
  | None => None
  | Some name =>
      match walk F MAXSYMLINKS [] (parent p) with
      | Some (q, _) =>
          match F !! (q ++ [name]) with
          | Some Dir | None => None
          | Some _ => Some (delete (q ++ [name]) F)
          end
      | None => None
      end
  end.
(** [shutil.rmtree] of the folder at [q]. *)
Definition rmtree (q : path) : fs := filter (λ x, ¬ q `prefix_of` x.1) F.
(** The names in the folder at [q]. *)
Definition child_of (q p : path) : option string :=
  if bool_decide (p ≠ [] ∧ parent p = q) then last p else None.
Definition children (q : path) : list string := omap (λ x, child_of q x.1) (map_to_list F).
End ops.

(** [Path.mkdir(parents=True, exist_ok=True)] *)
Fixpoint mkdirs (fuel : nat) (F : fs) (p : path) : option fs :=
  match make_dir F p with
  | Made F' => Some F'
  | Exists_ => if is_folder F p then Some F else None
  | NoParent =>
      match fuel with
      | O => None
      | S fuel =>
          F1 ← mkdirs fuel F (parent p);
          match make_dir F1 p with
          | Made F' => Some F'
          | Exists_ => if is_folder F1 p then Some F1 else None
          | NoParent => None
          end
      end
  end.
Definition make_dirs_at (F : fs) (p : path) : option fs := mkdirs (length p) F p.
(** The folders of a file are made and it gets the bytes. *)
Definition put_file (F : fs) (p : path) (data : string) : option fs :=
  F ← make_dirs_at F (parent p); put F p data.

(** [root / key]: a key that starts at the root of the system replaces it. *)
Definition join_root (root : path) (key : string) : path :=
  (if is_abs key then [] else root) ++ filter (λ p, p ≠ "" ∧ p ≠ ".") (comps key).
(** [p.relative_to(root)] and [as_posix] *)
Definition relative_to (root p : path) : option path :=
  if bool_decide (root `prefix_of` p) then Some (drop (length root) p) else None.
Definition as_posix (rel : path) : string := match rel with [] => "." | _ => str_join "/" rel end.

(** ** [workspace_state.check_state_path]: the first link from [.ract] on *)
Section state.
Context {U : Unicode}.
Fixpoint state_link (F : fs) (seen : path) (found : bool) (rest : list string) : option path :=
  match rest with
  | [] => None
  | part :: rest =>
      let seen := seen ++ [part] in
      let found := found || String.eqb (casefold part) ".ract" in
      if found && islink F seen then Some seen else state_link F seen found rest
  end.
Definition check_state_path (F : fs) (p : path) : option path := state_link F [] false p.
End state.
