(* ===== verification/FileOpsLaws.v ===== *)
(** * The laws of file operations at a place

    A [place] is a path of plain names below folders that are there or can be
    made, with a file or nothing at its end and no link anywhere: there
    [realpath] changes nothing, and a file is read, written and removed as one
    expects, with no effect on other places. *)

From S2P Require Import Prelude FileSystem FileOps.

Implicit Types (F : fs) (p q : path).

(** [q] is strictly below [p]. *)
Definition below p q : Prop := ∃ a r, q = p ++ a :: r.
Definition clear F p : Prop := ∀ q, q ≠ [] → below q p → F !! q = None ∨ F !! q = Some Dir.
Record place F p : Prop := {
  place_names : names p;
  place_ne : p ≠ [];
  place_clear : clear F p;
  place_free : F !! p = None ∨ ∃ d n, F !! p = Some (Regular d n);
}.
(** A folder that is there or can be made. *)
Record way F p : Prop := {
  way_names : names p;
  way_free : ∀ q, q ≠ [] → q `prefix_of` p → F !! q = None ∨ F !! q = Some Dir;
}.
Definition apart p q : Prop := ¬ below p q ∧ ¬ below q p.
Definition file F p : option string := match F !! p with Some (Regular d _) => Some d | _ => None end.

(** ** Paths *)
Lemma below_snoc p q a : below q (p ++ [a]) ↔ q `prefix_of` p.
Proof.
  split.
  - intros (b & r & E). destruct r as [|c r _] using rev_ind.
    + apply app_inj_tail in E as [-> _]. done.
    + rewrite app_comm_cons, (assoc_L (++)) in E. apply app_inj_tail in E as [-> _]. by exists (b :: r).
  - intros [r ->]. destruct r as [|b r]; [by exists a, []; rewrite app_nil_r|].
    exists b, (r ++ [a]). by rewrite <-(assoc_L (++)).
Qed.
Lemma below_prefix p q : below q p → q `prefix_of` p.
Proof. intros (a & r & ->). by exists (a :: r). Qed.
Lemma prefix_below p q : q `prefix_of` p → q = p ∨ below q p.
Proof. intros [[|a r] ->]; [left; by rewrite app_nil_r|right; by exists a, r]. Qed.
Lemma below_irrefl p : ¬ below p p.
Proof. intros (a & r & E). apply (f_equal length) in E. rewrite length_app in E. cbn in E. lia. Qed.
Lemma below_length p q : below p q → length p < length q.
Proof. intros (a & r & ->). rewrite length_app. cbn. lia. Qed.
Lemma apart_places_sym p q : apart p q → apart q p.
Proof. unfold apart. tauto. Qed.
Lemma apart_refl p : apart p p.
Proof. split; apply below_irrefl. Qed.
Lemma below_app p q r : below (p ++ q) (p ++ r) ↔ below q r.
Proof.
  split; intros (a & t & E); exists a, t.
  - rewrite <-(assoc_L (++)) in E. by apply app_inv_head in E.
  - rewrite E. by rewrite (assoc_L (++)).
Qed.
Lemma apart_app p q r : apart (p ++ q) (p ++ r) ↔ apart q r.
Proof. unfold apart. by rewrite !below_app. Qed.
Lemma parent_snoc p a : parent (p ++ [a]) = p.
Proof. apply removelast_last. Qed.
Lemma split_last p : p ≠ [] → ∃ q a, p = q ++ [a].
Proof. destruct p as [|a q _] using rev_ind; [done|]. eauto. Qed.

(** ** [realpath] of a straight path *)
Lemma real_straight F fuel cur rest seen : names rest →
  (∀ k t, k < length rest → F !! (cur ++ take (S k) rest) ≠ Some (SymLink t)) →
  real F (S fuel) cur rest seen = Some (cur ++ rest, true, seen).
Proof.
  intros Hn. revert cur. induction Hn as [|name rest [(H1 & H2 & H3) _] _ IH]; intros cur Hl.
  { cbn. by rewrite app_nil_r. }
  rewrite real_cons. apply String.eqb_neq in H1, H2, H3. rewrite H1, H2, H3. cbn [orb]. cbv zeta.
  assert (real F (S fuel) (cur ++ [name]) rest seen = Some (cur ++ name :: rest, true, seen)) as E.
  { rewrite IH; [by rewrite <-(assoc_L (++))|]. intros k t Hk. rewrite <-(assoc_L (++)).
    apply (Hl (S k)). cbn. lia. }
  destruct (F !! (cur ++ [name])) as [[]|] eqn:El; try done.
  by destruct (Hl 0 target ltac:(cbn; lia)).
Qed.
Lemma realpath_straight F p : names p →
  (∀ q t, q ≠ [] → q `prefix_of` p → F !! q ≠ Some (SymLink t)) → realpath_from F [] p = p.
Proof.
  intros Hn Hl. unfold realpath_from. rewrite real_straight; [done..|].
  intros k t Hk. apply Hl; [destruct p; cbn in *; [lia|done]|]. exists (drop (S k) p). by rewrite app_nil_l, take_drop.
Qed.
Lemma realpath_place F p : place F p → realpath_from F [] p = p.
Proof.
  intros [Hn _ Hc Hf]. apply realpath_straight; [done|]. intros q t Hq Hp.
  destruct (prefix_below _ _ Hp) as [->|Hb].
  - destruct Hf as [->|(d & n & ->)]; done.
  - destruct (Hc _ Hq Hb) as [->| ->]; done.
Qed.
Lemma realpath_way F p : way F p → realpath_from F [] p = p.
Proof.
  intros [Hn Hf]. apply realpath_straight; [done|]. intros q t Hq Hp.
  destruct (Hf _ Hq Hp) as [->| ->]; done.
Qed.
Lemma way_prefix F p q : way F p → q `prefix_of` p → way F q.
Proof.
  intros [Hn Hf] Hp. split.
  - destruct Hp as [r ->]. by apply Forall_app in Hn as [? _].
  - intros q' Hq Hq'. apply Hf; [done|]. by etrans.
Qed.
Lemma place_way F p a : place F (p ++ [a]) → way F p.
Proof.
  intros [Hn _ Hc _]. split; [by apply Forall_app in Hn as [? _]|].
  intros q Hq Hp. apply Hc; [done|]. by apply below_snoc.
Qed.

(** ** The system's walk along a way *)
Lemma way_walk F p : wf_fs F → way F p →
  if is_dir F p then walk F MAXSYMLINKS [] p = Some (p, MAXSYMLINKS)
  else F !! p = None ∧ ∀ r m, walk F MAXSYMLINKS [] p = Some (r, m) → r = p.
Proof.
  intros Hwf Hw. destruct (is_dir F p) eqn:Hd.
  - apply solid_walk. induction p as [|a p IH] using rev_ind; [constructor|].
    pose proof (way_names _ _ Hw) as [Hn Ha]%Forall_app. apply Forall_singleton in Ha as [Ha Hs].
    assert (is_dir F p = true) as Hp.
    { apply (Hwf p a). apply is_dir_snoc in Hd. eauto. }
    apply solid_snoc; [|done..|].
    + apply IH; [|done]. eapply way_prefix; [exact Hw|]. by exists [a].
    + intros t. apply is_dir_snoc in Hd. congruence.
  - destruct (decide (p = [])) as [->|Hne]; [done|]. split.
    + destruct (way_free _ _ Hw p Hne ltac:(done)) as [?|E]; [done|].
      destruct p; [done|]. cbn in Hd. by rewrite E in Hd.
    + intros r m Hr. apply walk_no_links in Hr as [-> _]; [done| |].
      * eapply Forall_impl; [apply (way_names _ _ Hw)|]. by intros ? [? _].
      * intros k name Hk t. rewrite app_nil_l.
        destruct (way_free _ _ Hw (take (S k) p)) as [->| ->]; [by destruct p|by exists (drop (S k) p); rewrite take_drop|done..].
Qed.

(** ** Making folders *)
Lemma node_at_dir F p : is_dir F p = true ↔ node_at F p = Some Dir.
Proof. destruct p as [|a p]; [done|]. cbn. destruct (F !! (a :: p)) as [[]|]; naive_solver. Qed.
Definition made_way F p F' : Prop :=
  wf_fs F' ∧ ∀ q, F' !! q = if decide (q ≠ [] ∧ q `prefix_of` p) then Some Dir else F !! q.
Lemma made_way_dir F p F' : made_way F p F' → is_dir F' p = true.
Proof.
  intros [_ H]. destruct p as [|a p]; [done|]. cbn. rewrite H. by rewrite decide_True.
Qed.
Lemma made_way_refl F p : wf_fs F → way F p → is_dir F p = true → made_way F p F.
Proof.
  intros Hwf Hw Hd. split; [done|]. intros q. case_decide as H; [|done]. destruct H as [Hq Hp].
  destruct (split_last q Hq) as (q' & a & ->). apply is_dir_snoc.
  destruct (prefix_below _ _ Hp) as [->|(b & r & ->)]; [done|].
  eapply (wf_prefix F (q' ++ [a]) (b :: r)); [done..|].
  apply node_at_dir in Hd. destruct ((q' ++ [a]) ++ b :: r) eqn:E; [by destruct q'|]. eauto.
Qed.
Lemma wf_insert_dir F p a : wf_fs F → is_dir F p = true → F !! (p ++ [a]) = None → wf_fs (<[p ++ [a] := Dir]> F).
Proof.
  intros Hwf Hd Hn q b Hs.
  assert (∀ x, is_dir F x = true → is_dir (<[p ++ [a] := Dir]> F) x = true) as Hm.
  { intros x Hx. destruct x as [|c x]; [done|]. cbn in *.
    destruct (decide (p ++ [a] = c :: x)) as [E|E]; [by rewrite E, lookup_insert_eq|by rewrite lookup_insert_ne]. }
  apply Hm. destruct Hs as [f [[E _]|[_ Hf]]%lookup_insert_Some].
  - apply app_inj_tail in E as [-> _]. done.
  - eapply Hwf. eauto.
Qed.
Lemma make_dir_way F p a : wf_fs F → way F (p ++ [a]) → is_dir F p = true →
  match make_dir F (p ++ [a]) with
  | Made F' => made_way F (p ++ [a]) F'
  | Exists_ => is_folder F (p ++ [a]) = true ∧ made_way F (p ++ [a]) F
  | NoParent => False
  end.
Proof.
  intros Hwf Hw Hd. unfold make_dir. rewrite last_snoc, parent_snoc.
  pose proof (way_prefix _ _ p Hw ltac:(by exists [a])) as Hwp.
  pose proof (way_walk _ _ Hwf Hwp) as Hk. rewrite Hd in Hk. rewrite Hk, Hd.
  destruct (F !! (p ++ [a])) as [f|] eqn:E.
  - assert (is_dir F (p ++ [a]) = true) as Ha.
    { apply is_dir_snoc. destruct (way_free _ _ Hw (p ++ [a])) as [?|?]; [by destruct p|done|congruence|done]. }
    split; [|by apply made_way_refl]. pose proof (way_walk _ _ Hwf Hw) as Hk'. rewrite Ha in Hk'.
    unfold is_folder, stat. rewrite Hk'. apply node_at_dir in Ha. by rewrite Ha.
  - split; [by apply wf_insert_dir|]. intros q.
    destruct (decide (q = p ++ [a])) as [->|Hq].
    + rewrite lookup_insert_eq, decide_True; [done|]. split; [by destruct p|done].
    + rewrite lookup_insert_ne by done.
      destruct (made_way_refl F p Hwf Hwp Hd) as [_ Hr]. rewrite Hr at 1.
      case_decide as Hi; case_decide as Hj; try done; exfalso.
      * destruct Hi as [? Hp]. apply Hj. split; [done|by apply prefix_app_r].
      * destruct Hj as [? Hp]. apply prefix_below in Hp as [?|Hb%below_snoc]; [done|]. by apply Hi.
Qed.
Lemma mkdirs_way F p fuel : wf_fs F → way F p → length p ≤ fuel →
  ∃ F', mkdirs fuel F p = Some F' ∧ made_way F p F'.
Proof.
  intros Hwf. revert fuel. induction p as [|a p IH] using rev_ind; intros fuel Hw Hf.
  { exists F. split; [by destruct fuel|]. split; [done|]. intros q. case_decide as H; [|done].
    destruct H as [Hq [r E]]. by destruct q. }
  rewrite length_app in Hf. cbn in Hf. destruct fuel as [|fuel]; [lia|].
  pose proof (way_prefix _ _ p Hw ltac:(by exists [a])) as Hwp. cbn [mkdirs].
  destruct (is_dir F p) eqn:Hd.
  { pose proof (make_dir_way F p a Hwf Hw Hd) as Hm. destruct (make_dir F (p ++ [a])); [eauto| |done].
    destruct Hm as [-> ?]. eauto. }
  assert (make_dir F (p ++ [a]) = NoParent) as ->.
  { unfold make_dir. rewrite last_snoc, parent_snoc. pose proof (way_walk _ _ Hwf Hwp) as Hk. rewrite Hd in Hk.
    destruct (walk F _ [] p) as [[r m]|]; [|done]. destruct Hk as [_ Hk]. specialize (Hk _ _ eq_refl) as ->.
    by rewrite Hd. }
  rewrite parent_snoc. destruct (IH fuel Hwp ltac:(lia)) as (F1 & -> & Hwf1 & H1). cbn [mbind option_bind].
  assert (way F1 (p ++ [a])) as Hw1.
  { split; [apply (way_names _ _ Hw)|]. intros q Hq Hp. rewrite H1. case_decide; [by right|].
    by apply (way_free _ _ Hw). }
  pose proof (made_way_dir F p F1 (conj Hwf1 H1)) as Hd1.
  pose proof (make_dir_way F1 p a Hwf1 Hw1 Hd1) as Hm.
  assert (∀ F', made_way F1 (p ++ [a]) F' → made_way F (p ++ [a]) F') as Hgo.
  { intros F' [? H2]. split; [done|]. intros q. rewrite H2, H1. case_decide as Hi; [done|]. case_decide as Hj; [|done].
    exfalso. destruct Hj as [? Hp]. apply Hi. split; [done|by apply prefix_app_r]. }
  destruct (make_dir F1 (p ++ [a])); [eauto| |done]. destruct Hm as [-> ?]. eauto.
Qed.

(** ** Reading a place *)
Lemma place_split F p : place F p → ∃ q a, p = q ++ [a] ∧ way F q ∧ plain_name a ∧ no_char "/" a = true.
Proof.
  intros Hp. destruct (split_last p (place_ne _ _ Hp)) as (q & a & ->). exists q, a.
  pose proof (place_names _ _ Hp) as [_ [Ha _]%Forall_cons]%Forall_app.
  split_and!; [done|by eapply place_way|by destruct Ha..].
Qed.
Lemma walk_from_dir F p a k : walk F MAXSYMLINKS [] p = Some (p, k) → is_dir F p = true → plain_name a →
  (∀ t, F !! (p ++ [a]) ≠ Some (SymLink t)) → walk F MAXSYMLINKS [] (p ++ [a]) = Some (p ++ [a], k).
Proof.
  intros Hw Hd (H1 & H2 & H3) Hl. rewrite walk_app, Hw, walk_cons, Hd.
  apply String.eqb_neq in H1, H2, H3. rewrite H1, H2, H3. cbn [negb].
  destruct (F !! (p ++ [a])) as [[]|] eqn:E; try apply walk_nil. by destruct (Hl target).
Qed.
Lemma place_walk F p : wf_fs F → place F p →
  if is_dir F (parent p) then walk F MAXSYMLINKS [] p = Some (p, MAXSYMLINKS)
  else F !! p = None ∧ walk F MAXSYMLINKS [] p = None.
Proof.
  intros Hwf Hp. destruct (place_split _ _ Hp) as (q & a & -> & Hq & Ha & Hs). rewrite parent_snoc.
  pose proof (way_walk _ _ Hwf Hq) as Hw. destruct (is_dir F q) eqn:Hd.
  - apply walk_from_dir; [done..|]. intros t. destruct (place_free _ _ Hp) as [->|(d & n & ->)]; done.
  - split.
    + destruct (F !! (q ++ [a])) eqn:E; [|done]. rewrite (Hwf q a) in Hd by eauto. done.
    + destruct Hw as [_ Hw]. rewrite walk_app. destruct (walk F _ [] q) as [[r m]|]; [|done].
      rewrite (Hw _ _ eq_refl), walk_cons, Hd. destruct Ha as (Ha & _). apply String.eqb_neq in Ha. by rewrite Ha.
Qed.
Lemma place_node F p : wf_fs F → place F p → stat F p = F !! p.
Proof.
  intros Hwf Hp. pose proof (place_walk _ _ Hwf Hp) as Hw. unfold stat.
  destruct (is_dir F (parent p)); [|by destruct Hw as [-> ->]]. rewrite Hw.
  pose proof (place_ne _ _ Hp). by destruct p.
Qed.
Lemma place_read F p : wf_fs F → place F p → read_bytes F p = file F p.
Proof. intros. unfold read_bytes, file. by rewrite place_node. Qed.
Lemma place_is_file F p : wf_fs F → place F p → is_file F p = bool_decide (is_Some (file F p)).
Proof.
  intros Hwf Hp. unfold is_file, file. rewrite place_node by done.
  destruct (place_free _ _ Hp) as [->|(d & n & ->)]; done.
Qed.
Lemma place_exists F p : wf_fs F → place F p → exists_at F p = bool_decide (is_Some (file F p)).
Proof.
  intros Hwf Hp. unfold exists_at, file. rewrite place_node by done.
  destruct (place_free _ _ Hp) as [->|(d & n & ->)]; done.
Qed.
Lemma way_errno F n cur rest : is_dir F cur = true → Forall plain_name rest →
  (∀ q, q ≠ [] → below q (cur ++ rest) → cur `prefix_of` q → F !! q = None ∨ F !! q = Some Dir) →
  (∀ t, F !! (cur ++ rest) ≠ Some (SymLink t)) →
  walk F n cur rest = None → walk_errno F n cur rest = ENOENT.
Proof.
  intros Hd Hp. revert cur Hd. induction Hp as [|a rest (H1 & H2 & H3) Hp IH]; intros cur Hd Hc Hl Hw; [by destruct n|].
  assert (Hf : ∀ b r, rest = b :: r → F !! (cur ++ [a]) = None ∨ F !! (cur ++ [a]) = Some Dir).
  { intros b r ->. apply Hc; [by destruct cur| |by exists [a]]. exists b, r. by rewrite <-(assoc_L (++)). }
  assert (He : walk_errno F n cur (a :: rest) =
    match F !! (cur ++ [a]), n with
    | Some (SymLink t), O => ELOOP
    | Some (SymLink t), S n => walk_errno F n (link_base (cur ++ [a]) t) (comps t ++ rest)
    | _, _ => walk_errno F n (cur ++ [a]) rest
    end).
  { destruct n; cbn; rewrite Hd; apply String.eqb_neq in H1, H2, H3; by rewrite H1, H2, H3. }
  rewrite walk_cons, Hd in Hw. apply String.eqb_neq in H1, H2, H3. rewrite H1, H2, H3 in Hw. cbn [negb] in Hw.
  rewrite He. destruct rest as [|b rest].
  { destruct (F !! (cur ++ [a])) as [[]|]; try (by destruct n). by destruct (Hl target). }
  destruct (Hf _ _ eq_refl) as [E|E]; rewrite E in Hw |- *.
  - inversion Hp as [|? ? (Hb & _)]; subst. apply String.eqb_neq in Hb.
    assert (is_dir F (cur ++ [a]) = false) as Hn.
    { destruct (cur ++ [a]) eqn:Ec; [by destruct cur|]. cbn. by rewrite E. }
    destruct n; cbn; rewrite Hb, Hn; cbn; by rewrite E.
  - apply IH; [by apply is_dir_snoc| |by rewrite <-(assoc_L (++))|done]. intros q Hq Hb Hq'. apply Hc; [done| |].
    + by rewrite <-(assoc_L (++)) in Hb.
    + etrans; [|done]. by exists [a].
Qed.
Lemma place_open F p : wf_fs F → place F p → open_read F p = Ok (file F p).
Proof.
  intros Hwf Hp. pose proof (place_walk _ _ Hwf Hp) as Hw. unfold open_read, file.
  pose proof (place_ne _ _ Hp) as Hne. destruct (is_dir F (parent p)).
  - rewrite Hw. destruct p as [|a p]; [done|]. cbn.
    destruct (place_free _ _ Hp) as [->|(d & n & ->)]; done.
  - destruct Hw as [Hf Hw]. rewrite Hf, Hw. rewrite way_errno; [done|done| | | |done].
    + eapply Forall_impl; [apply (place_names _ _ Hp)|]. by intros ? [? _].
    + intros q Hq Hb _. by apply (place_clear _ _ Hp).
    + intros t. cbn. rewrite Hf. done.
Qed.

(** ** Writing and removing *)

(** The file at [p] is [d] now; nothing else changed, but folders on the way
    to [p] may be new. *)
Record updated F p (d : option string) F' : Prop := {
  updated_wf : wf_fs F';
  updated_here : match d with Some x => ∃ n, F' !! p = Some (Regular x n) | None => F' !! p = None end;
  updated_rest : ∀ q, q ≠ p → F' !! q = F !! q ∨ (F !! q = None ∧ F' !! q = Some Dir ∧ below q p ∧ q ≠ []);
}.
Lemma updated_file F p d F' : updated F p d F' → file F' p = d.
Proof. intros H. unfold file. destruct d as [x|]; [destruct (updated_here _ _ _ _ H) as [n ->]|rewrite (updated_here _ _ _ _ H)]; done. Qed.
Lemma updated_other F p d F' q : updated F p d F' → q ≠ p → file F' q = file F q.
Proof.
  intros H Hq. unfold file. destruct (updated_rest _ _ _ _ H q Hq) as [->|(-> & -> & _)]; done.
Qed.
Lemma updated_place F p d F' q : updated F p d F' → place F p → place F q → apart p q → place F' q.
Proof.
  intros H Hp Hq [Ha1 Ha2]. split; [apply (place_names _ _ Hq)|apply (place_ne _ _ Hq)| |].
  - intros x Hx Hb. destruct (decide (x = p)) as [->|Hxp]; [done|].
    destruct (updated_rest _ _ _ _ H x Hxp) as [->|(_ & -> & _)]; [|by right]. by apply (place_clear _ _ Hq).
  - destruct (decide (q = p)) as [->|Hqp].
    + pose proof (updated_here _ _ _ _ H) as Hh. destruct d as [x|]; [right; naive_solver|by left].
    + destruct (updated_rest _ _ _ _ H q Hqp) as [->|(_ & _ & Hb & _)]; [|done]. by apply (place_free _ _ Hq).
Qed.
Lemma updated_trans F p d F1 d' F' : updated F p d F1 → updated F1 p d' F' → updated F p d' F'.
Proof.
  intros H1 H2. split; [apply (updated_wf _ _ _ _ H2)|apply (updated_here _ _ _ _ H2)|].
  intros q Hq. destruct (updated_rest _ _ _ _ H2 q Hq) as [->|(E1 & E2 & ?)]; [by apply (updated_rest _ _ _ _ H1)|].
  destruct (updated_rest _ _ _ _ H1 q Hq) as [E|(_ & E & _)]; [|congruence]. right. rewrite <-E. done.
Qed.

Lemma put_place F p d : wf_fs F → place F p → is_dir F (parent p) = true →
  ∃ F', put F p d = Some F' ∧ updated F p (Some d) F'.
Proof.
  intros Hwf Hp Hd. pose proof (place_walk _ _ Hwf Hp) as Hw. rewrite Hd in Hw. unfold put. rewrite Hw.
  pose proof (place_ne _ _ Hp) as Hne.
  assert (∀ n, updated F p (Some d) (<[p := Regular d n]> F)) as Hu.
  { intros n. split.
    - intros q a Hs. assert (is_dir F q = true) as Hq.
      { destruct Hs as [f [[E _]|[_ Hs]]%lookup_insert_Some]; [|by eapply Hwf].
        rewrite E, parent_snoc in Hd. done. }
      destruct q as [|b q]; [done|]. cbn in *. rewrite lookup_insert_ne; [done|].
      intros ->. destruct (place_free _ _ Hp) as [E|(? & ? & E)]; by rewrite E in Hq.
    - exists n. apply lookup_insert_eq.
    - intros q Hq. left. by rewrite lookup_insert_ne. }
  destruct p as [|b p]; [done|]. destruct (place_free _ _ Hp) as [->|(d0 & n & ->)]; eauto.
Qed.
Lemma made_way_place F q F' p : place F p → (∀ x, x `prefix_of` q → x ≠ [] → x ≠ p ∧ ¬ below p x) → made_way F q F' →
  place F' p ∧ file F' p = file F p.
Proof.
  intros Hp Hx [_ H]. assert (F' !! p = F !! p) as E.
  { rewrite H. case_decide as Hd; [|done]. destruct Hd as [? Hd]. by destruct (Hx _ Hd). }
  split; [|by unfold file; rewrite E]. destruct Hp as [? ? Hc Hf]. split; [done..| |by rewrite E].
  intros y Hy Hb. rewrite H. case_decide; [by right|]. by apply Hc.
Qed.
(** Nothing to remove. *)
Lemma updated_absent F p : wf_fs F → place F p → ¬ is_Some (file F p) → updated F p None F.
Proof.
  intros Hwf Hp Hf. split; [done| |by left]. destruct (place_free _ _ Hp) as [?|(d & n & E)]; [done|].
  destruct Hf. unfold file. rewrite E. eauto.
Qed.
Lemma put_file_place F p d : wf_fs F → place F p →
  ∃ F', put_file F p d = Some F' ∧ updated F p (Some d) F'.
Proof.
  intros Hwf Hp. destruct (place_split _ _ Hp) as (q & a & -> & Hq & _). unfold put_file. rewrite parent_snoc.
  destruct (mkdirs_way F q (length q) Hwf Hq ltac:(done)) as (F1 & E1 & Hm).
  unfold make_dirs_at. rewrite E1. cbn [mbind option_bind].
  destruct (made_way_place F q F1 (q ++ [a]) Hp) as [Hp1 _]; [|done|].
  { intros x Hx _. apply prefix_length in Hx. split.
    - intros ->. rewrite length_app in Hx. cbn in Hx. lia.
    - intros Hb%below_length. rewrite length_app in Hb. cbn in Hb. lia. }
  destruct (put_place F1 (q ++ [a]) d) as (F' & -> & Hu); [by destruct Hm|done| |].
  { rewrite parent_snoc. by eapply made_way_dir. }
  exists F'. split; [done|]. split; [apply (updated_wf _ _ _ _ Hu)|apply (updated_here _ _ _ _ Hu)|].
  intros x Hx. assert (∀ y, F' !! x = y → F1 !! x = y → F' !! x = F !! x ∨
    (F !! x = None ∧ F' !! x = Some Dir ∧ below x (q ++ [a]) ∧ x ≠ [])) as Hgo.
  { intros y -> E. destruct Hm as [_ Hm]. rewrite Hm in E. case_decide as Hd; [|by left].
    destruct Hd as [Hne Hd]. subst y. destruct (way_free _ _ Hq x Hne Hd) as [Ef|Ef]; [|by left].
    right. split_and!; [done..|by apply below_snoc|done]. }
  destruct (updated_rest _ _ _ _ Hu x Hx) as [E|(E1' & E2 & Hb & Hne)]; [by eapply Hgo|].
  destruct Hm as [_ Hm]. rewrite Hm in E1'. case_decide; [done|]. by right.
Qed.
Lemma unlink_place F p : wf_fs F → place F p → is_Some (file F p) →
  ∃ F', unlink F p = Some F' ∧ updated F p None F'.
Proof.
  intros Hwf Hp Hf. pose proof (place_free _ _ Hp) as Hfree.
  assert (∃ d n, F !! p = Some (Regular d n)) as (d & n & E).
  { destruct Hfree as [E|?]; [|done]. unfold file in Hf. rewrite E in Hf. by destruct Hf. }
  destruct (place_split _ _ Hp) as (q & a & -> & Hq & Ha & _). unfold unlink. rewrite last_snoc, parent_snoc.
  pose proof (way_walk _ _ Hwf Hq) as Hw. rewrite (Hwf q a) in Hw by eauto. rewrite Hw, E.
  eexists. split; [done|]. split; [|apply lookup_delete_eq|intros x Hx; left; by rewrite lookup_delete_ne].
  intros x b [f [Hne Hf']%lookup_delete_Some]. assert (is_dir F x = true) as Hd by (eapply Hwf; eauto).
  destruct x as [|c x]; [done|]. cbn in *. rewrite lookup_delete_ne; [done|]. intros Ex. rewrite <-Ex, E in Hd. done.
Qed.

(** ** Removing a folder, and what is in one *)
Lemma rmtree_lookup F q p : rmtree F q !! p = if decide (q `prefix_of` p) then None else F !! p.
Proof.
  unfold rmtree. case_decide as H.
  - apply map_lookup_filter_None. right. cbn. naive_solver.
  - destruct (F !! p) eqn:E; [by apply map_lookup_filter_Some|]. apply map_lookup_filter_None. by left.
Qed.
Lemma rmtree_wf F q : wf_fs F → wf_fs (rmtree F q).
Proof.
  intros Hwf p a Hs. rewrite rmtree_lookup in Hs. case_decide as Hd; [by destruct Hs|].
  pose proof (Hwf _ _ Hs) as Hp. destruct p as [|b p]; [done|]. cbn in *. rewrite rmtree_lookup.
  rewrite decide_False; [done|]. intros Hq. apply Hd. by apply (prefix_app_r _ (b :: p)).
Qed.
Lemma rmtree_place F q p : place F p → ¬ q `prefix_of` p → place (rmtree F q) p ∧ file (rmtree F q) p = file F p.
Proof.
  intros [? ? Hc Hf] Hq. assert (rmtree F q !! p = F !! p) as E by by rewrite rmtree_lookup, decide_False.
  split; [|by unfold file; rewrite E]. split; [done..| |by rewrite E].
  intros x Hx Hb. rewrite rmtree_lookup. case_decide; [by left|]. by apply Hc.
Qed.
Lemma elem_of_children F q a : a ∈ children F q ↔ is_Some (F !! (q ++ [a])).
Proof.
  unfold children. rewrite list_elem_of_omap. split.
  - intros ([p f] & Hp%elem_of_map_to_list & Hc). unfold child_of in Hc. cbn in Hc.
    case_bool_decide as Hd; [|done]. destruct Hd as [Hne <-]. destruct (split_last p Hne) as (x & b & ->).
    rewrite last_snoc in Hc. injection Hc as <-. rewrite parent_snoc. eauto.
  - intros [f Hf]. exists (q ++ [a], f). split; [by apply elem_of_map_to_list|]. unfold child_of. cbn.
    rewrite bool_decide_true; [apply last_snoc|]. split; [by destruct q|apply parent_snoc].
Qed.
Lemma NoDup_children F q : NoDup (children F q).
Proof.
  unfold children. pose proof (NoDup_map_to_list F) as Hd.
  assert (∀ x y, x ∈ map_to_list F → y ∈ map_to_list F → ∀ a, child_of q x.1 = Some a → child_of q y.1 = Some a → x = y) as Hi.
  { intros [p f] [p' f'] Hp%elem_of_map_to_list Hp'%elem_of_map_to_list a. unfold child_of. cbn.
    case_bool_decide as H; [|done]. case_bool_decide as H'; [|done]. destruct H as [Hn <-], H' as [Hn' E].
    destruct (split_last p Hn) as (x & b & ->), (split_last p' Hn') as (x' & b' & ->).
    rewrite !last_snoc, !parent_snoc in *. intros [= ->] [= ->]. subst. by rewrite Hp in Hp'; simplify_eq. }
  revert Hi. induction Hd as [|x l Hx Hd IH]; intros Hi; cbn; [constructor|].
  assert (NoDup (omap (λ x, child_of q x.1) l)) as Hl by (apply IH; intros; eapply Hi; eauto; by right).
  destruct (child_of q x.1) as [a|] eqn:E; [|done]. apply NoDup_cons. split; [|done].
  intros (y & Hy & Ea)%list_elem_of_omap. apply Hx. by rewrite (Hi x y ltac:(left) ltac:(by right) a E Ea).
Qed.
