(* ===== verification/WorkspacePath.v ===== *)
(** * Paths inside the workspace

    Models [workspace_path.py] on a POSIX host: the checks on the text of a
    path, the checks on where it leads, and the rule on what is never sent.
    The rules for Windows names are left out. *)

From S2P Require Import Prelude Canonical CanonicalLines JsonText Text Gates FileSystem.

Inductive Purpose : Type := Read | Write | Send.
#[export] Instance purpose_eq_dec : EqDecision Purpose.
Proof. solve_decision. Defined.

Definition PROTECTED_WRITE_DIRS : list string := [".git"; ".ract"].
Definition SSH_KEY_NAMES : list string :=
  ["id_rsa"; "id_dsa"; "id_ecdsa"; "id_ecdsa_sk"; "id_ed25519"; "id_ed25519_sk"; "id_xmss"; "identity"].
Definition _KEY_STORES : list string := ["*.p12"; "*.pfx"; "*.jks"; "*.keystore"; "*.ppk"; "*.kdbx"].
Definition _TOKEN_FILES : list string := [".netrc"; "_netrc"; ".pypirc"; ".git-credentials"].
Definition SECRET_NAME_GLOBS : list string :=
  [".env"; ".env.*"; "*.pem"; "*.key"] ++ _KEY_STORES ++ _TOKEN_FILES ++ SSH_KEY_NAMES.
Definition ENV_TEMPLATE_SUFFIXES : list string := ["example"; "sample"; "template"; "dist"].
Definition NEVER_SENT_NAMES : list string := ["ract.yaml"; "ract.yml"].

(** [re.split(r"[\\/]", raw)] *)
Definition backslash : ascii := "\"%char.
Definition segments (raw : string) : list string := split_char "/" (replace_char backslash "/" raw).
Definition last_segment (raw : string) : string := default "" (last (segments raw)).

Section paths.
Context {U : Unicode} {T : PyText}.

Definition is_env_template (name : string) : bool :=
  startswith name ".env." &&
  match rpartition_at "." name with
  | Some (_, suffix) => bool_decide (suffix ∈ ENV_TEMPLATE_SUFFIXES)
  | None => bool_decide (name ∈ ENV_TEMPLATE_SUFFIXES)
  end.
Definition is_secret_shaped (p : string) : bool :=
  let name := last_segment p in
  if is_env_template name then false
  else existsb (fnmatchcase (casefold name)) SECRET_NAME_GLOBS.

(** The parts of a path written with either slash. *)
Definition parts_of (raw : string) : list string :=
  filter (λ p, p ≠ "" ∧ p ≠ ".") (segments raw).
Definition is_never_sent (relative_path : string) : bool :=
  let parts := parts_of relative_path in
  existsb (λ p, bool_decide (casefold p ∈ PROTECTED_WRITE_DIRS)) parts ||
  match last parts with
  | None => false
  | Some p => bool_decide (casefold p ∈ NEVER_SENT_NAMES) || is_secret_shaped p
  end.

Record Refusal := { code : string; message : string; hint : string }.
Notation refuse c m h := {| code := c; message := m; hint := h |}.

(** ** The text *)

(** [_PROC_RE] *)
Definition ends_or_slash (s : string) : bool :=
  match s with "" => true | String c _ => Ascii.eqb c "/" end.
Definition proc_synonym (s : string) : bool :=
  match str_drop_prefix "/proc/" s with
  | None => false
  | Some rest =>
      match partition_at "/" rest with
      | (String _ _, Some t) =>
          match str_drop_prefix "root" t, str_drop_prefix "cwd" t with
          | Some u, _ | None, Some u => ends_or_slash u
          | None, None => false
          end
      | _ => false
      end
  end.
Definition _string_checks (raw : string) : option Refusal :=
  if String.eqb raw "" || String.eqb (strip raw) "" then
    Some (refuse "empty" "the path is empty" "Name a file inside the project.")
  else if str_exists (λ c, (ord c <? 32)%N || (ord c =? 0x7F)%N) raw then
    Some (refuse "control_character" "the path contains a NUL or control character"
            "Remove control characters from the path.")
  else if bool_decide (".." ∈ segments raw) then
    Some (refuse "parent_segment" ("the path " +:+ str_repr raw +:+ " contains '..'")
            "Use a path relative to the project root without '..'.")
  else if proc_synonym (replace_char backslash "/" raw) then
    Some (refuse "proc_synonym"
            ("the path " +:+ str_repr raw +:+ " names another process's root or working directory")
            "Use a path relative to the project root.")
  else None.

(** [re.match(r"^[A-Za-z]:[\\/]", raw)] *)
Definition drive_path (raw : string) : bool :=
  match raw with
  | String a (String b (String c _)) =>
      ((65 <=? ord a)%N && (ord a <=? 90)%N || (97 <=? ord a)%N && (ord a <=? 122)%N) &&
      Ascii.eqb b ":" && (Ascii.eqb c "/" || Ascii.eqb c backslash)
  | _ => false
  end.

(** ** The location *)
Fixpoint rstrip_slashes (s : string) : string :=
  match s with
  | "" => ""
  | String c t =>
      match rstrip_slashes t with
      | "" => if Ascii.eqb c "/" || Ascii.eqb c backslash then "" else String c ""
      | t => String c t
      end
  end.
Definition _same_or_inside (child par : string) (fold : bool) : bool :=
  let child := if fold then casefold child else child in
  let par := rstrip_slashes (if fold then casefold par else par) in
  String.eqb child par || startswith child (par +:+ "/").

(** [os.path.relpath] of two real paths, by its parts. *)
Fixpoint relpath (target start : path) : path :=
  match target, start with
  | t :: target', s :: start' =>
      if String.eqb t s then relpath target' start' else replicate (length start) ".." ++ target
  | _, _ => replicate (length start) ".." ++ target
  end.

Definition _is_hard_linked (F : fs) (p : path) : bool :=
  match lstat F p with Some (Regular _ nlink) => (1 <? nlink)%Z | _ => false end.

(** The walk over the existing components, from [current]. *)
Fixpoint component_checks (F : fs) (root : path) (purpose : Purpose) (fold : bool)
    (seen rest : list string) : option Refusal :=
  match rest with
  | [] => None
  | part :: rest =>
      let seen := seen ++ [part] in
      let current := root ++ seen in
      if negb (lexists F current) then None
      else if bool_decide (purpose = Write) && islink F current then
        Some (refuse "symlink_in_path" (str_repr (str_join "/" seen) +:+ " is a symlink or junction")
                "RACT does not write through links. Write to the real path.")
      else if negb (_same_or_inside (path_str (realpath_from F [] current)) (path_str root) fold) then
        Some (refuse "escapes_root" (str_repr (str_join "/" seen) +:+ " resolves outside the project")
                "The path leads out of the project through a link. Use a path inside it.")
      else component_checks F root purpose fold seen rest
  end.

Definition name_checks (rel_parts : list string) (purpose : Purpose) : option Refusal :=
  match purpose with
  | Read => None
  | Write =>
      match list_find (λ p, casefold p ∈ PROTECTED_WRITE_DIRS) rel_parts with
      | Some (_, part) =>
          Some (refuse "protected_directory" ("writes under " +:+ str_repr part +:+ " are not allowed")
                  ("RACT never writes into " +:+ part +:+ "/. Choose a path outside it."))
      | None =>
          let name := default "" (last rel_parts) in
          if is_secret_shaped name then
            Some (refuse "secret_shaped"
                    (str_repr name +:+ " usually holds secrets and RACT does not write it")
                    "Edit credential files yourself. Name a different file.")
          else if bool_decide (casefold name ∈ NEVER_SENT_NAMES) then
            Some (refuse "ract_config"
                    (str_repr name +:+ " is RACT's configuration and RACT does not write it")
                    "Edit ract.yaml yourself. Name a project file.")
          else None
      end
  | Send =>
      if is_never_sent (str_join "/" rel_parts) then
        Some (refuse "never_sent"
                (str_repr (str_join "/" rel_parts) +:+
                 " is RACT or git state, or usually holds secrets, and is never sent to a model")
                "Name a project source file. Keep credentials out of model requests.")
      else None
  end.

Definition target_checks (F : fs) (root : path) (rel_parts : list string) (purpose : Purpose)
    (fold : bool) : option Refusal :=
  let target := root ++ rel_parts in
  match purpose with
  | Read => None
  | Send =>
      let resolved := realpath_from F [] target in
      if lexists F target && _same_or_inside (path_str resolved) (path_str root) fold then
        match relpath resolved root with
        | [] => None
        | rel =>
            if is_never_sent (str_join "/" rel) then
              Some (refuse "never_sent"
                (str_repr (str_join "/" rel_parts) +:+ " resolves to " +:+
                 str_repr (str_join "/" rel) +:+
                 ", which is RACT or git state, or usually holds secrets, and is never sent to a model")
                "Name a project source file. Keep credentials out of model requests.")
            else None
        end
      else None
  | Write =>
      if _is_hard_linked F target then
        Some (refuse "hard_link"
                (str_repr (str_join "/" rel_parts) +:+
                 " is a hard link (the same file has another name)")
                "RACT does not write through hard links. Copy the file to a new name first.")
      else None
  end.

(** The first refusal of two. *)
Definition first_of (a b : option Refusal) : option Refusal :=
  match a with Some r => Some r | None => b end.

Definition _location_checks (F : fs) (root : path) (rel_parts : list string) (purpose : Purpose)
    (fold : bool) : option Refusal :=
  match rel_parts with
  | [] => Some (refuse "is_root" "the path is the project root itself"
                  "Name a file inside the project.")
  | _ =>
      first_of (name_checks rel_parts purpose)
        (first_of (component_checks F root purpose fold [] rel_parts)
           (target_checks F root rel_parts purpose fold))
  end.

(** [resolve_workspace_path]; [fold] is that of a host which folds case, [cwd]
    the working directory. *)
Definition resolve_workspace_path (F : fs) (cwd : path) (fold : bool) (root raw : string)
    (purpose : Purpose) : result Refusal path :=
  match _string_checks raw with
  | Some r => Err r
  | None =>
      if drive_path raw then
        Err (refuse "outside_root" ("the drive path " +:+ str_repr raw +:+ " names another machine's root")
               "Use a path inside the project, relative to its root.")
      else
        let root_real := realpath F cwd root in
        let place rel_parts :=
          match _location_checks F root_real rel_parts purpose fold with
          | Some r => Err r
          | None => Ok (root_real ++ rel_parts)
          end in
        if is_abs (replace_char backslash "/" raw) then
          let target := realpath F cwd raw in
          if negb (_same_or_inside (path_str target) (path_str root_real) fold) then
            Err (refuse "outside_root"
                   ("the absolute path " +:+ str_repr raw +:+ " is outside the project")
                   "Use a path inside the project, relative to its root.")
          else place (relpath target root_real)
        else place (parts_of raw)
  end.
End paths.
