(* ===== verification/WorkspacePathLaws.v ===== *)
(** * What the workspace rule on paths guarantees

    Where a path that was accepted leads: a write stays on the named file inside
    the project, a read stays inside it, and what is sent is nothing private. *)

From S2P Require Import Prelude Canonical CanonicalLines JsonText Text Gates FileSystem WorkspacePath.

(** ** Paths as text *)
Lemma split_char_app_sep sep a b :
  split_char sep (a +:+ String sep b) = split_char sep a ++ split_char sep b.
Proof.
  induction a as [|c a IH]; [rewrite str_app_nil_l; simpl; by rewrite Ascii.eqb_refl|]. rewrite str_app_cons. simpl.
  destruct (Ascii.eqb c sep); rewrite IH; [done|].
  destruct (split_char sep a) eqn:E; [by apply split_char_nonempty in E|done].
Qed.

Lemma split_path_str p : no_slash p → p ≠ [] → split_char "/" (path_str p) = "" :: p.
Proof.
  intros Hp Hne. unfold path_str. change ("/" +:+ str_join "/" p) with (String "/" (str_join "/" p)).
  cbn. f_equal. induction Hp as [|name p Hn Hp IH]; [done|].
  destruct p as [|q p]; [by apply split_char_last|].
  rewrite str_join_cons2. change ("/" +:+ str_join "/" (q :: p)) with (String "/" (str_join "/" (q :: p))).
  rewrite split_char_app by done. f_equal. by apply IH.
Qed.

(** A name the rule's [rstrip] leaves alone. *)
Definition ends_plain (p : path) : Prop :=
  ∀ name, last p = Some name → rstrip_slashes name = name ∧ name ≠ "".
Lemma rstrip_app a b : rstrip_slashes b = b → b ≠ "" → rstrip_slashes (a +:+ b) = a +:+ b.
Proof.
  intros Hb Hne. induction a as [|c a IH]; [done|]. rewrite str_app_cons. cbn. rewrite IH.
  destruct (a +:+ b) eqn:E; [|done]. by apply str_app_eq_nil in E as [_ ->].
Qed.
Lemma str_join_snoc sep p name : p ≠ [] →
  str_join sep (p ++ [name]) = str_join sep p +:+ sep +:+ name.
Proof.
  induction p as [|q p IH]; [done|]. intros _. destruct p as [|q' p]; [done|].
  cbn [app]. rewrite !str_join_cons2. change (q' :: p ++ [name]) with ((q' :: p) ++ [name]).
  rewrite IH by done. by rewrite !str_app_assoc.
Qed.
Lemma rstrip_path_str p : ends_plain p → p ≠ [] → rstrip_slashes (path_str p) = path_str p.
Proof.
  intros He Hne. destruct p as [|name p _] using rev_ind; [done|].
  destruct (He name) as [Hs Hn]; [apply last_snoc|]. unfold path_str.
  destruct (decide (p = [])) as [->|Hp]; [by apply rstrip_app|].
  rewrite str_join_snoc by done. rewrite <-!str_app_assoc. by apply rstrip_app.
Qed.

Lemma path_str_app p q : p ≠ [] → q ≠ [] → path_str (p ++ q) = path_str p +:+ "/" +:+ str_join "/" q.
Proof.
  intros Hp Hq. unfold path_str. rewrite str_app_assoc. f_equal.
  induction p as [|a p IH]; [done|]. destruct p as [|b p].
  - destruct q; [done|]. done.
  - cbn [app]. rewrite !str_join_cons2. change (b :: p ++ q) with ((b :: p) ++ q).
    rewrite IH by done. by rewrite !str_app_assoc.
Qed.

Section texts.
Context {U : Unicode} {T : PyText}.

Lemma same_or_inside_spec child root : no_slash child → no_slash root → ends_plain root →
  _same_or_inside (path_str child) (path_str root) false = true ↔ ∃ rest, child = root ++ rest.
Proof.
  intros Hc Hr He. unfold _same_or_inside. destruct (decide (root = [])) as [->|Hne].
  { change (rstrip_slashes (path_str [])) with "". split; [|done].
    intros _. by exists child. }
  rewrite rstrip_path_str by done. rewrite orb_true_iff, String.eqb_eq, startswith_spec. split.
  - intros [E|[r E]].
    + exists []. rewrite app_nil_r. destruct (decide (child = [])) as [->|Hcne].
      { exfalso. apply (f_equal (split_char "/")) in E. rewrite (split_path_str root) in E by done.
        destruct root; [done|]. cbn in E. injection E as <- <-. by destruct (He "") as [_ []]. }
      apply (f_equal (split_char "/")) in E. rewrite !split_path_str in E by done. by injection E.
    + apply (f_equal (split_char "/")) in E. rewrite str_app_assoc in E.
      change ("/" +:+ r) with (String "/" r) in E.
      rewrite split_char_app_sep, (split_path_str root) in E by done.
      destruct (decide (child = [])) as [->|Hcne].
      * exfalso. cbn in E. injection E as E. destruct root; [done|]. cbn in E. injection E as <- E.
        symmetry in E. apply app_eq_nil in E as [_ E]. by apply split_char_nonempty in E.
      * rewrite split_path_str in E by done. injection E as ->. eauto.
  - intros [rest ->]. destruct (decide (rest = [])) as [->|Hrest]; [left; by rewrite app_nil_r|].
    right. rewrite path_str_app by done. exists (str_join "/" rest). by rewrite str_app_assoc.
Qed.

Lemma relpath_app root rest : relpath (root ++ rest) root = rest.
Proof.
  induction root as [|a root IH]; [by destruct rest|]. cbn. by rewrite String.eqb_refl.
Qed.

(** ** Names *)
Lemma parts_of_spec raw : ".." ∉ segments raw → Forall plain_name (parts_of raw) ∧ no_slash (parts_of raw).
Proof.
  intros Hdd. split; apply Forall_forall; intros p [[H1 H2] Hp]%list_elem_of_filter.
  - split_and!; [done..|]. by intros ->.
  - pose proof (split_no_char "/" (replace_char backslash "/" raw)) as H.
    rewrite Forall_forall in H. by apply H.
Qed.
End texts.

(** ** Where an accepted path leads *)
Section laws.
Context {U : Unicode} {T : PyText}.
Context (F : fs) (cwd : path).

(** The project's directory is there: [root] arrives at [r]. *)
Definition root_at (root : string) (r : path) : Prop :=
  solid F cwd ∧ ends_plain r ∧
  ∃ m, walk F MAXSYMLINKS (if is_abs root then [] else cwd) (comps root) = Some (r, m).

Lemma root_real root r : root_at root r → realpath F cwd root = r ∧ solid F r.
Proof.
  intros (Hc & _ & m & Hw). split; [by eapply realpath_walk|].
  eapply walk_solid; [exact Hw| |apply comps_no_slash]. destruct (is_abs root); [constructor|done].
Qed.

Lemma lstat_solid p name : wf_fs F → solid F p → lstat F (p ++ [name]) = F !! (p ++ [name]).
Proof.
  intros Hwf Hs. unfold lstat. rewrite last_snoc. unfold parent. rewrite removelast_last, solid_walk by done.
  destruct (is_dir F p) eqn:E; [done|]. destruct (F !! (p ++ [name])) eqn:El; [|done].
  assert (is_dir F p = true) as Hd by (apply (Hwf p name); by rewrite El). congruence.
Qed.

Lemma write_meets_no_link root fold seen rest : wf_fs F → solid F (root ++ seen) → names rest →
  component_checks F root Write fold seen rest = None →
  ∀ k name, rest !! k = Some name → ∀ t, F !! ((root ++ seen) ++ take (S k) rest) ≠ Some (SymLink t).
Proof.
  intros Hwf. revert seen. induction rest as [|part rest IH]; intros seen Hs Hn; [done|].
  cbn [component_checks]. apply Forall_cons in Hn as [[Hp Hsl] Hn].
  intros Hc k name Hk t Hl. unfold lexists, islink in Hc.
  rewrite (assoc_L (++)), lstat_solid in Hc by done.
  set (cur := (root ++ seen) ++ [part]) in *.
  assert (∀ q, q ≠ [] → is_Some (F !! (cur ++ q)) → F !! cur = Some Dir) as Hdir.
  { intros q Hq Hx. apply wf_prefix in Hx; [|done..]. by apply is_dir_snoc in Hx. }
  assert (F !! cur ≠ Some (SymLink t)) as Hcur.
  { intros E. by rewrite E in Hc. }
  destruct k as [|k]; [by apply Hcur|]. cbn [take] in Hl.
  change (part :: take (S k) rest) with ([part] ++ take (S k) rest) in Hl.
  rewrite (assoc_L (++)) in Hl. fold cur in Hl.
  rewrite (Hdir (take (S k) rest)) in Hc; [|by destruct rest|by rewrite Hl].
  cbn [negb] in Hc. rewrite andb_false_r in Hc. destruct (negb _); [done|].
  cbn in Hk. eapply (IH (seen ++ [part])); [| |exact Hc|exact Hk|].
  - rewrite (assoc_L (++)). apply solid_snoc; [done..| |].
    + apply (Hwf _ part). fold cur. rewrite (Hdir (take (S k) rest)); [done|by destruct rest|by rewrite Hl].
    + fold cur. rewrite (Hdir (take (S k) rest)); [done|by destruct rest|by rewrite Hl].
  - done.
  - rewrite (assoc_L (++) root). fold cur. exact Hl.
Qed.

(** What a path leads to stays inside. *)
Lemma components_stay root purpose seen rest q m r m' : solid F root → ends_plain root → names rest →
  names (root ++ seen) →
  walk F MAXSYMLINKS [] (root ++ seen) = Some (q, m) → (∃ i, q = root ++ i) →
  walk F m q rest = Some (r, m') →
  component_checks F root purpose false seen rest = None → ∃ i, r = root ++ i.
Proof.
  intros Hroot He Hn. revert seen q m. induction Hn as [|part rest [Hp Hsl] Hn IH]; intros seen q m.
  { rewrite walk_nil. intros _ _ ? [= <- <-] _. done. }
  intros Hns Hq Hin Hr Hc. cbn [component_checks] in Hc.
  assert (solid F q) as Hsq by (eapply walk_solid; [exact Hq|constructor|by apply names_slash]).
  change (part :: rest) with ([part] ++ rest) in Hr. rewrite walk_app in Hr.
  destruct (walk F m q [part]) as [[q' m1]|] eqn:Hp1; [|done].
  assert (walk F MAXSYMLINKS [] (root ++ seen ++ [part]) = Some (q', m1)) as Hq'.
  { by rewrite (assoc_L (++)), walk_app, Hq. }
  assert (names (root ++ seen ++ [part])) as Hns'.
  { rewrite (assoc_L (++)). apply Forall_app. split; [done|]. constructor; [by split|constructor]. }
  destruct Hp as (H1 & H2 & H3). apply String.eqb_neq in H1, H2, H3.
  pose proof Hp1 as Hlook. rewrite walk_cons, H1, H2, H3 in Hlook.
  destruct (is_dir F q) eqn:Hd; [|done]. cbn [negb] in Hlook.
  destruct (lexists F (root ++ seen ++ [part])) eqn:Hx; cbn [negb] in Hc.
  - destruct (bool_decide _ && _); [done|]. rewrite (realpath_walk _ _ _ _ _ _ Hq') in Hc.
    destruct (_same_or_inside (path_str q') (path_str root) false) eqn:Hs; [|done].
    apply same_or_inside_spec in Hs; [| |by apply names_slash, (solid_real F)|done].
    2: { apply names_slash, (solid_real F). eapply walk_solid; [exact Hq'|constructor|by apply names_slash]. }
    by eapply (IH (seen ++ [part])).
  - unfold lexists, lstat in Hx. rewrite (assoc_L (++)), last_snoc in Hx. unfold parent in Hx.
    rewrite removelast_last, Hq, Hd in Hx. destruct (F !! (q ++ [part])) eqn:El; [done|].
    rewrite walk_nil in Hlook. injection Hlook as <- <-.
    destruct Hin as [i ->]. rewrite <-(assoc_L (++)) in Hr.
    destruct rest as [|name rest]; [rewrite walk_nil in Hr; injection Hr as <- _; eauto|].
    apply Forall_cons in Hn as [[(H4 & H5 & H6) _] _]. apply String.eqb_neq in H4.
    rewrite walk_cons, H4 in Hr. destruct (is_dir F (root ++ i ++ [part])) eqn:Hd2; [|done].
    rewrite (assoc_L (++)) in Hd2. apply is_dir_snoc in Hd2. congruence.
Qed.

Lemma location_checks_inv root rel purpose fold : _location_checks F root rel purpose fold = None →
  rel ≠ [] ∧ name_checks rel purpose = None ∧
  component_checks F root purpose fold [] rel = None ∧ target_checks F root rel purpose fold = None.
Proof.
  unfold _location_checks, first_of. destruct rel as [|a rel]; [done|].
  destruct (name_checks _ _); [done|]. by destruct (component_checks _ _ _ _ _ _).
Qed.

Lemma string_checks_segments raw : _string_checks raw = None → ".." ∉ segments raw.
Proof.
  unfold _string_checks. destruct (_ || _); [done|]. destruct (str_exists _ _); [done|].
  destruct (bool_decide _) eqn:E; [done|]. intros _. by apply bool_decide_eq_false in E.
Qed.

(** An accepted path is the project's directory and plain names that passed the
    checks on the location. *)
Lemma resolve_inv root r raw purpose full : root_at root r →
  resolve_workspace_path F cwd false root raw purpose = Ok full →
  ∃ rel, full = r ++ rel ∧ names rel ∧ _location_checks F r rel purpose false = None.
Proof.
  intros Hr. destruct (root_real _ _ Hr) as [Hreal Hs]. destruct Hr as (Hcwd & He & _).
  unfold resolve_workspace_path. destruct (_string_checks raw) eqn:Hstr; [done|].
  destruct (drive_path raw); [done|]. rewrite Hreal.
  destruct (is_abs (replace_char backslash "/" raw)).
  - assert (names (realpath F cwd raw)) as Hn.
    { apply realpath_names; [|apply comps_no_slash]. destruct (is_abs raw); [constructor|by apply (solid_real F)]. }
    destruct (_same_or_inside _ _ _) eqn:Hin; [|done]. cbn [negb].
    apply same_or_inside_spec in Hin as [rel Hrel];
      [|by apply names_slash|by apply names_slash, (solid_real F)|done].
    rewrite Hrel, relpath_app. destruct (_location_checks _ _ _ _ _) eqn:Hl; [done|].
    intros [= <-]. exists rel. rewrite Hrel in Hn. by apply Forall_app in Hn as [_ Hn].
  - destruct (_location_checks _ _ _ _ _) eqn:Hl; [done|]. intros [= <-].
    exists (parts_of raw). split_and!; [done| |done].
    destruct (parts_of_spec raw (string_checks_segments _ Hstr)) as [H1 H2].
    by apply Forall_and.
Qed.

(** No link on the way: the directories are where they are written. *)
Definition no_link_below (r q : path) : Prop :=
  ∀ k name, q !! k = Some name → ∀ t, F !! (r ++ take (S k) q) ≠ Some (SymLink t).
Lemma no_link_solid r q : wf_fs F → solid F r → names q → no_link_below r q →
  is_dir F (r ++ q) = true → solid F (r ++ q).
Proof.
  intros Hwf Hr. induction q as [|a q IH] using rev_ind; [by rewrite app_nil_r|].
  intros [Hn [[Ha Hsl] _]%Forall_cons]%Forall_app Hl Hd. rewrite (assoc_L (++)) in Hd |- *.
  apply is_dir_snoc in Hd.
  assert (is_dir F (r ++ q) = true) as Hdq by (apply (Hwf _ a); by rewrite Hd).
  apply solid_snoc; [apply IH| | | |]; try done.
  - intros k name Hk t. pose proof (lookup_lt_Some _ _ _ Hk). specialize (Hl k name).
    rewrite lookup_app_l in Hl by done. specialize (Hl Hk t). by rewrite take_app_le in Hl by lia.
  - by rewrite Hd.
Qed.

(** The names a write may not have. *)
Definition writable_names (rel : list string) : Prop :=
  (∀ p, p ∈ rel → casefold p ∉ PROTECTED_WRITE_DIRS) ∧
  ∀ name, last rel = Some name →
    is_secret_shaped name = false ∧ casefold name ∉ NEVER_SENT_NAMES.
Lemma name_checks_write rel : rel ≠ [] → name_checks rel Write = None → writable_names rel.
Proof.
  intros Hne. unfold name_checks. destruct (list_find _ rel) as [[i p]|] eqn:Hf; [done|].
  apply list_find_None in Hf. rewrite Forall_forall in Hf.
  destruct (is_secret_shaped _) eqn:Hs; [done|]. destruct (bool_decide _) eqn:Hb; [done|].
  apply bool_decide_eq_false in Hb. intros _. split; [done|]. intros name Hl. by rewrite Hl in Hs, Hb.
Qed.

Lemma read_inside root r raw purpose full x : root_at root r →
  resolve_workspace_path F cwd false root raw purpose = Ok full → leads F full x →
  ∃ rest, x = r ++ rest.
Proof.
  intros Hr Hok [m Hw]. pose proof (root_real _ _ Hr) as [_ Hs].
  destruct (resolve_inv _ _ _ _ _ Hr Hok) as (rel & -> & Hn & Hl).
  apply location_checks_inv in Hl as (_ & _ & Hcomp & _).
  rewrite walk_app, (solid_walk F r _ Hs) in Hw.
  eapply (components_stay r purpose [] rel r); rewrite ?app_nil_r; try done.
  - apply Hr.
  - by apply (solid_real F).
  - by apply solid_walk.
  - exists []. by rewrite app_nil_r.
Qed.

(** Where a path arrives at something, [lstat] sees something. *)
Lemma arrives_exists p x m : names p → walk F MAXSYMLINKS [] p = Some (x, m) → is_Some (F !! x) →
  lexists F p = true.
Proof.
  intros Hn Hw [f Hf]. unfold lexists, lstat. destruct p as [|a p _] using rev_ind; [done|].
  rewrite last_snoc. unfold parent. rewrite removelast_last.
  apply Forall_app in Hn as [_ [[(H1 & H2 & H3) _] _]%Forall_cons].
  rewrite walk_app in Hw. destruct (walk F MAXSYMLINKS [] p) as [[q n]|]; [|done].
  apply String.eqb_neq in H1, H2, H3. rewrite walk_cons, H1, H2, H3 in Hw.
  destruct (is_dir F q); [|done]. cbn [negb] in Hw.
  destruct (F !! (q ++ [a])) eqn:E; [done|]. rewrite walk_nil in Hw. injection Hw as <- _. congruence.
Qed.





Lemma accepted_write_stays root r raw full : wf_fs F → root_at root r →
  resolve_workspace_path F cwd false root raw Write = Ok full →
  ∃ rel, full = r ++ rel ∧ rel ≠ [] ∧ Forall plain_name rel ∧ writable_names rel ∧
    (∀ x, leads F full x → x = full) ∧
    (∀ data nlink, F !! full = Some (Regular data nlink) → (nlink ≤ 1)%Z).
Proof.
  intros Hwf Hr Hok. pose proof (root_real _ _ Hr) as [_ Hs].
  destruct (resolve_inv _ _ _ _ _ Hr Hok) as (rel & -> & Hn & Hl).
  apply location_checks_inv in Hl as (Hne & Hnames & Hcomp & Htgt).
  assert (no_link_below r rel) as Hnl.
  { pose proof (write_meets_no_link r false [] rel Hwf) as H. rewrite app_nil_r in H. exact (H Hs Hn Hcomp). }
  exists rel. split_and!; [done..| | | |].
  - eapply Forall_impl; [exact Hn|]. by intros ? [].
  - by apply name_checks_write.
  - intros x [m Hw]. rewrite walk_app, (solid_walk F r _ Hs) in Hw.
    eapply walk_no_links in Hw as [-> _]; [done|eapply Forall_impl; [exact Hn|]; by intros ? []|done].
  - intros data nlink Hf. cbn in Htgt. unfold _is_hard_linked in Htgt.
    assert (lstat F (r ++ rel) = Some (Regular data nlink)) as Hst.
    { destruct rel as [|a rel _] using rev_ind; [done|].
      apply Forall_app in Hn as [Hn _]. rewrite (assoc_L (++)) in Hf |- *.
      rewrite lstat_solid; [done..|]. apply no_link_solid; [done..| |by eapply Hwf].
      intros k name Hk t. pose proof (lookup_lt_Some _ _ _ Hk).
      specialize (Hnl k name). rewrite lookup_app_l in Hnl by done.
      specialize (Hnl Hk t). by rewrite take_app_le in Hnl by lia. }
    rewrite Hst in Htgt. destruct (Z.ltb_spec 1 nlink); [done|lia].
Qed.

(** C2: a write that was accepted stays on the file it names: inside the
    project's directory, below no [.git] or [.ract] in any case, on no secret-shaped
    name and not RACT's configuration; wherever the system arrives from that
    path, it is that path, so no link takes the write elsewhere; and a file that
    is there has no second name. *)
Theorem write_lands_inside root r raw full : wf_fs F → root_at root r →
  resolve_workspace_path F cwd false root raw Write = Ok full →
  ∃ rel, full = r ++ rel ∧ rel ≠ [] ∧ Forall plain_name rel ∧ writable_names rel ∧
    (∀ x, leads F full x → x = full) ∧
    (∀ data nlink, F !! full = Some (Regular data nlink) → (nlink ≤ 1)%Z).
Proof. apply accepted_write_stays. Qed.

(** Whatever an accepted path is read as, the system arrives inside the
    project's directory, through links or not. *)
Theorem read_stays_inside root r raw purpose full x : root_at root r →
  resolve_workspace_path F cwd false root raw purpose = Ok full → leads F full x →
  ∃ rest, x = r ++ rest.
Proof. apply read_inside. Qed.

(** C22: a path accepted to be sent names nothing private as it is written, and
    the file it leads to, by whatever links, is inside the project and is
    nothing private either: not below [.git] or [.ract], not RACT's
    configuration, not secret-shaped. *)
Theorem sent_is_not_private root r raw full x : root_at root r →
  resolve_workspace_path F cwd false root raw Send = Ok full →
  leads F full x → is_Some (F !! x) →
  ∃ rel rest, full = r ++ rel ∧ is_never_sent (str_join "/" rel) = false ∧
              x = r ++ rest ∧ is_never_sent (str_join "/" rest) = false.
Proof.
  intros Hr Hok Hx Hthere. pose proof (root_real _ _ Hr) as [_ Hs].
  destruct (read_inside root r raw Send full x Hr Hok Hx) as [rest ->].
  destruct (resolve_inv _ _ _ _ _ Hr Hok) as (rel & -> & Hn & Hl).
  apply location_checks_inv in Hl as (Hne & Hnames & _ & Htgt).
  exists rel, rest. split; [done|]. cbn in Hnames, Htgt.
  destruct (is_never_sent (str_join "/" rel)); [done|]. split; [done|]. split; [done|].
  destruct Hx as [m Hw]. rewrite (realpath_walk F _ _ _ _ _ Hw) in Htgt.
  assert (names (r ++ rel)) as Hnames'.
  { apply Forall_app. split; [by apply (solid_real F)|done]. }
  assert (no_slash (r ++ rest)) as Hsl.
  { apply names_slash, (solid_real F). eapply walk_solid; [exact Hw|constructor|].
    by apply names_slash. }
  rewrite (proj2 (same_or_inside_spec (r ++ rest) r Hsl ltac:(by apply names_slash, (solid_real F))
             (proj1 (proj2 Hr))) ltac:(eauto)) in Htgt.
  rewrite (arrives_exists (r ++ rel) (r ++ rest) m Hnames' Hw Hthere) in Htgt.
  rewrite relpath_app in Htgt. cbn [andb] in Htgt.
  destruct rest as [|a rest]; [by vm_compute|]. destruct (is_never_sent _); [done|]. done.
Qed.

End laws.

(** ** A concrete project *)
Lemma wf_fs_check F : bool_decide (map_Forall (λ p _, is_dir F (parent p) = true) F) = true → wf_fs F.
Proof.
  intros H%bool_decide_eq_true p name [x Hx]. specialize (H _ _ Hx). cbn in H.
  unfold parent in H. by rewrite removelast_last in H.
Qed.

#[local] Existing Instance plain_unicode.
#[local] Existing Instance plain_pytext.
Definition project : list string := ["home"; "p"].
Definition sample_fs : fs := list_to_map [
  (["home"], Dir); (["home"; "p"], Dir); (["home"; "p"; "src"], Dir);
  (["home"; "p"; "src"; "a.py"], Regular "x = 1" 1);
  (["home"; "p"; "docs"], SymLink "src"); (["home"; "p"; "out"], SymLink "/etc");
  (["home"; "p"; ".ract"], Dir); (["home"; "p"; ".ract"; "operator.key"], Regular "secret" 1);
  (["home"; "p"; "state"], SymLink ".ract"); (["etc"], Dir); (["etc"; "passwd"], Regular "root" 1)].
Definition resolve_sample := resolve_workspace_path sample_fs [] false "/home/p".

(** What is accepted and what is refused there. *)
Definition refusal_code {A} (r : result Refusal A) : string :=
  match r with Ok _ => "" | Err e => code e end.
Example sample_answers :
  resolve_sample "src/a.py" Write = Ok ["home"; "p"; "src"; "a.py"] ∧
  resolve_sample "docs/a.py" Read = Ok ["home"; "p"; "docs"; "a.py"] ∧
  refusal_code (resolve_sample "docs/a.py" Write) = "symlink_in_path" ∧
  refusal_code (resolve_sample "out/passwd" Read) = "escapes_root" ∧
  refusal_code (resolve_sample "/etc/passwd" Read) = "outside_root" ∧
  refusal_code (resolve_sample "src/../../q" Write) = "parent_segment" ∧
  refusal_code (resolve_sample ".GIT/hooks/x" Write) = "protected_directory" ∧
  refusal_code (resolve_sample "state/operator.key" Send) = "never_sent".
Proof. vm_compute. by repeat split. Qed.

Lemma sample_wf : wf_fs sample_fs.
Proof. apply wf_fs_check. vm_compute. reflexivity. Qed.
Lemma sample_root : root_at sample_fs [] "/home/p" project.
Proof.
  split; [constructor|]. split; [|by exists 40].
  intros name [= <-]. by split.
Qed.

Lemma write_lands_inside_witness : ∃ full,
  resolve_sample "src/a.py" Write = Ok full ∧ leads sample_fs full full ∧
  ∀ x, leads sample_fs full x → x = full.
Proof.
  exists ["home"; "p"; "src"; "a.py"].
  assert (resolve_sample "src/a.py" Write = Ok ["home"; "p"; "src"; "a.py"]) as H by (by vm_compute).
  split; [exact H|]. split; [exists 40; by vm_compute|].
  destruct (write_lands_inside sample_fs [] "/home/p" project _ _ sample_wf sample_root H)
    as (rel & _ & _ & _ & _ & Hx & _). exact Hx.
Defined.
Lemma read_stays_inside_witness : ∃ full x,
  resolve_sample "docs/a.py" Read = Ok full ∧ leads sample_fs full x ∧ full ≠ x ∧
  ∃ rest, x = project ++ rest.
Proof.
  exists ["home"; "p"; "docs"; "a.py"], ["home"; "p"; "src"; "a.py"].
  assert (resolve_sample "docs/a.py" Read = Ok ["home"; "p"; "docs"; "a.py"]) as H by (by vm_compute).
  assert (leads sample_fs ["home"; "p"; "docs"; "a.py"] ["home"; "p"; "src"; "a.py"]) as Hl
    by (exists 39; by vm_compute).
  split; [exact H|]. split; [exact Hl|]. split; [done|].
  exact (read_stays_inside sample_fs [] "/home/p" project _ Read _ _ sample_root H Hl).
Defined.
Lemma sent_is_not_private_witness : ∃ full x,
  resolve_sample "docs/a.py" Send = Ok full ∧ leads sample_fs full x ∧
  ∃ rest, x = project ++ rest ∧ is_never_sent (str_join "/" rest) = false.
Proof.
  exists ["home"; "p"; "docs"; "a.py"], ["home"; "p"; "src"; "a.py"].
  assert (resolve_sample "docs/a.py" Send = Ok ["home"; "p"; "docs"; "a.py"]) as H by (by vm_compute).
  assert (leads sample_fs ["home"; "p"; "docs"; "a.py"] ["home"; "p"; "src"; "a.py"]) as Hl
    by (exists 39; by vm_compute).
  split; [exact H|]. split; [exact Hl|].
  destruct (sent_is_not_private sample_fs [] "/home/p" project _ _ _ sample_root H Hl
    ltac:(vm_compute; eexists; reflexivity)) as (rel & rest & _ & _ & E & Hn).
  exists rest. split; [exact E|exact Hn].
Defined.

(** A project whose directory ends in a backslash: the rule strips it, and a link
    to a directory beside the project is taken for inside. *)
Definition beside_fs : fs := list_to_map [
  (["home"], Dir); (["home"; "p\"], Dir); (["home"; "p"], Dir);
  (["home"; "p"; "notes"], Regular "private" 1); (["home"; "p\"; "n"], SymLink "/home/p/notes")].
Theorem backslash_root_reads_beside : ∃ full,
  resolve_workspace_path beside_fs [] false "/home/p\" "n" Read = Ok full ∧
  leads beside_fs full ["home"; "p"; "notes"].
Proof. exists ["home"; "p\"; "n"]. split; [by vm_compute|]. exists 39. by vm_compute. Qed.
