(* ===== verification/TextLines.v ===== *)
(** * Lines of text

    [str.splitlines] and its boundaries, and the laws of text whose only line
    ends are newlines. *)

From S2P Require Import Prelude Canonical CanonicalLines JsonText Text.

(** The boundaries of [str.splitlines], in UTF-8; ["\r\n"] is one. *)
Definition line_breaks : list string :=
  [String "013" (String "010" "")] ++ (utf8_encode <$>
  [10; 13; 11; 12; 28; 29; 30; 0x85; 0x2028; 0x2029]%N).
Definition first_break (s : string) : option string :=
  foldr (λ e acc, match str_drop_prefix e s with Some t => Some t | None => acc end) None line_breaks.
Fixpoint splitlines_fuel (n : nat) (s : string) : list string :=
  match n, s with
  | O, _ | _, "" => []
  | S n, String c t =>
      match first_break s with
      | Some rest => "" :: splitlines_fuel n rest
      | None => match splitlines_fuel n t with
                | l :: ls => String c l :: ls
                | [] => [String c ""]
                end
      end
  end.
Definition splitlines (s : string) : list string := splitlines_fuel (String.length s) s.

Fixpoint endswith (s e : string) : bool :=
  String.eqb s e || match s with "" => false | String _ t => endswith t e end.
Definition CRLF : string := String "013" (String "010" "").
Definition LF : string := String newline "".
(** ["\r\n" in s] *)
Fixpoint has_crlf (s : string) : bool :=
  startswith s CRLF || match s with "" => false | String _ t => has_crlf t end.

(** ** Text whose only line ends are newlines *)

(** No boundary begins anywhere in the line. *)
Fixpoint unbroken (s : string) : bool :=
  match s with
  | "" => true
  | String _ t => (match first_break s with None => true | Some _ => false end) && unbroken t
  end.

Lemma first_break_None s : first_break s = None ↔ ∀ e, e ∈ line_breaks → str_drop_prefix e s = None.
Proof.
  unfold first_break. induction line_breaks as [|e es IH]; cbn; [set_solver|].
  destruct (str_drop_prefix e s) eqn:E; [split; [done|]|].
  - intros H. rewrite (H e) in E; [done|left].
  - rewrite IH. split; [|set_solver]. intros H e' [->|?]%elem_of_cons; auto.
Qed.

Lemma drop_prefix_app e u c v r : no_char c e = true →
  str_drop_prefix e (u +:+ String c v) = Some r → ∃ r', str_drop_prefix e u = Some r'.
Proof.
  unfold no_char. revert u r. induction e as [|x e IH]; intros u r; [by exists u|].
  cbn [str_forall]. intros [Hx He]%andb_true_iff. destruct u as [|y u].
  - rewrite str_app_nil_l. cbn. destruct (Ascii.eqb_spec x c); [by subst|done].
  - rewrite str_app_cons. cbn. destruct (Ascii.eqb x y); [by apply IH|done].
Qed.

Lemma breaks_newline : Forall (λ e, no_char newline e = true ∨ e = CRLF ∨ e = LF) line_breaks.
Proof. repeat (constructor; [vm_compute; tauto|]). constructor. Qed.

Lemma first_break_app u v : u ≠ "" → first_break u = None → first_break (u +:+ LF +:+ v) = None.
Proof.
  intros Hu Hn. rewrite first_break_None in Hn |- *. intros e He.
  destruct (str_drop_prefix e (u +:+ LF +:+ v)) as [r|] eqn:E; [|done]. exfalso.
  pose proof breaks_newline as Hb. rewrite Forall_forall in Hb.
  destruct (Hb e He) as [Hc|[-> | ->]].
  - apply drop_prefix_app in E as [r' E]; [|done]. by rewrite (Hn e He) in E.
  - destruct u as [|c u]; [done|]. rewrite str_app_cons in E.
    destruct (Ascii.eqb_spec "013" c) as [<-|Hne].
    + by specialize (Hn (String "013" "") ltac:(apply list_elem_of_In; vm_compute; tauto)).
    + unfold CRLF, LF, newline in E. cbn [str_drop_prefix] in E.
      apply Ascii.eqb_neq in Hne. rewrite Hne in E. done.
  - destruct u as [|c u]; [done|]. rewrite str_app_cons in E.
    destruct (Ascii.eqb_spec "010" c) as [<-|Hne].
    + by specialize (Hn LF ltac:(apply list_elem_of_In; vm_compute; tauto)).
    + unfold CRLF, LF, newline in E. cbn [str_drop_prefix] in E.
      apply Ascii.eqb_neq in Hne. rewrite Hne in E. done.
Qed.

Lemma splitlines_fuel_line n l v : unbroken l = true → String.length l < n →
  splitlines_fuel n (l +:+ LF +:+ v) = l :: splitlines_fuel (n - S (String.length l)) v.
Proof.
  revert n. induction l as [|c l IH]; intros n Hl Hn; (destruct n as [|n]; [lia|]).
  { rewrite str_app_nil_l. cbn. by rewrite Nat.sub_0_r. }
  cbn [unbroken] in Hl. apply andb_true_iff in Hl as [Hb Hl].
  destruct (first_break (String c l)) eqn:E; [done|].
  pose proof (first_break_app (String c l) v ltac:(done) E) as Ha.
  rewrite str_app_cons in Ha |- *. cbn [splitlines_fuel]. rewrite Ha, IH; [done|done|cbn in Hn; lia].
Qed.
Lemma splitlines_line l v : unbroken l = true →
  splitlines (l +:+ LF +:+ v) = l :: splitlines v.
Proof.
  intros Hl. unfold splitlines. rewrite !str_length_app. change (String.length LF) with 1.
  rewrite splitlines_fuel_line by (done || lia). do 2 f_equal. lia.
Qed.
Lemma splitlines_last l : unbroken l = true → l ≠ "" → splitlines l = [l].
Proof.
  unfold splitlines. induction l as [|c l IH]; [done|]. intros Hl _. cbn [unbroken] in Hl.
  apply andb_true_iff in Hl as [Hb Hl]. cbn [splitlines_fuel String.length].
  destruct (first_break (String c l)); [done|].
  destruct l as [|c' l]; [done|]. by rewrite IH.
Qed.

(** The lines of a text built from lines, with or without a last newline. *)
Definition ended (e : bool) : string := if e then LF else "".
Lemma str_join_lines ls : ls ≠ [] → str_join LF ls +:+ LF = join_lines ls.
Proof.
  induction ls as [|l ls IH]; [done|]. intros _. destruct ls as [|l' ls].
  { cbn. done. }
  rewrite str_join_cons2, !str_app_assoc, IH by done. done.
Qed.
Lemma splitlines_join ls e : Forall (λ l, unbroken l = true) ls →
  (e = false → last ls ≠ Some "") → (ls = [] → e = false) →
  splitlines (str_join LF ls +:+ ended e) = ls.
Proof.
  intros Hls. induction Hls as [|l ls Hl _ IH]; intros Hlast Hne.
  { rewrite Hne by done. done. }
  destruct ls as [|l' ls].
  - cbn [str_join]. destruct e.
    + change (ended true) with LF. rewrite <-(str_app_nil_r LF), splitlines_line by done. done.
    + cbn [ended]. rewrite str_app_nil_r. apply splitlines_last; [done|].
      intros ->. by apply Hlast.
  - rewrite str_join_cons2, !str_app_assoc, splitlines_line by done. f_equal. apply IH.
    + intros He. by apply Hlast.
    + done.
Qed.
