(* ===== verification/DiffApplier.v ===== *)
(** * Applying unified diffs

    Models [diff_applier.py]: the parser of hunks and headers, the check of a
    hunk's context, the splice, the backup and its restoration.  Header paths go
    through [resolve_workspace_path]; the journals of [undo_backup.py] and
    [run_checkpoint.py] are calls the world records. *)

From stdpp Require Import pretty.
From S2P Require Import Prelude Canonical CanonicalLines JsonText Text Gates FileSystem FileOps WorkspacePath TextLines.

(** The decimal digits of the Unicode database, by code point: what [\d] matches
    and [int] reads. *)
Class Decimals := decimal : N → option Z.
Definition plain_decimals : Decimals :=
  λ c, if (48 <=? c)%N && (c <=? 57)%N then Some (Z.of_N (c - 48)) else None.

Inductive op_kind : Type := Context_ | Removed | Added.
#[export] Instance op_kind_eq_dec : EqDecision op_kind.
Proof. solve_decision. Defined.
Notation ops := (list (op_kind * string)).

Inductive hunk_message : Type :=
| TargetMissing
| InvalidHeader (header : string)
| NumberTooLong (digits : nat)
| ContextMismatch
| StateRefused (link : path)
| PathRefused (why : Refusal)
| HunkApplied.
Record DiffApplyResult := {
  result_path : path;
  applied : bool;
  backup : option string;
  result_message : hunk_message;
}.

(** What [save_before_replace] and [note_written] were told. *)
Inductive note : Type := SavedBefore (p : path) | NotedWritten (p : path).

(** The file system, the folder of snapshots by file name, the notes. *)
Record world := {
  disk : fs;
  snapshots : list (string * string);
  notes : list note;
}.
(** The error that escapes: a target that is not UTF-8. *)
Inductive diff_error : Type := NotUtf8.

(** [l[a:b]] *)
Definition slice_index (len : nat) (i : Z) : nat :=
  if (i <? 0)%Z then Z.to_nat (i + Z.of_nat len) else Nat.min (Z.to_nat i) len.
Definition slice_from {A} (l : list A) (a : Z) : list A := drop (slice_index (length l) a) l.
Definition slice_to {A} (l : list A) (b : Z) : list A := take (slice_index (length l) b) l.
Definition slice {A} (l : list A) (a b : Z) : list A :=
  drop (slice_index (length l) a) (take (slice_index (length l) b) l).

Section diff.
Context {U : Unicode} {T : PyText} {D : Decimals}.

(** ** The header of a hunk *)
Fixpoint drop_points (p l : list N) : option (list N) :=
  match p, l with
  | [], _ => Some l
  | a :: p, b :: l => if (a =? b)%N then drop_points p l else None
  | _, [] => None
  end.
Definition lit (s : string) (l : list N) : option (list N) := drop_points (utf8_decode s) l.
Fixpoint digits (l : list N) : list Z * list N :=
  match l with
  | [] => ([], [])
  | c :: t => match decimal c with
              | Some d => let '(ds, r) := digits t in (d :: ds, r)
              | None => ([], l)
              end
  end.
Definition digits1 (l : list N) : option (list Z * list N) :=
  match digits l with ([], _) => None | r => Some r end.
(** [(?:,\d+)?] *)
Definition skip_count (l : list N) : list N :=
  match lit "," l with
  | Some t => match digits1 t with Some (_, r) => r | None => l end
  | None => l
  end.
(** The digits of the new file's first line. *)
Definition header_start (header : string) : option (list Z) :=
  l ← lit "@@ -" (utf8_decode header);
  '(_, l) ← digits1 l;
  l ← lit " +" (skip_count l);
  '(ds, l) ← digits1 l;
  _ ← lit " @@" (skip_count l);
  Some ds.
Definition INT_MAX_STR_DIGITS : nat := Z.to_nat 4300.
Definition int_value (ds : list Z) : Z := foldl (λ v d, 10 * v + d)%Z 0%Z ds.

Definition parse_op (line : string) : option (op_kind * string) :=
  match line with
  | String c t =>
      if Ascii.eqb c backslash then None
      else if Ascii.eqb c " " then Some (Context_, t)
      else if Ascii.eqb c "-" then Some (Removed, t)
      else if Ascii.eqb c "+" then Some (Added, t)
      else Some (Context_, line)
  | "" => Some (Context_, "")
  end.
Definition _parse_hunk (hunk_lines : list string) : result hunk_message (Z * ops) :=
  let header := default "" (head hunk_lines) in
  match header_start header with
  | None => Err (InvalidHeader header)
  | Some ds =>
      if Nat.ltb INT_MAX_STR_DIGITS (length ds) then Err (NumberTooLong (length ds))
      else Ok ((int_value ds - 1)%Z, omap parse_op (tail hunk_lines))
  end.

Definition texts (kinds : list op_kind) (o : ops) : list string :=
  (filter (λ x, x.1 ∈ kinds) o).*2.
Definition expected_orig (o : ops) : list string := texts [Context_; Removed] o.
Definition new_segment (o : ops) : list string := texts [Context_; Added] o.

(** ** The file system's side *)
(** The file where the path leads gets the bytes; a missing one is made. *)
Definition rewritten (data : string) (old : option fnode) : option fnode :=
  match old with
  | Some (Regular _ n) => Some (Regular data n)
  | None => Some (Regular data 1)
  | f => f
  end.
Definition write_bytes (p : path) (data : string) (F : fs) : fs :=
  match walk F MAXSYMLINKS [] p with
  | Some (r, _) => partial_alter (rewritten data) r F
  | None => F
  end.

(** [_backup_path]: the first name that is free. *)
Definition backup_name (stem : string) (counter : nat) : string :=
  stem +:+ (if Nat.eqb counter 0 then "" else "." +:+ pretty counter) +:+ ".bak".
Fixpoint free_name (fuel counter : nat) (stem : string) (taken : list string) : string :=
  match fuel with
  | O => backup_name stem counter
  | S fuel =>
      if bool_decide (backup_name stem counter ∈ taken) then free_name fuel (S counter) stem taken
      else backup_name stem counter
  end.
Definition _backup_path (w : world) (stem : string) : string :=
  free_name (length (snapshots w)) 0 stem (Dict.keys (snapshots w)).

(** Where a project lives, and the folder of its snapshots. *)
Record applier := {
  cwd : path;
  fold_case : bool;
  project_dir : string;
  snapshot_dir : path;
}.
Context (P : applier).
Definition _resolve (F : fs) (header_path : string) : result Refusal path :=
  resolve_workspace_path F (cwd P) (fold_case P) (project_dir P) header_path Write.

(** ** One hunk *)
Definition BOM : string := utf8_encode 0xFEFF.
Definition bom_of (text : string) : string := if startswith text BOM then BOM else "".
Definition without_bom (text : string) : string := default text (str_drop_prefix BOM text).
Definition newline_of (bytes : string) : string := if has_crlf bytes then CRLF else LF.

(** The new bytes of a file with the bytes [original], when the hunk fits. *)
Definition splice (original : string) (start : Z) (o : ops) : option string :=
  let text := without_bom original in
  let nl := newline_of original in
  let original_lines := splitlines text in
  let stop := (start + Z.of_nat (length (expected_orig o)))%Z in
  if bool_decide (slice original_lines start stop = expected_orig o) then
    let merged := slice_to original_lines start ++ new_segment o ++ slice_from original_lines stop in
    Some (bom_of original +:+ str_join nl merged +:+ if endswith text nl then nl else "")
  else None.

Definition refused (target : path) (m : hunk_message) : DiffApplyResult :=
  {| result_path := target; applied := false; backup := None; result_message := m |}.
Definition add_note (n : note) : action world diff_error unit :=
  modify (λ w, {| disk := disk w; snapshots := snapshots w; notes := notes w ++ [n] |}).

Definition _apply_hunk (target : path) (hunk : list string) : action world diff_error DiffApplyResult :=
  w ← get_state;
  match read_bytes (disk w) target with
  | None => mret (refused target TargetMissing)
  | Some original =>
      match _parse_hunk hunk with
      | Err m => mret (refused target m)
      | Ok (start, o) =>
          _ ← ensure (utf8_valid original) NotUtf8;
          match splice original start o with
          | None => mret (refused target ContextMismatch)
          | Some merged =>
              match check_state_path (disk w) (snapshot_dir P) with
              | Some link => mret (refused target (StateRefused link))
              | None =>
                  let name := _backup_path w (default "" (last target)) in
                  _ ← modify (λ w, {| disk := disk w; snapshots := Dict.set (snapshots w) name original;
                                      notes := notes w |});
                  _ ← add_note (SavedBefore target);
                  _ ← modify (λ w, {| disk := write_bytes target merged (disk w);
                                      snapshots := snapshots w; notes := notes w |});
                  _ ← add_note (NotedWritten target);
                  mret {| result_path := target; applied := true; backup := Some name;
                          result_message := HunkApplied |}
              end
          end
      end
  end.

(** ** A whole diff *)
Record parse_state := {
  current_file : option (result Refusal path);
  current_hunk : list string;
  after_old_header : bool;
  results : list DiffApplyResult;
}.
Definition start_state : parse_state :=
  {| current_file := None; current_hunk := []; after_old_header := false; results := [] |}.

Definition flush_hunk (s : parse_state) : action world diff_error parse_state :=
  match current_file s, current_hunk s with
  | None, _ | _, [] => mret s
  | Some f, hunk =>
      res ← match f with
            | Err why => mret (refused (comps (project_dir P) ++ ["<refused>"]) (PathRefused why))
            | Ok target => _apply_hunk target hunk
            end;
      mret {| current_file := current_file s; current_hunk := [];
              after_old_header := after_old_header s; results := results s ++ [res] |}
  end.

(** [opens_file]: what the two lines after a ["--- "] line say. *)
Definition opens_file (rest : list string) : bool :=
  match rest with
  | next :: rest => startswith next "+++ " &&
      match rest with [] => true | third :: _ => startswith third "@@" end
  | [] => false
  end.
Definition removeprefix (p s : string) : string := default s (str_drop_prefix p s).
Definition header_path (line prefix : string) : string :=
  removeprefix prefix (strip (String.substring 4 (String.length line) line)).

(** [re.search(r"diff --git a/(.+?) b/(.+?)$", line)]: the second group. *)
Fixpoint after_b (s : string) : option string :=
  match str_drop_prefix " b/" s with
  | Some "" | None => match s with "" => None | String _ t => after_b t end
  | Some r => Some r
  end.
Fixpoint git_header (s : string) : option string :=
  match s with
  | "" => None
  | String _ t =>
      match str_drop_prefix "diff --git a/" s with
      | Some (String _ u) => match after_b u with Some p => Some p | None => git_header t end
      | _ => git_header t
      end
  end.

Definition set_file (f : option (result Refusal path)) (s : parse_state) : parse_state :=
  {| current_file := f; current_hunk := current_hunk s;
     after_old_header := after_old_header s; results := results s |}.
Definition add_line (line : string) (s : parse_state) : parse_state :=
  {| current_file := current_file s; current_hunk := current_hunk s ++ [line];
     after_old_header := after_old_header s; results := results s |}.
Definition set_after (b : bool) (s : parse_state) : parse_state :=
  {| current_file := current_file s; current_hunk := current_hunk s;
     after_old_header := b; results := results s |}.

(** A line that stays in the hunk although it reads like a header. *)
Definition stays_in_hunk (s : parse_state) (line : string) (rest : list string) : bool :=
  negb (bool_decide (current_hunk s = [])) && negb (after_old_header s) &&
  (startswith line "--- " && negb (opens_file rest) || startswith line "+++ ").
Definition diff_line (s : parse_state) (line : string) (rest : list string)
    : action world diff_error parse_state :=
  if stays_in_hunk s line rest then mret (add_line line s)
  else
    let s := set_after (startswith line "--- ") s in
    if startswith line "--- " || startswith line "+++ " then
      s ← flush_hunk s;
      w ← get_state;
      let prefix := if startswith line "--- " then "a/" else "b/" in
      mret (set_file (Some (_resolve (disk w) (header_path line prefix))) s)
    else if startswith line "diff --git" || startswith line "index " then
      s ← flush_hunk s;
      w ← get_state;
      mret (match git_header line with
            | Some p => set_file (Some (_resolve (disk w) p)) s
            | None => s
            end)
    else if startswith line "@@" then
      s ← (if bool_decide (current_hunk s = []) then mret s else flush_hunk s);
      mret (add_line line s)
    else mret (if bool_decide (current_hunk s = []) then s else add_line line s).
Fixpoint diff_lines (s : parse_state) (lines : list string) : action world diff_error parse_state :=
  match lines with
  | [] => mret s
  | line :: rest => s ← diff_line s line rest; diff_lines s rest
  end.
Definition apply_diff (diff_text : string) : action world diff_error (list DiffApplyResult) :=
  s ← diff_lines start_state (splitlines diff_text);
  s ← flush_hunk s;
  mret (results s).

(** [restore]: the backup's bytes go back. *)
Definition restore (name : string) (target : path) : action world diff_error bool := λ w,
  match Dict.get (snapshots w) name with
  | None => (w, Ok false)
  | Some data => ({| disk := write_bytes target data (disk w); snapshots := snapshots w;
                     notes := notes w |}, Ok true)
  end.
End diff.
