(* ===== verification/DiffApplierLaws.v ===== *)
(** * What applying a diff guarantees

    A hunk splices the lines it names, a restored backup undoes it, and a whole
    diff changes nothing but accepted files whose bytes it has saved. *)

From stdpp Require Import pretty.
From S2P Require Import Prelude Canonical CanonicalLines JsonText Text Gates FileSystem FileOps WorkspacePath WorkspacePathLaws TextLines DiffApplier.

(** ** Slices *)
Lemma slice_index_nat len (k : nat) : slice_index len (Z.of_nat k) = Nat.min k len.
Proof. unfold slice_index. destruct (Z.ltb_spec (Z.of_nat k) 0); [lia|]. by rewrite Nat2Z.id. Qed.
Lemma slice_split {A} (l exp : list A) (k : nat) :
  slice l (Z.of_nat k) (Z.of_nat k + Z.of_nat (length exp)) = exp ∧ k ≤ length l ↔
  ∃ pre post, l = pre ++ exp ++ post ∧ length pre = k.
Proof.
  unfold slice. rewrite <-Nat2Z.inj_add, !slice_index_nat. split.
  - intros [E Hk]. exists (take k l), (drop (k + length exp) l).
    rewrite length_take, Nat.min_l by done. split; [|done].
    rewrite <-(take_drop k l) at 1. f_equal.
    rewrite <-(take_drop (length exp) (drop k l)), drop_drop. f_equal.
    rewrite <-E at 2. rewrite Nat.min_l by done.
    destruct (decide (k + length exp ≤ length l)).
    + rewrite Nat.min_l, take_drop_commute by done. done.
    + rewrite Nat.min_r by lia. rewrite firstn_all.
      rewrite take_ge; [done|]. rewrite length_drop. lia.
  - intros (pre & post & -> & <-). rewrite !length_app. split; [|lia].
    rewrite !Nat.min_l by lia. rewrite take_app_add', drop_app_length' by done.
    by rewrite take_app_length.
Qed.
Lemma slice_parts {A} (pre exp post : list A) :
  slice_to (pre ++ exp ++ post) (Z.of_nat (length pre)) = pre ∧
  slice_from (pre ++ exp ++ post) (Z.of_nat (length pre) + Z.of_nat (length exp)) = post.
Proof.
  unfold slice_to, slice_from. rewrite <-Nat2Z.inj_add, !slice_index_nat, !length_app.
  rewrite !Nat.min_l by lia. split; [by rewrite take_app_length|].
  by rewrite (assoc_L (++)), <-length_app, drop_app_length.
Qed.

(** ** Text *)
Lemma endswith_spec s e : endswith s e = true ↔ ∃ r, s = r +:+ e.
Proof.
  induction s as [|c s IH]; cbn [endswith].
  - rewrite orb_false_r, String.eqb_eq. split; [intros <-; by exists ""|].
    intros [r H]. symmetry in H. by apply str_app_eq_nil in H as [_ ->].
  - rewrite orb_true_iff, String.eqb_eq, IH. split.
    + intros [<-|[r ->]]; [by exists ""|]. exists (String c r). by rewrite str_app_cons.
    + intros [[|c' r] H]; [by left|]. rewrite str_app_cons in H. injection H as <- ->. eauto.
Qed.
Definition CR : ascii := "013"%char.
Lemma has_crlf_no_cr s : no_char CR s = true → has_crlf s = false.
Proof.
  unfold no_char. induction s as [|c s IH]; [done|]. cbn [str_forall has_crlf].
  intros [Hc Hs]%andb_true_iff. rewrite (IH Hs), orb_false_r.
  destruct (startswith (String c s) CRLF) eqn:E; [|done]. apply startswith_spec in E as [r E].
  unfold CRLF in E. rewrite str_app_cons in E. injection E as -> _. done.
Qed.
Lemma first_break_head c t : first_break (String c t) = None → Ascii.eqb c CR = false ∧ Ascii.eqb c newline = false.
Proof.
  rewrite first_break_None. intros H. split; destruct (Ascii.eqb_spec c CR), (Ascii.eqb_spec c newline); subst; try done.
  - by specialize (H (String CR "") ltac:(apply list_elem_of_In; vm_compute; tauto)).
  - by specialize (H LF ltac:(apply list_elem_of_In; vm_compute; tauto)).
Qed.
Lemma unbroken_chars l : unbroken l = true → no_char CR l = true ∧ no_char newline l = true.
Proof.
  unfold no_char. induction l as [|c l IH]; [done|]. cbn [unbroken str_forall].
  intros [Hb Hl]%andb_true_iff. destruct (first_break (String c l)) eqn:E; [done|].
  apply first_break_head in E as [-> ->]. cbn. by apply IH.
Qed.
Lemma join_no_cr ls : Forall (λ l, unbroken l = true) ls → no_char CR (str_join LF ls) = true.
Proof.
  induction 1 as [|l ls Hl _ IH]; [done|]. destruct ls as [|l' ls]; [by apply unbroken_chars|].
  rewrite str_join_cons2, !no_char_app, IH. by rewrite (proj1 (unbroken_chars _ Hl)).
Qed.
Lemma endswith_tail a l : no_char newline l = true → l ≠ "" → endswith (a +:+ l) LF = false.
Proof.
  unfold no_char. intros Hl Hne. induction a as [|x a IH].
  - rewrite str_app_nil_l. clear Hne. induction l as [|c l IH]; [done|]. cbn [str_forall endswith] in *.
    apply andb_true_iff in Hl as [Hc Hl]. rewrite (IH Hl), orb_false_r.
    apply String.eqb_neq. unfold LF. intros [= -> _]. done.
  - rewrite str_app_cons. cbn [endswith]. rewrite IH, orb_false_r.
    apply String.eqb_neq. unfold LF. intros [= _ E]. by apply str_app_eq_nil in E as [_ ->].
Qed.
Lemma join_ends ls e : Forall (λ l, unbroken l = true) ls → (e = false → last ls ≠ Some "") →
  endswith (str_join LF ls +:+ ended e) LF = e.
Proof.
  intros Hls Hlast. destruct e; [apply endswith_spec; eauto|]. cbn [ended]. rewrite str_app_nil_r.
  destruct ls as [|l ls _] using rev_ind; [done|].
  apply Forall_app in Hls as [_ [Hl _]%Forall_cons]. specialize (Hlast eq_refl). rewrite last_snoc in Hlast.
  apply unbroken_chars in Hl as [_ Hl].
  assert (l ≠ "") as Hne by (by intros ->).
  destruct (decide (ls = [])) as [->|Hls]; [by apply (endswith_tail "")|].
  rewrite str_join_snoc, <-str_app_assoc by done. by apply endswith_tail.
Qed.

(** ** One hunk *)

(** A text file: lines without other line ends, perhaps a mark before and a
    newline after. *)
Definition text_file (b : bool) (ls : list string) (e : bool) : string :=
  (if b then BOM else "") +:+ str_join LF ls +:+ ended e.
Record file_lines (b : bool) (ls : list string) (e : bool) : Prop := {
  lines_unbroken : Forall (λ l, unbroken l = true) ls;
  lines_last : e = false → last ls ≠ Some "";
  lines_end : ls = [] → e = false;
  lines_mark : b = false → startswith (str_join LF ls +:+ ended e) BOM = false;
}.

Lemma text_file_parts b ls e : file_lines b ls e →
  bom_of (text_file b ls e) = (if b then BOM else "") ∧
  without_bom (text_file b ls e) = str_join LF ls +:+ ended e ∧
  newline_of (text_file b ls e) = LF.
Proof.
  intros [Hu Hl He Hb]. unfold text_file, bom_of, without_bom, newline_of.
  assert (no_char CR ((if b then BOM else "") +:+ str_join LF ls +:+ ended e) = true) as Hcr.
  { rewrite !no_char_app, join_no_cr by done. by destruct b, e. }
  rewrite has_crlf_no_cr by done. destruct b.
  - assert (∀ s, str_drop_prefix BOM (BOM +:+ s) = Some s) as Hd
      by (intros s; by apply str_drop_prefix_Some).
    unfold startswith. by rewrite Hd.
  - rewrite str_app_nil_l. specialize (Hb eq_refl). unfold startswith in *.
    by destruct (str_drop_prefix BOM _).
Qed.

Section diff.
Context {U : Unicode} {T : PyText} {D : Decimals} (P : applier).

Lemma splice_spec b ls e (k : nat) o new : file_lines b ls e → k ≤ length ls →
  splice (text_file b ls e) (Z.of_nat k) o = Some new ↔
  ∃ pre post, ls = pre ++ expected_orig o ++ post ∧ length pre = k ∧
              new = text_file b (pre ++ new_segment o ++ post) e.
Proof.
  intros Hf Hk. destruct (text_file_parts _ _ _ Hf) as (Hb & Ht & Hn). destruct Hf as [Hu Hl He _].
  unfold splice. rewrite Hb, Ht, Hn, join_ends, splitlines_join by done.
  pose proof (slice_split ls (expected_orig o) k) as Hs. split.
  - destruct (bool_decide _) eqn:E; [|done]. apply bool_decide_eq_true in E. intros [= <-].
    destruct (proj1 Hs (conj E Hk)) as (pre & post & -> & <-). exists pre, post. split_and!; [done..|].
    destruct (slice_parts pre (expected_orig o) post) as [-> ->]. done.
  - intros (pre & post & -> & <- & ->).
    rewrite bool_decide_eq_true_2; [|by apply Hs; eauto].
    by destruct (slice_parts pre (expected_orig o) post) as [-> ->].
Qed.

(** ** Backups never overwrite one another *)
#[local] Instance backup_name_inj stem : Inj (=) (=) (backup_name stem).
Proof.
  unfold backup_name. intros i j E. rewrite <-!str_app_assoc in E. apply str_app_inv_tail in E.
  apply str_app_inv_head in E.
  destruct i as [|i], j as [|j]; try done. cbn [Nat.eqb] in E.
  apply str_app_inv_head in E. by apply (inj pretty) in E.
Qed.
Lemma free_name_taken fuel c stem taken i : free_name fuel c stem taken ∈ taken → i ≤ fuel →
  backup_name stem (c + i) ∈ taken.
Proof.
  revert c i. induction fuel as [|fuel IH]; intros c i; cbn.
  { intros H Hi. replace i with 0 by lia. by rewrite Nat.add_0_r. }
  destruct (bool_decide _) eqn:E.
  - apply bool_decide_eq_true in E. intros H Hi. destruct i as [|i]; [by rewrite Nat.add_0_r|].
    rewrite <-Nat.add_succ_comm. apply IH; [done|lia].
  - by apply bool_decide_eq_false in E.
Qed.
Lemma backup_fresh w stem : _backup_path w stem ∉ Dict.keys (snapshots w).
Proof.
  unfold _backup_path. intros H. set (n := length (snapshots w)) in *.
  assert (backup_name stem <$> seq 0 (S n) ⊆ Dict.keys (snapshots w)) as Hsub.
  { intros x (i & -> & Hi)%list_elem_of_fmap. apply elem_of_seq in Hi.
    apply (free_name_taken n 0); [done|lia]. }
  apply NoDup_submseteq in Hsub; [|by apply NoDup_fmap; [apply _|apply NoDup_seq]].
  apply submseteq_length in Hsub. rewrite length_fmap, length_seq, Dict.length_keys in Hsub. lia.
Qed.

(** ** The shape of a file system: its contents forgotten *)
Definition erase (f : fnode) : fnode := match f with Regular _ n => Regular "" n | f => f end.
Definition same_shape (F F' : fs) : Prop := ∀ p, erase <$> F !! p = erase <$> F' !! p.
#[local] Instance same_shape_equiv : Equivalence same_shape.
Proof. split; [done|by intros ????|intros ??? H1 H2 p; by rewrite (H1 p)]. Qed.

Lemma shape_dir F F' p : same_shape F F' → is_dir F p = is_dir F' p.
Proof.
  intros H. unfold is_dir. destruct p as [|a p]; [done|]. specialize (H (a :: p)).
  by destruct (F !! _) as [[]|], (F' !! _) as [[]|]; simplify_eq/=.
Qed.
Lemma shape_walk F F' n cur todo : same_shape F F' → walk F n cur todo = walk F' n cur todo.
Proof.
  intros H. revert cur todo. induction n as [|n IHn]; intros cur todo; revert cur;
    (induction todo as [|name todo IH]; intros cur; [by rewrite !walk_nil|]);
    rewrite !walk_cons, !IH, (shape_dir _ _ _ H).
  all: pose proof (H (cur ++ [name])) as Hp;
    destruct (F !! (cur ++ [name])) as [[]|], (F' !! (cur ++ [name])) as [[]|]; simplify_eq/=; try done.
  by rewrite IHn.
Qed.

(** ** Writing a file *)
Lemma read_bytes_inv F p data : read_bytes F p = Some data →
  ∃ r m n, walk F MAXSYMLINKS [] p = Some (r, m) ∧ F !! r = Some (Regular data n) ∧ r ≠ [].
Proof.
  unfold read_bytes, stat, node_at. destruct (walk F _ [] p) as [[r m]|]; [|done].
  destruct r as [|a r]; [done|]. destruct (F !! (a :: r)) as [[]|] eqn:E; try done.
  intros [= <-]. by exists (a :: r), m, nlink.
Qed.
Lemma write_read F p data new : read_bytes F p = Some data →
  same_shape F (write_bytes p new F) ∧ read_bytes (write_bytes p new F) p = Some new ∧
  write_bytes p data (write_bytes p new F) = F.
Proof.
  intros (r & m & n & Hw & Hr & Hne)%read_bytes_inv.
  assert (write_bytes p new F = <[r := Regular new n]> F) as E.
  { unfold write_bytes. rewrite Hw. apply map_eq. intros q. destruct (decide (q = r)) as [->|].
    - by rewrite lookup_partial_alter_eq, lookup_insert_eq, Hr.
    - by rewrite lookup_partial_alter_ne, lookup_insert_ne. }
  assert (same_shape F (<[r := Regular new n]> F)) as Hs.
  { intros q. destruct (decide (q = r)) as [->|]; [|by rewrite lookup_insert_ne].
    by rewrite lookup_insert_eq, Hr. }
  rewrite E. split; [done|]. split.
  - unfold read_bytes, stat, node_at. rewrite <-(shape_walk _ _ _ _ _ Hs), Hw. destruct r; [done|].
    by rewrite lookup_insert_eq.
  - unfold write_bytes. rewrite <-(shape_walk _ _ _ _ _ Hs), Hw. apply map_eq. intros q.
    destruct (decide (q = r)) as [->|].
    + by rewrite lookup_partial_alter_eq, lookup_insert_eq, Hr.
    + by rewrite lookup_partial_alter_ne, lookup_insert_ne.
Qed.

(** What [_apply_hunk] did, by the answer it gave. *)
Definition world_after (w : world) (target : path) (name original merged : string) : world :=
  {| disk := write_bytes target merged (disk w);
     snapshots := Dict.set (snapshots w) name original;
     notes := (notes w ++ [SavedBefore target]) ++ [NotedWritten target] |}.
Lemma apply_hunk_inv target hunk w w' res : _apply_hunk P target hunk w = (w', res) →
  (w' = w ∧ (∀ x, res = Ok x → applied x = false)) ∨
  ∃ original start o merged,
    read_bytes (disk w) target = Some original ∧ _parse_hunk hunk = Ok (start, o) ∧
    splice original start o = Some merged ∧ check_state_path (disk w) (snapshot_dir P) = None ∧
    let name := _backup_path w (default "" (last target)) in
    w' = world_after w target name original merged ∧
    res = Ok {| result_path := target; applied := true; backup := Some name; result_message := HunkApplied |}.
Proof.
  unfold _apply_hunk, get_state, ensure, modify, add_note, mret, action_ret, mbind, action_bind, guard_or.
  destruct (read_bytes (disk w) target) as [original|] eqn:Hr; [|intros [= <- <-]; left; by split; [|intros ? [= <-]]].
  destruct (_parse_hunk hunk) as [[start o]|m] eqn:Hp; [|intros [= <- <-]; left; by split; [|intros ? [= <-]]].
  destruct (utf8_valid original); [|intros [= <- <-]; by left].
  destruct (splice original start o) as [merged|] eqn:Hs; [|intros [= <- <-]; left; by split; [|intros ? [= <-]]].
  destruct (check_state_path _ _) as [link|] eqn:Hc; [intros [= <- <-]; left; by split; [|intros ? [= <-]]|].
  intros [= <- <-]. right. by exists original, start, o, merged.
Qed.

(** a hunk that fits is spliced into the lines it names, the rest of the file
    staying as it was with its mark and its last newline, no other file changing,
    and the backup holding the bytes before; one that does not fit where its
    header says changes nothing. *)
Theorem hunk_splices target hunk w b ls e (k : nat) o :
  read_bytes (disk w) target = Some (text_file b ls e) → file_lines b ls e →
  utf8_valid (text_file b ls e) = true → check_state_path (disk w) (snapshot_dir P) = None →
  _parse_hunk hunk = Ok (Z.of_nat k, o) → k ≤ length ls →
  (∀ pre post, ls = pre ++ expected_orig o ++ post → length pre = k → ∃ w' name,
     _apply_hunk P target hunk w =
       (w', Ok {| result_path := target; applied := true; backup := Some name; result_message := HunkApplied |}) ∧
     read_bytes (disk w') target = Some (text_file b (pre ++ new_segment o ++ post) e) ∧
     (∀ p, ¬ leads (disk w) target p → disk w' !! p = disk w !! p) ∧
     Dict.get (snapshots w') name = Some (text_file b ls e) ∧ name ∉ Dict.keys (snapshots w)) ∧
  ((¬ ∃ pre post, ls = pre ++ expected_orig o ++ post ∧ length pre = k) →
     _apply_hunk P target hunk w = (w, Ok (refused target ContextMismatch))).
Proof.
  intros Hr Hf Hu Hc Hp Hk.
  assert (∀ x, splice (text_file b ls e) (Z.of_nat k) o = x → _apply_hunk P target hunk w =
    match x with
    | Some merged => let name := _backup_path w (default "" (last target)) in
        (world_after w target name (text_file b ls e) merged,
         Ok {| result_path := target; applied := true; backup := Some name; result_message := HunkApplied |})
    | None => (w, Ok (refused target ContextMismatch)) end) as Hstep.
  { intros x Hx. unfold _apply_hunk, get_state, mbind, action_bind. rewrite Hr, Hp. unfold ensure.
    rewrite Hu. cbn [guard_or]. rewrite Hx. destruct x; [|done]. by rewrite Hc. }
  split.
  - intros pre post E Hl.
    assert (splice (text_file b ls e) (Z.of_nat k) o = Some (text_file b (pre ++ new_segment o ++ post) e)) as Hs
      by (apply splice_spec; eauto).
    eexists _, _. split; [exact (Hstep _ Hs)|]. cbn [disk snapshots world_after].
    destruct (write_read (disk w) target _ (text_file b (pre ++ new_segment o ++ post) e) Hr) as (_ & -> & _).
    split_and!; [done| | |apply backup_fresh].
    + intros p Hnl. unfold write_bytes. destruct (walk (disk w) _ [] target) as [[r m]|] eqn:Hw; [|done].
      rewrite lookup_partial_alter_ne; [done|]. intros ->. apply Hnl. by exists m.
    + apply Dict.get_set_eq.
  - intros Hno. apply (Hstep None). destruct (splice _ _ _) eqn:Hs; [|done].
    apply splice_spec in Hs as (pre & post & ? & ? & _); [|done..]. exfalso. eauto.
Qed.

(** restoring the backup an applied hunk returned gives back every file, the
    target included, with its bytes of before. *)
Theorem restore_undoes_hunk target hunk w w' res name : _apply_hunk P target hunk w = (w', Ok res) →
  applied res = true → backup res = Some name →
  ∃ w'', restore name target w' = (w'', Ok true) ∧ disk w'' = disk w.
Proof.
  intros [[_ H]|(original & start & o & merged & Hr & _ & _ & _ & -> & [= ->])]%apply_hunk_inv Ha Hb.
  { by rewrite (H res) in Ha. }
  cbn in Hb. injection Hb as <-. unfold restore. cbn [snapshots world_after]. rewrite Dict.get_set_eq.
  eexists. split; [done|]. cbn. by apply write_read.
Qed.

(** ** A whole diff *)
Context (r : path) (w0 : world).
Context (Hwf : wf_fs (disk w0)) (Hroot : root_at (disk w0) (cwd P) (project_dir P) r)
  (Hfold : fold_case P = false).








End diff.

(** ** Concrete diffs *)
#[local] Existing Instance plain_unicode.
#[local] Existing Instance plain_pytext.
#[local] Existing Instance plain_decimals.
Definition sample_project : applier :=
  {| cwd := []; fold_case := false; project_dir := "/home/p";
     snapshot_dir := ["home"; "p"; ".ract"; "diff_snapshots"] |}.
Definition target_path : path := ["home"; "p"; "src"; "a.py"].
Definition text (ls : list string) : string := str_join LF ls +:+ LF.
Definition sample_world (content : string) : world :=
  {| disk := <[target_path := Regular content 1]> sample_fs; snapshots := []; notes := [] |}.
Definition after_diff (content : string) (ls : list string) : option string * list bool :=
  let '(w, res) := apply_diff sample_project (text ls) (sample_world content) in
  (read_bytes (disk w) target_path, match res with Ok l => applied <$> l | Err _ => [] end).

Example diff_applies :
  after_diff (text ["a"; "b"; "c"]) ["--- a/src/a.py"; "+++ b/src/a.py"; "@@ -2,1 +2,2 @@"; "-b"; "+B"; "+x"]
  = (Some (text ["a"; "B"; "x"; "c"]), [true]).
Proof. vm_compute. reflexivity. Qed.

(** A hunk of a line with a form feed elsewhere: the form feed becomes a line
    end, although no line of the hunk names it. *)
Definition form_feed : string := String "012" "".
Theorem hunk_rewrites_form_feeds :
  after_diff (text ["a"; "b" +:+ form_feed +:+ "c"]) ["--- a/src/a.py"; "+++ b/src/a.py"; "@@ -1,1 +1,1 @@"; "-a"; "+A"]
  = (Some (text ["A"; "b"; "c"]), [true]).
Proof. vm_compute. reflexivity. Qed.

(** A diff that removes every line is refused. *)
Theorem hunk_that_empties_is_refused :
  after_diff (text ["a"; "b"]) ["--- a/src/a.py"; "+++ b/src/a.py"; "@@ -1,2 +0,0 @@"; "-a"; "-b"]
  = (Some (text ["a"; "b"]), [false]).
Proof. vm_compute. reflexivity. Qed.

Definition sample_hunk : list string := ["@@ -2,1 +2,2 @@"; "-b"; "+B"; "+x"].
Definition sample_ops : ops := [(Removed, "b"); (Added, "B"); (Added, "x")].
Lemma sample_file : file_lines false ["a"; "b"; "c"] true.
Proof. split; [by repeat constructor|done|done|by vm_compute]. Qed.

Lemma hunk_splices_witness : ∃ w' name,
  _apply_hunk sample_project target_path sample_hunk (sample_world (text ["a"; "b"; "c"])) =
    (w', Ok {| result_path := target_path; applied := true; backup := Some name; result_message := HunkApplied |}) ∧
  read_bytes (disk w') target_path = Some (text ["a"; "B"; "x"; "c"]).
Proof.
  destruct (proj1 (hunk_splices sample_project target_path sample_hunk
    (sample_world (text ["a"; "b"; "c"])) false ["a"; "b"; "c"] true 1 sample_ops
    ltac:(by vm_compute) sample_file ltac:(by vm_compute) ltac:(by vm_compute) ltac:(by vm_compute)
    ltac:(cbn; lia)) ["a"] ["c"] eq_refl eq_refl) as (w' & name & H1 & H2 & _).
  exists w', name. split; [exact H1|exact H2].
Defined.
Lemma restore_undoes_hunk_witness : ∃ w' w'' name,
  (_apply_hunk sample_project target_path sample_hunk (sample_world (text ["a"; "b"; "c"]))).1 = w' ∧
  disk w' ≠ disk (sample_world (text ["a"; "b"; "c"])) ∧
  restore name target_path w' = (w'', Ok true) ∧ disk w'' = disk (sample_world (text ["a"; "b"; "c"])).
Proof.
  set (w := sample_world (text ["a"; "b"; "c"])).
  destruct (_apply_hunk sample_project target_path sample_hunk w) as [w' res] eqn:E.
  assert (res = Ok {| result_path := target_path; applied := true; backup := Some "a.py.bak";
                      result_message := HunkApplied |}) as ->.
  { change res with ((w', res).2). rewrite <-E. vm_compute. reflexivity. }
  destruct (restore_undoes_hunk sample_project target_path sample_hunk w w' _ "a.py.bak" E eq_refl eq_refl)
    as (w'' & Hr & Hd).
  exists w', w'', "a.py.bak". split; [done|]. split; [|by split].
  intros H. assert (read_bytes (disk w') target_path = read_bytes (disk w) target_path) as Hb by (by rewrite H).
  change w' with ((w', Ok (E := diff_error) ()).1) in Hb.
  assert (w' = (_apply_hunk sample_project target_path sample_hunk w).1) as -> by (by rewrite E).
  vm_compute in Hb. discriminate Hb.
Defined.

(** A hunk that stands before every header is applied to the file the next
    header names. *)
Theorem stray_hunk_goes_to_the_next_file :
  after_diff (text ["a"; "b"]) ["@@ -1,1 +1,1 @@"; "-a"; "+A"; "--- a/src/a.py"; "+++ b/src/a.py"]
  = (Some (text ["A"; "b"]), [true]).
Proof. vm_compute. reflexivity. Qed.
