(* ===== verification/Handshake.v ===== *)
(** * The operator handshake registry

    Models [handshake_registry.py]: the registry file of the workspace, which a
    repository can ship and anyone who writes the workspace can change, the
    marks of the user's own state directory, and the operations over both. *)

From Stdlib Require Import Floats.SpecFloat.
From S2P Require Import Prelude Canonical CanonicalRead CanonicalLines JsonText Text.

(** ** Items *)
Record HandshakeItem := {
  id : string;
  description : string;
  acceptance : string;
  item_timestamp : string;
  status : string;
  metadata : option (list (string * json));
  depends_on : list string;
}.

Definition _STATUSES : list string := ["pending"; "approved"; "rejected"; "deferred"].
Definition _TEXT_FIELDS : list string := ["id"; "description"; "acceptance"; "timestamp"; "status"].
Definition _FIELDS : list string := _TEXT_FIELDS ++ ["metadata"; "depends_on"].

Definition is_text (v : option json) : bool :=
  match v with Some (JStr _) => true | _ => false end.
Definition text_of (v : option json) : string :=
  match v with Some (JStr s) => s | _ => "" end.

Definition _item_ok (raw : json) : bool :=
  match raw with
  | JObj kvs =>
      bool_decide (Dict.keys kvs ⊆ _FIELDS) &&
      forallb (λ f, is_text (Dict.get kvs f)) _TEXT_FIELDS &&
      bool_decide (text_of (Dict.get kvs "status") ∈ _STATUSES) &&
      match Dict.get kvs "metadata" with None | Some JNull | Some (JObj _) => true | _ => false end &&
      match Dict.get kvs "depends_on" with
      | None => true
      | Some (JArr ds) => forallb (λ d, is_text (Some d)) ds
      | Some _ => false
      end
  | _ => false
  end.

(** [HandshakeItem( **raw)] of a raw item of that shape. *)
Definition item_of (raw : json) : HandshakeItem :=
  let kvs := match raw with JObj kvs => kvs | _ => [] end in
  {| id := text_of (Dict.get kvs "id"); description := text_of (Dict.get kvs "description");
     acceptance := text_of (Dict.get kvs "acceptance");
     item_timestamp := text_of (Dict.get kvs "timestamp");
     status := text_of (Dict.get kvs "status");
     metadata := match Dict.get kvs "metadata" with Some (JObj m) => Some m | _ => None end;
     depends_on := match Dict.get kvs "depends_on" with
                   | Some (JArr ds) => (λ d, text_of (Some d)) <$> ds | _ => [] end |}.

(** [asdict], without an absent metadata and an empty [depends_on]. *)
Definition raw_of (item : HandshakeItem) : json :=
  JObj ([("id", JStr (id item)); ("description", JStr (description item));
         ("acceptance", JStr (acceptance item)); ("timestamp", JStr (item_timestamp item));
         ("status", JStr (status item))] ++
        match metadata item with Some m => [("metadata", JObj m)] | None => [] end ++
        match depends_on item with [] => [] | ds => [("depends_on", JArr (JStr <$> ds))] end).

Definition with_status (st : string) (item : HandshakeItem) : HandshakeItem :=
  {| id := id item; description := description item; acceptance := acceptance item;
     item_timestamp := item_timestamp item; status := st; metadata := metadata item;
     depends_on := depends_on item |}.

(** ** The machine *)

(** What is at the registry's path: nothing, a link on the way to it, something
    that is no file, or the bytes of a file. *)
Inductive reg_node : Type := Missing | Link | NotRegular | Data (bytes : string).

Inductive hs_error : Type :=
| InvalidStatus (status : string)
| HandshakeNotFound (id : string)
| StateDirRefused
| OsError.

Definition event := (string * list (string * json))%type.

(** The workspace's file, this machine's marks by file name, the event log. *)
Record registry := {
  registry_file : reg_node;
  marks : list (string * string);
  emitted : list event;
}.

(** The operator's key: [pinned] is the public key of the user config, a signer
    is a key id and a private key.  Base64 and the two directions of
    [strftime]/[strptime] at a whole second come from the standard library;
    times are microseconds. *)
Class Signing := {
  private_key : Type;
  public_key : Type;
  sign : private_key → string → string;
  verify : public_key → string → string → bool;
  public_of : private_key → public_key;
  pinned : option (string * public_key);
  b64encode : string → string;
  b64decode : string → option string;
  utc_format : Z → string;
  utc_parse : string → option Z;
}.

Definition APPROVAL_DAYS : Z := 30.
Definition day : Z := 86400000000.
Definition second : Z := 1000000.
Definition _APPROVAL_DOMAIN : string := "ract-handshake-approval/1" +:+ String newline "".
Definition DEFAULT_MAX_BYTES : nat := Z.to_nat (1024 * 1024).

Section handshakes.
Context {R : Runtime} {Sh : Sha256} {T : PyText} {Sg : Signing}.

(** [_approval_digest] *)
Definition _approval_digest (item : HandshakeItem) : string :=
  hex (sha256 (json_dumps None
    (JArr [JStr (id item); JStr (description item); JStr (acceptance item);
           JStr (item_timestamp item)]))).

(** ** Reading *)
Definition _load (r : registry) : list json :=
  match registry_file r with
  | Data bytes =>
      if Nat.leb (String.length bytes) DEFAULT_MAX_BYTES && utf8_valid bytes then
        match json_loads bytes with
        | Some (JArr data) => filter (λ raw, _item_ok raw = true) data
        | _ => []
        end
      else []
  | _ => []
  end.
Definition entries (r : registry) : list HandshakeItem := item_of <$> _load r.
Definition pending (r : registry) : list HandshakeItem :=
  filter (λ item, status item = "pending") (entries r).

(** The name of a mark's file. *)
Definition mark_name (milestone_id kind : string) : string :=
  String.substring 0 32 (hex (sha256 milestone_id)) +:+ "." +:+ kind.
Definition _read_mark (r : registry) (milestone_id kind : string) : option string :=
  content ← Dict.get (marks r) (mark_name milestone_id kind);
  let head := String.substring 0 128 content in
  if str_forall (λ c, (ord c <? 128)%N) head then Some (strip head) else None.
Definition _marked (r : registry) (item : HandshakeItem) (kind : string) : bool :=
  bool_decide (_read_mark r (id item) kind = Some (_approval_digest item)).
Definition _read_signed_mark (r : registry) (milestone_id : string) : option (list (string * json)) :=
  content ← Dict.get (marks r) (mark_name milestone_id "approved.sig");
  if Nat.leb (String.length content) (Z.to_nat 4096) && utf8_valid content then
    match json_loads content with Some (JObj data) => Some data | _ => None end
  else None.

(** ** Signed approvals *)
Definition _approval_message (milestone_id digest expires : string) : string :=
  match encode (JObj [("id", JStr milestone_id); ("digest", JStr digest);
                      ("expires", JStr expires)]) with
  | Ok body => _APPROVAL_DOMAIN +:+ body
  | Err _ => ""
  end.
Definition sign_approval (now : Z) (milestone_id digest : string) (signer : string * private_key)
    : list (string * json) :=
  let expires := utc_format (now + APPROVAL_DAYS * day) in
  let signature := sign signer.2 (_approval_message milestone_id digest expires) in
  [("format", JStr "ract-handshake-approval/1"); ("id", JStr milestone_id);
   ("digest", JStr digest); ("expires", JStr expires); ("key_id", JStr signer.1);
   ("signature", JStr (b64encode signature))].

Definition field_is (record : list (string * json)) (k v : string) : bool :=
  match Dict.get record k with Some (JStr s) => String.eqb s v | _ => false end.
Definition signed_approval_holds (now : Z) (milestone_id : string)
    (record : option (list (string * json))) (digest : string) : bool :=
  match record with
  | None | Some [] => false
  | Some record =>
      field_is record "format" "ract-handshake-approval/1" &&
      field_is record "id" milestone_id && field_is record "digest" digest &&
      match pinned with
      | None => false
      | Some (key_id, key) =>
          field_is record "key_id" key_id &&
          match Dict.get record "expires", Dict.get record "signature" with
          | Some expires, Some text =>
              match utc_parse (py_str expires), b64decode (py_str text) with
              | Some until, Some signature =>
                  (now <? until)%Z &&
                  verify key signature (_approval_message milestone_id digest (py_str expires))
              | _, _ => false
              end
          | _, _ => false
          end
      end
  end.

Definition _approved_here (now : Z) (r : registry) (item : HandshakeItem) : bool :=
  signed_approval_holds now (id item) (_read_signed_mark r (id item)) (_approval_digest item).

(** ** Which item stands for an id *)

(** The positions of the items with the id. *)
Fixpoint positions (i : nat) (items : list HandshakeItem) (milestone_id : string) : list nat :=
  match items with
  | [] => []
  | item :: items =>
      (if String.eqb (id item) milestone_id then [i] else []) ++ positions (S i) items milestone_id
  end.
Definition marked_at (r : registry) (items : list HandshakeItem) (kind : string) (i : nat) : bool :=
  match items !! i with Some item => _marked r item kind | None => false end.
Definition _current_index (r : registry) (items : list HandshakeItem) (milestone_id : string)
    : option nat :=
  let found := positions 0 items milestone_id in
  match list_find (λ i, marked_at r items "requested" i = true) found with
  | Some (_, i) => Some i
  | None => last found
  end.
Definition current_of (r : registry) (items : list HandshakeItem) (milestone_id : string)
    : option HandshakeItem :=
  i ← _current_index r items milestone_id; items !! i.
Definition current (r : registry) (milestone_id : string) : option HandshakeItem :=
  current_of r (entries r) milestone_id.

(** ** Decisions *)
Definition is_approved (now : Z) (r : registry) (milestone_id : string) : bool :=
  match current r milestone_id with
  | Some item => String.eqb (status item) "approved" && _approved_here now r item
  | None => false
  end.
Definition blocking (now : Z) (r : registry) (item : HandshakeItem) : bool :=
  String.eqb (status item) "pending" ||
  String.eqb (status item) "approved" && negb (_approved_here now r item).
Definition blocks_commit (now : Z) (r : registry) (handshake_ids : list string) : list string :=
  let items := entries r in
  filter (λ hid, match current_of r items hid with
                 | Some item => blocking now r item | None => false end = true) handshake_ids.

(** [approval_state]: the word shown for an item. *)
Definition approval_state (now : Z) (r : registry) (item : HandshakeItem) : string :=
  if _approved_here now r item then "signed"
  else if _marked r item "approved" ||
          match _read_signed_mark r (id item) with Some (_ :: _) => true | _ => false end
  then "unsigned" else "none".

(** [unsigned_reason]: whether there is one, and which of the two it is. *)
Inductive unsigned_why : Type := NoOperatorKey | SignatureDoesNotHold.
Definition unsigned_reason (now : Z) (r : registry) (milestone_id : string) : option unsigned_why :=
  match current r milestone_id with
  | None => None
  | Some item =>
      if negb (String.eqb (status item) "approved") || _approved_here now r item then None
      else match pinned with None => Some NoOperatorKey | Some _ => Some SignatureDoesNotHold end
  end.

(** ** Widening *)
Record CapabilityManifest := {
  read : list string;
  write : list string;
  allow_hosts : list string;
  extra_read : list string;
  extra_write : list string;
  extra_hosts : list string;
  tiers_and_rest : json;
}.
Definition widen_manifest_for (now : Z) (r : registry) (m : CapabilityManifest) (milestone_id : string)
    : CapabilityManifest :=
  if negb (is_approved now r milestone_id) then m
  else {| read := read m ++ extra_read m; write := write m ++ extra_write m;
          allow_hosts := allow_hosts m ++ extra_hosts m; extra_read := extra_read m;
          extra_write := extra_write m; extra_hosts := extra_hosts m;
          tiers_and_rest := tiers_and_rest m |}.

(** ** Writing *)
Definition _save (items : list HandshakeItem) : action registry hs_error unit := λ r,
  match registry_file r with
  | Link => (r, Err StateDirRefused)
  | NotRegular => (r, Err OsError)
  | _ => ({| registry_file := Data (json_dumps (Some 2) (JArr (raw_of <$> items)));
             marks := marks r; emitted := emitted r |}, Ok ())
  end.
Definition set_marks (f : list (string * string) → list (string * string))
    : action registry hs_error unit :=
  modify (λ r, {| registry_file := registry_file r; marks := f (marks r); emitted := emitted r |}).
Definition _write_mark (milestone_id kind : string) (digest : option string)
    : action registry hs_error unit :=
  set_marks (λ d, match digest with
                  | None => Dict.remove d (mark_name milestone_id kind)
                  | Some x => Dict.set d (mark_name milestone_id kind) x
                  end).
Definition _record_approval_mark (now : Z) (item : HandshakeItem)
    (signer : option (string * private_key)) : action registry hs_error unit :=
  let digest := if String.eqb (status item) "approved" then Some (_approval_digest item) else None in
  _ ← _write_mark (id item) "approved" digest;
  set_marks (λ d,
    match digest, signer with
    | Some x, Some signer =>
        Dict.set d (mark_name (id item) "approved.sig")
          (json_dumps None (JObj (sign_approval now (id item) x signer)))
    | _, _ => Dict.remove d (mark_name (id item) "approved.sig")
    end).
Definition _emit_handshake_event (kind : string) (item : HandshakeItem) (reason : string)
    : action registry hs_error unit :=
  modify (λ r, {| registry_file := registry_file r; marks := marks r;
    emitted := emitted r ++
      [(kind, [("milestone_id", JStr (id item)); ("status", JStr (status item));
               ("description", JStr (description item)); ("reason", JStr reason)])] |}).

(** [add], at the time its timestamp says. *)
Definition add (timestamp milestone_id desc acc : string) (meta : option (list (string * json)))
    (deps : list string) : action registry hs_error HandshakeItem :=
  r ← get_state;
  let item := {| id := milestone_id; description := desc; acceptance := acc;
                 item_timestamp := timestamp; status := "pending"; metadata := meta;
                 depends_on := deps |} in
  _ ← _save (entries r ++ [item]);
  _ ← _write_mark (id item) "requested" (Some (_approval_digest item));
  _ ← _emit_handshake_event "handshake.requested" item "";
  mret item.

Definition update_status (now : Z) (milestone_id st : string) (signer : option (string * private_key))
    : action registry hs_error HandshakeItem :=
  _ ← ensure (bool_decide (st ∈ ["approved"; "rejected"; "deferred"])) (InvalidStatus st);
  r ← get_state;
  let items := entries r in
  match _current_index r items milestone_id ≫= λ i, (i,.) <$> items !! i with
  | None => raise (HandshakeNotFound milestone_id)
  | Some (i, item) =>
      let updated := with_status st item in
      _ ← _save (<[i := updated]> items);
      _ ← _record_approval_mark now updated signer;
      _ ← _emit_handshake_event "handshake.resolved" updated "";
      mret updated
  end.
End handshakes.
