(* ===== verification/HandshakeLaws.v ===== *)
(** * What the handshake registry guarantees

    Whatever the workspace ships: an approval that unlocks something was given
    on this machine with the pinned key; an approval given with it does unlock. *)

From stdpp Require Import pretty.
From Stdlib Require Import Floats.SpecFloat.
From S2P Require Import Prelude Canonical CanonicalRead CanonicalLines JsonText Text Handshake.

(** Documented facts of the signature scheme and of the standard library: a
    signature verifies, Base64 decodes what it encoded, a time in whole seconds
    reads back, and both texts are ASCII. *)
Class SigningLaws (Sg : Signing) : Prop := {
  verify_sign : ∀ k m, verify (public_of k) (sign k m) m = true;
  b64_roundtrip : ∀ s, b64decode (b64encode s) = Some s;
  b64_ascii : ∀ s, ascii_text (b64encode s) = true;
  utc_roundtrip : ∀ t, utc_parse (utc_format t) = Some (t / second * second)%Z;
  utc_ascii : ∀ t, ascii_text (utc_format t) = true;
}.

Section model.
Context {R : Runtime} {Sh : Sha256} {T : PyText} {Sg : Signing}.

(** ** Sequences of operations, and of changes to the workspace *)
Inductive op : Type :=
| Shipped (f : reg_node)
| Request (timestamp milestone_id desc acc : string) (meta : option (list (string * json)))
    (deps : list string)
| Update (now : Z) (milestone_id st : string) (signer : option (string * private_key)).

Definition step (o : op) (r : registry) : registry :=
  match o with
  | Shipped f => {| registry_file := f; marks := marks r; emitted := emitted r |}
  | Request ts i desc acc meta deps => (add ts i desc acc meta deps r).1
  | Update now i st signer => (update_status now i st signer r).1
  end.
Definition run (ops : list op) (r : registry) : registry := foldl (λ r o, step o r) r ops.

Lemma run_snoc ops o r : run (ops ++ [o]) r = step o (run ops r).
Proof. unfold run. by rewrite foldl_app. Qed.

(** The texts an operation brings are text. *)
Definition op_text_ok (o : op) : Prop :=
  match o with
  | Update _ i _ (Some signer) => utf8_valid i = true ∧ utf8_valid signer.1 = true
  | _ => True
  end.

(** ** Where a signed mark comes from *)
Definition sig_name (i : string) : string := mark_name i "approved.sig".

(** The last operation of [pre ++ [Update ..]] approved [item] with the key. *)
Definition signed_by (ops : list op) (start : registry) (i content : string) (item : HandshakeItem)
    (now : Z) (signer : string * private_key) : Prop :=
  ∃ pre post, ops = pre ++ Update now i "approved" (Some signer) :: post ∧
    (update_status now i "approved" (Some signer) (run pre start)).2 = Ok item ∧ id item = i ∧
    content = json_dumps None (JObj (sign_approval now i (_approval_digest item) signer)).

Lemma get_remove (d : list (string * string)) k k' v :
  Dict.get (Dict.remove d k) k' = Some v → k' ≠ k → Dict.get d k' = Some v.
Proof.
  induction d as [|[k1 v1] d IH]; cbn; [done|]. intros H Hne.
  destruct (decide (k = k1)) as [->|]; cbn in *.
  - by rewrite decide_False.
  - case_decide; [done|]. by apply IH.
Qed.

Lemma keys_remove (d : list (string * string)) k : Dict.keys (Dict.remove d k) ⊆ Dict.keys d.
Proof.
  induction d as [|[k1 v1] d IH]; cbn [Dict.remove]; [done|]. case_decide; [set_solver|].
  rewrite !Dict.keys_cons. set_solver.
Qed.
Lemma NoDup_remove (d : list (string * string)) k :
  NoDup (Dict.keys d) → NoDup (Dict.keys (Dict.remove d k)).
Proof.
  induction d as [|[k1 v1] d IH]; cbn [Dict.remove]; [done|]. rewrite Dict.keys_cons. intros [Hn Hd]%NoDup_cons.
  case_decide; [done|]. rewrite Dict.keys_cons, NoDup_cons. split; [|by apply IH].
  intros Hin. by apply Hn, (keys_remove d k).
Qed.
Lemma get_remove_same (d : list (string * string)) k :
  NoDup (Dict.keys d) → Dict.get (Dict.remove d k) k = None.
Proof.
  induction d as [|[k1 v1] d IH]; cbn [Dict.remove]; [done|]. rewrite Dict.keys_cons. intros [Hn Hd]%NoDup_cons.
  case_decide; subst; [by apply Dict.get_None|]. cbn [Dict.get]. rewrite decide_False by done. by apply IH.
Qed.

Lemma positions_spec i0 items m i : i ∈ positions i0 items m ↔
  i0 ≤ i ∧ ∃ item, items !! (i - i0) = Some item ∧ id item = m.
Proof.
  revert i0. induction items as [|x items IH]; intros i0; cbn [positions].
  { split; [by intros ?%not_elem_of_nil|]. by intros (_ & ? & ? & _). }
  rewrite elem_of_app, IH. split.
  - intros [H|(Hle & item & Hi & <-)].
    + destruct (String.eqb_spec (id x) m) as [<-|]; [|by apply not_elem_of_nil in H].
      apply list_elem_of_singleton in H as ->. split; [done|]. exists x. by rewrite Nat.sub_diag.
    + split; [lia|]. exists item. by replace (i - i0) with (S (i - S i0)) by lia.
  - intros (Hle & item & Hi & <-). destruct (decide (i = i0)) as [->|Hne].
    + left. rewrite Nat.sub_diag in Hi. injection Hi as <-. rewrite String.eqb_refl. set_solver.
    + right. split; [lia|]. exists item. by replace (i - i0) with (S (i - S i0)) in Hi by lia.
Qed.

Lemma current_index_spec r items m i : _current_index r items m = Some i →
  ∃ item, items !! i = Some item ∧ id item = m.
Proof.
  intros H. assert (i ∈ positions 0 items m) as (_ & item & Hi & Hm)%positions_spec.
  { unfold _current_index in H. destruct (list_find _ _) as [[k j]|] eqn:E.
    - injection H as ->. apply list_find_Some in E as (E & _). by eapply list_elem_of_lookup_2.
    - by apply last_Some_elem_of. }
  rewrite Nat.sub_0_r in Hi. eauto.
Qed.

(** What a successful [update_status] did. *)
Lemma update_status_inv now m st signer r r' x :
  update_status now m st signer r = (r', x) →
  (r' = r ∧ ∃ e, x = Err e) ∨
  ∃ i item, _current_index r (entries r) m = Some i ∧ entries r !! i = Some item ∧
    id item = m ∧ st ∈ ["approved"; "rejected"; "deferred"] ∧
    x = Ok (with_status st item) ∧
     registry_file r' = Data (json_dumps (Some 2)
       (JArr (raw_of <$> <[i := with_status st item]> (entries r)))) ∧
     marks r' = (let d := Some (_approval_digest item) in
       let m1 := if String.eqb st "approved"
                 then Dict.set (marks r) (mark_name m "approved") (_approval_digest item)
                 else Dict.remove (marks r) (mark_name m "approved") in
       match (if String.eqb st "approved" then d else None), signer with
       | Some x, Some signer =>
           Dict.set m1 (sig_name m) (json_dumps None (JObj (sign_approval now m x signer)))
       | _, _ => Dict.remove m1 (sig_name m)
       end).
Proof.
  unfold update_status, ensure, get_state, raise, mbind, action_bind.
  destruct (bool_decide (st ∈ _)) eqn:Est; [|intros [= <- <-]; left; eauto]. cbn -[_current_index entries].
  apply bool_decide_eq_true in Est.
  destruct (_current_index r (entries r) m) as [i|] eqn:Ei; cbn -[_current_index entries];
    [|intros [= <- <-]; left; eauto].
  destruct (current_index_spec _ _ _ _ Ei) as (item & Hi & Hm). rewrite Hi. cbn -[_current_index entries].
  intros H. unfold _save in H. destruct (registry_file r) eqn:Er.
  2: { injection H as <- <-. left. eauto. } 2: { injection H as <- <-. left. eauto. }
  all: unfold _record_approval_mark, _write_mark, set_marks, _emit_handshake_event, modify,
    mret, action_ret, mbind, action_bind in H; cbn in H; injection H as <- <-;
    right; exists i, item; cbn; rewrite Hm; unfold _approval_digest, sig_name; cbn;
    split_and!; try done; by destruct (String.eqb st "approved"), signer.
Qed.
End model.

Section laws.
Context {R : Runtime} {Sh : Sha256} {T : PyText} {Sg : Signing}.
Context {ShL : Sha256Laws Sh} {SgL : SigningLaws Sg}.

(** ** Names of marks *)
Lemma str_app_inj_length (a b c d : string) :
  String.length a = String.length c → a +:+ b = c +:+ d → a = c ∧ b = d.
Proof.
  revert c. induction a as [|x a IH]; intros [|y c] Hl H; try done.
  rewrite !str_app_cons in H. injection H as -> H. injection Hl as Hl.
  by destruct (IH c Hl H) as [-> ->].
Qed.
Lemma length_hex s : String.length (hex s) = 2 * String.length s.
Proof. induction s as [|c s IH]; cbn; [done|]. rewrite IH. lia. Qed.
Lemma length_substring n s : n ≤ String.length s → String.length (String.substring 0 n s) = n.
Proof.
  revert n. induction s as [|c s IH]; intros [|n] H; cbn in *; try done; [lia|]. rewrite IH; lia.
Qed.
Lemma length_mark_head i : String.length (String.substring 0 32 (hex (sha256 i))) = 32.
Proof using ShL. apply length_substring. rewrite length_hex, sha256_length. lia. Qed.
Lemma mark_name_kind i j k k' : mark_name i k = mark_name j k' → k = k'.
Proof using ShL.
  intros [_ H]%str_app_inj_length; [|by rewrite !length_mark_head]. by apply str_app_inv_head in H.
Qed.


(** ** The marks *)
Lemma add_marks ts m desc acc meta deps r :
  marks (add ts m desc acc meta deps r).1 = marks r ∨
  ∃ d, marks (add ts m desc acc meta deps r).1 = Dict.set (marks r) (mark_name m "requested") d.
Proof.
  unfold add, get_state, _save, mbind, action_bind. destruct (registry_file r); cbn; eauto.
Qed.

Lemma marks_NoDup ops start :
  NoDup (Dict.keys (marks start)) → NoDup (Dict.keys (marks (run ops start))).
Proof.
  intros H0. induction ops as [|o ops IH] using rev_ind; [done|]. rewrite run_snoc.
  destruct o as [f|ts m desc acc meta deps|now m st signer]; cbn [step]; [done|..].
  { destruct (add_marks ts m desc acc meta deps (run ops start)) as [->|[d ->]];
      auto using Dict.NoDup_keys_set. }
  destruct (update_status now m st signer (run ops start)) as [r' x] eqn:Eu.
  destruct (update_status_inv _ _ _ _ _ _ _ Eu) as
    [[-> _]|(k & item & _ & _ & _ & _ & _ & _ & Hm)]; [done|].
  cbn. rewrite Hm. destruct (String.eqb st "approved"), signer; cbv beta iota zeta;
    auto using Dict.NoDup_keys_set, NoDup_remove.
Qed.

Lemma signed_by_snoc ops o start i content item now signer :
  signed_by ops start i content item now signer →
  signed_by (ops ++ [o]) start i content item now signer.
Proof.
  intros (pre & post & -> & H). exists pre, (post ++ [o]). split; [|done]. by rewrite <-app_assoc.
Qed.

Lemma signed_mark_origin ops start i content : marks start = [] →
  Dict.get (marks (run ops start)) (sig_name i) = Some content →
  ∃ i' item now signer, sig_name i' = sig_name i ∧ signed_by ops start i' content item now signer.
Proof using ShL.
  intros H0. assert (∀ ops, NoDup (Dict.keys (marks (run ops start)))) as Hn.
  { intros ops'. apply marks_NoDup. rewrite H0. constructor. }
  revert i content. induction ops as [|o ops IH] using rev_ind; intros i content.
  { cbn. by rewrite H0. }
  rewrite run_snoc. intros Hg.
  assert (Dict.get (marks (run ops start)) (sig_name i) = Some content →
    ∃ i' item now signer, sig_name i' = sig_name i ∧
      signed_by (ops ++ [o]) start i' content item now signer) as Hold.
  { intros (i' & item & now & signer & ? & ?)%IH. exists i', item, now, signer.
    eauto using signed_by_snoc. }
  destruct o as [f|ts m desc acc meta deps|now m st signer]; cbn [step] in Hg; [by apply Hold|..].
  { destruct (add_marks ts m desc acc meta deps (run ops start)) as [E|[d E]]; rewrite E in Hg;
      [by apply Hold|]. rewrite Dict.get_set_ne in Hg; [by apply Hold|].
    intros E2. by apply mark_name_kind in E2. }
  destruct (update_status now m st signer (run ops start)) as [r' x] eqn:Eu.
  destruct (update_status_inv _ _ _ _ _ _ _ Eu) as
    [[-> _]|(k & item & Hk & Hit & Hid & Hst & Hx & Hf & Hm)]; [by apply Hold|].
  cbn [fst] in Hg. rewrite Hm in Hg. clear Hm Hf.
  assert (∀ v, mark_name m "approved" ≠ sig_name v) as Hne.
  { intros v E. by apply mark_name_kind in E. }
  destruct (String.eqb_spec st "approved") as [->|Hna].
  2: { destruct (decide (sig_name i = sig_name m)) as [E|E].
       - rewrite E, get_remove_same in Hg by auto using NoDup_remove. done.
       - apply get_remove in Hg; [|done]. apply get_remove in Hg; [by apply Hold|].
         by intros ?%eq_sym%Hne. }
  destruct signer as [signer|]; cbv beta iota zeta in Hg.
  2: { destruct (decide (sig_name i = sig_name m)) as [E|E].
       - rewrite E, get_remove_same in Hg by auto using Dict.NoDup_keys_set. done.
       - apply get_remove in Hg; [|done]. rewrite Dict.get_set_ne in Hg by done. by apply Hold. }
  rewrite Dict.get_set in Hg. case_decide as E.
  - injection Hg as <-. exists m, (with_status "approved" item), now, signer. split; [done|].
    exists ops, []. split; [done|]. rewrite Eu. by subst.
  - rewrite Dict.get_set_ne in Hg by done. by apply Hold.
Qed.

(** ** An approval that holds was given here *)
Lemma sign_approval_good now i dg signer : utf8_valid i = true → utf8_valid signer.1 = true →
  ascii_text dg = true → json_good (JObj (sign_approval now i dg signer)).
Proof using SgL.
  intros Hi Hk Hd. unfold sign_approval. constructor.
  - apply (bool_decide_unpack _). by vm_compute.
  - repeat constructor.
  - repeat (apply Forall_cons; split; cbn [snd]); constructor; try done; apply utf8_valid_ascii;
      auto using b64_ascii, utc_ascii.
Qed.
Lemma read_signed r i now dg signer :
  utf8_valid i = true → utf8_valid signer.1 = true → ascii_text dg = true →
  Dict.get (marks r) (sig_name i) = Some (json_dumps None (JObj (sign_approval now i dg signer))) →
  String.length (json_dumps None (JObj (sign_approval now i dg signer))) ≤ Z.to_nat 4096 →
  _read_signed_mark r i = Some (sign_approval now i dg signer).
Proof using SgL.
  intros Hi Hk Hd Hg Hl. unfold _read_signed_mark. change (mark_name i "approved.sig") with (sig_name i).
  rewrite Hg. cbn [mbind option_bind]. pose proof (sign_approval_good now i dg signer Hi Hk Hd) as Hgood.
  apply Nat.leb_le in Hl. by rewrite Hl, (dumps_utf8 None _ Hgood), (loads_dumps None _ Hgood).
Qed.

Lemma digest_ascii item : ascii_text (_approval_digest item) = true.
Proof. apply hex_ascii. Qed.

(** The fields of a record. *)
Lemma sign_approval_fields t i dg signer :
  let expires := utc_format (t + APPROVAL_DAYS * day) in
  let rec := sign_approval t i dg signer in
  Dict.get rec "format" = Some (JStr "ract-handshake-approval/1") ∧
  Dict.get rec "id" = Some (JStr i) ∧ Dict.get rec "digest" = Some (JStr dg) ∧
  Dict.get rec "expires" = Some (JStr expires) ∧ Dict.get rec "key_id" = Some (JStr signer.1) ∧
  Dict.get rec "signature" =
    Some (JStr (b64encode (sign signer.2 (_approval_message i dg expires)))).
Proof. done. Qed.
Lemma signed_approval_holds_cons now i record dg : record ≠ [] →
  signed_approval_holds now i (Some record) dg =
  field_is record "format" "ract-handshake-approval/1" &&
  field_is record "id" i && field_is record "digest" dg &&
  match pinned with
  | None => false
  | Some (key_id, key) =>
      field_is record "key_id" key_id &&
      match Dict.get record "expires", Dict.get record "signature" with
      | Some expires, Some text =>
          match utc_parse (py_str expires), b64decode (py_str text) with
          | Some until, Some signature =>
              (now <? until)%Z &&
              verify key signature (_approval_message i dg (py_str expires))
          | _, _ => false
          end
      | _, _ => false
      end
  end.
Proof. by destruct record. Qed.

(** The record of a mark says what was signed. *)
Lemma signed_approval_inv now i id' dg dg' t signer :
  signed_approval_holds now i (Some (sign_approval t id' dg' signer)) dg = true →
  id' = i ∧ dg' = dg ∧ ∃ key, pinned = Some (signer.1, key) ∧ (now < t + APPROVAL_DAYS * day)%Z ∧
    verify key (sign signer.2 (_approval_message i dg (utc_format (t + APPROVAL_DAYS * day))))
      (_approval_message i dg (utc_format (t + APPROVAL_DAYS * day))) = true.
Proof using SgL.
  rewrite signed_approval_holds_cons by done. unfold field_is.
  destruct (sign_approval_fields t id' dg' signer) as (-> & -> & -> & -> & -> & ->).
  destruct pinned as [[key_id key]|]; [|by rewrite andb_false_r].
  cbn [py_str]. rewrite b64_roundtrip, utc_roundtrip. intros H. bool_prop. subst.
  split_and!; [done..|]. exists key. split_and!; [done| |done].
  eapply Z.lt_le_trans; [eassumption|]. rewrite Z.mul_comm. apply Z.mul_div_le. done.
Qed.

(** The operation that signed the item that stands for [i] now. *)
Definition operator_signed (ops : list op) (start : registry) (i : string) (item : HandshakeItem)
    (now : Z) : Prop :=
  ∃ pre post t signer key signed,
    ops = pre ++ Update t i "approved" (Some signer) :: post ∧
    (update_status t i "approved" (Some signer) (run pre start)).2 = Ok signed ∧
    id signed = i ∧ _approval_digest signed = _approval_digest item ∧
    pinned = Some (signer.1, key) ∧ (now < t + APPROVAL_DAYS * day)%Z ∧
    let message := _approval_message i (_approval_digest item)
                     (utc_format (t + APPROVAL_DAYS * day)) in
    verify key (sign signer.2 message) message = true.

Lemma approved_here_origin ops start item now :
  marks start = [] → Forall op_text_ok ops →
  _approved_here now (run ops start) item = true → operator_signed ops start (id item) item now.
Proof using ShL SgL.
  intros H0 Hok. unfold _approved_here.
  destruct (_read_signed_mark (run ops start) (id item)) as [rec|] eqn:Er; [|done].
  unfold _read_signed_mark in Er. apply bind_Some in Er as (content & Hc & Er).
  destruct (signed_mark_origin ops start (id item) content H0 Hc) as
    (i' & signed & t & signer & Hn & pre & post & Hops & Hu & Hid & Hcont).
  assert (op_text_ok (Update t i' "approved" (Some signer))) as [Hi Hs].
  { rewrite Forall_forall in Hok. apply Hok. rewrite Hops. apply elem_of_app. right. left. }
  destruct (Nat.leb _ _ && _); [|done].
  rewrite Hcont, loads_dumps in Er by (apply sign_approval_good; auto using digest_ascii).
  injection Er as <-. intros (-> & Hd & key & Hp & Hlt & Hv)%signed_approval_inv.
  exists pre, post, t, signer, key, signed. by split_and!.
Qed.

Lemma current_id r i item : current r i = Some item → id item = i ∧ item ∈ entries r.
Proof.
  unfold current, current_of. intros (k & (item' & Hl & Hid)%current_index_spec & Hi)%bind_Some.
  rewrite Hl in Hi. injection Hi as <-. split; [done|]. by eapply list_elem_of_lookup_2.
Qed.

Lemma is_approved_inv now r i : is_approved now r i = true →
  ∃ item, current r i = Some item ∧ status item = "approved" ∧ _approved_here now r item = true.
Proof.
  unfold is_approved. destruct (current r i) as [item|]; [|done]. intros H. bool_prop. eauto.
Qed.

Lemma elem_of_blocks_commit now r ids i : i ∈ blocks_commit now r ids ↔
  i ∈ ids ∧ ∃ item, current r i = Some item ∧ blocking now r item = true.
Proof.
  unfold blocks_commit, current. rewrite list_elem_of_filter.
  destruct (current_of r (entries r) i); naive_solver.
Qed.

Lemma status_cases r item : item ∈ entries r → status item ∈ _STATUSES.
Proof.
  unfold entries, _load. intros (raw & -> & H)%list_elem_of_fmap.
  assert (_item_ok raw = true) as Hok.
  { destruct (registry_file r); try by apply not_elem_of_nil in H.
    destruct (_ && _); [|by apply not_elem_of_nil in H].
    destruct (json_loads _) as [[]|]; try by apply not_elem_of_nil in H.
    by apply list_elem_of_filter in H as [H _]. }
  destruct raw as [| | | | | |kvs]; try done. cbn in Hok |- *. bool_prop. done.
Qed.

(** ** What a decision does *)

(** An item whose texts and metadata JSON carries. *)
Definition item_good (item : HandshakeItem) : Prop :=
  Forall (λ t, utf8_valid t = true)
    ([id item; description item; acceptance item; item_timestamp item] ++ depends_on item) ∧
  status item ∈ _STATUSES ∧
  match metadata item with Some m => json_good (JObj m) | None => True end.

Lemma texts_roundtrip (ds : list string) : (λ d, text_of (Some d)) <$> (JStr <$> ds) = ds.
Proof. induction ds as [|d ds IH]; [done|]. cbn in *. by rewrite IH. Qed.
Lemma texts_ok (ds : list string) : forallb (λ d, is_text (Some d)) (JStr <$> ds) = true.
Proof. by induction ds. Qed.

Lemma raw_gets item : ∃ kvs, raw_of item = JObj kvs ∧ Dict.keys kvs ⊆ _FIELDS ∧
  Dict.get kvs "id" = Some (JStr (id item)) ∧
  Dict.get kvs "description" = Some (JStr (description item)) ∧
  Dict.get kvs "acceptance" = Some (JStr (acceptance item)) ∧
  Dict.get kvs "timestamp" = Some (JStr (item_timestamp item)) ∧
  Dict.get kvs "status" = Some (JStr (status item)) ∧
  Dict.get kvs "metadata" = JObj <$> metadata item ∧
  Dict.get kvs "depends_on" =
    match depends_on item with [] => None | ds => Some (JArr (JStr <$> ds)) end.
Proof.
  destruct item as [i d a t st [m|] [|x ds]]; eexists; (split; [done|]);
    (split; [apply (bool_decide_unpack _); by vm_compute|done]).
Qed.
Lemma item_roundtrip item : status item ∈ _STATUSES →
  _item_ok (raw_of item) = true ∧ item_of (raw_of item) = item.
Proof.
  intros Hst. destruct (raw_gets item) as (kvs & -> & Hk & H1 & H2 & H3 & H4 & H5 & H6 & H7). split.
  - unfold _item_ok. rewrite (bool_decide_true (_ ⊆ _)) by done. unfold _TEXT_FIELDS. cbn [forallb].
    rewrite H1, H2, H3, H4, H5, H6, H7. cbn [is_text text_of andb].
    rewrite bool_decide_true by done. cbn [andb].
    destruct (metadata item), (depends_on item) as [|x ds]; try done; apply texts_ok.
  - unfold item_of. rewrite H1, H2, H3, H4, H5, H6, H7.
    destruct item as [i d a t st [m|] [|x ds]]; try done; cbn; f_equal; f_equal;
      exact (texts_roundtrip ds).
Qed.

Lemma raw_good item : item_good item → json_good (raw_of item).
Proof.
  intros (Ht & Hst & Hm). apply Forall_app in Ht as [Ht Hd].
  repeat (apply Forall_cons in Ht as [? Ht]). unfold raw_of.
  assert (utf8_valid (status item) = true) as Hs.
  { assert (Forall (λ t, utf8_valid t = true) _STATUSES) as Hall by (repeat constructor).
    rewrite Forall_forall in Hall. by apply Hall. }
  assert (Forall (λ kv, json_good kv.2)
    [("id", JStr (id item)); ("description", JStr (description item));
     ("acceptance", JStr (acceptance item)); ("timestamp", JStr (item_timestamp item));
     ("status", JStr (status item))]) as H5 by (repeat constructor; done).
  assert (json_good (JArr (JStr <$> depends_on item))) as Hds.
  { constructor. apply Forall_fmap. eapply Forall_impl; [exact Hd|]. intros. by constructor. }
  constructor.
  - destruct (metadata item), (depends_on item); apply (bool_decide_unpack _); by vm_compute.
  - destruct (metadata item), (depends_on item); repeat constructor.
  - destruct (metadata item), (depends_on item); repeat (apply Forall_app; split);
      rewrite ?Forall_singleton; done || constructor.
Qed.

(** A saved registry reads back. *)
Lemma entries_saved r items : Forall item_good items →
  registry_file r = Data (json_dumps (Some 2) (JArr (raw_of <$> items))) →
  String.length (json_dumps (Some 2) (JArr (raw_of <$> items))) ≤ DEFAULT_MAX_BYTES →
  entries r = items.
Proof.
  intros Hg Hf Hl. unfold entries, _load. rewrite Hf.
  assert (json_good (JArr (raw_of <$> items))) as Hj.
  { constructor. apply Forall_fmap. eapply Forall_impl; [exact Hg|]. apply raw_good. }
  apply Nat.leb_le in Hl. rewrite Hl, (dumps_utf8 _ _ Hj), (loads_dumps _ _ Hj). cbn [andb].
  clear -Hg. induction Hg as [|item items (_ & Hst & _) _ IH]; [done|].
  destruct (item_roundtrip item Hst) as [Hok Hi]. rewrite fmap_cons, filter_cons_True by done.
  rewrite fmap_cons. by rewrite Hi, IH.
Qed.

Lemma get_remove_ne (d : list (string * string)) k k' : k ≠ k' →
  Dict.get (Dict.remove d k) k' = Dict.get d k'.
Proof.
  intros Hne. induction d as [|[k1 v1] d IH]; cbn [Dict.remove Dict.get]; [done|].
  case_decide as E; [subst; by rewrite decide_False by congruence|]. cbn [Dict.get]. by rewrite IH.
Qed.

Lemma positions_insert i0 items m i item item' : items !! i = Some item → id item' = id item →
  positions i0 (<[i := item']> items) m = positions i0 items m.
Proof.
  revert i0 i. induction items as [|x items IH]; intros i0 [|i] Hi Hid; try done; cbn in *.
  - injection Hi as ->. by rewrite Hid.
  - by rewrite IH.
Qed.

(** Changing an item's status leaves it the one that stands for its id. *)
Lemma current_updated r r' m i item st :
  _current_index r (entries r) m = Some i → entries r !! i = Some item →
  entries r' = <[i := with_status st item]> (entries r) →
  (∀ x, _read_mark r' x "requested" = _read_mark r x "requested") →
  current r' m = Some (with_status st item).
Proof.
  intros Hc Hi He Hm. unfold current, current_of.
  assert (_current_index r' (entries r') m = Some i) as ->.
  { rewrite <-Hc, He. unfold _current_index. rewrite (positions_insert _ _ _ _ item) by done.
    rewrite (list_find_ext _ (λ j, marked_at r (entries r) "requested" j = true)); [done|].
    intros j. unfold marked_at, _marked. destruct (decide (j = i)) as [->|Hne].
    - rewrite list_lookup_insert_eq by (by eapply lookup_lt_Some). rewrite Hi, Hm. done.
    - rewrite list_lookup_insert_ne by done. destruct (entries r !! j); [by rewrite Hm|done]. }
  cbn. rewrite He. apply list_lookup_insert_eq. by eapply lookup_lt_Some.
Qed.

Definition file_size (r : registry) : nat :=
  match registry_file r with Data bytes => String.length bytes | _ => 0 end.

(** The state a decision leaves, when the file can hold it. *)
Lemma update_effect now m st signer r r' item' :
  update_status now m st signer r = (r', Ok item') →
  Forall item_good (entries r) →
  file_size r' ≤ DEFAULT_MAX_BYTES →
  current r' m = Some item' ∧ status item' = st ∧ id item' = m ∧
  (st = "approved" → ∀ s, signer = Some s →
     Dict.get (marks r') (sig_name m) =
       Some (json_dumps None (JObj (sign_approval now m (_approval_digest item') s)))) ∧
  ((st ≠ "approved" ∨ signer = None) → NoDup (Dict.keys (marks r)) →
     Dict.get (marks r') (sig_name m) = None).
Proof using ShL.
  intros Hu Hg Hfit. destruct (update_status_inv _ _ _ _ _ _ _ Hu) as
    [[_ [e ?]]|(i & item & Hc & Hi & Hid & Hst & [= ->] & Hf & Hm)]; [done|].
  assert (∀ k v x, k ≠ "requested" → mark_name v k ≠ mark_name x "requested") as Hne.
  { intros k v x Hk E. by apply mark_name_kind in E. }
  assert (∀ k v, k ≠ "approved.sig" → mark_name v k ≠ sig_name m) as Hns.
  { intros k v Hk E. by apply mark_name_kind in E. }
  assert (Forall item_good (<[i := with_status st item]> (entries r))) as Hg'.
  { apply Forall_insert; [done|]. rewrite Forall_forall in Hg.
    destruct (Hg item) as (H1 & H2 & H3); [by eapply list_elem_of_lookup_2|]. split_and!; [done| |done].
    unfold _STATUSES. cbn [status with_status]. clear -Hst. set_solver. }
  split_and!; [|done..| |].
  - eapply current_updated; [done..| |].
    + eapply entries_saved; [done..|]. unfold file_size in Hfit. by rewrite Hf in Hfit.
    + intros x. unfold _read_mark. f_equal. rewrite Hm. clear Hm Hf Hu. unfold sig_name.
      destruct (String.eqb st "approved"), signer; cbv beta iota zeta;
        rewrite ?Dict.get_set_ne, ?get_remove_ne, ?Dict.get_set_ne, ?get_remove_ne by by apply Hne.
      all: done.
  - intros -> s ->. rewrite Hm. cbn -[sign_approval json_dumps Dict.set]. by rewrite Dict.get_set_eq.
  - intros Hor Hnd. rewrite Hm. destruct (String.eqb_spec st "approved"), signer;
      destruct Hor as [?|?]; try done; cbv beta iota zeta;
      apply get_remove_same; auto using NoDup_remove, Dict.NoDup_keys_set.
Qed.

(** C8: whatever a repository ships and whatever is written to the workspace in
    between, a handshake widens a manifest only when this machine ran
    [update_status] with the pinned key on an item of that id and of the same
    text and time, at most 30 days ago; and the widened manifest is the given
    one with the reads, writes and hosts it declares itself. *)
Theorem widening_needs_the_operator ops start m i now :
  marks start = [] → Forall op_text_ok ops →
  let m' := widen_manifest_for now (run ops start) m i in
  (read m' = read m ∨ read m' = read m ++ extra_read m) ∧
  (write m' = write m ∨ write m' = write m ++ extra_write m) ∧
  (allow_hosts m' = allow_hosts m ∨ allow_hosts m' = allow_hosts m ++ extra_hosts m) ∧
  tiers_and_rest m' = tiers_and_rest m ∧
  (m' ≠ m → ∃ item, current (run ops start) i = Some item ∧ status item = "approved" ∧
                    operator_signed ops start i item now).
Proof using ShL SgL.
  intros H0 Hok. cbn zeta. unfold widen_manifest_for.
  destruct (is_approved now (run ops start) i) eqn:Ha; cbn; [|naive_solver].
  split_and!; [by right..|done|]. intros _.
  destruct (is_approved_inv _ _ _ Ha) as (item & Hc & Hst & Hh).
  exists item. split_and!; [done..|]. destruct (current_id _ _ _ Hc) as [Hid _]. rewrite <-Hid.
  by apply approved_here_origin.
Qed.

(** A step whose ids block nothing was decided: the item that stands for
    each of its ids is rejected, deferred, or approved by [update_status] on
    this machine with the pinned key, at most 30 days ago. *)
Theorem free_step_was_decided ops start ids now :
  marks start = [] → Forall op_text_ok ops → blocks_commit now (run ops start) ids = [] →
  ∀ i item, i ∈ ids → current (run ops start) i = Some item →
    status item = "rejected" ∨ status item = "deferred" ∨
    status item = "approved" ∧ operator_signed ops start i item now.
Proof using ShL SgL.
  intros H0 Hok Hb i item Hi Hc. destruct (current_id _ _ _ Hc) as [Hid Hin].
  assert (blocking now (run ops start) item = false) as Hnb.
  { destruct (blocking now (run ops start) item) eqn:E; [|done]. exfalso.
    assert (i ∈ blocks_commit now (run ops start) ids) as Hel by (apply elem_of_blocks_commit; eauto).
    rewrite Hb in Hel. by apply not_elem_of_nil in Hel. }
  pose proof (status_cases _ _ Hin) as Hst. unfold blocking in Hnb. unfold _STATUSES in Hst.
  rewrite !elem_of_cons, elem_of_nil in Hst. destruct Hst as [E|[E|[E|[E|[]]]]].
  - by rewrite E in Hnb.
  - right; right. split; [done|]. rewrite E in Hnb. cbn in Hnb. apply negb_false_iff in Hnb.
    rewrite <-Hid. by apply approved_here_origin.
  - by left.
  - right; by left.
Qed.

(** an approval the operator signs with the pinned key takes effect: the
    item on disk is approved, it blocks no step and widens the manifest until
    its expiry; rejecting or deferring unblocks without widening. *)
Theorem decision_takes_effect now now' m st signer r r' item :
  update_status now m st signer r = (r', Ok item) →
  Forall item_good (entries r) → NoDup (Dict.keys (marks r)) → file_size r' ≤ DEFAULT_MAX_BYTES →
  current r' m = Some item ∧ status item = st ∧
  (st = "rejected" ∨ st = "deferred" → blocks_commit now' r' [m] = [] ∧ is_approved now' r' m = false) ∧
  (st = "approved" →
     (signer = None → blocks_commit now' r' [m] = [m] ∧ is_approved now' r' m = false) ∧
     (∀ s, signer = Some s → pinned = Some (s.1, public_of s.2) →
        utf8_valid m = true → utf8_valid s.1 = true →
        String.length (json_dumps None (JObj (sign_approval now m (_approval_digest item) s)))
          ≤ Z.to_nat 4096 →
        (now' < (now + APPROVAL_DAYS * day) / second * second)%Z →
        blocks_commit now' r' [m] = [] ∧ is_approved now' r' m = true)).
Proof using ShL SgL.
  intros Hu Hg Hnd Hfit.
  destruct (update_effect _ _ _ _ _ _ _ Hu Hg Hfit) as (Hc & Hst & Hid & Hsig & Hnone).
  assert (∀ b, blocking now' r' item = b → blocks_commit now' r' [m] = if b then [m] else []) as Hb.
  { intros b <-. unfold blocks_commit. fold (current r' m). cbn -[entries].
    change (current_of r' (entries r') m) with (current r' m). rewrite Hc.
    by destruct (blocking now' r' item). }
  assert (is_approved now' r' m = String.eqb (status item) "approved" && _approved_here now' r' item)
    as Ha by (unfold is_approved; by rewrite Hc).
  split_and!; [done..| |].
  - rewrite Ha, Hst. intros Hor. split; [|by destruct Hor as [-> | ->]].
    apply (Hb false). unfold blocking. rewrite Hst. by destruct Hor as [-> | ->].
  - intros ->. split.
    + intros ->. assert (_approved_here now' r' item = false) as Hh.
      { unfold _approved_here, _read_signed_mark. rewrite Hid. fold (sig_name m).
        by rewrite Hnone by auto. }
      rewrite Ha, Hst, Hh. split; [|done]. apply (Hb true). unfold blocking. by rewrite Hst, Hh.
    + intros s -> Hp Hm Hk Hl Hlt.
      assert (_approved_here now' r' item = true) as Hh.
      { unfold _approved_here. rewrite Hid, (read_signed _ _ _ _ _ Hm Hk (digest_ascii item) (Hsig eq_refl s eq_refl) Hl).
        rewrite signed_approval_holds_cons by done. unfold field_is.
        destruct (sign_approval_fields now m (_approval_digest item) s) as (-> & -> & -> & -> & -> & ->).
        rewrite Hp. cbn [py_str]. rewrite utc_roundtrip, b64_roundtrip, verify_sign, !String.eqb_refl.
        apply Z.ltb_lt in Hlt. by rewrite Hlt. }
      rewrite Ha, Hst, Hh. split; [|done]. apply (Hb false). unfold blocking. by rewrite Hst, Hh.
Qed.
End laws.

(** ** A concrete machine *)


#[local] Instance sample_sha : Sha256 := λ s, String.substring 0 32 (s +:+ zeros 32).
#[local] Instance sample_sha_laws : Sha256Laws sample_sha.
Proof.
  intros s. unfold sha256, sample_sha. apply length_substring. rewrite str_length_app.
  change (String.length (zeros 32)) with 32. lia.
Qed.

(** Signatures that carry the key and the message; hexadecimal for Base64;
    seconds for a date. *)
#[local] Instance sample_signing : Signing := {|
  private_key := string; public_key := string;
  sign k m := k +:+ ":" +:+ m; verify k s m := String.eqb s (k +:+ ":" +:+ m);
  public_of k := k; pinned := Some ("key-1", "secret");
  b64encode := hex; b64decode := fromhex;
  utc_format t := pretty (t / second)%Z;
  utc_parse s := (λ z, z * second)%Z <$> int_of_exponent s |}.

Lemma int_of_pretty z : int_of_exponent (pretty z) = Some z.
Proof.
  destruct (pretty_Z_text z) as (ds & -> & Hd & Hv & Hhd).
  assert (ds ≠ "") as Hne by (destruct Hhd as [->|(c & t & -> & _)]; done).
  apply String.eqb_neq in Hne. destruct (Z.ltb_spec z 0); cbn [String.append].
  - rewrite str_app_cons, str_app_nil_l. cbn. rewrite Hd, Hne. cbn. f_equal. lia.
  - rewrite str_app_nil_l. destruct ds as [|c t]; [done|].
    assert (int_of_exponent (String c t) =
      if str_forall is_digit (String c t) && negb (String.eqb (String c t) "")
      then Some (digits_value 0 (String c t)) else None) as ->.
    { simpl in Hd. apply andb_true_iff in Hd as [Hc%is_digit_inv _]. set_unfold in Hc. naive_solver. }
    rewrite Hd, Hne. cbn [negb andb]. f_equal. lia.
Qed.
#[local] Instance sample_signing_laws : SigningLaws sample_signing.
Proof.
  split.
  - intros k m. apply String.eqb_refl.
  - intros s. apply fromhex_hex.
  - intros s. apply hex_ascii.
  - intros t. cbn -[pretty second]. by rewrite int_of_pretty.
  - intros t. apply ascii_pretty.
Qed.

#[local] Existing Instance plain_runtime.
#[local] Existing Instance plain_pytext.

(** A shipped registry whose item is already marked as approved. *)
Definition shipped_item : HandshakeItem :=
  {| id := "deploy"; description := "deploy"; acceptance := "ok"; item_timestamp := "t0";
     status := "approved"; metadata := None; depends_on := [] |}.
Definition fresh_machine : registry :=
  {| registry_file := Data (json_dumps (Some 2) (JArr [raw_of shipped_item])); marks := [];
     emitted := [] |}.
Definition session : list op :=
  [Request "t1" "deploy" "deploy to staging" "smoke test" None [];
   Update 0 "deploy" "approved" (Some ("key-1", "secret"))].
Definition requested_item : HandshakeItem :=
  {| id := "deploy"; description := "deploy to staging"; acceptance := "smoke test";
     item_timestamp := "t1"; status := "pending"; metadata := None; depends_on := [] |}.
Definition base_manifest : CapabilityManifest :=
  {| read := ["src"]; write := []; allow_hosts := []; extra_read := ["docs"]; extra_write := ["out"];
     extra_hosts := []; tiers_and_rest := JNull |}.

(** The shipped approval alone unlocks nothing. *)
Example shipped_approval_blocks :
  blocks_commit 5 fresh_machine ["deploy"] = ["deploy"] ∧ is_approved 5 fresh_machine "deploy" = false.
Proof. split; vm_compute; reflexivity. Qed.

Lemma session_ok : Forall op_text_ok session.
Proof. repeat constructor. Qed.

Lemma widening_needs_the_operator_witness :
  widen_manifest_for 5 (run session fresh_machine) base_manifest "deploy" ≠ base_manifest ∧
  ∃ item, current (run session fresh_machine) "deploy" = Some item ∧ status item = "approved" ∧
          operator_signed session fresh_machine "deploy" item 5.
Proof.
  assert (widen_manifest_for 5 (run session fresh_machine) base_manifest "deploy" ≠ base_manifest)
    as Hne by (vm_compute; discriminate).
  split; [exact Hne|].
  exact (proj2 (proj2 (proj2 (proj2 (widening_needs_the_operator session fresh_machine base_manifest
    "deploy" 5 eq_refl session_ok)))) Hne).
Defined.

Lemma free_step_was_decided_witness :
  blocks_commit 5 (run session fresh_machine) ["deploy"] = [] ∧
  ∃ item, current (run session fresh_machine) "deploy" = Some item ∧
    (status item = "rejected" ∨ status item = "deferred" ∨
     status item = "approved" ∧ operator_signed session fresh_machine "deploy" item 5).
Proof.
  assert (blocks_commit 5 (run session fresh_machine) ["deploy"] = []) as Hb by (vm_compute; reflexivity).
  assert (∃ item, current (run session fresh_machine) "deploy" = Some item) as [item Hc].
  { vm_compute. eexists. reflexivity. }
  split; [exact Hb|]. exists item. split; [exact Hc|].
  eapply (free_step_was_decided session fresh_machine ["deploy"] 5 eq_refl session_ok Hb _ _ ltac:(left) Hc).
Defined.

Lemma decision_takes_effect_witness :
  let r := run (take 1 session) fresh_machine in
  let r' := run session fresh_machine in
  blocks_commit 5 r ["deploy"] = ["deploy"] ∧
  blocks_commit 5 r' ["deploy"] = [] ∧ is_approved 5 r' "deploy" = true.
Proof.
  cbn zeta. split; [vm_compute; reflexivity|].
  set (r := run (take 1 session) fresh_machine).
  assert (update_status 0 "deploy" "approved" (Some ("key-1", "secret")) r =
            (run session fresh_machine, Ok (with_status "approved" requested_item))) as Hu
    by (vm_compute; reflexivity).
  assert (entries r = [shipped_item; requested_item]) as He by (vm_compute; reflexivity).
  assert (Forall item_good (entries r)) as Hg.
  { rewrite He. repeat constructor. }
  assert (NoDup (Dict.keys (marks r))) as Hn by (apply (bool_decide_unpack _); vm_compute; exact I).
  assert (file_size (run session fresh_machine) ≤ DEFAULT_MAX_BYTES) as Hs
    by (apply Nat.leb_le; vm_compute; reflexivity).
  destruct (decision_takes_effect 0 5 "deploy" "approved" _ _ _ _ Hu Hg Hn Hs) as (_ & _ & _ & H).
  apply (proj2 (H eq_refl) ("key-1", "secret")); try reflexivity.
  apply Nat.leb_le. vm_compute. reflexivity.
Defined.
