(* ===== verification/SuiteChain.v ===== *)
(** * The chain of suites of a run

    Models [core/suite_chain.py]: the append-only file [suite_chain.jsonl], its
    writer with the checks and the size cap, and its lock-free reader. *)

From Stdlib Require Import Floats.SpecFloat.
From S2P Require Import Prelude Canonical CanonicalRead CanonicalScan CanonicalPrefix CanonicalLines JsonText.

Record SuiteChainEntry := {
  timestamp_ns : Z;
  prompt_digest : string;
  suite_digest : string;
  rootknot_signature : option string;
  run_id : string;
  origin : string;
}.
#[export] Instance entry_eq_dec : EqDecision SuiteChainEntry.
Proof. solve_decision. Defined.

(** [SuiteChainCorruptError] with its causes, [SuiteChainLockContended], the
    [ValueError]s of [append], the error of a number or of a payload, and
    [OSError]. *)
Inductive chain_error : Type :=
| MalformedLine (i : nat)
| MalformedPayload (i : nat)
| DigestNotHex (i : nat)
| SuiteChainLockContended
| BadDigestLength
| BadOrigin (origin : string)
| EntryTooLong
| BadTimestamp (e : py_error)
| NotCanonical (e : jcs_error)
| IsADirectory.
Definition corrupt (e : chain_error) : bool :=
  match e with MalformedLine _ | MalformedPayload _ | DigestNotHex _ => true | _ => false end.

(** The file's path: nothing there, a directory, or the bytes. *)
Inductive chain_node : Type := NoChain | ChainDir | ChainFile (raw : string).

Definition MAX_ENTRY_BYTES : nat := Z.to_nat 1024.

Section chain.
Context {R : Runtime} {T : PyText}.

(** The dict [append] writes. *)
Definition chain_payload (e : SuiteChainEntry) : list (string * json) :=
  [("origin", JStr (origin e)); ("prompt_digest", JStr (hex (prompt_digest e)));
   ("rootknot_signature", match rootknot_signature e with Some s => JStr s | None => JNull end);
   ("run_id", JStr (run_id e)); ("suite_digest", JStr (suite_digest e));
   ("timestamp_ns", JInt (timestamp_ns e))].

(** [rootknot_signature.hex() if rootknot_signature else None] *)
Definition signature_hex (s : option string) : option string :=
  match s with Some s => if String.eqb s "" then None else Some (hex s) | None => None end.

(** The write under the lock: the file is made before the lock is tried. *)
Definition open_chain (c : chain_node) : chain_node :=
  match c with NoChain => ChainFile "" | c => c end.
Definition write_chain (line : string) (c : chain_node) : chain_node :=
  match c with ChainFile raw => ChainFile (raw +:+ line) | c => c end.
Definition lock_chain (lock_free : bool) : action chain_node chain_error unit := λ c,
  match c with
  | ChainDir => (c, Err IsADirectory)
  | _ => (open_chain c, guard_or lock_free SuiteChainLockContended)
  end.

(** [SuiteChain.append] at time [ts]; [lock_free] is whether the lock can be
    had within the retries. *)
Definition append (lock_free : bool) (prompt suite run orig : string) (sig : option string) (ts : Z)
    : action chain_node chain_error SuiteChainEntry :=
  _ ← ensure (Nat.eqb (String.length prompt) 32) BadDigestLength;
  _ ← ensure (bool_decide (orig ∈ ["initial"; "operator_recompile"])) (BadOrigin orig);
  let entry := {| timestamp_ns := ts; prompt_digest := prompt; suite_digest := suite;
                  rootknot_signature := signature_hex sig; run_id := run; origin := orig |} in
  body ← lift_result (match encode (JObj (chain_payload entry)) with
                      | Ok body => Ok body | Err e => Err (NotCanonical e) end);
  let line := body +:+ String newline "" in
  _ ← ensure (Nat.leb (String.length line) MAX_ENTRY_BYTES) EntryTooLong;
  _ ← lock_chain lock_free;
  _ ← modify (write_chain line);
  mret entry.

(** ** Reading *)
Definition entry_of_payload (i : nat) (p : list (string * json)) (d : json)
    : result chain_error SuiteChainEntry :=
  match fromhex (py_str d) with
  | None => Err (DigestNotHex i)
  | Some digest =>
      match py_int (get_or p "timestamp_ns" (JInt 0)) with
      | Err e => Err (BadTimestamp e)
      | Ok ts =>
          Ok {| timestamp_ns := ts; prompt_digest := digest;
                suite_digest := py_str (get_or p "suite_digest" (JStr ""));
                rootknot_signature := match get_or p "rootknot_signature" JNull with
                                      | JNull => None | v => Some (py_str v) end;
                run_id := py_str (get_or p "run_id" (JStr ""));
                origin := py_str (get_or p "origin" (JStr "initial")) |}
      end
  end.

Fixpoint parse_chain (i : nat) (lines : list string) : result chain_error (list SuiteChainEntry) :=
  match lines with
  | [] => Ok []
  | line :: rest =>
      let stop e := if bool_decide (rest = []) then Ok [] else Err e in
      match (if utf8_valid line then json_loads line else None) with
      | None => stop (MalformedLine i)
      | Some (JObj p) =>
          match Dict.get p "prompt_digest" with
          | None => stop (MalformedPayload i)
          | Some d => e ← entry_of_payload i p d; out ← parse_chain (S i) rest; Ok (e :: out)
          end
      | Some _ => stop (MalformedPayload i)
      end
  end.

(** [raw[:-1]] when it ends in a newline. *)
Fixpoint drop_newline (raw : string) : string :=
  match raw with
  | "" => ""
  | String c "" => if Ascii.eqb c newline then "" else raw
  | String c rest => String c (drop_newline rest)
  end.
Definition entries (c : chain_node) : result chain_error (list SuiteChainEntry) :=
  match c with
  | NoChain => Ok []
  | ChainDir => Err IsADirectory
  | ChainFile raw =>
      if String.eqb raw "" then Ok [] else parse_chain 0 (split_char newline (drop_newline raw))
  end.
Definition latest (c : chain_node) : result chain_error (option SuiteChainEntry) :=
  last (A := SuiteChainEntry) <$> entries c.
Definition latest_prompt_digest (c : chain_node) : result chain_error (option string) :=
  fmap (M := option) prompt_digest <$> latest c.

(** ** A chain that holds entries *)
Definition entry_ok (e : SuiteChainEntry) : Prop :=
  plain_text (run_id e) = true ∧ plain_text (suite_digest e) = true ∧
  plain_text (origin e) = true ∧ (∀ s, rootknot_signature e = Some s → plain_text s = true).
Definition line_of (e : SuiteChainEntry) (l : string) : Prop :=
  entry_ok e ∧ encode (JObj (chain_payload e)) = Ok l.
Definition chain_holds (c : chain_node) (es : list SuiteChainEntry) : Prop :=
  (c = NoChain ∧ es = []) ∨ ∃ ls, c = ChainFile (join_lines ls) ∧ Forall2 line_of es ls.

Context {RL : RuntimeLaws R}.

Lemma chain_payload_plain e : entry_ok e → text_json (JObj (chain_payload e)) = true.
Proof using RL.
  intros (Hr & Hs & Ho & Hsig). apply plain_obj; [by vm_compute|].
  unfold chain_payload. repeat (apply Forall_cons; split); [..|apply Forall_nil; done];
    cbn [fst snd plain_with]; (split; [done|]); try done.
  - apply plain_hex.
  - destruct (rootknot_signature e); [by apply Hsig|done].
Qed.

Lemma line_facts e l : line_of e l →
  no_char newline l = true ∧ utf8_valid l = true ∧ l ≠ "" ∧
  json_loads l = Some (canon (JObj (chain_payload e))).
Proof using RL.
  intros [He Hl]. pose proof (chain_payload_plain _ He) as Hp.
  pose proof (plain_no_float _ Hp) as Hf. split_and!.
  - by eapply encode_no_newline.
  - eapply encode_utf8; eauto using plain_utf8.
  - intros ->. by destruct (encode_head _ _ Hl Hf) as (? & ? & ? & _).
  - by apply loads_encode.
Qed.

Lemma entry_of_own_payload i e : entry_ok e → ∃ kvs d,
  canon (JObj (chain_payload e)) = JObj kvs ∧ Dict.get kvs "prompt_digest" = Some d ∧
  entry_of_payload i kvs d = Ok e.
Proof using RL.
  intros He. pose proof (chain_payload_plain _ He) as Hp.
  destruct (get_canon _ Hp) as (kvs & Hc & Hg). exists kvs, (JStr (nfc (hex (prompt_digest e)))).
  rewrite Hc, Hg. split_and!; [done..|]. unfold entry_of_payload, get_or.
  rewrite !Hg, nfc_hex. cbn [py_str]. rewrite fromhex_hex.
  destruct He as (Hr & Hs & Ho & Hsig). destruct e as [ts pd sd [s|] rid orig];
    cbn; decide_keys; cbn; rewrite !plain_text_nfc by (done || by apply Hsig); done.
Qed.

Lemma parse_chain_app i es ls tail : Forall2 line_of es ls →
  parse_chain i (ls ++ tail) =
  match parse_chain (length ls + i) tail with Ok out => Ok (es ++ out) | Err e => Err e end.
Proof using RL.
  intros H. revert i. induction H as [|e l es ls Hl _ IH]; intros i.
  { cbn. by destruct (parse_chain i tail). }
  destruct (line_facts _ _ Hl) as (_ & Hu & _ & Hj). destruct Hl as [He Hl].
  destruct (entry_of_own_payload i e He) as (kvs & d & Hc & Hd & Hent).
  cbn [app parse_chain]. rewrite Hu, Hj, Hc, Hd, Hent. cbn [mbind result_bind].
  rewrite IH. cbn [length]. rewrite <-Nat.add_succ_comm. by destruct (parse_chain _ tail).
Qed.

Lemma drop_newline_app a b : b ≠ "" → drop_newline (a +:+ b) = a +:+ drop_newline b.
Proof.
  intros Hb. induction a as [|c a IH]; [done|]. rewrite !str_app_cons.
  cbn [drop_newline]. rewrite IH. destruct (a +:+ b) eqn:E; [|done].
  by apply str_app_eq_nil in E as [_ ->].
Qed.
Lemma drop_newline_id s : no_char newline s = true → drop_newline s = s.
Proof.
  unfold no_char. induction s as [|c s IH]; [done|]. cbn [str_forall].
  intros [Hc Hs]%andb_true_iff. cbn [drop_newline]. rewrite IH by done.
  apply negb_true_iff in Hc. rewrite Hc. by destruct s.
Qed.
Lemma join_lines_drop l ls : no_char newline l = true →
  drop_newline (join_lines (ls ++ [l])) = join_lines ls +:+ l.
Proof.
  intros Hl. rewrite join_lines_app, drop_newline_app by (cbn; by destruct l). f_equal. cbn.
  rewrite drop_newline_app by done. cbn. by rewrite str_app_nil_r.
Qed.

(** The file reads as the entries it holds, followed by what its tail gives. *)
Lemma entries_tail es ls t : Forall2 line_of es ls → no_char newline t = true →
  es ≠ [] ∨ t ≠ "" →
  entries (ChainFile (join_lines ls +:+ t)) =
  match parse_chain (length ls) (if String.eqb t "" then [] else [t]) with
  | Ok out => Ok (es ++ out) | Err e => Err e end.
Proof using RL.
  intros Hls Ht Hne.
  assert (Forall (λ l, no_char newline l = true) ls) as Hn.
  { eapply Forall2_Forall_r; [exact Hls|]. apply Forall_true. intros e l. apply line_facts. }
  unfold entries. destruct (String.eqb_spec (join_lines ls +:+ t) "") as [E|_].
  { apply str_app_eq_nil in E as [E ->]. destruct ls as [|l ls].
    - apply Forall2_nil_inv_r in Hls as ->. naive_solver.
    - apply str_app_eq_nil in E as [_ E]. done. }
  destruct (String.eqb_spec t "") as [->|Htne].
  - rewrite str_app_nil_r. destruct ls as [|l ls _] using rev_ind.
    { apply Forall2_nil_inv_r in Hls as ->. naive_solver. }
    apply Forall_app in Hn as [Hn Hl]. apply Forall_cons in Hl as [Hl _].
    rewrite join_lines_drop, split_join_lines by done.
    rewrite <-(app_nil_r (ls ++ [l])) at 1. rewrite (parse_chain_app _ _ _ _ Hls).
    by rewrite Nat.add_0_r.
  - rewrite drop_newline_app, (drop_newline_id t), split_join_lines by done.
    rewrite (parse_chain_app _ _ _ _ Hls). by rewrite Nat.add_0_r.
Qed.

Lemma entries_holds c es : chain_holds c es → entries c = Ok es.
Proof using RL.
  intros [[-> ->]|(ls & -> & Hls)]; [done|].
  destruct (decide (es = [])) as [->|Hne]; [by apply Forall2_nil_inv_l in Hls as ->|].
  rewrite <-(str_app_nil_r (join_lines ls)), (entries_tail es ls "") by (done || by left).
  cbn. by rewrite app_nil_r.
Qed.

(** ** What writing does *)
Lemma open_chain_holds c es : chain_holds c es →
  ∃ ls, open_chain c = ChainFile (join_lines ls) ∧ Forall2 line_of es ls.
Proof. intros [[-> ->]|(ls & -> & Hls)]; [by exists []|eauto]. Qed.

Definition append_args_ok (suite run : string) : Prop :=
  plain_text suite = true ∧ plain_text run = true.

(** An append either fails and leaves the entries as they were, or adds the
    entry it returns. *)
Lemma append_holds b prompt suite run orig sig ts c es c' res :
  chain_holds c es → append_args_ok suite run →
  append b prompt suite run orig sig ts c = (c', res) →
  match res with
  | Ok e => chain_holds c' (es ++ [e]) ∧ prompt_digest e = prompt ∧ suite_digest e = suite ∧
            run_id e = run ∧ origin e = orig ∧ timestamp_ns e = ts ∧ String.length prompt = 32
  | Err _ => chain_holds c' es
  end.
Proof using RL.
  intros Hc [Hs Hr]. unfold append, ensure, lift_result, modify, mret, action_ret, mbind, action_bind.
  destruct (Nat.eqb_spec (String.length prompt) 32) as [Hlen|]; cbn -[chain_payload MAX_ENTRY_BYTES encode lock_chain];
    [|by intros [= <- <-]].
  destruct (bool_decide (orig ∈ _)) eqn:Ho; cbn -[chain_payload MAX_ENTRY_BYTES encode lock_chain]; [|by intros [= <- <-]].
  set (e := Build_SuiteChainEntry _ _ _ _ _ _).
  assert (entry_ok e) as He.
  { split_and!; [done..| |].
    - apply bool_decide_eq_true in Ho. apply ascii_plain. cbn. clear -Ho. set_unfold in Ho. naive_solver.
    - unfold e, signature_hex. cbn. intros s. destruct sig as [s'|]; [|done].
      destruct (String.eqb s' ""); [done|]. intros [= <-]. apply plain_hex. }
  destruct (encode (JObj (chain_payload e))) as [body|] eqn:Hb; cbn -[MAX_ENTRY_BYTES lock_chain];
    [|by intros [= <- <-]].
  destruct (Nat.leb _ _); cbn -[lock_chain]; [|by intros [= <- <-]].
  destruct (open_chain_holds _ _ Hc) as (ls & Hopen & Hls).
  unfold lock_chain. destruct c as [| |raw]; cbn; [|by destruct Hc as [[? _]|(? & ? & _)]|].
  all: destruct b; cbn; intros [= <- <-].
  all: try (right; exists ls; by split).
  all: (split; [|done]); right; exists (ls ++ [body]); split;
    [rewrite join_lines_app; cbn in *; congruence|].
  all: apply Forall2_app; [done|]; constructor; [by split|constructor].
Qed.

(** An append the process was killed in: some of the line's bytes are there. *)
Inductive append_killed (prompt suite run orig : string) (sig : option string) (ts : Z)
    (c : chain_node) : SuiteChainEntry → chain_node → Prop :=
| killed_writing e body written rest :
    (append true prompt suite run orig sig ts c).2 = Ok e →
    encode (JObj (chain_payload e)) = Ok body →
    body +:+ String newline "" = written +:+ rest →
    append_killed prompt suite run orig sig ts c e (write_chain written (open_chain c)).
End chain.

(** ** The chain of a run *)
Section claims.
Context {R : Runtime} {T : PyText} {RL : RuntimeLaws R}.

(** One call of [append]: whether the lock is free, and its arguments. *)
Record call := {
  lock_free : bool; c_prompt : string; c_suite : string; c_run : string; c_origin : string;
  c_sig : option string; c_ts : Z;
}.
Definition run_call (k : call) : action chain_node chain_error SuiteChainEntry :=
  append (lock_free k) (c_prompt k) (c_suite k) (c_run k) (c_origin k) (c_sig k) (c_ts k).
(** The entries the calls returned, in order, and the file they leave. *)
Fixpoint run_calls (ks : list call) (c : chain_node) : chain_node * list SuiteChainEntry :=
  match ks with
  | [] => (c, [])
  | k :: ks =>
      let '(c', res) := run_call k c in
      let '(c'', es) := run_calls ks c' in
      (c'', match res with Ok e => e :: es | Err _ => es end)
  end.

Lemma run_calls_holds ks c es c' es' : chain_holds c es →
  Forall (λ k, append_args_ok (c_suite k) (c_run k)) ks →
  run_calls ks c = (c', es') → chain_holds c' (es ++ es').
Proof using RL.
  intros Hc Hks. revert c es es' Hc. induction Hks as [|k ks Hk _ IH]; intros c es es' Hc; cbn.
  { intros [= <- <-]. by rewrite app_nil_r. }
  destruct (run_call k c) as [c1 res] eqn:E1. destruct (run_calls ks c1) as [c2 es2] eqn:E2.
  intros [= <- <-]. pose proof (append_holds _ _ _ _ _ _ _ _ _ _ _ Hc Hk E1) as H.
  destruct res as [e|]; [destruct H as (H & _)|]; specialize (IH _ _ _ H E2); [|done].
  by rewrite <-app_assoc in IH.
Qed.

(** The chain reads back as the entries that were appended, in their order
    and with their digests, whichever appends failed in between: for the size
    cap, for a lock that stayed taken or for a bad argument. *)
Theorem chain_reads_appends ks c es : run_calls ks NoChain = (c, es) →
  Forall (λ k, append_args_ok (c_suite k) (c_run k)) ks →
  entries c = Ok es ∧ latest c = Ok (last es) ∧
  latest_prompt_digest c = Ok (prompt_digest <$> last es).
Proof using RL.
  intros Hr Hks. assert (chain_holds c es) as Hc.
  { eapply (run_calls_holds ks NoChain []); [by left|done|done]. }
  unfold latest_prompt_digest, latest. by rewrite (entries_holds _ _ Hc).
Qed.

(** a process killed while it appends leaves a chain that reads as before
    the call or as after it, also when the line was cut inside a character; no
    reader sees a torn entry and none takes the chain for corrupt. *)
Theorem chain_survives_kill c es prompt suite run orig sig ts e c' :
  chain_holds c es → append_args_ok suite run →
  append_killed prompt suite run orig sig ts c e c' →
  entries c' = Ok es ∨ entries c' = Ok (es ++ [e]).
Proof using RL.
  intros Hc Hargs [e' body written rest Hok Hb E].
  destruct (append true prompt suite run orig sig ts c) as [c2 res] eqn:Ha. cbn in Hok. subst res.
  pose proof (append_holds _ _ _ _ _ _ _ _ _ _ _ Hc Hargs Ha) as [Hh _].
  assert (entry_ok e') as He.
  { destruct Hh as [[_ H]|(ls & _ & Hls)]; [by apply app_nil in H as [_ ?]|].
    apply Forall2_app_inv_l in Hls as (l1 & l2 & _ & H2 & _). by inversion H2 as [|???? [? _]]. }
  destruct (open_chain_holds _ _ Hc) as (ls & -> & Hls). cbn [write_chain].
  destruct (line_facts e' body (conj He Hb)) as (Hn & _ & Hne & _).
  destruct (str_app_snoc_prefix _ _ _ _ E) as [[-> ->]|(r & -> & ->)].
  - right. apply entries_holds. right. exists (ls ++ [body]). rewrite join_lines_app. split; [done|].
    apply Forall2_app; [done|]. constructor; [by split|constructor].
  - rewrite no_char_app in Hn. apply andb_true_iff in Hn as [Hn _].
    destruct (String.eqb_spec written "") as [->|Hw].
    { left. rewrite str_app_nil_r. apply entries_holds. right. eauto. }
    rewrite (entries_tail es ls written) by (done || by right).
    apply String.eqb_neq in Hw as Hw'. rewrite Hw'. destruct (String.eqb_spec r "") as [->|Hr].
    + right. rewrite str_app_nil_r in Hb.
      assert (line_of e' written) as Hl by by split.
      pose proof (parse_chain_app (length ls) [e'] [written] []
        ltac:(constructor; [done|constructor])) as Hp.
      cbn [app] in Hp. rewrite Hp. done.
    + left. assert (json_loads written = None) as Hj.
      { eapply loads_prefix_None; [exact Hb|eapply plain_no_float, chain_payload_plain, He|done]. }
      cbn [parse_chain]. rewrite Hj. destruct (utf8_valid written); cbn; by rewrite app_nil_r.
Qed.
End claims.

(** ** A concrete chain *)
#[local] Existing Instance plain_runtime.
#[local] Existing Instance plain_pytext.
Definition digest_of (c : ascii) : string := "0123456789abcdef0123456789abcde" +:+ String c "".
Definition sample_calls : list call :=
  [{| lock_free := true; c_prompt := digest_of "a"; c_suite := "aa"; c_run := "run-1";
      c_origin := "initial"; c_sig := None; c_ts := 1 |};
   {| lock_free := true; c_prompt := "short"; c_suite := "bb"; c_run := "run-1";
      c_origin := "operator_recompile"; c_sig := None; c_ts := 2 |};
   {| lock_free := true; c_prompt := digest_of "b"; c_suite := "cc"; c_run := "run-1";
      c_origin := "operator_recompile"; c_sig := Some "sig"; c_ts := 3 |}].
Definition sample_chain : chain_node := (run_calls sample_calls NoChain).1.

Lemma sample_calls_ok : Forall (λ k, append_args_ok (c_suite k) (c_run k)) sample_calls.
Proof. repeat constructor. Qed.

Lemma chain_reads_appends_witness : ∃ e1 e2,
  entries sample_chain = Ok [e1; e2] ∧ latest_prompt_digest sample_chain = Ok (Some (digest_of "b")).
Proof.
  destruct (run_calls sample_calls NoChain) as [c es] eqn:E.
  destruct (chain_reads_appends sample_calls c es E sample_calls_ok) as (He & _ & Hl).
  unfold sample_chain. rewrite E. cbn [fst]. vm_compute in E. injection E as <- <-.
  eexists _, _. split; [exact He|]. exact Hl.
Defined.

Lemma chain_survives_kill_witness : ∃ e c',
  append_killed (digest_of "c") "dd" "run-1" "operator_recompile" None 4 sample_chain e c' ∧
  (entries c' = Ok (run_calls sample_calls NoChain).2 ∨
   entries c' = Ok ((run_calls sample_calls NoChain).2 ++ [e])).
Proof.
  set (e := {| timestamp_ns := 4; prompt_digest := digest_of "c"; suite_digest := "dd";
               rootknot_signature := None; run_id := "run-1"; origin := "operator_recompile" |}).
  assert (∃ body, encode (JObj (chain_payload e)) = Ok body) as [body Hb]
    by (vm_compute; eexists; reflexivity).
  assert (append_killed (digest_of "c") "dd" "run-1" "operator_recompile" None 4 sample_chain e
            (write_chain (String.substring 0 9 body) (open_chain sample_chain))) as Hk.
  { apply (killed_writing _ _ _ _ _ _ _ e body _ (String.substring 9 1000 body +:+ String newline "")).
    - vm_compute. reflexivity.
    - exact Hb.
    - vm_compute in Hb. injection Hb as <-. vm_compute. reflexivity. }
  eexists e, _. split; [exact Hk|].
  refine (chain_survives_kill sample_chain _ _ _ _ _ _ _ e _ _ _ Hk).
  - apply (run_calls_holds sample_calls NoChain [] _ _ ltac:(by left) sample_calls_ok).
    apply surjective_pairing.
  - split; vm_compute; reflexivity.
Defined.

(** The first append of a run, killed; then two more. *)
Definition quote_char : string := String "034" "".
Definition torn_chain : chain_node :=
  ChainFile ("{" +:+ quote_char +:+ "origin" +:+ quote_char +:+ ":" +:+ quote_char +:+ "ini").
Definition append_again (c : chain_node) : chain_node :=
  (append true (digest_of "a") "aa" "run-1" "initial" None 1 c).1.

(** An entry appended after a torn tail is written behind it on the same line:
    it never reads back, and the next one makes the chain corrupt. *)
Theorem entry_after_torn_chain_tail_is_lost :
  entries torn_chain = Ok [] ∧
  is_ok (append true (digest_of "a") "aa" "run-1" "initial" None 1 torn_chain).2 = true ∧
  entries (append_again torn_chain) = Ok [] ∧
  entries (append_again (append_again torn_chain)) = Err (MalformedLine 0).
Proof. repeat split; vm_compute; reflexivity. Qed.
