(* ===== verification/AssumptionsWal.v ===== *)
(** * The write-ahead log of the assumption registry

    Models [core/assumptions_wal.py]: the two files of [AssumptionWal], the
    reader [_read_lines], [append] and [rotate_snapshot], each as the sequence
    of writes it does, so that a kill between two writes is a state too. *)

From S2P Require Import Prelude Canonical CanonicalRead CanonicalScan CanonicalPrefix CanonicalLines.

(** ** The data *)
Definition payload := list (string * json).

(** [WalLockContended], [WalCorruptError] with its causes, the [ValueError] of
    an unknown transition, the [CanonicalJSONError] of a payload and [OSError]. *)
Inductive wal_error : Type :=
| WalLockContended
| NotAFile
| NotUtf8
| MalformedLine (i : nat)
| NotAnObject (i : nat)
| UnknownKindAt (i : nat)
| UnknownTransition (kind : string)
| NotCanonical (e : jcs_error)
| IsADirectory.

Definition TRANSITIONS : list string := ["proposed"; "accepted"; "discharged"; "violated"].

Record WalEntry := { kind : string; entry_payload : payload }.

(** A path: nothing there, something that is not a file, or the bytes. *)
Inductive node : Type := Absent | NotFile | File (data : string).
#[export] Instance node_eq_dec : EqDecision node.
Proof. solve_decision. Defined.

(** [AssumptionWal]: [assumptions.json] and [assumptions.wal]. *)
Record AssumptionWal := { snapshot : node; wal : node }.

Section wal.
Context {R : Runtime}.

(** ** Reading *)

(** [_canonical_line] *)
Definition _canonical_line (p : payload) : result wal_error string :=
  match encode (JObj p) with
  | Ok s => Ok (s +:+ String newline "")
  | Err e => Err (NotCanonical e)
  end.

(** The kind of a parsed line, if it is one of [TRANSITIONS]. *)
Definition known_kind (obj : payload) : option string :=
  match Dict.get obj "kind" with
  | Some (JStr k) => if decide (k ∈ TRANSITIONS) then Some k else None
  | _ => None
  end.

Fixpoint parse_lines (tolerate_tail : bool) (i : nat) (lines : list string)
    : result wal_error (list WalEntry) :=
  match lines with
  | [] => Ok []
  | line :: rest =>
      match json_loads line with
      | None => if tolerate_tail && bool_decide (rest = []) then Ok []
                else Err (MalformedLine i)
      | Some (JObj obj) =>
          match known_kind obj with
          | None => Err (UnknownKindAt i)
          | Some k => out ← parse_lines tolerate_tail (S i) rest;
                      Ok ({| kind := k; entry_payload := obj |} :: out)
          end
      | Some _ => Err (NotAnObject i)
      end
  end.

(** [lines.pop()] when the text ends in a newline. *)
Fixpoint drop_last_empty (lines : list string) : list string :=
  match lines with
  | [] => []
  | [l] => if String.eqb l "" then [] else [l]
  | l :: ls => l :: drop_last_empty ls
  end.

Definition _read_lines (path : node) (tolerate_tail : bool) : result wal_error (list WalEntry) :=
  match path with
  | Absent => Ok []
  | NotFile => Err NotAFile
  | File raw =>
      if String.eqb raw "" then Ok []
      else if utf8_valid raw
           then parse_lines tolerate_tail 0 (drop_last_empty (split_char newline raw))
           else Err NotUtf8
  end.

Definition load_all (d : AssumptionWal) : result wal_error (list WalEntry * list WalEntry) :=
  snapshot_entries ← _read_lines (snapshot d) false;
  wal_entries ← _read_lines (wal d) true;
  Ok (snapshot_entries, wal_entries).

(** ** Writing *)

(** [os.open] with [O_CREAT | O_APPEND]. *)
Definition open_wal (d : AssumptionWal) : AssumptionWal :=
  {| snapshot := snapshot d;
     wal := match wal d with Absent => File "" | n => n end |}.
Definition write_wal (data : string) (d : AssumptionWal) : AssumptionWal :=
  {| snapshot := snapshot d;
     wal := match wal d with File s => File (s +:+ data) | n => n end |}.
Definition replace_snapshot (data : string) (d : AssumptionWal) : AssumptionWal :=
  {| snapshot := File data; wal := wal d |}.
Definition truncate_wal (d : AssumptionWal) : AssumptionWal :=
  {| snapshot := snapshot d; wal := File "" |}.

(** Opening the log and taking its lock; [lock_free] is whether the lock can be
    had within the retries. *)
Definition lock_wal (lock_free : bool) : action AssumptionWal wal_error unit := λ d,
  match wal d with
  | NotFile => (d, Err IsADirectory)
  | _ => (open_wal d, guard_or lock_free WalLockContended)
  end.

Definition append (lock_free : bool) (k : string) (p : payload)
    : action AssumptionWal wal_error unit :=
  _ ← ensure (bool_decide (k ∈ TRANSITIONS)) (UnknownTransition k);
  line ← lift_result (_canonical_line (Dict.set p "kind" (JStr k)));
  _ ← lock_wal lock_free;
  modify (write_wal line).

(** The line of a snapshot entry: its own [kind], ["proposed"] without one. *)
Definition snapshot_line (p : payload) : result wal_error string :=
  _canonical_line (Dict.set p "kind" (default (JStr "proposed") (Dict.get p "kind"))).

Definition snapshot_body (entries : list payload) : result wal_error string :=
  lines ← mapM snapshot_line entries; Ok (str_join "" lines).

(** [write_atomic] over a directory fails, before the log is truncated. *)
Definition write_atomic (body : string) : action AssumptionWal wal_error unit := λ d,
  match snapshot d with
  | NotFile => (d, Err IsADirectory)
  | _ => (replace_snapshot body d, Ok ())
  end.

Definition rotate_snapshot (lock_free : bool) (entries : list payload)
    : action AssumptionWal wal_error unit :=
  body ← lift_result (snapshot_body entries);
  _ ← lock_wal lock_free;
  _ ← write_atomic body;
  modify truncate_wal.

(** ** Kills

    The disk after a kill inside an append (some of the line's bytes are
    written) and inside a rotation (the new snapshot beside the old log). *)
Inductive append_killed (k : string) (p : payload) (d : AssumptionWal) : AssumptionWal → Prop :=
| killed_before_write : append_killed k p d (open_wal d)
| killed_in_write line written rest :
    _canonical_line (Dict.set p "kind" (JStr k)) = Ok line → line = written +:+ rest →
    append_killed k p d (write_wal written (open_wal d)).

Inductive rotate_killed (entries : list payload) (d : AssumptionWal) : AssumptionWal → Prop :=
| killed_before_replace : rotate_killed entries d (open_wal d)
| killed_before_truncate body :
    snapshot_body entries = Ok body →
    rotate_killed entries d (replace_snapshot body (open_wal d)).

(** ** What a whole log reads as *)
Definition log_entry (p : payload) : Prop :=
  plain_json (JObj p) = true ∧ is_Some (known_kind p).

(** The entry a payload reads back as: its members in canonical order. *)
Definition entry_of (p : payload) : WalEntry :=
  {| kind := default "" (known_kind p);
     entry_payload := match canon (JObj p) with JObj kvs => kvs | _ => [] end |}.

(** [ls] are the lines of the payloads [ps]. *)
Definition lines_of (ps : list payload) (ls : list string) : Prop :=
  Forall2 (λ p l, log_entry p ∧ encode (JObj p) = Ok l) ps ls.

(** The file holds exactly the payloads [ps], one line each. *)
Definition holds (n : node) (ps : list payload) : Prop :=
  (n = Absent ∧ ps = []) ∨ ∃ ls, n = File (join_lines ls) ∧ lines_of ps ls.

Context {RL : RuntimeLaws R}.

Lemma lines_of_line p l : log_entry p → encode (JObj p) = Ok l →
  no_char newline l = true ∧ utf8_valid l = true ∧ json_loads l = Some (canon (JObj p)).
Proof using RL.
  intros [Hp _] Hl. pose proof (plain_no_float _ Hp) as Hf.
  split_and!; [by eapply encode_no_newline|eapply encode_utf8; eauto using plain_utf8|].
  by apply loads_encode.
Qed.

Lemma lines_of_no_newline ps ls : lines_of ps ls → Forall (λ l, no_char newline l = true) ls.
Proof using RL.
  intros H. eapply Forall2_Forall_r; [exact H|]. apply Forall_true. intros p l [Hp Hl].
  by eapply lines_of_line.
Qed.

Lemma lines_of_utf8 ps ls : lines_of ps ls → utf8_valid (join_lines ls) = true.
Proof using RL.
  induction 1 as [|p l ps ls [Hp Hl] _ IH]; [done|]. cbn [join_lines].
  rewrite utf8_valid_app by (by eapply lines_of_line). exact IH.
Qed.

Lemma drop_last_empty_snoc ls t :
  drop_last_empty (ls ++ [t]) = ls ++ (if String.eqb t "" then [] else [t]).
Proof.
  induction ls as [|l ls IH]; [done|]. cbn [app drop_last_empty]. rewrite IH.
  by destruct ls.
Qed.

Lemma known_kind_canon p : plain_json (JObj p) = true →
  known_kind (entry_payload (entry_of p)) = known_kind p.
Proof using RL.
  intros Hp. destruct (get_canon _ Hp) as (kvs & Hc & Hg). unfold entry_of, known_kind.
  rewrite Hc. cbn. rewrite Hg. destruct (plain_keys _ Hp) as (_ & _ & Hv).
  destruct (Dict.get p "kind") as [v|] eqn:E; [|done]. cbn. destruct v; try done.
  apply Dict.get_Some_elem in E. rewrite Forall_forall in Hv. specialize (Hv _ E). cbn in *.
  by rewrite (plain_text_nfc _ Hv).
Qed.

Lemma parse_line_ok b i p l ls : log_entry p → encode (JObj p) = Ok l →
  parse_lines b i (l :: ls) =
  match parse_lines b (S i) ls with Ok out => Ok (entry_of p :: out) | Err e => Err e end.
Proof using RL.
  intros Hp Hl. destruct (lines_of_line _ _ Hp Hl) as (_ & _ & Hr).
  destruct Hp as [Hp [k Hk]]. pose proof (known_kind_canon _ Hp) as Hkc.
  destruct (get_canon _ Hp) as (kvs & Hc & _).
  assert (entry_of p = {| kind := k; entry_payload := kvs |}) as He.
  { unfold entry_of. by rewrite Hc, Hk. }
  rewrite He in Hkc |- *. cbn [entry_payload] in Hkc. cbn [parse_lines].
  by rewrite Hr, Hc, Hkc, Hk.
Qed.

Lemma parse_lines_app b i ps ls tail : lines_of ps ls →
  parse_lines b i (ls ++ tail) =
  match parse_lines b (length ls + i) tail with
  | Ok out => Ok ((entry_of <$> ps) ++ out) | Err e => Err e end.
Proof using RL.
  intros H. revert i. induction H as [|p l ps ls [Hp Hl] _ IH]; intros i.
  { cbn. by destruct (parse_lines b i tail). }
  cbn [app]. rewrite (parse_line_ok b i p l) by done. rewrite IH. cbn [length].
  rewrite <-Nat.add_succ_comm. by destruct (parse_lines b _ tail).
Qed.

(** A log whose last line was cut reads as the whole lines. *)
Lemma read_torn ps ls t : lines_of ps ls →
  no_char newline t = true → utf8_valid t = true → t = "" ∨ json_loads t = None →
  _read_lines (File (join_lines ls +:+ t)) true = Ok (entry_of <$> ps).
Proof using RL.
  intros Hls Hn Hu Ht. unfold _read_lines.
  destruct (String.eqb_spec (join_lines ls +:+ t) "") as [E|_].
  { apply str_app_eq_nil in E as [E _]. destruct ls as [|l ls]; [by inversion Hls|].
    apply str_app_eq_nil in E as [_ E]. done. }
  rewrite utf8_valid_app, Hu by (by eapply lines_of_utf8).
  rewrite split_join_lines by (done || by eapply lines_of_no_newline).
  rewrite drop_last_empty_snoc, (parse_lines_app _ _ _ _ _ Hls).
  destruct (String.eqb_spec t "") as [|Hne]; [cbn; by rewrite app_nil_r|].
  destruct Ht as [|Ht]; [done|]. cbn [parse_lines]. rewrite Ht. cbn. by rewrite app_nil_r.
Qed.

Lemma read_holds n ps b : holds n ps → _read_lines n b = Ok (entry_of <$> ps).
Proof using RL.
  intros [[-> ->]|(ls & -> & Hls)]; [done|]. unfold _read_lines.
  destruct (String.eqb_spec (join_lines ls) "") as [E|_].
  { destruct ls as [|l ls]; [by inversion Hls|]. apply str_app_eq_nil in E as [_ E]. done. }
  rewrite (lines_of_utf8 _ _ Hls), <-(str_app_nil_r (join_lines ls)).
  rewrite split_join_lines by (done || by eapply lines_of_no_newline).
  rewrite drop_last_empty_snoc, (parse_lines_app _ _ _ _ _ Hls). cbn. by rewrite app_nil_r.
Qed.

Lemma load_all_holds d ss ws : holds (snapshot d) ss → holds (wal d) ws →
  load_all d = Ok (entry_of <$> ss, entry_of <$> ws).
Proof using RL. intros Hs Hw. unfold load_all. by rewrite !(read_holds _ _ _ Hs), (read_holds _ _ _ Hw). Qed.

(** ** What writing does to a whole log *)
Definition entry_ok (k : string) (p : payload) : Prop :=
  k ∈ TRANSITIONS ∧ plain_json (JObj (Dict.set p "kind" (JStr k))) = true.

Lemma entry_ok_log k p : entry_ok k p → log_entry (Dict.set p "kind" (JStr k)).
Proof.
  intros [Hk Hp]. split; [done|]. unfold known_kind. rewrite Dict.get_set_eq, decide_True by done.
  done.
Qed.

Lemma log_entry_line p : log_entry p → ∃ l, encode (JObj p) = Ok l.
Proof using RL.
  intros [Hp _]. pose proof (plain_encode _ Hp). destruct (encode (JObj p)); [by eexists|done].
Qed.

Lemma holds_open d ps : holds (wal d) ps → holds (wal (open_wal d)) ps.
Proof.
  intros [[H ->]|(ls & H & Hls)]; right; cbn; rewrite H; [by exists []; repeat constructor|eauto].
Qed.

Lemma holds_write d ps p l : holds (wal d) ps → log_entry p → encode (JObj p) = Ok l →
  holds (wal (write_wal (l +:+ String newline "") (open_wal d))) (ps ++ [p]).
Proof.
  intros H Hp Hl. apply holds_open in H as [[H _]|(ls & H & Hls)]; [by destruct d as [? []]|].
  right. exists (ls ++ [l]). unfold write_wal. cbn [wal]. rewrite H. split.
  { by rewrite join_lines_app. }
  apply Forall2_app; [done|]. repeat (constructor; [by split|]); constructor.
Qed.

Lemma holds_not_dir d ps : holds (wal d) ps → wal d ≠ NotFile.
Proof. by intros [[-> _]|(? & -> & _)]. Qed.

Lemma lock_wal_holds b d ps : holds (wal d) ps →
  lock_wal b d = (open_wal d, guard_or b WalLockContended).
Proof. intros H%holds_not_dir. unfold lock_wal. by destruct (wal d). Qed.

Lemma append_spec b k p d ps : holds (wal d) ps → entry_ok k p →
  ∃ d', append b k p d = (d', guard_or b WalLockContended) ∧ snapshot d' = snapshot d ∧
        holds (wal d') (if b then ps ++ [Dict.set p "kind" (JStr k)] else ps).
Proof using RL.
  intros H Hk. pose proof (entry_ok_log _ _ Hk) as Hlog. destruct Hk as [Hk _].
  destruct (log_entry_line _ Hlog) as [l Hl].
  unfold append, ensure, lift_result, mbind, action_bind, _canonical_line.
  rewrite bool_decide_true, Hl, (lock_wal_holds b d ps) by done. cbn.
  destruct b; cbn; eexists; (split; [done|]); (split; [done|]).
  - by apply holds_write.
  - by apply holds_open.
Qed.

Lemma snapshot_body_holds entries :
  Forall (λ p, entry_ok "proposed" p ∧ Dict.get p "kind" = Some (JStr "proposed")) entries →
  ∃ body, snapshot_body entries = Ok body ∧ holds (File body) entries.
Proof using RL.
  induction 1 as [|p ps [Hok Hk] _ (body & Hb & IH)].
  { exists "". split; [done|]. right. exists []. by repeat constructor. }
  pose proof (entry_ok_log _ _ Hok) as Hlog. rewrite Dict.set_get_id in Hlog by done.
  destruct (log_entry_line _ Hlog) as [l Hl].
  assert (snapshot_line p = Ok (l +:+ String newline "")) as Hline.
  { unfold snapshot_line, _canonical_line. rewrite Hk. cbn [default from_option id].
    by rewrite Dict.set_get_id, Hl. }
  apply result_bind_ok in Hb as (lines & Hls%mapM_Ok & [= <-]).
  destruct IH as [[[=] _]|(ls & [= E] & Hlo)].
  exists (l +:+ String newline (str_join "" lines)). split.
  - apply result_bind_ok. exists ((l +:+ String newline "") :: lines).
    split; [apply mapM_Ok; by constructor|]. f_equal.
    destruct lines as [|x lines]; [done|]. by rewrite str_join_cons2, !str_app_assoc.
  - right. exists (l :: ls). split; [by rewrite E|]. by constructor.
Qed.

Lemma rotate_spec entries d ps : holds (wal d) ps → snapshot d ≠ NotFile →
  Forall (λ p, entry_ok "proposed" p ∧ Dict.get p "kind" = Some (JStr "proposed")) entries →
  ∃ d', rotate_snapshot true entries d = (d', Ok ()) ∧
        holds (snapshot d') entries ∧ wal d' = File "".
Proof using RL.
  intros H Hs (body & Hb & Hbody)%snapshot_body_holds.
  unfold rotate_snapshot, lift_result, mbind, action_bind.
  rewrite Hb, (lock_wal_holds true d ps) by done. cbn. unfold write_atomic. cbn.
  destruct (snapshot d) eqn:E; [|done|]; (eexists; split; [done|split; [done|done]]).
Qed.

(** ** A kill inside an append *)
Lemma open_wal_file d ps : holds (wal d) ps →
  ∃ ls, wal (open_wal d) = File (join_lines ls) ∧ lines_of ps ls.
Proof.
  intros H%holds_open. destruct H as [[H _]|H]; [by destruct d as [? []]|done].
Qed.

Lemma read_unterminated ps ls p l : lines_of ps ls → log_entry p → encode (JObj p) = Ok l →
  _read_lines (File (join_lines ls +:+ l)) true = Ok ((entry_of <$> ps) ++ [entry_of p]).
Proof using RL.
  intros Hls Hp Hl. destruct (lines_of_line _ _ Hp Hl) as (Hn & Hu & _).
  destruct (encode_obj_Ok _ _ Hl) as (_ & ms & _ & Hbr).
  unfold _read_lines. rewrite utf8_valid_app, Hu by (by eapply lines_of_utf8).
  rewrite split_join_lines by (done || by eapply lines_of_no_newline).
  rewrite drop_last_empty_snoc, (parse_lines_app _ _ _ _ _ Hls).
  destruct (String.eqb_spec (join_lines ls +:+ l) "") as [E|_].
  { apply str_app_eq_nil in E as [_ E]. by rewrite Hbr in E. }
  destruct (String.eqb_spec l "") as [E|_]; [by rewrite Hbr in E|].
  by rewrite (parse_line_ok _ _ p l).
Qed.

(** A log whose append was killed reads as before the append or as after it. *)
Lemma read_append_killed d ps k p d' :
  holds (wal d) ps → entry_ok k p → append_killed k p d d' →
  (∀ s, wal d' = File s → utf8_valid s = true) →
  snapshot d' = snapshot d ∧
  (_read_lines (wal d') true = Ok (entry_of <$> ps) ∨
   _read_lines (wal d') true = Ok (entry_of <$> (ps ++ [Dict.set p "kind" (JStr k)]))).
Proof using RL.
  intros H Hk Hd Hu. pose proof (entry_ok_log _ _ Hk) as Hp.
  destruct Hd as [|line written rest Hline E]; (split; [done|]).
  { left. by apply read_holds, holds_open. }
  set (q := Dict.set p "kind" (JStr k)) in *. unfold _canonical_line in Hline.
  destruct (encode (JObj q)) as [l|] eqn:Hl; [|done]. injection Hline as <-.
  destruct (open_wal_file _ _ H) as (ls & Hf & Hls).
  unfold write_wal in *. cbn [wal] in *. rewrite Hf in *. specialize (Hu _ eq_refl).
  rewrite utf8_valid_app in Hu by (by eapply lines_of_utf8).
  destruct (lines_of_line _ _ Hp Hl) as (Hn & _ & _).
  destruct (str_app_snoc_prefix _ _ _ _ E) as [[-> ->]|(r & -> & ->)].
  - right. assert (holds (File (join_lines ls +:+ l +:+ String newline "")) (ps ++ [q])) as Hh.
    { right. exists (ls ++ [l]). split; [by rewrite join_lines_app|].
      apply Forall2_app; [done|]. repeat (constructor; [by split|]). constructor. }
    rewrite (read_holds _ _ _ Hh). done.
  - rewrite no_char_app in Hn. apply andb_true_iff in Hn as [Hn _].
    destruct (String.eqb_spec r "") as [->|Hr].
    + right. rewrite str_app_nil_r in Hl. rewrite (read_unterminated ps ls q written) by done.
      by rewrite fmap_app.
    + left. apply read_torn; [done..|]. right. eapply loads_prefix_None; [exact Hl| |done].
      eapply plain_no_float. by destruct Hp.
Qed.
End wal.
