(* ===== verification/Assumptions.v ===== *)
(** * The assumption registry

    Models [core/assumption.py] and [core/assumption_registry.py]: assumptions
    and their lifecycle, the mutators of [AssumptionRegistry] (each logs, then
    changes memory, then emits), the propagation of a violation through the
    dependents, rotation, and the replay of snapshot and log. *)

From S2P Require Import Prelude Canonical CanonicalLines AssumptionsWal.

(** ** The data *)
Inductive AssumptionState : Type := PROPOSED | ACTIVE | DISCHARGED | VIOLATED.
#[export] Instance AssumptionState_eq_dec : EqDecision AssumptionState.
Proof. solve_decision. Defined.

Definition state_value (s : AssumptionState) : string :=
  match s with
  | PROPOSED => "proposed" | ACTIVE => "active"
  | DISCHARGED => "discharged" | VIOLATED => "violated"
  end.
Definition state_of_value (s : string) : option AssumptionState :=
  if String.eqb s "proposed" then Some PROPOSED
  else if String.eqb s "active" then Some ACTIVE
  else if String.eqb s "discharged" then Some DISCHARGED
  else if String.eqb s "violated" then Some VIOLATED else None.

(** Ids and digests are bytes. *)
Record Evidence := { evidence_text : string; evidence_digest : option string }.
Record Violation := { violation_text : string; violation_digest : option string }.

Record Assumption := {
  id : string;
  text : string;
  digest : string;
  state : AssumptionState;
  depends_on : list string;
  discharged_by : option Evidence;
  violated_by : option Violation;
}.

Inductive reg_error : Type :=
| NotProposed (aid : string)
| CannotBeDischarged (aid : string)
| NotFound (aid : string)
| Wal (e : wal_error)
| BadPayload (field : string)
| PropagationFuel.

Notation assumptions := (list (string * Assumption)).

(** The registry, and the events it has emitted. *)
Record registry := {
  _assumptions : assumptions;
  _wal : option AssumptionWal;
  emitted : list (string * payload);
}.

(** What a call finds around it: the bound run id, and whether the log's lock
    can be had. *)
Record env := { ambient : option string; lock_free : bool }.

(** [set.pop] takes any element. *)
Class SetPop := set_pop : list string → option (string * list string).
Class SetPopLaws (P : SetPop) : Prop := {
  set_pop_spec : ∀ l, match set_pop l with
                      | None => l = []
                      | Some (x, rest) => l ≡ₚ x :: rest
                      end
}.
Definition pop_front : SetPop := λ l, match l with [] => None | x :: l => Some (x, l) end.
#[export] Instance pop_front_laws : SetPopLaws pop_front.
Proof. split. unfold set_pop, pop_front. by intros []. Qed.

Definition set_add (x : string) (s : list string) : list string :=
  if decide (x ∈ s) then s else x :: s.

(** ** Payloads *)
Definition hex_list (l : list string) : json := JArr ((λ d, JStr (hex d)) <$> l).

Definition _evidence_payload (e : Evidence) : payload :=
  ("text", JStr (evidence_text e)) ::
  match evidence_digest e with None => [] | Some d => [("artifact_digest", JStr (hex d))] end.
Definition _violation_payload (v : Violation) : payload :=
  ("text", JStr (violation_text v)) ::
  match violation_digest v with None => [] | Some d => [("artifact_digest", JStr (hex d))] end.

(** A member that must be there and hold text, bytes in hexadecimal, or a list
    of those. *)
Definition get_text (p : payload) (field : string) : result reg_error string :=
  match Dict.get p field with Some (JStr s) => Ok s | _ => Err (BadPayload field) end.
Definition bytes_of (field s : string) : result reg_error string :=
  match fromhex s with Some b => Ok b | None => Err (BadPayload field) end.
Definition get_bytes (p : payload) (field : string) : result reg_error string :=
  s ← get_text p field; bytes_of field s.
Definition get_depends_on (p : payload) : result reg_error (list string) :=
  match Dict.get p "depends_on" with
  | None => Ok []
  | Some (JArr l) =>
      mapM (λ v, match v with JStr s => bytes_of "depends_on" s
                         | _ => Err (BadPayload "depends_on") end) l
  | Some _ => Err (BadPayload "depends_on")
  end.

(** [Digest(bytes.fromhex(d)) if d else None] *)
Definition get_artifact (p : payload) : result reg_error (option string) :=
  match Dict.get p "artifact_digest" with
  | None | Some JNull => Ok None
  | Some (JStr "") => Ok None
  | Some (JStr s) => Some <$> bytes_of "artifact_digest" s
  | Some _ => Err (BadPayload "artifact_digest")
  end.

Definition _evidence_from_payload (v : option json) : result reg_error (option Evidence) :=
  match v with
  | None | Some JNull => Ok None
  | Some (JObj p) =>
      t ← get_text p "text"; d ← get_artifact p;
      Ok (Some {| evidence_text := t; evidence_digest := d |})
  | Some _ => Err (BadPayload "evidence")
  end.
Definition _violation_from_payload (v : option json) : result reg_error (option Violation) :=
  match v with
  | None | Some JNull => Ok None
  | Some (JObj p) =>
      t ← get_text p "text"; d ← get_artifact p;
      Ok (Some {| violation_text := t; violation_digest := d |})
  | Some _ => Err (BadPayload "violation")
  end.

(** ** Violations *)

(** The record a violation leaves. *)
Definition mark (v : option Violation) (a : Assumption) : Assumption :=
  {| id := id a; text := text a; digest := digest a; state := VIOLATED;
     depends_on := depends_on a; discharged_by := discharged_by a; violated_by := v |}.

(** One round of the loop of [violate]: over the dict as it changes. *)
Fixpoint sweep_live (v : option Violation) (current : string) (keys : list string)
    (d : assumptions) (frontier violated : list string)
    : assumptions * list string * list string :=
  match keys with
  | [] => (d, frontier, violated)
  | k :: keys =>
      match Dict.get d k with
      | None => sweep_live v current keys d frontier violated
      | Some candidate =>
          if decide (state candidate = VIOLATED)
          then sweep_live v current keys d frontier violated
          else if decide (current ∈ depends_on candidate)
          then sweep_live v current keys (Dict.set d (id candidate) (mark v candidate))
                 (set_add (id candidate) frontier) (violated ++ [id candidate])
          else sweep_live v current keys d frontier violated
      end
  end.

(** The same round in the replay: over [list(self._assumptions.values())]. *)
Fixpoint sweep (v : option Violation) (current : string) (candidates : list Assumption)
    (d : assumptions) (frontier violated : list string)
    : assumptions * list string * list string :=
  match candidates with
  | [] => (d, frontier, violated)
  | candidate :: candidates =>
      if decide (state candidate = VIOLATED)
      then sweep v current candidates d frontier violated
      else if decide (current ∈ depends_on candidate)
      then sweep v current candidates (Dict.set d (id candidate) (mark v candidate))
             (set_add (id candidate) frontier) (violated ++ [id candidate])
      else sweep v current candidates d frontier violated
  end.

Section propagation.
Context {P : SetPop}.

(** The loop over the frontier; each round takes one id, and an id enters when
    its assumption turns violated, so the number of assumptions bounds the
    rounds (proved below). *)
Fixpoint propagate
    (round : string → assumptions → list string → list string → assumptions * list string * list string)
    (fuel : nat) (d : assumptions) (frontier violated : list string)
    : option (assumptions * list string) :=
  match set_pop frontier with
  | None => Some (d, violated)
  | Some (current, frontier) =>
      match fuel with
      | O => None
      | S fuel =>
          let '(d, frontier, violated) := round current d frontier violated in
          propagate round fuel d frontier violated
      end
  end.

Definition round_live v current d frontier violated :=
  sweep_live v current (Dict.keys d) d frontier violated.
Definition round_replay v current d frontier violated :=
  sweep v current (Dict.values d) d frontier violated.

Context {R : Runtime} {H : Sha256}.

(** ** The mutators *)
Definition lift_wal (m : action AssumptionWal wal_error unit) : action registry reg_error unit :=
  λ r, match _wal r with
       | None => (r, Ok ())
       | Some w =>
           let '(w', res) := m w in
           ({| _assumptions := _assumptions r; _wal := Some w'; emitted := emitted r |},
            match res with Ok u => Ok u | Err e => Err (Wal e) end)
       end.

(** The ambient run id, in a payload that has none. *)
Definition stamp (run_id : option string) (p : payload) : payload :=
  match run_id with
  | Some rid => if Dict.mem p "run_id" then p else Dict.set p "run_id" (JStr rid)
  | None => p
  end.

Definition _persist (E : env) (k : string) (p : payload) : action registry reg_error unit :=
  lift_wal (_ ← ensure (bool_decide (k ∈ TRANSITIONS)) (UnknownTransition k);
            append (lock_free E) k (stamp (ambient E) p)).

Definition store (aid : string) (a : Assumption) : action registry reg_error unit :=
  modify (λ r, {| _assumptions := Dict.set (_assumptions r) aid a; _wal := _wal r;
                  emitted := emitted r |}).
Definition _emit_assumption_event (k : string) (p : payload) : action registry reg_error unit :=
  modify (λ r, {| _assumptions := _assumptions r; _wal := _wal r;
                  emitted := emitted r ++ [(k, p)] |}).

Definition _get (aid : string) : action registry reg_error Assumption :=
  r ← get_state;
  match Dict.get (_assumptions r) aid with Some a => mret a | None => raise (NotFound aid) end.

(** [Assumption.propose], with the id [make_assumption_id] gives. *)
Definition Assumption_propose (aid t : string) (deps : list string) : Assumption :=
  {| id := aid; text := t;
     digest := sha256 (hex aid +:+ ":" +:+ t +:+ ":" +:+ str_join "," (hex <$> deps));
     state := PROPOSED; depends_on := deps; discharged_by := None; violated_by := None |}.

Definition propose (E : env) (aid t : string) (deps : list string)
    : action registry reg_error Assumption :=
  let assumption := Assumption_propose aid t deps in
  _ ← _persist E "proposed"
        [("assumption_id", JStr (hex (id assumption))); ("digest", JStr (hex (digest assumption)));
         ("text", JStr t); ("depends_on", hex_list deps)];
  _ ← store (id assumption) assumption;
  _ ← _emit_assumption_event "assumption.proposed"
        [("assumption_id", JStr (hex (id assumption))); ("digest", JStr (hex (digest assumption)));
         ("text", JStr t)];
  mret assumption.

Definition accept (E : env) (aid : string) : action registry reg_error Assumption :=
  assumption ← _get aid;
  _ ← ensure (bool_decide (state assumption = PROPOSED)) (NotProposed aid);
  _ ← _persist E "accepted"
        [("assumption_id", JStr (hex aid)); ("digest", JStr (hex (digest assumption)))];
  let updated := {| id := id assumption; text := text assumption; digest := digest assumption;
                    state := ACTIVE; depends_on := depends_on assumption;
                    discharged_by := None; violated_by := None |} in
  _ ← store aid updated;
  _ ← _emit_assumption_event "assumption.accepted"
        [("assumption_id", JStr (hex aid)); ("digest", JStr (hex (digest assumption)))];
  mret updated.

Definition discharge (E : env) (aid : string) (e : Evidence)
    : action registry reg_error Assumption :=
  assumption ← _get aid;
  _ ← ensure (bool_decide (state assumption = ACTIVE ∨ state assumption = PROPOSED))
        (CannotBeDischarged aid);
  _ ← _persist E "discharged"
        [("assumption_id", JStr (hex aid)); ("digest", JStr (hex (digest assumption)));
         ("evidence", JObj (_evidence_payload e))];
  let updated := {| id := id assumption; text := text assumption; digest := digest assumption;
                    state := DISCHARGED; depends_on := depends_on assumption;
                    discharged_by := Some e; violated_by := None |} in
  _ ← store aid updated;
  _ ← _emit_assumption_event "assumption.discharged"
        [("assumption_id", JStr (hex aid)); ("digest", JStr (hex (digest assumption)))];
  mret updated.

(** The loop of [violate] on the registry's dict. *)
Definition propagate_live (aid : string) (v : Violation) : action registry reg_error (list string) :=
  λ r, match propagate (round_live (Some v)) (S (length (_assumptions r)))
               (_assumptions r) [aid] [aid] with
       | Some (d, violated) =>
           ({| _assumptions := d; _wal := _wal r; emitted := emitted r |}, Ok violated)
       | None => (r, Err PropagationFuel)
       end.

Fixpoint emit_violated (aid : string) (vids : list string) : action registry reg_error unit :=
  match vids with
  | [] => mret ()
  | vid :: vids =>
      _ ← _emit_assumption_event "assumption.violated"
            [("assumption_id", JStr (hex vid)); ("root_id", JStr (hex aid))];
      emit_violated aid vids
  end.

Definition violate (E : env) (aid : string) (v : Violation)
    : action registry reg_error (list string) :=
  assumption ← _get aid;
  if decide (state assumption = VIOLATED) then mret []
  else
    _ ← _persist E "violated"
          [("assumption_id", JStr (hex aid)); ("digest", JStr (hex (digest assumption)));
           ("violation", JObj (_violation_payload v))];
    _ ← store aid (mark (Some v) assumption);
    violated ← propagate_live aid v;
    _ ← emit_violated aid violated;
    mret violated.

(** ** Queries *)
Definition get (r : registry) (aid : string) : option Assumption := Dict.get (_assumptions r) aid.
Definition violated (r : registry) : list Assumption :=
  filter (λ a, state a = VIOLATED) (Dict.values (_assumptions r)).

(** [Assumed[T]] and its users. *)
Record Assumed (T : Type) := { value : T; assumption_id : string }.
Arguments value {T}.
Arguments assumption_id {T}.
Definition is_valid {T} (r : registry) (item : Assumed T) : bool :=
  match get r (assumption_id item) with
  | None => false
  | Some a => bool_decide (state a = ACTIVE ∨ state a = DISCHARGED)
  end.
Definition invalid_assumed {T} (r : registry) (items : list (Assumed T)) : list (Assumed T) :=
  filter (λ item, is_valid r item = false) items.
Definition bind_assumption {T} (E : env) (aid : string) (x : T) (t : string)
    : action registry reg_error (Assumed T) :=
  assumption ← propose E aid t [];
  _ ← accept E (id assumption);
  mret {| value := x; assumption_id := id assumption |}.

(** ** Rotation *)
Definition _snapshot_entry (a : Assumption) : payload :=
  [("assumption_id", JStr (hex (id a))); ("digest", JStr (hex (digest a)));
   ("text", JStr (text a)); ("state", JStr (state_value (state a)));
   ("depends_on", hex_list (depends_on a))] ++
  match discharged_by a with
  | Some e => [("discharged_by", JObj (_evidence_payload e))] | None => [] end ++
  match violated_by a with
  | Some v => [("violated_by", JObj (_violation_payload v))] | None => [] end ++
  [("kind", JStr "proposed")].

Definition rotate (E : env) : action registry reg_error unit := λ r,
  lift_wal (rotate_snapshot (lock_free E) (_snapshot_entry <$> Dict.values (_assumptions r))) r.

(** ** Replay *)
Definition _hydrate_snapshot_entry (d : assumptions) (entry : WalEntry)
    : result reg_error assumptions :=
  let p := entry_payload entry in
  aid ← get_bytes p "assumption_id";
  deps ← get_depends_on p;
  st ← get_text p "state";
  match state_of_value st with
  | None => Err (BadPayload "state")
  | Some st =>
      dg ← get_bytes p "digest";
      ev ← _evidence_from_payload (Dict.get p "discharged_by");
      vi ← _violation_from_payload (Dict.get p "violated_by");
      t ← get_text p "text";
      Ok (Dict.set d aid {| id := aid; text := t; digest := dg; state := st;
                            depends_on := deps; discharged_by := ev; violated_by := vi |})
  end.

(** The non-[PROPOSED] states a replayed proposal does not overwrite. *)
Definition settled (a : option Assumption) : bool :=
  match a with
  | Some a => bool_decide (state a = ACTIVE ∨ state a = DISCHARGED ∨ state a = VIOLATED)
  | None => false
  end.

Definition apply_proposed (d : assumptions) (aid : string) (p : payload)
    : result reg_error assumptions :=
  if settled (Dict.get d aid) then Ok d
  else
    dg ← get_bytes p "digest";
    deps ← get_depends_on p;
    t ← get_text p "text";
    Ok (Dict.set d aid {| id := aid; text := t; digest := dg; state := PROPOSED;
                          depends_on := deps; discharged_by := None; violated_by := None |}).

Definition apply_accepted (d : assumptions) (aid : string) : assumptions :=
  match Dict.get d aid with
  | None => d
  | Some a => Dict.set d aid
      {| id := id a; text := text a; digest := digest a; state := ACTIVE;
         depends_on := depends_on a; discharged_by := discharged_by a;
         violated_by := violated_by a |}
  end.

Definition apply_discharged (d : assumptions) (aid : string) (p : payload)
    : result reg_error assumptions :=
  match Dict.get d aid with
  | None => Ok d
  | Some a =>
      ev ← _evidence_from_payload (Dict.get p "evidence");
      Ok (Dict.set d aid
        {| id := id a; text := text a; digest := digest a; state := DISCHARGED;
           depends_on := depends_on a; discharged_by := ev; violated_by := violated_by a |})
  end.

Definition apply_violated (d : assumptions) (aid : string) (p : payload)
    : result reg_error assumptions :=
  match Dict.get d aid with
  | None => Ok d
  | Some a =>
      vi ← _violation_from_payload (Dict.get p "violation");
      let d := Dict.set d aid (mark vi a) in
      match propagate (round_replay vi) (S (length d)) d [aid] [] with
      | Some (d, _) => Ok d
      | None => Err PropagationFuel
      end
  end.

Definition _apply_wal_entry (d : assumptions) (entry : WalEntry) : result reg_error assumptions :=
  let p := entry_payload entry in
  aid ← get_bytes p "assumption_id";
  if String.eqb (kind entry) "proposed" then apply_proposed d aid p
  else if String.eqb (kind entry) "accepted" then Ok (apply_accepted d aid)
  else if String.eqb (kind entry) "discharged" then apply_discharged d aid p
  else if String.eqb (kind entry) "violated" then apply_violated d aid p
  else Err (Wal (UnknownTransition (kind entry))).

Definition _reload_from_disk (w : AssumptionWal) : result reg_error assumptions :=
  match load_all w with
  | Err e => Err (Wal e)
  | Ok (snapshot_entries, wal_entries) =>
      d ← foldlM _hydrate_snapshot_entry [] snapshot_entries;
      foldlM _apply_wal_entry d wal_entries
  end.

(** [AssumptionRegistry(wal_dir=...)] *)
Definition new_registry (w : option AssumptionWal) : result reg_error registry :=
  match w with
  | None => Ok {| _assumptions := []; _wal := None; emitted := [] |}
  | Some w => d ← _reload_from_disk w; Ok {| _assumptions := d; _wal := Some w; emitted := [] |}
  end.
End propagation.
