(* ===== verification/AssumptionsGraph.v ===== *)
(** * Violations propagate to exactly the dependents

    The loop of [violate] and the loop of the replay compute the closure of the
    violated id under the dependents that are not violated yet, whatever
    element [set.pop] takes, and stop. *)

From S2P Require Import Prelude Canonical CanonicalLines AssumptionsWal Assumptions.

(** Every assumption is stored under its id. *)
Definition dict_ok (d : assumptions) : Prop :=
  NoDup (Dict.keys d) ∧ Forall (λ ka, id ka.2 = ka.1) d.

(** [z] depends on [x] and is not violated. *)
Definition dependent (d : assumptions) (x z : string) : Prop :=
  ∃ a, Dict.get d z = Some a ∧ state a ≠ VIOLATED ∧ x ∈ depends_on a.

(** The dict with the assumptions of the ids [V] marked. *)
Definition mark_all (v : option Violation) (V : list string) (d : assumptions) : assumptions :=
  (λ ka, (ka.1, if decide (ka.1 ∈ V) then mark v ka.2 else ka.2)) <$> d.

Section marks.
Context (v : option Violation).

Lemma keys_mark_all V d : Dict.keys (mark_all v V d) = Dict.keys d.
Proof. unfold Dict.keys, mark_all. by rewrite <-list_fmap_compose. Qed.

Lemma get_mark_all V d k :
  Dict.get (mark_all v V d) k =
  (λ a, if decide (k ∈ V) then mark v a else a) <$> Dict.get d k.
Proof.
  induction d as [|[k' a] d IH]; [done|]. cbn. by destruct (decide (k = k')) as [->|].
Qed.

Lemma mark_all_ext V V' d : (∀ k, k ∈ V ↔ k ∈ V') → mark_all v V d = mark_all v V' d.
Proof.
  intros HV. unfold mark_all. apply list_fmap_ext. intros _ [k a] _. cbn.
  by rewrite (decide_ext (k ∈ V) (k ∈ V') _ _ (HV k)).
Qed.

Lemma mark_all_nil d : mark_all v [] d = d.
Proof.
  unfold mark_all. rewrite <-(list_fmap_id d) at 2. apply list_fmap_ext.
  intros _ [k a] _. cbn. by rewrite decide_False by set_solver.
Qed.

Lemma dict_ok_mark_all V d : dict_ok d → dict_ok (mark_all v V d).
Proof.
  intros [Hn Hid]. split; [by rewrite keys_mark_all|]. apply Forall_fmap.
  eapply Forall_impl; [exact Hid|]. intros [k a] Hk. cbn in *. by case_decide.
Qed.

Lemma dict_ok_set d k a : dict_ok d → id a = k → dict_ok (Dict.set d k a).
Proof.
  intros [Hn Hid] Ha. split; [by apply Dict.NoDup_keys_set|]. clear Hn.
  induction Hid as [|[k' b] d Hb Hd IH]; cbn; [by repeat constructor|].
  case_decide; subst; constructor; done.
Qed.

Lemma set_mark_all V d k a : NoDup (Dict.keys d) → Dict.get d k = Some a →
  Dict.set (mark_all v V d) k (mark v a) = mark_all v (V ++ [k]) d.
Proof.
  intros Hn Hk.
  assert (k ∈ Dict.keys (mark_all v V d)) as Hin.
  { rewrite keys_mark_all. apply Dict.get_is_Some. by eexists. }
  apply Dict.dict_eq.
  - by rewrite Dict.keys_set_in, keys_mark_all.
  - by rewrite Dict.keys_set_in, !keys_mark_all.
  - intros k'. rewrite Dict.get_set, !get_mark_all. destruct (decide (k = k')) as [<-|Hne].
    + rewrite Hk. cbn. by rewrite decide_True by set_solver.
    + destruct (Dict.get d k') as [b|]; [|done]. cbn.
      by rewrite (decide_ext (k' ∈ V ++ [k]) (k' ∈ V)) by set_solver.
Qed.

(** The ids a round adds. *)
Definition newly (current : string) (V : list string) (d : assumptions) : list string :=
  (filter (λ ka, ka.1 ∉ V ∧ state ka.2 ≠ VIOLATED ∧ current ∈ depends_on ka.2) d).*1.

Lemma elem_of_newly current V d k : NoDup (Dict.keys d) →
  k ∈ newly current V d ↔ k ∉ V ∧ dependent d current k.
Proof.
  intros Hn. unfold newly, dependent. rewrite list_elem_of_fmap. split.
  - intros ([k' a] & -> & [(? & ? & ?) Hin]%list_elem_of_filter). split; [done|].
    exists a. split; [by apply Dict.elem_get|done].
  - intros (HV & a & Ha & ? & ?). exists (k, a). split; [done|].
    apply list_elem_of_filter. split; [done|]. by apply Dict.get_Some_elem.
Qed.

Lemma NoDup_newly current V d : NoDup (Dict.keys d) → NoDup (newly current V d).
Proof.
  intros Hn. unfold newly. eapply sublist_NoDup; [exact Hn|apply fmap_sublist, sublist_filter].
Qed.

(** One round of the replay marks the new ids. *)
Lemma sweep_spec current d : dict_ok d → ∀ suf pre V N F L, d = pre ++ suf →
  (∀ k, k ∈ Dict.keys suf → k ∉ N) →
  sweep v current (Dict.values (mark_all v V suf)) (mark_all v (V ++ N) d) F L =
  (mark_all v (V ++ N ++ newly current V suf) d,
   foldl (λ F k, set_add k F) F (newly current V suf), L ++ newly current V suf).
Proof.
  intros [Hn Hid]. induction suf as [|[k a] suf IH]; intros pre V N F L E HN.
  { cbn. by rewrite !app_nil_r. }
  assert (id a = k) as Hk by (subst d; apply Forall_app in Hid as [_ Hid]; by inversion Hid).
  assert (Dict.get d k = Some a) as Hget by (apply Dict.elem_get; [done|subst d; set_solver]).
  assert (k ∉ Dict.keys suf) as Hks.
  { subst d. rewrite Dict.keys_app, Dict.keys_cons in Hn. apply NoDup_app in Hn as (_ & _ & Hn).
    by apply NoDup_cons in Hn as [? _]. }
  assert (d = (pre ++ [(k, a)]) ++ suf) as E' by (by rewrite <-app_assoc).
  unfold newly. cbn -[set_add Dict.set filter]. rewrite filter_cons.
  assert (∀ V', V' = V ++ N → ∀ F L,
    sweep v current (Dict.values (mark_all v V suf)) (mark_all v V' d) F L =
    (mark_all v (V ++ N ++ newly current V suf) d,
     foldl (λ F k, set_add k F) F (newly current V suf), L ++ newly current V suf)) as Hskip.
  { intros V' -> F' L'. apply (IH (pre ++ [(k, a)])); [done|].
    intros k' Hk'. apply HN. rewrite Dict.keys_cons. set_solver. }
  destruct (decide (k ∈ V)) as [HV|HV].
  { rewrite decide_True by done. rewrite decide_False by (cbn; tauto). by apply Hskip. }
  destruct (decide (state a = VIOLATED)) as [Hs|Hs].
  { rewrite decide_False by (cbn; tauto). by apply Hskip. }
  destruct (decide (current ∈ depends_on a)) as [Hc|Hc].
  - rewrite decide_True by (cbn; tauto). rewrite Hk, set_mark_all by done.
    rewrite <-app_assoc.
    etrans; [apply (IH (pre ++ [(k, a)])); [done|]|].
    { intros k' Hk' [?|?]%elem_of_app; [|set_solver]. apply (HN k'); [|done].
      rewrite Dict.keys_cons. set_solver. }
    unfold newly. cbn -[set_add]. by rewrite <-!app_assoc.
  - rewrite decide_False by (cbn; tauto). by apply Hskip.
Qed.

Lemma round_replay_spec current d V F L : dict_ok d →
  round_replay v current (mark_all v V d) F L =
  (mark_all v (V ++ newly current V d) d,
   foldl (λ F k, set_add k F) F (newly current V d), L ++ newly current V d).
Proof.
  intros Hd. unfold round_replay.
  pose proof (sweep_spec current d Hd d [] V [] F L eq_refl) as H.
  rewrite !app_nil_r in H. apply H. set_solver.
Qed.

(** The live loop reads the dict as it changes, and does the same. *)
Lemma sweep_live_suffix current suf : ∀ d F L,
  NoDup (Dict.keys suf) → Forall (λ ka, id ka.2 = ka.1) suf →
  (∀ k a, (k, a) ∈ suf → Dict.get d k = Some a) →
  sweep_live v current (Dict.keys suf) d F L = sweep v current (Dict.values suf) d F L.
Proof.
  induction suf as [|[k a] suf IH]; intros d F L Hn Hid Hg; [done|].
  rewrite Dict.keys_cons in Hn |- *. apply NoDup_cons in Hn as [Hk Hn].
  apply Forall_cons in Hid as [Hka Hid]. cbn -[set_add Dict.set] in *.
  rewrite (Hg k a) by set_solver.
  assert (∀ d', (∀ k' a', (k', a') ∈ suf → Dict.get d' k' = Dict.get d k') → ∀ F L,
    sweep_live v current (Dict.keys suf) d' F L = sweep v current (Dict.values suf) d' F L) as Hgo.
  { intros d' Hd' F' L'. apply IH; [done..|]. intros k' a' Hin. rewrite (Hd' _ a') by done.
    apply Hg. set_solver. }
  repeat case_decide; [by apply Hgo| |by apply Hgo]. apply Hgo. intros k' a' Hin.
  rewrite Hka. apply Dict.get_set_ne. intros <-. apply Hk.
  apply list_elem_of_fmap. by exists (k, a').
Qed.

Lemma round_live_replay current d F L : dict_ok d →
  round_live v current d F L = round_replay v current d F L.
Proof.
  intros [Hn Hid]. apply sweep_live_suffix; [done..|]. intros. by apply Dict.elem_get.
Qed.
End marks.

(** ** The loop *)
Lemma elem_of_set_adds ks F x :
  x ∈ foldl (λ F k, set_add k F) F ks ↔ x ∈ F ∨ x ∈ ks.
Proof.
  revert F. induction ks as [|k ks IH]; intros F; cbn; [set_solver|].
  rewrite IH. unfold set_add. case_decide; set_solver.
Qed.
Lemma length_set_adds ks F :
  length (foldl (λ F k, set_add k F) F ks) ≤ length F + length ks.
Proof.
  revert F. induction ks as [|k ks IH]; intros F; cbn; [lia|].
  etrans; [apply IH|]. unfold set_add. case_decide; cbn; lia.
Qed.

(** The ids that are not marked yet. *)
Definition unmarked (V : list string) (d : assumptions) : list string :=
  filter (.∉ V) (Dict.keys d).

Lemma unmarked_newly current V d : NoDup (Dict.keys d) →
  length (unmarked (V ++ newly current V d) d) + length (newly current V d)
  ≤ length (unmarked V d).
Proof.
  intros Hn. rewrite Nat.add_comm, <-length_app. apply submseteq_length, NoDup_submseteq.
  - apply NoDup_app. split_and!; [by apply NoDup_newly| |by apply NoDup_filter].
    intros k Hk [Hk' _]%list_elem_of_filter. set_solver.
  - intros k [Hk|Hk]%elem_of_app.
    + apply elem_of_newly in Hk as [Hk (a & Ha & _)]; [|done].
      apply list_elem_of_filter. split; [done|]. apply Dict.get_is_Some. by eexists.
    + apply list_elem_of_filter in Hk as [Hk Hin]. apply list_elem_of_filter.
      split; [set_solver|done].
Qed.

(** What is marked is reachable, and closed but for the frontier. *)
Definition frontier_ok (d : assumptions) (root : string) (V F : list string) : Prop :=
  NoDup V ∧ root ∈ V ∧ F ⊆ V ∧ (∀ x, x ∈ V → rtc (dependent d) root x) ∧
  (∀ x z, x ∈ V → x ∉ F → dependent d x z → z ∈ V).

Lemma frontier_ok_start d root : frontier_ok d root [root] [root].
Proof.
  unfold frontier_ok. split_and!; [apply NoDup_singleton|set_solver|set_solver|..].
  - intros x ->%list_elem_of_singleton. apply rtc_refl.
  - set_solver.
Qed.

Lemma frontier_ok_round d root V F x rest : NoDup (Dict.keys d) →
  frontier_ok d root V F → F ≡ₚ x :: rest →
  frontier_ok d root (V ++ newly x V d) (foldl (λ F k, set_add k F) rest (newly x V d)).
Proof.
  intros Hn (HV & Hr & HF & Hreach & Hcl) HFx.
  assert (x ∈ V) as HxV by (apply HF; rewrite HFx; set_solver).
  unfold frontier_ok. split_and!.
  - apply NoDup_app. split_and!; [done| |by apply NoDup_newly].
    intros k Hk [? _]%elem_of_newly; done.
  - set_solver.
  - intros k [Hk|Hk]%elem_of_set_adds; [|set_solver].
    apply elem_of_app. left. apply HF. rewrite HFx. set_solver.
  - intros k [Hk|Hk]%elem_of_app; [by apply Hreach|].
    apply elem_of_newly in Hk as [_ Hk]; [|done]. eapply rtc_r; [by apply Hreach|done].
  - intros y z Hy HyF Hyz. rewrite elem_of_set_adds in HyF.
    apply elem_of_app in Hy as [Hy|Hy]; [|tauto].
    apply elem_of_app. destruct (decide (z ∈ V)) as [|Hz]; [by left|right].
    destruct (decide (y = x)) as [->|Hne]; [by apply elem_of_newly|].
    exfalso. apply Hz, (Hcl y); [done| |done]. rewrite HFx. set_solver.
Qed.

Section closure.
Context {P : SetPop} {PL : SetPopLaws P}.

Lemma propagate_spec v d root : dict_ok d → ∀ fuel V F,
  frontier_ok d root V F → length F + length (unmarked V d) ≤ fuel →
  ∃ N, (∀ L, propagate (round_replay v) fuel (mark_all v V d) F L =
               Some (mark_all v (V ++ N) d, L ++ N)) ∧ frontier_ok d root (V ++ N) [].
Proof using PL.
  intros Hd. induction fuel as [|fuel IH]; intros V F HF Hm; cbn;
    pose proof (set_pop_spec F) as Hpop; destruct (set_pop F) as [[x rest]|]; subst.
  - rewrite Hpop in Hm. cbn in Hm. lia.
  - exists []. split; [intros L|]; by rewrite !app_nil_r.
  - pose proof (unmarked_newly x V d (proj1 Hd)).
    pose proof (length_set_adds (newly x V d) rest).
    rewrite Hpop in Hm. cbn in Hm.
    destruct (IH (V ++ newly x V d) (foldl (λ F k, set_add k F) rest (newly x V d)))
      as (N & HE & HN); [|lia|].
    { eapply frontier_ok_round; [apply Hd|done..]. }
    exists (newly x V d ++ N). rewrite !app_assoc in *. split; [|done].
    intros L. by rewrite round_replay_spec, HE, app_assoc.
  - exists []. split; [intros L|]; by rewrite !app_nil_r.
Qed.

(** The live loop is the same function on a registry's dict. *)
Lemma propagate_live_replay v fuel V d F L : dict_ok d →
  propagate (round_live v) fuel (mark_all v V d) F L =
  propagate (round_replay v) fuel (mark_all v V d) F L.
Proof.
  intros Hd. revert V F L. induction fuel as [|fuel IH]; intros V F L; cbn;
    destruct (set_pop F) as [[x rest]|]; [done..| |done].
  rewrite (round_live_replay v x) by (by apply dict_ok_mark_all).
  rewrite (round_replay_spec v x d V) by done. apply IH.
Qed.

(** From a violated root: the closure, in one list without repetition. *)
Lemma propagate_closure v d root : dict_ok d → root ∈ Dict.keys d →
  ∃ N, (∀ L, propagate (round_replay v) (S (length d)) (mark_all v [root] d) [root] L =
               Some (mark_all v (root :: N) d, L ++ N)) ∧
       NoDup (root :: N) ∧ ∀ x, x ∈ root :: N ↔ rtc (dependent d) root x.
Proof using PL.
  intros Hd Hr. destruct (propagate_spec v d root Hd (S (length d)) [root] [root])
    as (N & E & HV & _ & _ & Hreach & Hcl).
  { apply frontier_ok_start. }
  { cbn. rewrite <-Dict.length_keys. apply le_n_S. unfold unmarked. apply length_filter. }
  exists N. split_and!; [done..|]. intros x. split; [by apply Hreach|].
  revert x. apply rtc_ind_r; [set_solver|]. intros x y _ Hxy IH. apply (Hcl x); set_solver.
Qed.
End closure.
