(* ===== verification/AssumptionsReplay.v ===== *)
(** * What the registry logs is what it did

    The payload codecs round-trip, and each mutator's log entry, read back and
    applied to the state before, gives the state after. *)

From S2P Require Import Prelude Canonical CanonicalRead CanonicalLines AssumptionsWal Assumptions AssumptionsGraph.

Section codecs.
Context {R : Runtime} {RL : RuntimeLaws R}.

(** Texts a log keeps as they are, and a digest that is not empty. *)
Definition evidence_ok (e : Evidence) : bool :=
  plain_text (evidence_text e) && negb (bool_decide (evidence_digest e = Some "")).
Definition violation_ok (v : Violation) : bool :=
  plain_text (violation_text v) && negb (bool_decide (violation_digest v = Some "")).

(** [q] holds the members of [p] as they read back. *)
Definition reads_as (p q : payload) : Prop :=
  ∀ f, f ≠ "run_id" → f ≠ "kind" → Dict.get q f = canon <$> Dict.get p f.

Lemma plain_hex_list l : plain_json (hex_list l) = true.
Proof using RL.
  cbn. induction l as [|b l IH]; [done|]. cbn. by rewrite IH, plain_hex.
Qed.

Ltac plain_members :=
  apply plain_obj; [reflexivity|];
  repeat (constructor; [split; [reflexivity|]|]); try constructor; cbn [snd];
  try (apply plain_hex || apply plain_hex_list || done).

Lemma plain_evidence e : evidence_ok e = true → plain_json (JObj (_evidence_payload e)) = true.
Proof using RL.
  intros [Ht _]%andb_true_iff. unfold _evidence_payload. destruct (evidence_digest e);
    plain_members.
Qed.
Lemma plain_violation v : violation_ok v = true → plain_json (JObj (_violation_payload v)) = true.
Proof using RL.
  intros [Ht _]%andb_true_iff. unfold _violation_payload. destruct (violation_digest v);
    plain_members.
Qed.

(** *** Reading members back *)
Lemma read_text p q f s : reads_as p q → f ≠ "run_id" → f ≠ "kind" →
  Dict.get p f = Some (JStr s) → plain_text s = true → get_text q f = Ok s.
Proof.
  intros Hq Hr Hk Hf Hs. unfold get_text. rewrite Hq, Hf by done. cbn.
  by rewrite plain_text_nfc.
Qed.
Lemma bytes_of_hex f b : bytes_of f (hex b) = Ok b.
Proof. unfold bytes_of. by rewrite fromhex_hex. Qed.
Lemma read_bytes p q f b : reads_as p q → f ≠ "run_id" → f ≠ "kind" →
  Dict.get p f = Some (JStr (hex b)) → get_bytes q f = Ok b.
Proof using RL.
  intros. unfold get_bytes. erewrite read_text by (done || apply plain_hex). apply bytes_of_hex.
Qed.
Lemma read_depends_on p q l : reads_as p q → Dict.get p "depends_on" = Some (hex_list l) →
  get_depends_on q = Ok l.
Proof using RL.
  intros Hq Hf. unfold get_depends_on. rewrite Hq, Hf by done. cbn [fmap option_fmap option_map hex_list canon].
  apply mapM_Ok. rewrite <-list_fmap_compose. apply Forall2_fmap_l, Forall_Forall2_diag.
  apply Forall_true. intros b. cbn. by rewrite nfc_hex, bytes_of_hex.
Qed.

Lemma read_artifact p q d : reads_as p q →
  Dict.get p "artifact_digest" = ((λ b, JStr (hex b)) <$> d) → d ≠ Some "" → get_artifact q = Ok d.
Proof using RL.
  intros Hq Hf Hd. unfold get_artifact. rewrite Hq, Hf by done. destruct d as [b|]; [|done].
  cbn. rewrite nfc_hex. destruct (hex b) eqn:E; [apply hex_nil in E; by subst|].
  by rewrite <-E, bytes_of_hex.
Qed.

Lemma canon_reads p : plain_json (JObj p) = true →
  ∃ q, canon (JObj p) = JObj q ∧ reads_as p q.
Proof using RL.
  intros Hp. destruct (get_canon _ Hp) as (q & E & Hq). exists q. split; [done|].
  intros f _ _. apply Hq.
Qed.

Lemma read_evidence e : evidence_ok e = true →
  _evidence_from_payload (Some (canon (JObj (_evidence_payload e)))) = Ok (Some e).
Proof using RL.
  intros He. destruct (canon_reads _ (plain_evidence _ He)) as (q & -> & Hq).
  apply andb_true_iff in He as [Ht Hd]. cbn.
  erewrite read_text; [|exact Hq|done|done|done|done]. cbn.
  erewrite (read_artifact _ _ (evidence_digest e)); [by destruct e|exact Hq| |].
  - unfold _evidence_payload. by destruct (evidence_digest e).
  - by apply negb_true_iff, bool_decide_eq_false in Hd.
Qed.
Lemma read_violation v : violation_ok v = true →
  _violation_from_payload (Some (canon (JObj (_violation_payload v)))) = Ok (Some v).
Proof using RL.
  intros Hv. destruct (canon_reads _ (plain_violation _ Hv)) as (q & -> & Hq).
  apply andb_true_iff in Hv as [Ht Hd]. cbn.
  erewrite read_text; [|exact Hq|done|done|done|done]. cbn.
  erewrite (read_artifact _ _ (violation_digest v)); [by destruct v|exact Hq| |].
  - unfold _violation_payload. by destruct (violation_digest v).
  - by apply negb_true_iff, bool_decide_eq_false in Hd.
Qed.

(** ** Snapshot entries *)

(** What every stored assumption satisfies: its texts can be logged, and its
    evidence fits its state. *)
Definition asm_ok (a : Assumption) : Prop :=
  plain_text (text a) = true ∧
  (∀ e, discharged_by a = Some e → evidence_ok e = true) ∧
  (∀ v, violated_by a = Some v → violation_ok v = true) ∧
  (state a ≠ VIOLATED → violated_by a = None) ∧
  (state a = PROPOSED ∨ state a = ACTIVE → discharged_by a = None).

Lemma state_of_value_inv s : state_of_value (state_value s) = Some s.
Proof. by destruct s. Qed.
Lemma plain_state s : plain_text (state_value s) = true.
Proof using RL. apply ascii_plain. by destruct s. Qed.

Lemma plain_snapshot_entry a : asm_ok a → plain_json (JObj (_snapshot_entry a)) = true.
Proof using RL.
  intros (Ht & He & Hv & _). unfold _snapshot_entry.
  destruct (discharged_by a) as [e|], (violated_by a) as [v|]; cbn [app]; plain_members;
    try apply plain_state; try (by apply plain_evidence, He); try (by apply plain_violation, Hv);
    by apply ascii_plain.
Qed.

Lemma snapshot_entry_ok a : asm_ok a →
  entry_ok "proposed" (_snapshot_entry a) ∧
  Dict.get (_snapshot_entry a) "kind" = Some (JStr "proposed").
Proof using RL.
  intros Ha. assert (Dict.get (_snapshot_entry a) "kind" = Some (JStr "proposed")) as Hk.
  { unfold _snapshot_entry. by destruct (discharged_by a), (violated_by a). }
  split; [|done]. split; [by apply list_elem_of_here|].
  rewrite Dict.set_get_id by done. by apply plain_snapshot_entry.
Qed.

Lemma hydrate_snapshot_entry d a : asm_ok a →
  _hydrate_snapshot_entry d (entry_of (_snapshot_entry a)) = Ok (Dict.set d (id a) a).
Proof using RL.
  intros Ha. destruct (canon_reads _ (plain_snapshot_entry _ Ha)) as (q & Hc & Hq).
  assert (entry_payload (entry_of (_snapshot_entry a)) = q) as Hp.
  { unfold entry_of. by rewrite Hc. }
  unfold _hydrate_snapshot_entry. rewrite Hp. destruct Ha as (Ht & He & Hv & _).
  erewrite (read_bytes _ _ "assumption_id") by (exact Hq || done). cbn [mbind result_bind].
  erewrite read_depends_on by (exact Hq || done). cbn [mbind result_bind].
  erewrite (read_text _ _ "state") by (exact Hq || done || apply plain_state). cbn [mbind result_bind].
  rewrite state_of_value_inv.
  erewrite (read_bytes _ _ "digest") by (exact Hq || done). cbn [mbind result_bind].
  assert (_evidence_from_payload (Dict.get q "discharged_by") = Ok (discharged_by a)) as ->.
  { rewrite Hq by done. unfold _snapshot_entry.
    destruct (discharged_by a) as [e|]; [by apply read_evidence, He|]. by destruct (violated_by a). }
  assert (_violation_from_payload (Dict.get q "violated_by") = Ok (violated_by a)) as ->.
  { rewrite Hq by done. unfold _snapshot_entry.
    destruct (violated_by a) as [v|]; destruct (discharged_by a);
      try by apply read_violation, Hv. all: done. }
  cbn [mbind result_bind].
  erewrite (read_text _ _ "text") by (exact Hq || done). cbn [mbind result_bind].
  by destruct a.
Qed.
End codecs.
