(* ===== verification/AssumptionsLaws.v ===== *)
(** * What the assumption registry guarantees

    A registry with a log is durable: whatever was called, the files replay to
    the assumptions in memory. *)

From S2P Require Import Prelude Canonical CanonicalRead CanonicalLines AssumptionsWal Assumptions AssumptionsGraph AssumptionsReplay.

(** ** The calls on a registry *)
Inductive op : Type :=
| Propose (aid t : string) (deps : list string)
| Accept (aid : string)
| Discharge (aid : string) (e : Evidence)
| Violate (aid : string) (v : Violation)
| Rotate
| Restart.

Section laws.
Context {P : SetPop} {R : Runtime} {Sh : Sha256}.

(** A new process on the same files. *)
Definition restart : action registry reg_error unit := λ r,
  match new_registry (_wal r) with Ok r' => (r', Ok ()) | Err e => (r, Err e) end.

Definition run (E : env) (o : op) : action registry reg_error unit :=
  match o with
  | Propose aid t deps => void (propose E aid t deps)
  | Accept aid => void (accept E aid)
  | Discharge aid e => void (discharge E aid e)
  | Violate aid v => void (violate E aid v)
  | Rotate => rotate E
  | Restart => restart
  end.

(** What the log keeps as it is: normal, decodable texts, digests that are not
    empty and fresh ids. *)
Definition env_ok (E : env) : Prop := ∀ rid, ambient E = Some rid → plain_text rid = true.
Definition op_ok (r : registry) (o : op) : Prop :=
  match o with
  | Propose aid t _ => plain_text t = true ∧ get r aid = None
  | Discharge _ e => evidence_ok e = true
  | Violate _ v => violation_ok v = true
  | _ => True
  end.

Definition good (d : assumptions) : Prop :=
  dict_ok d ∧ Forall (λ ka, asm_ok ka.2) d.

(** The files hold entries that replay to the assumptions in memory. *)
Definition durable (r : registry) (w : AssumptionWal) : Prop :=
  _wal r = Some w ∧ good (_assumptions r) ∧
  ∃ ss ws d, holds (snapshot w) ss ∧ holds (wal w) ws ∧
    foldlM _hydrate_snapshot_entry [] (entry_of <$> ss) = Ok d ∧
    foldlM _apply_wal_entry d (entry_of <$> ws) = Ok (_assumptions r).

Context {RL : RuntimeLaws R}.

Lemma durable_reload r w : durable r w → _reload_from_disk w = Ok (_assumptions r).
Proof using RL.
  intros (_ & _ & ss & ws & d & Hs & Hw & Hd & Ha). unfold _reload_from_disk.
  by rewrite (load_all_holds _ _ _ Hs Hw), Hd.
Qed.

(** ** One logged step *)
Lemma in_transitions k : bool_decide (k ∈ TRANSITIONS) = true → k ∈ TRANSITIONS.
Proof. apply bool_decide_eq_true. Qed.

Lemma entry_ok_stamp E k p : env_ok E → k ∈ TRANSITIONS → plain_json (JObj p) = true →
  entry_ok k (stamp (ambient E) p).
Proof using RL.
  intros HE Hk Hp.
  assert (plain_json (JStr k) = true) as Hpk.
  { apply ascii_plain. by repeat (apply elem_of_cons in Hk as [->|Hk]; [done|]); apply not_elem_of_nil in Hk. }
  split; [done|]. apply plain_set; [|done|done]. unfold stamp.
  destruct (ambient E) as [rid|] eqn:Er; [|done]. destruct (Dict.mem p "run_id"); [done|].
  apply plain_set; [done|done|]. by apply HE.
Qed.

Lemma get_stamp rid p f : f ≠ "run_id" → Dict.get (stamp rid p) f = Dict.get p f.
Proof.
  intros Hf. unfold stamp. destruct rid; [|done]. destruct (Dict.mem p "run_id"); [done|].
  by apply Dict.get_set_ne.
Qed.

Lemma read_logged rid k p : entry_ok k (stamp rid p) →
  ∃ q, entry_of (Dict.set (stamp rid p) "kind" (JStr k)) = {| kind := k; entry_payload := q |} ∧
       reads_as p q.
Proof using RL.
  intros [Hk Hp]. destruct (canon_reads _ Hp) as (q & Hc & Hq). exists q. split.
  - unfold entry_of. rewrite Hc. f_equal. unfold known_kind.
    by rewrite Dict.get_set_eq, decide_True.
  - intros f Hr Hf. rewrite (Hq f Hr Hf), Dict.get_set_ne by done. by rewrite get_stamp.
Qed.

(** How a mutator ends. *)
Inductive outcome (r : registry) (w : AssumptionWal) {A} : registry * result reg_error A → Prop :=
| rejected e : outcome r w (r, Err e)
| unchanged a : outcome r w (r, Ok a)
| contended k p w' :
    entry_ok k p → append false k p w = (w', Err WalLockContended) →
    outcome r w ({| _assumptions := _assumptions r; _wal := Some w'; emitted := emitted r |},
                 Err (Wal WalLockContended))
| logged k p w' d' events a :
    entry_ok k p → append true k p w = (w', Ok ()) →
    _apply_wal_entry (_assumptions r) (entry_of (Dict.set p "kind" (JStr k))) = Ok d' →
    good d' →
    outcome r w ({| _assumptions := d'; _wal := Some w'; emitted := emitted r ++ events |}, Ok a).

Lemma outcome_void r w {A} (m : action registry reg_error A) :
  outcome r w (m r) → outcome r w (void m r).
Proof. unfold void. inversion 1; econstructor; done. Qed.

Lemma persist_outcome E k p r w {A} (cont : action registry reg_error A) d' events a :
  durable r w → env_ok E → k ∈ TRANSITIONS → plain_json (JObj p) = true →
  (∀ q, reads_as p q →
        _apply_wal_entry (_assumptions r) {| kind := k; entry_payload := q |} = Ok d') →
  good d' →
  (∀ w', cont {| _assumptions := _assumptions r; _wal := Some w'; emitted := emitted r |} =
         ({| _assumptions := d'; _wal := Some w'; emitted := emitted r ++ events |}, Ok a)) →
  outcome r w ((_ ← _persist E k p; cont) r).
Proof using RL.
  intros (Hw & _ & _ & ws & _ & _ & Hws & _) HE Hk Hp Happly Hgood Hcont.
  pose proof (entry_ok_stamp E k p HE Hk Hp) as Hok.
  destruct (append_spec (lock_free E) k _ _ _ Hws Hok) as (w' & Happ & _).
  destruct (read_logged _ _ _ Hok) as (q & Hq & Hreads). specialize (Happly _ Hreads).
  unfold mbind, action_bind, _persist, lift_wal, ensure. rewrite Hw.
  rewrite bool_decide_true by done. unfold mbind, action_bind. cbn [guard_or]. rewrite Happ.
  destruct (lock_free E); cbn [guard_or] in *.
  - rewrite Hcont. econstructor; [exact Hok|exact Happ|by rewrite Hq|done].
  - by econstructor.
Qed.

(** ** Each mutator logs what it does *)
Lemma good_set d k a : good d → id a = k → asm_ok a → good (Dict.set d k a).
Proof.
  intros [Hd Ha] Hk Hok. split; [by apply dict_ok_set|]. clear Hd.
  induction Ha as [|[k' b] d Hb Hd IH]; cbn; [constructor; [done|constructor]|].
  case_decide; subst; by constructor.
Qed.
Lemma good_get d k a : good d → Dict.get d k = Some a → id a = k ∧ asm_ok a.
Proof.
  intros [[_ Hid] Ha] Hg%Dict.get_Some_elem. rewrite Forall_forall in Hid, Ha.
  split; [by apply (Hid (k, a))|by apply (Ha (k, a))].
Qed.
Lemma asm_ok_mark v a : asm_ok a → violation_ok v = true → asm_ok (mark (Some v) a).
Proof.
  intros (Ht & He & Hv & Hs & Hp) Hvo. unfold asm_ok, mark. cbn.
  split_and!; [done|done|by intros ? [= <-]|done|by intros []].
Qed.
Lemma good_mark_all d v V : good d → violation_ok v = true → good (mark_all (Some v) V d).
Proof.
  intros [Hd Ha] Hv. split; [by apply dict_ok_mark_all|]. apply Forall_fmap.
  eapply Forall_impl; [exact Ha|]. intros [k a] Hok. cbn in *.
  case_decide; [by apply asm_ok_mark|done].
Qed.

Ltac logged_members :=
  apply plain_obj; [reflexivity|];
  repeat (constructor; [split; [reflexivity|]|]); try constructor; cbn [snd];
  try (done || apply plain_hex || apply plain_hex_list || (by apply ascii_plain)).

Lemma propose_outcome E aid t deps r w : durable r w → env_ok E →
  plain_text t = true → get r aid = None → outcome r w (propose E aid t deps r).
Proof using RL.
  intros Hr HE Ht Hfresh. eapply persist_outcome; [done|done|by apply in_transitions|..].
  - logged_members.
  - intros q Hq. unfold _apply_wal_entry. cbn [entry_payload kind String.eqb].
    erewrite (read_bytes _ _ "assumption_id") by (exact Hq || done). cbn [mbind result_bind].
    unfold apply_proposed. cbn [Ascii.eqb eqb]. unfold get in Hfresh. cbn [Assumption_propose id].
    rewrite Hfresh. cbn [settled].
    erewrite (read_bytes _ _ "digest") by (exact Hq || done). cbn [mbind result_bind].
    erewrite read_depends_on by (exact Hq || done). cbn [mbind result_bind].
    by erewrite (read_text _ _ "text") by (exact Hq || done).
  - destruct Hr as (_ & Hg & _). apply (good_set _ aid); [done|done|].
    unfold asm_ok. cbn. by split_and!.
  - intros w'. cbv zeta. reflexivity.
Qed.

Lemma get_outcome r w aid {A} (cont : Assumption → action registry reg_error A) :
  (∀ a, get r aid = Some a → outcome r w (cont a r)) →
  outcome r w ((a ← _get aid; cont a) r).
Proof.
  intros H. unfold _get, get_state, mbind, action_bind. unfold get in H.
  destruct (Dict.get (_assumptions r) aid) as [a|]; [by apply H|constructor].
Qed.
Lemma ensure_outcome r w b e {A} (cont : action registry reg_error A) :
  (b = true → outcome r w (cont r)) → outcome r w ((_ ← ensure b e; cont) r).
Proof.
  intros H. unfold ensure, guard_or, mbind, action_bind. destruct b; [by apply H|constructor].
Qed.

Lemma accept_outcome E aid r w : durable r w → env_ok E → outcome r w (accept E aid r).
Proof using RL.
  intros Hr HE. pose proof Hr as (_ & Hg & _).
  apply get_outcome. intros a Ha. apply ensure_outcome. intros Hs%bool_decide_eq_true.
  destruct (good_get _ _ _ Hg Ha) as [Hid (Ht & He & Hv & Hsv & Hsp)].
  eapply persist_outcome; [done|done|by apply in_transitions|..].
  - logged_members.
  - intros q Hq. unfold _apply_wal_entry. cbn [entry_payload kind String.eqb].
    erewrite (read_bytes _ _ "assumption_id") by (exact Hq || done). cbn [mbind result_bind].
    unfold apply_accepted. unfold get in Ha. cbn [Ascii.eqb eqb]. rewrite Ha.
    rewrite Hsp, Hsv by (rewrite ?Hs; naive_solver). reflexivity.
  - apply good_set; [done|done|]. unfold asm_ok. cbn. by split_and!.
  - intros w'. cbv zeta. reflexivity.
Qed.

Lemma discharge_outcome E aid e r w : durable r w → env_ok E → evidence_ok e = true →
  outcome r w (discharge E aid e r).
Proof using RL.
  intros Hr HE Hev. pose proof Hr as (_ & Hg & _).
  apply get_outcome. intros a Ha. apply ensure_outcome. intros Hs%bool_decide_eq_true.
  destruct (good_get _ _ _ Hg Ha) as [Hid (Ht & He & Hv & Hsv & Hsp)].
  eapply persist_outcome; [done|done|by apply in_transitions|..].
  - logged_members. by apply plain_evidence.
  - intros q Hq. unfold _apply_wal_entry. cbn [entry_payload kind String.eqb].
    erewrite (read_bytes _ _ "assumption_id") by (exact Hq || done). cbn [mbind result_bind].
    unfold apply_discharged. unfold get in Ha. cbn [Ascii.eqb eqb]. rewrite Ha.
    rewrite (Hq "evidence") by done. pose proof (read_evidence e Hev) as Hre.
    change (canon <$> _) with (Some (canon (JObj (_evidence_payload e)))). rewrite Hre.
    cbn [mbind result_bind].
    rewrite Hsv by (intros E'; rewrite E' in Hs; naive_solver). reflexivity.
  - apply good_set; [done|done|]. unfold asm_ok. cbn.
    split_and!; [done|by intros ? [= <-]|done|done|by intros []].
  - intros w'. cbv zeta. reflexivity.
Qed.

Context {PL : SetPopLaws P}.

(** A violation of a stored assumption: the loop and its replay. *)
Lemma violate_step d aid a v : dict_ok d → Dict.get d aid = Some a →
  ∃ N, (∀ L, propagate (round_replay (Some v)) (S (length (Dict.set d aid (mark (Some v) a))))
               (Dict.set d aid (mark (Some v) a)) [aid] L
             = Some (mark_all (Some v) (aid :: N) d, L ++ N)) ∧
       propagate (round_live (Some v)) (S (length (Dict.set d aid (mark (Some v) a))))
               (Dict.set d aid (mark (Some v) a)) [aid] [aid]
             = Some (mark_all (Some v) (aid :: N) d, aid :: N) ∧
       NoDup (aid :: N) ∧ ∀ x, x ∈ aid :: N ↔ rtc (dependent d) aid x.
Proof using PL.
  intros Hd Ha. assert (aid ∈ Dict.keys d) as Hin by (apply Dict.get_is_Some; by eexists).
  rewrite Dict.length_set_in by done.
  assert (Dict.set d aid (mark (Some v) a) = mark_all (Some v) [aid] d) as ->.
  { pose proof (set_mark_all (Some v) [] d aid a (proj1 Hd) Ha) as E.
    by rewrite mark_all_nil in E. }
  destruct (propagate_closure (Some v) d aid Hd Hin) as (N & E & HN & Hreach).
  exists N. split_and!; [done| |done..]. by rewrite propagate_live_replay, E.
Qed.

Lemma emit_violated_run aid vids r :
  emit_violated aid vids r =
  ({| _assumptions := _assumptions r; _wal := _wal r;
      emitted := emitted r ++
        ((λ vid, ("assumption.violated",
                  [("assumption_id", JStr (hex vid)); ("root_id", JStr (hex aid))])) <$> vids) |},
   Ok ()).
Proof.
  revert r. induction vids as [|vid vids IH]; intros r; cbn.
  { rewrite app_nil_r. by destruct r. }
  unfold mbind, action_bind. cbn. rewrite IH. cbn. by rewrite <-app_assoc.
Qed.

Lemma violate_outcome E aid v r w : durable r w → env_ok E → violation_ok v = true →
  outcome r w (violate E aid v r).
Proof using RL PL.
  intros Hr HE Hvo. pose proof Hr as (_ & Hg & _).
  apply get_outcome. intros a Ha. case_decide as Hs; [apply unchanged|].
  destruct (good_get _ _ _ Hg Ha) as [Hid Hok]. unfold get in Ha.
  destruct (violate_step _ _ _ v (proj1 Hg) Ha) as (N & Hre & Hli & _).
  eapply persist_outcome; [done|done|by apply in_transitions|..].
  - logged_members. by apply plain_violation.
  - intros q Hq. unfold _apply_wal_entry. cbn [entry_payload kind String.eqb].
    erewrite (read_bytes _ _ "assumption_id") by (exact Hq || done). cbn [mbind result_bind].
    unfold apply_violated. cbn [Ascii.eqb eqb]. rewrite Ha.
    rewrite (Hq "violation") by done. pose proof (read_violation v Hvo) as Hrv.
    change (canon <$> _) with (Some (canon (JObj (_violation_payload v)))). rewrite Hrv.
    cbn [mbind result_bind]. rewrite Hre. reflexivity.
  - by apply good_mark_all.
  - intros w'. unfold mbind, action_bind, store, modify, propagate_live. cbn [_assumptions].
    rewrite Hli, emit_violated_run. reflexivity.
Qed.

(** ** Every call keeps the files and the memory together *)
Lemma outcome_durable r w {A} r' (res : result reg_error A) :
  durable r w → outcome r w (r', res) → ∃ w', durable r' w'.
Proof using RL.
  intros Hr Ho. pose proof Hr as (Hw & Hg & ss & ws & d & Hss & Hws & Hd & Hrep).
  inversion Ho as [?|?|k p w' Hok Happ|k p w' d' ev a Hok Happ Happly Hg']; subst; eauto.
  - destruct (append_spec false _ _ _ _ Hws Hok) as (w1 & E & Hsn & Hh).
    assert (w1 = w') as -> by congruence. exists w'. unfold durable. cbn. rewrite Hsn.
    split_and!; [done|done|]. by exists ss, ws, d.
  - destruct (append_spec true _ _ _ _ Hws Hok) as (w1 & E & Hsn & Hh).
    assert (w1 = w') as -> by congruence. exists w'. unfold durable. cbn. rewrite Hsn.
    split_and!; [done|done|]. exists ss, (ws ++ [Dict.set p "kind" (JStr k)]), d.
    split_and!; [done..|]. rewrite fmap_app, foldlM_app, Hrep. cbn. by rewrite Happly.
Qed.

Lemma hydrate_all d : good d →
  foldlM _hydrate_snapshot_entry [] (entry_of <$> (_snapshot_entry <$> Dict.values d)) = Ok d.
Proof using RL.
  intros [[Hn Hid] Ha].
  enough (∀ d1, NoDup (Dict.keys (d1 ++ d)) →
    foldlM _hydrate_snapshot_entry d1 (entry_of <$> (_snapshot_entry <$> Dict.values d))
    = Ok (d1 ++ d)) as H by (by apply H).
  clear Hn. induction d as [|[k a] d IH]; intros d1 Hn; [by rewrite app_nil_r|].
  apply Forall_cons in Hid as [Hk Hid], Ha as [Hak Ha]. cbn in Hk, Hak.
  unfold Dict.values in *. cbn [fmap list_fmap foldlM snd].
  rewrite hydrate_snapshot_entry by done. cbn [mbind result_bind]. rewrite Hk.
  rewrite Dict.set_notin.
  - change (list (string * Assumption)) with assumptions in *.
    replace (d1 ++ (k, a) :: d) with ((d1 ++ [(k, a)]) ++ d) in * by (by rewrite <-app_assoc).
    by apply IH.
  - rewrite Dict.keys_app, Dict.keys_cons in Hn. apply NoDup_app in Hn as (_ & Hn & _).
    intros Hin. apply (Hn _ Hin). by apply list_elem_of_here.
Qed.

Lemma snapshot_entries_ok d : good d →
  Forall (λ p, entry_ok "proposed" p ∧ Dict.get p "kind" = Some (JStr "proposed"))
    (_snapshot_entry <$> Dict.values d).
Proof using RL.
  intros [_ Ha]. apply Forall_fmap. unfold Dict.values. apply Forall_fmap.
  eapply Forall_impl; [exact Ha|]. intros ka Hka. by apply snapshot_entry_ok.
Qed.

Lemma holds_not_file n ps : holds n ps → n ≠ NotFile.
Proof. by intros [[-> _]|(? & -> & _)]. Qed.

Lemma rotate_durable E r w r' res : durable r w → rotate E r = (r', res) →
  (∃ w', durable r' w') ∧ _assumptions r' = _assumptions r ∧ emitted r' = emitted r ∧
  (lock_free E = true → res = Ok ()).
Proof using RL.
  intros Hr Hrot. pose proof Hr as (Hw & Hg & ss & ws & d & Hss & Hws & Hd & Hrep).
  unfold rotate, lift_wal in Hrot. rewrite Hw in Hrot.
  pose proof (snapshot_entries_ok _ Hg) as Hes.
  destruct (lock_free E) eqn:HE.
  - destruct (rotate_spec _ w ws Hws (holds_not_file _ _ Hss) Hes) as (w' & Er & Hs' & Hw').
    rewrite Er in Hrot. injection Hrot as <- <-. split_and!; [|done..].
    exists w'. unfold durable. cbn. split_and!; [done..|].
    exists (_snapshot_entry <$> Dict.values (_assumptions r)), [], (_assumptions r).
    split_and!; [done| |by apply hydrate_all|done]. right. exists []. by repeat constructor.
  - destruct (snapshot_body_holds _ Hes) as (body & Hb & _).
    unfold rotate_snapshot, lift_result, mbind, action_bind in Hrot.
    rewrite Hb, (lock_wal_holds false w ws) in Hrot by done. cbn in Hrot.
    injection Hrot as <- <-. split_and!; [|done..]. exists (open_wal w). unfold durable. cbn.
    split_and!; [done..|]. exists ss, ws, d. split_and!; try done. by apply holds_open.
Qed.

Lemma restart_durable r w r' res : durable r w → restart r = (r', res) →
  durable r' w ∧ _assumptions r' = _assumptions r ∧ res = Ok ().
Proof using RL.
  intros Hr Hre. pose proof (durable_reload _ _ Hr) as Hl. destruct Hr as (Hw & Hr).
  unfold restart, new_registry in Hre. rewrite Hw, Hl in Hre. cbn in Hre.
  injection Hre as <- <-. by split_and!.
Qed.

(** The calls that log one entry. *)
Definition mutator (o : op) : bool := match o with Rotate | Restart => false | _ => true end.

Lemma run_outcome E o r w : durable r w → env_ok E → op_ok r o → mutator o = true →
  outcome r w (run E o r).
Proof using RL PL.
  intros Hr HE Ho Hm. destruct o; try done; cbn in Ho |- *; apply outcome_void.
  - destruct Ho. by apply propose_outcome.
  - by apply accept_outcome.
  - by apply discharge_outcome.
  - by apply violate_outcome.
Qed.

Lemma run_durable E o r w r' res : durable r w → env_ok E → op_ok r o →
  run E o r = (r', res) → ∃ w', durable r' w'.
Proof using RL PL.
  intros Hr HE Ho Hrun. destruct (mutator o) eqn:Hm.
  - pose proof (run_outcome E o r w Hr HE Ho Hm) as Hout. rewrite Hrun in Hout.
    by eapply outcome_durable.
  - destruct o; try done.
    + by destruct (rotate_durable _ _ _ _ _ Hr Hrun) as [? _].
    + destruct (restart_durable _ _ _ _ Hr Hrun) as [? _]. eauto.
Qed.

(** The registries a program can get to: a new log directory, then any calls. *)
Inductive reachable : registry → Prop :=
| reach_start : reachable {| _assumptions := []; emitted := [];
                             _wal := Some {| snapshot := Absent; wal := Absent |} |}
| reach_step r E o r' res :
    reachable r → env_ok E → op_ok r o → run E o r = (r', res) → reachable r'.

Lemma reachable_durable r : reachable r → ∃ w, durable r w.
Proof using RL PL.
  induction 1 as [|r E o r' res _ [w IH] HE Ho Hrun]; [|by eapply run_durable].
  eexists. unfold durable. split; [done|]. split.
  { split; [split; [constructor|constructor]|constructor]. }
  exists [], [], []. split_and!; [by left|by left|done|done].
Qed.
End laws.
