(* ===== verification/AssumptionsClaims.v ===== *)
(** * The guarantees of the assumption registry, and each at work *)

From Stdlib Require Import Floats.SpecFloat.
From S2P Require Import Prelude Canonical CanonicalRead CanonicalLines AssumptionsWal Assumptions AssumptionsGraph AssumptionsReplay AssumptionsLaws.

Section claims.
Context {P : SetPop} {PL : SetPopLaws P} {R : Runtime} {RL : RuntimeLaws R} {Sh : Sha256}.

(** The lifecycle order, and what of an assumption never changes. *)
Definition rank (s : AssumptionState) : nat :=
  match s with PROPOSED => 0 | ACTIVE => 1 | DISCHARGED => 2 | VIOLATED => 3 end.
Definition evolves (a b : Assumption) : Prop :=
  id b = id a ∧ text b = text a ∧ digest b = digest a ∧ depends_on b = depends_on a ∧
  rank (state a) ≤ rank (state b).
Definition dict_evolves (d d' : assumptions) : Prop :=
  ∀ x a, Dict.get d x = Some a → ∃ b, Dict.get d' x = Some b ∧ evolves a b.

Lemma evolves_refl a : evolves a a.
Proof. by split_and!. Qed.
Lemma dict_evolves_refl d : dict_evolves d d.
Proof. intros x a Ha. exists a. split; [done|apply evolves_refl]. Qed.

Lemma dict_evolves_set d x b :
  (∀ a, Dict.get d x = Some a → evolves a b) → dict_evolves d (Dict.set d x b).
Proof.
  intros Hb y a Ha. rewrite Dict.get_set. case_decide; subst; [by eauto|].
  exists a. split; [done|apply evolves_refl].
Qed.
Lemma dict_evolves_mark v V d : dict_evolves d (mark_all v V d).
Proof.
  intros x a Ha. rewrite get_mark_all, Ha. cbn. eexists. split; [done|].
  case_decide; [|apply evolves_refl]. unfold evolves. cbn. split_and!; try done.
  destruct (state a); cbn; lia.
Qed.

(** A call that raised has changed neither memory nor the events. *)
Definition same_memory (r r' : registry) : Prop :=
  _assumptions r' = _assumptions r ∧ emitted r' = emitted r.

Lemma lift_wal_memory m r r' res : lift_wal m r = (r', res) → same_memory r r'.
Proof.
  unfold lift_wal. destruct (_wal r) as [w|]; [destruct (m w) as [w' r0]|];
    by intros [= <- _].
Qed.

Lemma persist_then E k p {A} (cont : action registry reg_error A) r r' res :
  (_ ← _persist E k p; cont) r = (r', res) →
  (same_memory r r' ∧ is_ok res = false) ∨ ∃ r1, same_memory r r1 ∧ cont r1 = (r', res).
Proof.
  unfold mbind, action_bind. destruct (_persist E k p r) as [r1 [[]|e]] eqn:Hp;
    apply lift_wal_memory in Hp.
  - intros Hc. right. by exists r1.
  - intros [= <- <-]. by left.
Qed.

Lemma get_then aid {A} (cont : Assumption → action registry reg_error A) r r' res :
  (a ← _get aid; cont a) r = (r', res) →
  (r' = r ∧ is_ok res = false) ∨ ∃ a, get r aid = Some a ∧ cont a r = (r', res).
Proof.
  unfold _get, get_state, mbind, action_bind, get. destruct (Dict.get (_assumptions r) aid).
  - cbn. eauto.
  - cbn. intros [= <- <-]. by left.
Qed.
Lemma ensure_then b e {A} (cont : action registry reg_error A) r r' res :
  (_ ← ensure b e; cont) r = (r', res) →
  (r' = r ∧ is_ok res = false) ∨ (b = true ∧ cont r = (r', res)).
Proof.
  unfold ensure, guard_or, mbind, action_bind. destruct b; [by right|].
  intros [= <- <-]. by left.
Qed.

Lemma propose_dict E aid t deps r r' res : propose E aid t deps r = (r', res) →
  (same_memory r r' ∧ is_ok res = false) ∨
  _assumptions r' = Dict.set (_assumptions r) aid (Assumption_propose aid t deps).
Proof.
  intros [H|(r1 & [H1 _] & H)]%persist_then; [by left|]. right.
  injection H as <- _. cbn. by rewrite H1.
Qed.

Lemma accept_dict E aid r r' res : accept E aid r = (r', res) →
  (same_memory r r' ∧ is_ok res = false) ∨
  ∃ a b, get r aid = Some a ∧ state a = PROPOSED ∧ evolves a b ∧
         _assumptions r' = Dict.set (_assumptions r) aid b.
Proof.
  intros [[-> ?]|(a & Ha & H)]%get_then; [by left|].
  apply ensure_then in H as [[-> ?]|[Hs%bool_decide_eq_true H]]; [by left|].
  apply persist_then in H as [H|(r1 & [H1 _] & H)]; [by left|]. right.
  injection H as <- _. cbn. rewrite H1. exists a. eexists. split_and!; [done|done| |done].
  unfold evolves. cbn. rewrite Hs. cbn. split_and!; (done || lia).
Qed.

Lemma discharge_dict E aid e r r' res : discharge E aid e r = (r', res) →
  (same_memory r r' ∧ is_ok res = false) ∨
  ∃ a b, get r aid = Some a ∧ (state a = ACTIVE ∨ state a = PROPOSED) ∧ evolves a b ∧
         _assumptions r' = Dict.set (_assumptions r) aid b.
Proof.
  intros [[-> ?]|(a & Ha & H)]%get_then; [by left|].
  apply ensure_then in H as [[-> ?]|[Hs%bool_decide_eq_true H]]; [by left|].
  apply persist_then in H as [H|(r1 & [H1 _] & H)]; [by left|]. right.
  injection H as <- _. cbn. rewrite H1. exists a. eexists. split_and!; [done|done| |done].
  unfold evolves. cbn. split_and!; try done. destruct Hs as [-> | ->]; cbn; lia.
Qed.

(** [violate]: nothing, or the closure, one event each. *)
Definition violated_event (aid vid : string) : string * payload :=
  ("assumption.violated", [("assumption_id", JStr (hex vid)); ("root_id", JStr (hex aid))]).

Lemma violate_dict E aid v r r' res : dict_ok (_assumptions r) → violate E aid v r = (r', res) →
  (same_memory r r' ∧ is_ok res = false) ∨ (r' = r ∧ res = Ok []) ∨
  ∃ a vs, get r aid = Some a ∧ state a ≠ VIOLATED ∧ res = Ok vs ∧ NoDup vs ∧
    (∀ x, x ∈ vs ↔ rtc (dependent (_assumptions r)) aid x) ∧
    _assumptions r' = mark_all (Some v) vs (_assumptions r) ∧
    emitted r' = emitted r ++ (violated_event aid <$> vs).
Proof using PL.
  intros Hd. unfold violate. intros [[-> ?]|(a & Ha & H)]%get_then; [by left|].
  destruct (decide (state a = VIOLATED)) as [|Hs]; [injection H as <- <-; by right; left|].
  apply persist_then in H as [H|(r1 & [H1 H1'] & H)]; [by left|]. right; right.
  destruct (violate_step _ _ _ v Hd Ha) as (N & _ & Hli & HN & Hreach).
  unfold mbind, action_bind, store, modify, propagate_live in H. cbn [_assumptions] in H.
  rewrite H1, Hli, emit_violated_run in H. injection H as <- <-.
  exists a, (aid :: N). split_and!; try done. cbn. by rewrite H1'.
Qed.

(** ** A kill while an entry is written *)

(** The disk [m]: only a part of the bytes that lead from [w] to [w'] arrived. *)
Definition killed_append (w w' m : AssumptionWal) : Prop :=
  ∃ s x y, wal (open_wal w) = File s ∧ wal w' = File (s +:+ x +:+ y) ∧
           m = {| snapshot := snapshot w; wal := File (s +:+ x) |}.

Lemma append_true_run k p w w' : append true k p w = (w', Ok ()) →
  ∃ line, _canonical_line (Dict.set p "kind" (JStr k)) = Ok line ∧
          w' = write_wal line (open_wal w).
Proof.
  unfold append, ensure, guard_or, lift_result, mbind, action_bind, lock_wal.
  destruct (bool_decide _); [|done]. destruct (_canonical_line _) as [line|]; [|done].
  destruct (wal w); cbn; intros [= <-]; by exists line.
Qed.

Lemma killed_append_killed k p w w' m : append true k p w = (w', Ok ()) →
  killed_append w w' m → append_killed k p w m.
Proof.
  intros (line & Hl & ->)%append_true_run (s & x & y & Hs & Hw & ->).
  unfold write_wal in Hw. cbn in Hs, Hw. rewrite Hs in Hw. injection Hw as Hw.
  apply str_app_inv_head in Hw. pose proof (killed_in_write k p w line x y Hl Hw) as H.
  unfold write_wal in H. cbn in H. by rewrite Hs in H.
Qed.

Lemma reload_parts r w m ws : durable r w → snapshot m = snapshot w →
  _read_lines (wal m) true = Ok ws →
  ∃ ss d, foldlM _hydrate_snapshot_entry [] (entry_of <$> ss) = Ok d ∧
    holds (snapshot w) ss ∧ _reload_from_disk m = foldlM _apply_wal_entry d ws.
Proof using RL.
  intros (_ & _ & ss & ws0 & d & Hs & _ & Hd & _) Hsm Hw. exists ss, d. split_and!; [done..|].
  unfold _reload_from_disk, load_all. rewrite Hsm, (read_holds _ _ _ Hs). cbn. rewrite Hw. cbn.
  by rewrite Hd.
Qed.

Lemma reload_killed_append r w r' w' m E o :
  durable r w → env_ok E → op_ok r o → mutator o = true → run E o r = (r', Ok ()) →
  _wal r' = Some w' → killed_append w w' m → (∀ s, wal m = File s → utf8_valid s = true) →
  _reload_from_disk m = Ok (_assumptions r) ∨ _reload_from_disk m = Ok (_assumptions r').
Proof using RL PL.
  intros Hr HE Ho Hm Hrun Hw' Hk Hu. pose proof (run_outcome E o r w Hr HE Ho Hm) as Hout.
  rewrite Hrun in Hout. pose proof Hr as (Hw & Hg & ss & ws & d & Hss & Hws & Hd & Hrep).
  inversion Hout as [|?|?|k p w1 d' ev a Hok Happ Happly Hg']; subst.
  - left. destruct Hk as (s & x & y & Hs & Hsw & ->).
    assert (w' = w) as -> by congruence. cbn in Hs. rewrite Hsw in Hs. injection Hs as Hs.
    apply str_app_id_r in Hs as [-> ->]%str_app_eq_nil. rewrite str_app_nil_r in *.
    rewrite <-(durable_reload _ _ Hr). f_equal.
    destruct w as [sn wl]. cbn [snapshot wal] in *. congruence.
  - injection Hw' as ->. apply (killed_append_killed _ _ _ _ _ Happ) in Hk.
    destruct (read_append_killed _ _ _ _ _ Hws Hok Hk Hu) as [Hsn [Hrd|Hrd]].
    + left. unfold _reload_from_disk, load_all. rewrite Hsn, (read_holds _ _ _ Hss). cbn.
      rewrite Hrd. cbn. by rewrite Hd.
    + right. unfold _reload_from_disk, load_all. rewrite Hsn, (read_holds _ _ _ Hss). cbn.
      rewrite Hrd. cbn. rewrite Hd. cbn. rewrite fmap_app, foldlM_app, Hrep. cbn.
      by rewrite Happly.
Qed.

(** A log that is not UTF-8 is refused as a whole. *)
Lemma reload_not_utf8 r w m s : durable r w → snapshot m = snapshot w → wal m = File s →
  utf8_valid s = false → _reload_from_disk m = Err (Wal NotUtf8).
Proof using RL.
  intros (_ & _ & ss & ws & d & Hs & _) Hsm Hw Hu. unfold _reload_from_disk, load_all.
  rewrite Hsm, (read_holds _ _ _ Hs), Hw. cbn [_read_lines mbind result_bind].
  destruct (String.eqb_spec s "") as [->|_]; [done|]. by rewrite Hu.
Qed.

Lemma persist_succeeds r w E k p : durable r w → env_ok E → lock_free E = true →
  k ∈ TRANSITIONS → plain_json (JObj p) = true →
  ∃ r1, _persist E k p r = (r1, Ok ()) ∧ same_memory r r1.
Proof using RL.
  intros (Hw & _ & _ & ws & _ & _ & Hws & _) HE Hf Hk Hp.
  destruct (append_spec true k _ _ _ Hws (entry_ok_stamp E k p HE Hk Hp)) as (w' & Happ & _).
  unfold _persist, lift_wal, ensure, mbind, action_bind. rewrite Hw, bool_decide_true by done.
  cbn [guard_or]. rewrite Hf, Happ. eexists. split; [done|]. done.
Qed.

Lemma violate_succeeds r w E aid a v : durable r w → env_ok E → lock_free E = true →
  violation_ok v = true → get r aid = Some a → state a ≠ VIOLATED →
  ∃ r' vs, violate E aid v r = (r', Ok (aid :: vs)).
Proof using RL PL.
  intros Hr HE Hf Hv Ha Hs. pose proof Hr as (_ & [Hd _] & _).
  destruct (violate_step _ _ _ v Hd Ha) as (N & _ & Hli & _).
  edestruct (persist_succeeds r w E "violated"
    [("assumption_id", JStr (hex aid)); ("digest", JStr (hex (digest a)));
     ("violation", JObj (_violation_payload v))]) as (r1 & Hp & H1 & _);
    [done|done|done|by apply in_transitions| |].
  { apply plain_obj; [reflexivity|].
    repeat (constructor; [split; [reflexivity|]|]); [apply plain_hex..| |constructor].
    by apply plain_violation. }
  unfold violate, _get, get_state, mbind, action_bind. unfold get in Ha. rewrite Ha. cbn [mret action_ret].
  rewrite decide_False by done. rewrite Hp.
  unfold store, modify, propagate_live. cbn [_assumptions]. rewrite H1, Hli, emit_violated_run.
  eexists _, N. reflexivity.
Qed.

(** ** The guarantees *)

(** C1: the log is the registry: after any sequence of calls whose texts are
    NFC-normal UTF-8, whose artifact digests are not empty and whose proposed
    ids are new ([op_ok], [env_ok]) - failed calls, lock contention, rotations
    and restarts included - reading the snapshot and the log back gives exactly
    the assumptions in memory, in their order. *)
Theorem replay_is_live r : reachable r →
  ∃ w, _wal r = Some w ∧ _reload_from_disk w = Ok (_assumptions r).
Proof using RL PL.
  intros [w Hr]%reachable_durable. exists w. split; [apply Hr|by apply durable_reload].
Qed.

(** C5: a process killed while a call of [op_ok] appends its log entry leaves
    files that read as the state before the call or as the state after it (a
    torn last line is dropped, a whole line without its newline counts), or,
    when the cut is inside a character, files that are refused as not UTF-8. *)
Theorem kill_during_append r w E o r' w' m :
  reachable r → _wal r = Some w → env_ok E → op_ok r o → mutator o = true →
  run E o r = (r', Ok ()) → _wal r' = Some w' → killed_append w w' m →
  match wal m with
  | File s => if utf8_valid s
              then _reload_from_disk m = Ok (_assumptions r) ∨ _reload_from_disk m = Ok (_assumptions r')
              else _reload_from_disk m = Err (Wal NotUtf8)
  | _ => False
  end.
Proof using RL PL.
  intros [w0 Hr]%reachable_durable Hw HE Ho Hm Hrun Hw' Hk. assert (w0 = w) as -> by (destruct Hr; congruence).
  destruct Hk as (s & x & y & Hs & Hsw & ->). cbn [wal]. destruct (utf8_valid (s +:+ x)) eqn:Hu.
  - eapply reload_killed_append; try done; [by exists s, x, y|]. cbn. by intros s' [= <-].
  - by eapply reload_not_utf8.
Qed.

(** C26: violating a stored assumption returns, whatever order the frontier is
    popped in, exactly the assumptions reachable from it through dependents not
    violated before, each once; those are marked with the violation, no other
    assumption changes, and one event is emitted for each. *)
Theorem violate_closure r E aid a v :
  reachable r → env_ok E → lock_free E = true → violation_ok v = true →
  get r aid = Some a → state a ≠ VIOLATED →
  ∃ r' vs, violate E aid v r = (r', Ok vs) ∧ NoDup vs ∧
    (∀ x, x ∈ vs ↔ rtc (dependent (_assumptions r)) aid x) ∧
    (∀ x, get r' x = (λ b, if decide (x ∈ vs) then mark (Some v) b else b) <$> get r x) ∧
    emitted r' = emitted r ++ (violated_event aid <$> vs).
Proof using RL PL.
  intros [w Hr]%reachable_durable HE Hf Hv Ha Hs.
  destruct (violate_succeeds _ _ _ _ _ _ Hr HE Hf Hv Ha Hs) as (r' & vs & Hrun).
  pose proof Hr as (_ & [Hd _] & _).
  destruct (violate_dict _ _ _ _ _ _ Hd Hrun)
    as [[_ He]|[[_ [=]]|(b & vs' & Hb & _ & Hvs & Hn & Hreach & Hdict & Hem)]]; [done|].
  injection Hvs as Hvs. rewrite Hvs in Hrun.
  exists r', vs'. split_and!; [done..| |done]. intros x. unfold get. by rewrite Hdict, get_mark_all.
Qed.

(** the lifecycle only moves forward: no call, failed or not, removes an
    assumption, takes one back to an earlier state (proposed, active,
    discharged, violated), or changes its text, digest or dependencies. *)
Theorem lifecycle_monotone r E o r' res :
  reachable r → env_ok E → op_ok r o → run E o r = (r', res) →
  dict_evolves (_assumptions r) (_assumptions r').
Proof using RL PL.
  intros [w Hr]%reachable_durable HE Ho Hrun. pose proof Hr as (_ & [Hd _] & _).
  assert (∀ r2, same_memory r r2 → dict_evolves (_assumptions r) (_assumptions r2)) as Hsame
    by (intros r2 [-> _]; apply dict_evolves_refl).
  destruct o as [aid t deps|aid|aid e|aid v| |]; cbn in Hrun; unfold void in Hrun.
  - destruct (propose E aid t deps r) as [r2 res2] eqn:Hp. injection Hrun as <- _.
    apply propose_dict in Hp as [[Hp _]| ->]; [by apply Hsame|]. apply dict_evolves_set.
    intros a Ha. destruct Ho as [_ Ho]. unfold get in Ho. congruence.
  - destruct (accept E aid r) as [r2 res2] eqn:Hp. injection Hrun as <- _.
    apply accept_dict in Hp as [[Hp _]|(a & b & Ha & _ & Hab & ->)]; [by apply Hsame|].
    apply dict_evolves_set. unfold get in Ha. naive_solver.
  - destruct (discharge E aid e r) as [r2 res2] eqn:Hp. injection Hrun as <- _.
    apply discharge_dict in Hp as [[Hp _]|(a & b & Ha & _ & Hab & ->)]; [by apply Hsame|].
    apply dict_evolves_set. unfold get in Ha. naive_solver.
  - destruct (violate E aid v r) as [r2 res2] eqn:Hp. injection Hrun as <- _.
    apply violate_dict in Hp as [[Hp _]|[[-> _]|(a & vs & _ & _ & _ & _ & _ & -> & _)]];
      [by apply Hsame|apply dict_evolves_refl|apply dict_evolves_mark|done].
  - apply (rotate_durable _ _ _ _ _ Hr) in Hrun as (_ & -> & _). apply dict_evolves_refl.
  - apply (restart_durable _ _ _ _ Hr) in Hrun as (_ & -> & _). apply dict_evolves_refl.
Qed.

(** write ahead: a call that raises (the log is locked, the id is unknown
    or the state wrong) has changed no assumption and emitted no event. *)
Theorem failed_call_keeps_memory r E o r' e :
  reachable r → env_ok E → op_ok r o → run E o r = (r', Err e) → same_memory r r'.
Proof using RL PL.
  intros [w Hr]%reachable_durable HE Ho Hrun. destruct (mutator o) eqn:Hm.
  - pose proof (run_outcome E o r w Hr HE Ho Hm) as Hout. rewrite Hrun in Hout.
    by inversion Hout.
  - destruct o; try done.
    + apply (rotate_durable _ _ _ _ _ Hr) in Hrun as (_ & ? & ? & _). by split.
    + by apply (restart_durable _ _ _ _ Hr) in Hrun as (_ & _ & [=]).
Qed.
End claims.

(** ** The guarantees at work *)
Section sample.
#[local] Existing Instance pop_front.
#[local] Existing Instance plain_runtime.
#[local] Instance sample_sha : Sha256 := λ s, "digest".

Definition start : registry :=
  {| _assumptions := []; emitted := []; _wal := Some {| snapshot := Absent; wal := Absent |} |}.
Definition calm : env := {| ambient := Some "run-1"; lock_free := true |}.
Definition busy : env := {| ambient := None; lock_free := false |}.

Fixpoint run_all (r : registry) (ops : list (env * op)) : registry :=
  match ops with [] => r | (E, o) :: ops => run_all (run E o r).1 ops end.
Fixpoint all_ok (r : registry) (ops : list (env * op)) : Prop :=
  match ops with
  | [] => True
  | (E, o) :: ops => env_ok E ∧ op_ok r o ∧ all_ok (run E o r).1 ops
  end.
Lemma reachable_run_all r ops : reachable r → all_ok r ops → reachable (run_all r ops).
Proof.
  revert r. induction ops as [|[E o] ops IH]; intros r Hr; [done|]. cbn.
  intros (HE & Ho & Hall). apply IH; [|done]. eapply reach_step; [done|exact HE|exact Ho|].
  apply surjective_pairing.
Qed.

Definition note (s : string) : Violation := {| violation_text := s; violation_digest := Some "d" |}.
Definition history : list (env * op) :=
  [(calm, Propose "A" "the api is stable" []); (calm, Propose "B" "so is the cache" ["A"]);
   (calm, Propose "C" "the rest" []); (busy, Accept "C"); (calm, Accept "B"); (calm, Rotate);
   (calm, Discharge "B" {| evidence_text := "seen"; evidence_digest := None |})].
Definition sample : registry := run_all start history.

Lemma calm_ok : env_ok calm.
Proof. by intros rid [= <-]. Qed.
Lemma busy_ok : env_ok busy.
Proof. done. Qed.
Lemma sample_reachable : reachable sample.
Proof.
  apply reachable_run_all; [apply reach_start|]. cbn -[run env_ok].
  repeat match goal with
  | |- _ ∧ _ => split
  | |- env_ok calm => apply calm_ok
  | |- env_ok busy => apply busy_ok
  | |- True => done
  end; vm_compute; reflexivity.
Qed.

Lemma replay_is_live_witness :
  ∃ w, _wal sample = Some w ∧ _reload_from_disk w = Ok (_assumptions sample).
Proof. apply (replay_is_live sample), sample_reachable. Defined.

Lemma violate_closure_witness :
  ∃ r' vs, violate calm "A" (note "it moved") sample = (r', Ok vs) ∧ NoDup vs ∧
    (∀ x, x ∈ vs ↔ rtc (dependent (_assumptions sample)) "A" x) ∧
    (∀ x, get r' x = (λ b, if decide (x ∈ vs) then mark (Some (note "it moved")) b else b)
                     <$> get sample x) ∧
    emitted r' = emitted sample ++ (violated_event "A" <$> vs).
Proof.
  eapply (violate_closure sample calm "A");
    [apply sample_reachable|apply calm_ok|reflexivity|reflexivity|vm_compute; reflexivity|discriminate].
Defined.

Lemma lifecycle_monotone_witness :
  dict_evolves (_assumptions sample) (_assumptions (run calm (Violate "A" (note "x")) sample).1).
Proof.
  eapply (lifecycle_monotone sample calm (Violate "A" (note "x")));
    [apply sample_reachable|apply calm_ok|reflexivity|vm_compute; reflexivity].
Defined.

Lemma failed_call_keeps_memory_witness :
  same_memory sample (run busy (Accept "C") sample).1.
Proof.
  eapply (failed_call_keeps_memory sample busy (Accept "C") _ (Wal WalLockContended));
    [apply sample_reachable|apply busy_ok|exact I|vm_compute; reflexivity].
Defined.

(** *** A kill in the middle of a line *)
Definition disk_of (r : registry) : AssumptionWal :=
  default {| snapshot := Absent; wal := Absent |} (_wal r).
Definition data_of (n : node) : string := match n with File s => s | _ => "" end.
Definition cut (keep : nat) (r r' : registry) : AssumptionWal :=
  {| snapshot := snapshot (disk_of r);
     wal := File (String.substring 0 (String.length (data_of (wal (disk_of r))) + keep)
                    (data_of (wal (disk_of r')))) |}.
Definition after_violate : registry := (run calm (Violate "A" (note "x")) sample).1.

Lemma kill_during_append_witness :
  _reload_from_disk (cut 20 sample after_violate) = Ok (_assumptions sample) ∨
  _reload_from_disk (cut 20 sample after_violate) = Ok (_assumptions after_violate).
Proof.
  apply (kill_during_append sample (disk_of sample) calm (Violate "A" (note "x"))
           after_violate (disk_of after_violate) (cut 20 sample after_violate));
    [apply sample_reachable|vm_compute; reflexivity|apply calm_ok|reflexivity|reflexivity
    |vm_compute; reflexivity|vm_compute; reflexivity|].
  eexists (data_of (wal (disk_of sample))),
      (String.substring 0 20 (String.substring (String.length (data_of (wal (disk_of sample)))) 1000
         (data_of (wal (disk_of after_violate))))),
      (String.substring 20 1000 (String.substring (String.length (data_of (wal (disk_of sample)))) 1000
         (data_of (wal (disk_of after_violate))))).
  split_and!; vm_compute; reflexivity.
Defined.

(** *** Where the log and the registry part *)

(** The disk of a rotation killed between its two writes. *)
Definition rotated_pair (r : registry) : AssumptionWal :=
  match snapshot_body (_snapshot_entry <$> Dict.values (_assumptions r)) with
  | Ok body => replace_snapshot body (disk_of r)
  | Err _ => disk_of r
  end.
Definition late_dependent : registry :=
  run_all start [(calm, Propose "A" "the api is stable" []); (calm, Violate "A" (note "it moved"));
                 (calm, Propose "C" "built on a" ["A"])].
Definition states (d : assumptions) : list (string * AssumptionState) :=
  (λ ka, (ka.1, state ka.2)) <$> d.

(** A rotation killed after the new snapshot and before the truncation does
    not always replay to what was in memory: the old log is applied to the new
    snapshot, and a violation logged before a dependent was proposed then
    reaches that dependent. *)
Theorem rotation_pair_violates_late_dependent :
  rotate_killed (_snapshot_entry <$> Dict.values (_assumptions late_dependent))
    (disk_of late_dependent) (rotated_pair late_dependent) ∧
  states (_assumptions late_dependent) = [("A", VIOLATED); ("C", PROPOSED)] ∧
  states <$> _reload_from_disk (rotated_pair late_dependent)
    = Ok [("A", VIOLATED); ("C", VIOLATED)].
Proof.
  split; [|split; vm_compute; reflexivity].
  assert (rotated_pair late_dependent =
    replace_snapshot (data_of (snapshot (rotated_pair late_dependent))) (open_wal (disk_of late_dependent)))
    as -> by (vm_compute; reflexivity).
  apply killed_before_truncate. vm_compute. reflexivity.
Qed.

Definition reopened (w : AssumptionWal) : registry :=
  match new_registry (Some w) with Ok r => r | Err _ => start end.
Definition after_torn : registry := run_all (reopened (cut 20 sample after_violate))
  [(calm, Propose "D" "a new one" [])].

(** A torn last line is dropped by the reader and stays in the file: the
    next entry is written onto it, so an assumption proposed and logged after
    the crash is gone at the next start, and one more entry makes the log
    unreadable. *)
Theorem entry_after_torn_tail_is_lost :
  is_ok (run calm (Propose "D" "a new one" []) (reopened (cut 20 sample after_violate))).2 = true ∧
  is_Some (get after_torn "D") ∧
  Dict.keys <$> _reload_from_disk (disk_of after_torn) = Ok ["A"; "B"; "C"] ∧
  _reload_from_disk (disk_of (run calm (Propose "F" "another" []) after_torn).1)
    = Err (Wal (MalformedLine 1)).
Proof. split_and!; [vm_compute; reflexivity|eexists; vm_compute; reflexivity|vm_compute; reflexivity..]. Qed.

(** The text "e" with an accent takes two bytes. *)
Definition e_acute : string := String "195" (String "169" "").
Definition accented : registry := (run calm (Propose "A" e_acute []) start).1.
(** All of its line but the end of that character and what closes it. *)
Definition kept : nat := String.length (data_of (wal (disk_of accented))) - 4.

(** A line torn inside a multi-byte character is not dropped: the whole
    log is refused. *)
Theorem tail_torn_in_a_character_is_refused :
  killed_append (disk_of start) (disk_of accented) (cut kept start accented) ∧
  _reload_from_disk (cut kept start accented) = Err (Wal NotUtf8).
Proof.
  split; [|vm_compute; reflexivity].
  eexists "", (String.substring 0 kept (data_of (wal (disk_of accented)))),
    (String.substring kept 1000 (data_of (wal (disk_of accented)))).
  split_and!; vm_compute; reflexivity.
Qed.

(** "e" and a combining accent, which NFC makes one letter. *)
Definition decomposed : string := "e" +:+ String "204" (String "129" "").
Definition composing : Runtime := {|
  nfc := λ s, if String.eqb s decomposed then e_acute else s; float_repr := λ _, "0.5"; float_of := λ _, S754_zero false |}.
Definition texts (d : assumptions) : list (string * string) := (λ ka, (ka.1, text ka.2)) <$> d.

(** The log normalises what memory does not: a text that is not NFC is another
    one after a restart. *)
Theorem unnormal_text_changes_at_restart :
  let r := (run (R := composing) calm (Propose "A" decomposed []) start).1 in
  texts (_assumptions r) = [("A", decomposed)] ∧
  texts <$> _reload_from_disk (R := composing) (disk_of r) = Ok [("A", e_acute)].
Proof. split; vm_compute; reflexivity. Qed.

(** An empty artifact digest is read back as none. *)
Theorem empty_digest_is_forgotten :
  let r := run_all start [(calm, Propose "A" "the api is stable" []);
                          (calm, Discharge "A" {| evidence_text := "seen"; evidence_digest := Some "" |})] in
  (discharged_by <$> get r "A") ≫= fmap evidence_digest = Some (Some "") ∧
  match _reload_from_disk (disk_of r) with
  | Ok d => (discharged_by <$> Dict.get d "A") ≫= fmap evidence_digest = Some None
  | Err _ => False
  end.
Proof. split; vm_compute; reflexivity. Qed.
End sample.
