(* ===== verification/Loop.v ===== *)
(** * The recursion loop: its termination causes and its entry

    Models [core/loop.py]: the state of the loop, the checks T1 to T8 in the
    order [evaluate_termination] asks them, and [build_loop_state], which
    refuses, persists and records before the first step.

    The snapshot is judged by the evaluators of [Gates.v], T4 reads the registry
    of [Assumptions.v], T6 the one of [Handshake.v], and the entry writes the
    chain of [SuiteChain.v]. *)

From Stdlib Require Import Floats.SpecFloat.
From S2P Require Import Prelude Canonical CanonicalRead CanonicalLines JsonText Text Predicate Gates.
From S2P Require Import AssumptionsWal Assumptions Handshake SuiteChain.

(** ** Causes *)
Inductive TerminationCause : Type :=
| COMPLETE | REGRESSED | PROVENANCE_FAILURE | ASSUMPTION_BURST | BUDGET_EXHAUSTED
| HANDSHAKE_BLOCKED | PROVIDER_TIMEOUT | PROMPT_DRIFT | PROMPT_DIGEST_MISSING.
#[export] Instance cause_eq_dec : EqDecision TerminationCause.
Proof. solve_decision. Defined.

(** The pinned values. *)
Definition cause_value (c : TerminationCause) : Z :=
  match c with
  | COMPLETE => 1 | REGRESSED => 2 | PROVENANCE_FAILURE => 3 | ASSUMPTION_BURST => 4
  | BUDGET_EXHAUSTED => 5 | HANDSHAKE_BLOCKED => 6 | PROVIDER_TIMEOUT => 7
  | PROMPT_DRIFT => 8 | PROMPT_DIGEST_MISSING => 9
  end.
Definition OUTCOMES : list (TerminationCause * (string * Z)) :=
  [(COMPLETE, ("done", 0%Z)); (REGRESSED, ("failed", 1%Z)); (PROVENANCE_FAILURE, ("refused", 3%Z));
   (ASSUMPTION_BURST, ("failed", 1%Z)); (BUDGET_EXHAUSTED, ("budget", 4%Z));
   (HANDSHAKE_BLOCKED, ("refused", 3%Z)); (PROVIDER_TIMEOUT, ("failed", 6%Z));
   (PROMPT_DRIFT, ("refused", 3%Z)); (PROMPT_DIGEST_MISSING, ("refused", 3%Z))].
Definition outcome_for (c : TerminationCause) : option (string * Z) := Dict.get OUTCOMES c.

(** ** Floats: binary64 *)
Definition fsub : spec_float → spec_float → spec_float := SFsub 53 1024.
Definition fgt (a b : spec_float) : bool := SFltb b a.
Definition fge (a b : spec_float) : bool := SFleb b a.

(** ** Records and the checks of their constructors *)
Record Budget := {
  max_iterations : Z;
  wall_time_seconds : spec_float;
  step_timeout_seconds : spec_float;
}.
Definition make_budget (b : Budget) : result py_error Budget :=
  _ ← guard_or (negb (max_iterations b <? 1)%Z) (ValueError "max_iterations must be >= 1");
  _ ← guard_or (negb (SFleb (wall_time_seconds b) float_zero))
        (ValueError "wall_time_seconds must be > 0");
  _ ← guard_or (negb (SFleb (step_timeout_seconds b) float_zero))
        (ValueError "step_timeout_seconds must be > 0");
  Ok b.

Record MilestoneReport := { milestone_id : string; report_status : string; confidence : spec_float }.
Definition make_report (m : MilestoneReport) : result py_error MilestoneReport :=
  _ ← guard_or (bool_decide (report_status m ∈ ["verified"; "pending"; "blocked"]))
        (ValueError "Invalid milestone status");
  _ ← guard_or (unit_interval (confidence m)) (ValueError "Confidence out of range");
  Ok m.

Record QualityScore := { value : spec_float; score_iteration : Z }.
Definition make_score (q : QualityScore) : result py_error QualityScore :=
  _ ← guard_or (unit_interval (value q)) (ValueError "QualityScore value out of range"); Ok q.

(** [LoopState]: the fields the checks read, and [_last_chain_load_error]. *)
Record LoopState := {
  suite : AcceptanceSuite;
  workspace : WorkspaceSnapshot;
  quality_history : list QualityScore;
  assumption_registry : Assumptions.registry;
  iteration : Z;
  budget : Budget;
  handshakes : Handshake.registry;
  provenance_ok : bool;
  consecutive_timeouts : Z;
  start_time : spec_float;
  delta_regress : spec_float;
  assumption_burst_threshold : Z;
  blocking_handshakes : option (list string);
  strict_prompt_digest : bool;
  current_intent_text : option string;
  _last_chain_load_error : option chain_error;
}.

Section checks.
Context {R : Runtime} {T : PyText} {H : Host} {Sh : Sha256} {Sg : Signing}.

(** ** T1 to T8 *)

(** The loop over the required predicates: [true] when all are ok. *)
Fixpoint all_ok (ps : list AcceptancePredicate) (ws : WorkspaceSnapshot)
    : action (list Gates.event) py_error bool :=
  match ps with
  | [] => mret true
  | p :: ps => r ← evaluate false p ws; if ok r then all_ok ps ws else mret false
  end.
Definition check_t1 (s : AcceptanceSuite) (ws : WorkspaceSnapshot)
    : action (list Gates.event) py_error (option TerminationCause) :=
  match required_predicates s with
  | [] => mret None
  | ps => b ← all_ok ps ws; mret (if b : bool then Some COMPLETE else None)
  end.

Definition check_t2 (history : list QualityScore) (delta : spec_float) : option TerminationCause :=
  match reverse history with
  | last :: previous :: before :: _ =>
      if fgt (fsub (value previous) (value last)) delta &&
         fgt (fsub (value before) (value previous)) delta
      then Some REGRESSED else None
  | _ => None
  end.

Definition check_t3 (ok : bool) : option TerminationCause :=
  if ok then None else Some PROVENANCE_FAILURE.

Definition check_t4 (r : Assumptions.registry) (threshold : Z) : option TerminationCause :=
  if (threshold <? Z.of_nat (length (violated r)))%Z then Some ASSUMPTION_BURST else None.

Definition check_t5 (iteration : Z) (b : Budget) (start_time now : spec_float)
    : option TerminationCause :=
  if (max_iterations b <=? iteration)%Z then Some BUDGET_EXHAUSTED
  else if fge (fsub now start_time) (wall_time_seconds b) then Some BUDGET_EXHAUSTED else None.

Definition check_t6 (r : Handshake.registry) (blocking_ids : option (list string))
    : option TerminationCause :=
  let pending_ids := Handshake.id <$> pending r in
  match pending_ids, blocking_ids with
  | [], _ => None
  | _, None => Some HANDSHAKE_BLOCKED
  | _, Some ids => if existsb (λ i, bool_decide (i ∈ ids)) pending_ids
                   then Some HANDSHAKE_BLOCKED else None
  end.

Definition check_t7 (consecutive_timeouts : Z) : option TerminationCause :=
  if (2 <=? consecutive_timeouts)%Z then Some PROVIDER_TIMEOUT else None.

(** [compute_prompt_digest] of [core/workspace_digest.py] *)
Definition compute_prompt_digest (intent_text : string) : string := sha256 intent_text.
Definition check_t8 (s : AcceptanceSuite) (intent_text : string) (strict : bool)
    : option TerminationCause :=
  match Predicate.prompt_digest s with
  | None => if strict then Some PROMPT_DIGEST_MISSING else None
  | Some d => if String.eqb (compute_prompt_digest intent_text) d then None else Some PROMPT_DRIFT
  end.

(** [if cause := m: return cause], then the rest. *)
Definition or_else (c : option TerminationCause) (rest : option TerminationCause)
    : option TerminationCause :=
  match c with Some c => Some c | None => rest end.

Definition checks_t2_to_t8 (st : LoopState) (now : spec_float) : option TerminationCause :=
  or_else (check_t2 (quality_history st) (delta_regress st))
  (or_else (check_t3 (provenance_ok st))
  (or_else (check_t4 (assumption_registry st) (assumption_burst_threshold st))
  (or_else (check_t5 (iteration st) (budget st) (start_time st) now)
  (or_else (check_t6 (handshakes st) (blocking_handshakes st))
  (or_else (check_t7 (consecutive_timeouts st))
    match current_intent_text st with
    | Some text => check_t8 (suite st) text (strict_prompt_digest st)
    | None => None
    end))))).

Definition evaluate_termination (st : LoopState) (now : spec_float)
    : action (list Gates.event) py_error (option TerminationCause) :=
  c ← check_t1 (suite st) (workspace st);
  match c with
  | Some c => mret (Some c)
  | None => mret (checks_t2_to_t8 st now)
  end.

(** ** Entry *)

(** The files of a run directory. *)
Inductive marker_node : Type := NoMarker | Marker (text : string) | MarkerUnreadable.
Record run_dir := {
  dir_name : string;
  suite_json : option string;
  chain : chain_node;
  marker : marker_node;
}.

Inductive loop_error : Type :=
| VerifierUnavailable (predicate_id verifier why : string)
| ChainRaised (e : chain_error)
| DigestRaised (e : jcs_error)
| MarkerNotUtf8
| ZeroRequired.

(** What the call takes from its surroundings: the ambient run id, the time,
    and whether the chain's lock can be had. *)
Record entry_env := { ambient_run_id : option string; entry_time : Z; chain_lock_free : bool }.

(** The availability pre-check, predicate after predicate. *)
Fixpoint check_verifiers (ps : list AcceptancePredicate) : result loop_error unit :=
  match ps with
  | [] => Ok ()
  | p :: ps =>
      match available p with
      | Err (ImportFailed t msg) | Err (ImportCrashed t msg) =>
          Err (VerifierUnavailable (hex (Predicate.id p)) (Predicate.kind p)
                 ("availability check crashed: " +:+ t +:+ ": " +:+ msg))
      | Ok (false, why) => Err (VerifierUnavailable (hex (Predicate.id p)) (Predicate.kind p) why)
      | Ok (true, _) => check_verifiers ps
      end
  end.

Definition write_suite (s : AcceptanceSuite) : action run_dir loop_error unit :=
  modify (λ d, {| dir_name := dir_name d; suite_json := Some (to_json s); chain := chain d;
                  marker := marker d |}).

(** [run_id]: the ambient one, the marker's, the directory's name. *)
Definition resolve_run_id (E : entry_env) (d : run_dir) : result loop_error string :=
  let or_name r := if String.eqb r "" then dir_name d else r in
  match ambient_run_id E with
  | Some (String _ _ as r) => Ok r
  | _ =>
      match marker d with
      | NoMarker | MarkerUnreadable => Ok (dir_name d)
      | Marker text => if utf8_valid text then Ok (or_name (strip text)) else Err MarkerNotUtf8
      end
  end.

(** [chain.append(...)] of entry 0. *)
Definition append_initial (E : entry_env) (s : AcceptanceSuite) (prompt : string)
    : action run_dir loop_error unit := λ d,
  match resolve_run_id E d with
  | Err e => (d, Err e)
  | Ok run =>
      match Predicate.digest s with
      | Err e => (d, Err (DigestRaised e))
      | Ok suite_digest =>
          let '(c, res) := SuiteChain.append (chain_lock_free E) prompt suite_digest run "initial" None
                             (entry_time E) (chain d) in
          ({| dir_name := dir_name d; suite_json := suite_json d; chain := c; marker := marker d |},
           match res with Ok _ => Ok () | Err e => Err (ChainRaised e) end)
      end
  end.

Definition record_initial (E : entry_env) (s : AcceptanceSuite) (prompt : string)
    : action run_dir loop_error unit := λ d,
  match SuiteChain.entries (chain d) with
  | Err e => (d, Err (ChainRaised e))
  | Ok [] => append_initial E s prompt d
  | Ok _ => (d, Ok ())
  end.

(** The handlers: a contended lock and an [OSError] are recorded, the rest is
    raised. *)
Definition tolerated (e : loop_error) : option chain_error :=
  match e with
  | ChainRaised SuiteChainLockContended => Some SuiteChainLockContended
  | ChainRaised SuiteChain.IsADirectory => Some SuiteChain.IsADirectory
  | _ => None
  end.
Definition init_chain (E : entry_env) (s : AcceptanceSuite)
    : action run_dir loop_error (option chain_error) :=
  match Predicate.prompt_digest s with
  | None => mret None
  | Some prompt => λ d,
      match record_initial E s prompt d with
      | (d', Ok _) => (d', Ok None)
      | (d', Err e) => match tolerated e with Some c => (d', Ok (Some c)) | None => (d', Err e) end
      end
  end.

(** [LoopState.__post_init__] *)
Definition make_state (st : LoopState) : result loop_error LoopState :=
  match required_predicates (suite st) with [] => Err ZeroRequired | _ => Ok st end.

Definition with_chain_error (e : option chain_error) (st : LoopState) : LoopState :=
  {| suite := suite st; workspace := workspace st; quality_history := quality_history st;
     assumption_registry := assumption_registry st; iteration := iteration st;
     budget := budget st; handshakes := handshakes st; provenance_ok := provenance_ok st;
     consecutive_timeouts := consecutive_timeouts st; start_time := start_time st;
     delta_regress := delta_regress st;
     assumption_burst_threshold := assumption_burst_threshold st;
     blocking_handshakes := blocking_handshakes st;
     strict_prompt_digest := strict_prompt_digest st;
     current_intent_text := current_intent_text st; _last_chain_load_error := e |}.

(** [build_loop_state(..., run_dir=d)]; [st] holds the suite and the keywords. *)
Definition build_loop_state (E : entry_env) (skip : bool) (st : LoopState)
    : action run_dir loop_error LoopState :=
  _ ← lift_result (if skip then Ok () else check_verifiers (required_predicates (suite st)));
  _ ← write_suite (suite st);
  e ← init_chain E (suite st);
  lift_result (make_state (match e with Some _ => with_chain_error e st | None => st end)).

(** [load_suite_from_run_dir]; [None] is the [OSError] of a missing file. *)
Definition load_suite_from_run_dir (d : run_dir) : option (result py_error AcceptanceSuite) :=
  suite_from_json <$> suite_json d.
End checks.
