(* ===== verification/LoopLaws.v ===== *)
(** * What the loop guarantees

    When it completes, when it goes on, that it ends, and what is on disk when
    it starts. *)

From Stdlib Require Import Floats.SpecFloat.
From S2P Require Import Prelude Canonical CanonicalRead CanonicalScan CanonicalPrefix CanonicalLines JsonText Text Predicate Gates.
From S2P Require Import AssumptionsWal Assumptions Handshake HandshakeLaws SuiteChain Loop.

Section laws.
Context {R : Runtime} {T : PyText} {H : Host} {Sh : Sha256} {Sg : Signing} {RL : RuntimeLaws R}.

(** ** T1 *)
Lemma evaluate_inv p ws es es' res : evaluate false p ws es = (es', res) →
  res = evaluate_invocation (invocation p) ws.
Proof.
  unfold evaluate, lift_result, modify, mret, action_ret, mbind, action_bind.
  destruct (evaluate_invocation (invocation p) ws); cbn; by intros [= <- <-].
Qed.

Lemma all_ok_true ps ws es :
  (∃ es', all_ok ps ws es = (es', Ok true)) ↔ Forall (λ p, satisfied (invocation p) ws) ps.
Proof.
  revert es. induction ps as [|p ps IH]; intros es; cbn.
  { split; [constructor|eauto]. }
  rewrite Forall_cons, <-evaluate_ok. unfold mbind, action_bind.
  destruct (evaluate false p ws es) as [es1 res] eqn:E. apply evaluate_inv in E as ->.
  destruct (evaluate_invocation (invocation p) ws) as [r|e].
  - destruct (ok r) eqn:Eo.
    + rewrite IH. naive_solver.
    + split; [by intros (? & ?)|]. intros [(r' & [= <-] & ?) _]. congruence.
  - split; [by intros (? & ?)|]. by intros [(? & ? & _) _].
Qed.

(** All the required predicates hold in the snapshot, and there is one. *)
Definition completed (s : AcceptanceSuite) (ws : WorkspaceSnapshot) : Prop :=
  required_predicates s ≠ [] ∧
  ∀ p, p ∈ predicates s → required p = true → satisfied (invocation p) ws.

Lemma check_t1_complete s ws es :
  (∃ es', check_t1 s ws es = (es', Ok (Some COMPLETE))) ↔ completed s ws.
Proof.
  unfold completed.
  assert ((∀ p, p ∈ predicates s → required p = true → satisfied (invocation p) ws) ↔
          Forall (λ p, satisfied (invocation p) ws) (required_predicates s)) as ->.
  { rewrite Forall_forall. unfold required_predicates.
    setoid_rewrite list_elem_of_filter. naive_solver. }
  unfold check_t1. destruct (required_predicates s) as [|p ps].
  { split; [by intros (? & ?)|naive_solver]. }
  rewrite <-(all_ok_true _ _ es). unfold mbind, action_bind.
  destruct (all_ok (p :: ps) ws es) as [es1 [[]|e]].
  - split; [intros _; split; [done|eauto]|eauto].
  - split; [by intros (? & ?)|by intros [_ (? & ?)]].
  - split; [by intros (? & ?)|by intros [_ (? & ?)]].
Qed.

Lemma check_t1_cause s ws es es' c : check_t1 s ws es = (es', Ok (Some c)) → c = COMPLETE.
Proof.
  unfold check_t1. destruct (required_predicates s) as [|p ps]; [done|].
  unfold mbind, action_bind, mret, action_ret.
  destruct (all_ok (p :: ps) ws es) as [es1 [[]|e]]; by intros [= _ <-].
Qed.

(** ** T2 to T8 *)
Lemma or_else_None a b : or_else a b = None ↔ a = None ∧ b = None.
Proof. destruct a; naive_solver. Qed.
Lemma or_else_Some a b c : or_else a b = Some c → a = Some c ∨ b = Some c.
Proof. destruct a; naive_solver. Qed.

Lemma no_other_complete st now : checks_t2_to_t8 st now ≠ Some COMPLETE.
Proof.
  unfold checks_t2_to_t8, check_t2, check_t3, check_t4, check_t5, check_t6, check_t7, check_t8.
  intros Hc. repeat (apply or_else_Some in Hc as [Hc|Hc]);
    repeat match type of Hc with
    | context [match ?x with _ => _ end] => destruct x
    end; congruence.
Qed.

(** The last three scores: two drops in a row by more than the delta. *)
Definition regressed (history : list QualityScore) (delta : spec_float) : Prop :=
  ∃ older a b c, history = older ++ [a; b; c] ∧
    SFltb delta (fsub (value a) (value b)) = true ∧ SFltb delta (fsub (value b) (value c)) = true.
Lemma check_t2_None h d : check_t2 h d = None ↔ ¬ regressed h d.
Proof.
  unfold check_t2, regressed. rewrite <-(reverse_involutive h), (reverse_involutive (reverse h)).
  destruct (reverse h) as [|c [|b [|a rest]]].
  - split; [intros _ (o & ? & ? & ? & E & _)|done]. by apply app_cons_not_nil in E.
  - split; [intros _ (o & ? & ? & ? & E & _)|done].
    apply (f_equal length) in E. rewrite length_app in E. cbn in E. lia.
  - split; [intros _ (o & ? & ? & ? & E & _)|done].
    apply (f_equal length) in E. rewrite length_app in E. cbn in E. lia.
  - rewrite !reverse_cons, <-!app_assoc. cbn [app]. unfold fgt. split.
    + intros Hc (o & a' & b' & c' & E & H1 & H2).
      apply app_inj_2 in E as [_ [= -> -> ->]]; [|done]. by rewrite H1, H2 in Hc.
    + intros Hn. destruct (SFltb d (fsub (value b) (value c))) eqn:E1; [|done].
      destruct (SFltb d (fsub (value a) (value b))) eqn:E2; [|done]. exfalso. apply Hn. eauto 10.
Qed.

(** No pending handshake stops the loop. *)
Definition unblocked (r : Handshake.registry) (ids : option (list string)) : Prop :=
  ∀ item, item ∈ pending r → ∃ l, ids = Some l ∧ Handshake.id item ∉ l.
Lemma check_t6_None r ids : check_t6 r ids = None ↔ unblocked r ids.
Proof.
  unfold check_t6, unblocked. destruct (pending r) as [|item items]; [|rewrite fmap_cons].
  { split; [|done]. by intros _ ? ?%not_elem_of_nil. }
  destruct ids as [l|]; [|split; [done|]; intros Hc; by destruct (Hc item) as (? & ? & _); [left|]].
  rewrite <-fmap_cons.
  destruct (existsb _ _) eqn:E.
  - split; [done|]. intros Hc. apply existsb_exists in E as (i & Hi & Hl).
    apply list_elem_of_In, list_elem_of_fmap in Hi as (x & -> & Hx). apply bool_decide_eq_true in Hl.
    by destruct (Hc x Hx) as (? & [= <-] & ?).
  - split; [|done]. intros _ x Hx. exists l. split; [done|]. intros Hl.
    apply not_true_iff_false in E. apply E, existsb_exists. exists (Handshake.id x).
    split; [apply list_elem_of_In, list_elem_of_fmap; eauto|by apply bool_decide_eq_true].
Qed.

(** The intent is the one the suite was compiled from. *)
Definition intent_bound (st : LoopState) : Prop :=
  ∀ text, current_intent_text st = Some text →
    match Predicate.prompt_digest (suite st) with
    | Some d => compute_prompt_digest text = d
    | None => strict_prompt_digest st = false
    end.

Lemma checks_None st now : checks_t2_to_t8 st now = None ↔
  ¬ regressed (quality_history st) (delta_regress st) ∧ provenance_ok st = true ∧
  (Z.of_nat (length (violated (assumption_registry st))) ≤ assumption_burst_threshold st)%Z ∧
  (iteration st < max_iterations (budget st))%Z ∧
  SFleb (wall_time_seconds (budget st)) (fsub now (start_time st)) = false ∧
  unblocked (handshakes st) (blocking_handshakes st) ∧ (consecutive_timeouts st < 2)%Z ∧
  intent_bound st.
Proof.
  unfold checks_t2_to_t8. rewrite !or_else_None, check_t2_None, check_t6_None.
  assert (check_t3 (provenance_ok st) = None ↔ provenance_ok st = true) as ->
    by (by destruct (provenance_ok st)).
  assert (check_t4 (assumption_registry st) (assumption_burst_threshold st) = None ↔
    (Z.of_nat (length (violated (assumption_registry st))) ≤ assumption_burst_threshold st)%Z) as ->.
  { unfold check_t4. destruct (Z.ltb_spec (assumption_burst_threshold st)
      (Z.of_nat (length (violated (assumption_registry st))))); split; intros; done || lia. }
  assert (check_t5 (iteration st) (budget st) (start_time st) now = None ↔
    (iteration st < max_iterations (budget st))%Z ∧
    SFleb (wall_time_seconds (budget st)) (fsub now (start_time st)) = false) as ->.
  { unfold check_t5, fge. destruct (Z.leb_spec (max_iterations (budget st)) (iteration st)).
    - split; [done|]. intros []. lia.
    - destruct (SFleb _ _); naive_solver lia. }
  assert (check_t7 (consecutive_timeouts st) = None ↔ (consecutive_timeouts st < 2)%Z) as ->.
  { unfold check_t7. destruct (Z.leb_spec 2 (consecutive_timeouts st)); split; intros; done || lia. }
  assert (match current_intent_text st with
          | Some text => check_t8 (suite st) text (strict_prompt_digest st) | None => None end = None
          ↔ intent_bound st) as ->.
  { unfold intent_bound, check_t8. destruct (current_intent_text st) as [text|]; [|naive_solver].
    destruct (Predicate.prompt_digest (suite st)) as [d|].
    - destruct (String.eqb_spec (compute_prompt_digest text) d); naive_solver.
    - destruct (strict_prompt_digest st); naive_solver. }
  tauto.
Qed.

Lemma evaluate_termination_inv st now es es' res :
  evaluate_termination st now es = (es', res) →
  (∃ c, check_t1 (suite st) (workspace st) es = (es', Ok (Some c)) ∧ res = Ok (Some c)) ∨
  (check_t1 (suite st) (workspace st) es = (es', Ok None) ∧ res = Ok (checks_t2_to_t8 st now)) ∨
  (∃ e, check_t1 (suite st) (workspace st) es = (es', Err e) ∧ res = Err e).
Proof.
  unfold evaluate_termination, mbind, action_bind.
  destruct (check_t1 (suite st) (workspace st) es) as [es1 [[c|]|e]]; intros [= <- <-]; eauto 10.
Qed.

(** ** The claims *)

(** C9: the loop ends as complete exactly when the suite requires something and
    the snapshot satisfies every required predicate: a recorded pass, a callable
    that answers true, an artifact with its sidecar, a coupling that holds.
    Nothing unrecorded passes, and no other check answers complete. *)
Theorem complete_iff_satisfied st now es :
  (∃ es', evaluate_termination st now es = (es', Ok (Some COMPLETE))) ↔
  completed (suite st) (workspace st).
Proof.
  rewrite <-(check_t1_complete _ _ es). split.
  - intros (es' & E). destruct (evaluate_termination_inv _ _ _ _ _ E) as
      [(c & Hc & [= <-])|[(_ & [= Hc])|(e & _ & [=])]]; [eauto|].
    by apply eq_sym, no_other_complete in Hc.
  - intros (es' & E). exists es'. unfold evaluate_termination, mbind, action_bind. by rewrite E.
Qed.

(** the loop goes on only when it is not complete, quality has not dropped
    twice in a row, provenance holds, no more assumptions are violated than the
    threshold, both budgets have room, no pending handshake blocks, fewer than
    two timeouts in a row, and the intent is the one compiled; and when the
    evaluators answered and all that holds, it goes on. *)
Theorem goes_on_iff st now es es' :
  evaluate_termination st now es = (es', Ok None) ↔
  check_t1 (suite st) (workspace st) es = (es', Ok None) ∧
  ¬ completed (suite st) (workspace st) ∧
  ¬ regressed (quality_history st) (delta_regress st) ∧ provenance_ok st = true ∧
  (Z.of_nat (length (violated (assumption_registry st))) ≤ assumption_burst_threshold st)%Z ∧
  (iteration st < max_iterations (budget st))%Z ∧
  SFleb (wall_time_seconds (budget st)) (fsub now (start_time st)) = false ∧
  unblocked (handshakes st) (blocking_handshakes st) ∧ (consecutive_timeouts st < 2)%Z ∧
  intent_bound st.
Proof.
  rewrite <-checks_None. split.
  - intros E. destruct (evaluate_termination_inv _ _ _ _ _ E) as
      [(c & _ & [=])|[(Ht & [= Hc])|(e & _ & [=])]].
    split_and!; [done| |done]. rewrite <-(check_t1_complete _ _ es). intros (es2 & E2). congruence.
  - intros (Ht & _ & Hc). unfold evaluate_termination, mbind, action_bind. by rewrite Ht, Hc.
Qed.

(** C34: a loop whose iteration count grows ends within its budget: of the first
    [max_iterations + 1] evaluations at least one halts it, or raises. *)
Theorem loop_ends (st : nat → LoopState) (now : nat → spec_float) b :
  (0 ≤ iteration (st O))%Z → (∀ n, (iteration (st n) < iteration (st (S n)))%Z) →
  (∀ n, budget (st n) = b) → (1 ≤ max_iterations b)%Z →
  ∃ n, (Z.of_nat n ≤ max_iterations b)%Z ∧
       ∀ es es', evaluate_termination (st n) (now n) es ≠ (es', Ok None).
Proof.
  intros H0 Hup Hb Hm. exists (Z.to_nat (max_iterations b)). split; [lia|].
  assert (∀ n, (Z.of_nat n ≤ iteration (st n))%Z) as Hn.
  { intros n. induction n as [|n IH]; [done|]. specialize (Hup n). lia. }
  intros es es' (_ & _ & _ & _ & _ & Hi & _)%goes_on_iff.
  specialize (Hn (Z.to_nat (max_iterations b))). rewrite Hb in Hi. lia.
Qed.

(** ** The entry *)

(** A required verifier that is not there: it answers so, or its check raises. *)
Definition unavailable (p : AcceptancePredicate) : Prop :=
  match available p with Ok (b, _) => b = false | Err _ => True end.
Lemma check_verifiers_ok ps : check_verifiers ps = Ok () ↔ Forall (λ p, ¬ unavailable p) ps.
Proof.
  unfold unavailable. induction ps as [|p ps IH]; cbn.
  { split; [constructor|done]. }
  rewrite Forall_cons, <-IH. destruct (available p) as [[[] why]|[]]; naive_solver.
Qed.
Lemma check_verifiers_err ps e : check_verifiers ps = Err e →
  ∃ p why, p ∈ ps ∧ unavailable p ∧
    e = VerifierUnavailable (hex (Predicate.id p)) (Predicate.kind p) why.
Proof.
  unfold unavailable. induction ps as [|p ps IH]; cbn; [done|].
  destruct (available p) as [[[] why]|[t m|t m]] eqn:E; [|intros [= <-]..].
  - intros (q & w & Hq & ?)%IH. exists q, w. by split; [right|].
  - exists p, why. rewrite E. by split_and!; [left| |].
  - eexists p, _. rewrite E. by split_and!; [left| |].
  - eexists p, _. rewrite E. by split_and!; [left| |].
Qed.

(** the entry is refused exactly when a required verifier is not there, or
    its check raises: the refusal names one, and the run directory is as it
    was: no suite, no chain. *)
Theorem entry_refused_iff E st d :
  (∃ p, p ∈ required_predicates (suite st) ∧ unavailable p) ↔
  ∃ p why, p ∈ required_predicates (suite st) ∧ unavailable p ∧
    build_loop_state E false st d =
      (d, Err (VerifierUnavailable (hex (Predicate.id p)) (Predicate.kind p) why)).
Proof.
  split; [|by intros (p & _ & ? & ? & _); exists p]. intros (p & Hp & Hu).
  unfold build_loop_state, lift_result, mbind, action_bind.
  destruct (check_verifiers _) as [[]|e] eqn:Hc.
  - apply check_verifiers_ok in Hc. rewrite Forall_forall in Hc. by destruct (Hc p Hp).
  - apply check_verifiers_err in Hc as (q & why & ? & ? & ->). eauto.
Qed.

Lemma digest_plain s dg : Predicate.digest s = Ok dg → plain_text dg = true.
Proof using RL.
  unfold Predicate.digest. destruct (encode _); cbn; [|done]. intros [= <-]. apply plain_hex.
Qed.

Lemma resolve_run_id_err E d e : resolve_run_id E d = Err e → e = MarkerNotUtf8.
Proof. unfold resolve_run_id. repeat case_match; congruence. Qed.

(** What entry 0 is. *)
Definition initial_entry (s : AcceptanceSuite) (p : string) (e : SuiteChainEntry) : Prop :=
  SuiteChain.prompt_digest e = p ∧ Predicate.digest s = Ok (suite_digest e) ∧ origin e = "initial".

Lemma append_dir b prompt su run orig sig ts c c' :
  SuiteChain.append b prompt su run orig sig ts c = (c', Err SuiteChain.IsADirectory) → c = ChainDir.
Proof.
  unfold SuiteChain.append, ensure, lift_result, modify, mret, action_ret, mbind, action_bind, guard_or.
  destruct (Nat.eqb _ 32); [|done]. cbn -[chain_payload MAX_ENTRY_BYTES encode lock_chain].
  destruct (bool_decide _); [|done]. cbn -[chain_payload MAX_ENTRY_BYTES encode lock_chain].
  destruct (encode _); [|done]. cbn -[MAX_ENTRY_BYTES lock_chain].
  destruct (Nat.leb _ _); [|done]. unfold lock_chain, guard_or. by destruct c, b.
Qed.

Lemma append_initial_spec E s p d d' res :
  chain_holds (chain d) [] → append_initial E s p d = (d', res) →
  (∀ run, resolve_run_id E d = Ok run → plain_text run = true) →
  suite_json d' = suite_json d ∧
  match res with
  | Ok _ => ∃ e, chain_holds (chain d') [e] ∧ initial_entry s p e
  | Err e => chain_holds (chain d') [] ∧ e ≠ ChainRaised SuiteChain.IsADirectory
  end.
Proof using RL.
  intros Hc Hi Hrun. unfold append_initial in Hi.
  destruct (resolve_run_id E d) as [run|er] eqn:Hr.
  2: { injection Hi as <- <-. split_and!; [done..|]. apply resolve_run_id_err in Hr as ->. done. }
  destruct (Predicate.digest s) as [dg|er] eqn:Hd; [|by injection Hi as <- <-].
  destruct (SuiteChain.append _ _ _ _ _ _ _ _) as [c r] eqn:Ha. injection Hi as <- <-.
  split; [done|]. cbn [chain].
  assert (append_args_ok dg run) as Hargs by (split; eauto using digest_plain).
  pose proof (append_holds _ _ _ _ _ _ _ _ _ _ _ Hc Hargs Ha) as Hh.
  destruct r as [e|e].
  2: { split; [done|]. intros [= ->]. apply append_dir in Ha. rewrite Ha in Hc.
       by destruct Hc as [[? _]|(? & ? & _)]. }
  destruct Hh as (Hh & Hp & Hs & _ & Ho & _).
  exists e. split; [done|]. unfold initial_entry. by rewrite Hs.
Qed.

(** What the chain is once the entry has returned. *)
Definition entry_chain (s : AcceptanceSuite) (before after : list SuiteChainEntry)
    (err : option chain_error) : Prop :=
  match Predicate.prompt_digest s, before with
  | None, _ | Some _, _ :: _ => after = before ∧ err = None
  | Some p, [] => (∃ e, after = [e] ∧ initial_entry s p e ∧ err = None) ∨
                  (after = [] ∧ err = Some SuiteChainLockContended)
  end.

Lemma init_chain_spec E s d d' res es :
  chain_holds (chain d) es → init_chain E s d = (d', Ok res) →
  (∀ run, resolve_run_id E d = Ok run → plain_text run = true) →
  suite_json d' = suite_json d ∧ ∃ es', entries (chain d') = Ok es' ∧ entry_chain s es es' res.
Proof using RL.
  intros Hc Hi Hrun. unfold init_chain in Hi. pose proof (entries_holds _ _ Hc) as He.
  unfold entry_chain. destruct (Predicate.prompt_digest s) as [p|].
  2: { injection Hi as <- <-. eauto. }
  unfold record_initial in Hi. rewrite He in Hi.
  destruct es as [|e0 es]; [|injection Hi as <- <-; eauto].
  destruct (append_initial E s p d) as [d1 r] eqn:Ha.
  destruct (append_initial_spec _ _ _ _ _ _ Hc Ha Hrun) as [Hs Hh].
  destruct r as [[]|e].
  - injection Hi as <- <-. split; [done|]. destruct Hh as (e & Hh & Hini).
    exists [e]. split; [by apply entries_holds|]. left. eauto.
  - destruct (tolerated e) as [c|] eqn:Ht; [|done]. injection Hi as <- <-. split; [done|].
    exists []. split; [by apply entries_holds, Hh|]. right. split; [done|]. f_equal.
    destruct Hh as [_ Hh]. destruct e as [| [] | | |]; try discriminate Ht; by injection Ht as <-.
Qed.

(** an entry that returns left the suite in [suite.json], and reading the
    directory gives that suite back, with at least one required predicate; a
    run that starts without a chain has entry 0 with the suite's two digests, or
    the state records that the lock was taken; a chain that was there stays. *)
Theorem entry_is_on_disk E skip st d d' st' es :
  build_loop_state E skip st d = (d', Ok st') → chain_holds (chain d) es →
  (∀ run, resolve_run_id E d = Ok run → plain_text run = true) →
  wf_suite (suite st) → suite_writable (suite st) → _last_chain_load_error st = None →
  load_suite_from_run_dir d' = Some (Ok (suite st)) ∧ suite st' = suite st ∧
  required_predicates (suite st') ≠ [] ∧
  ∃ es', entries (chain d') = Ok es' ∧
         entry_chain (suite st) es es' (_last_chain_load_error st').
Proof using RL.
  intros Hb Hc Hrun Hwf Hw Hnone. revert Hb.
  unfold build_loop_state, write_suite, lift_result, modify, mbind, action_bind.
  destruct (if skip then Ok () else _) as [[]|e]; [|done]. cbn [fst snd].
  set (d0 := Build_run_dir _ _ _ _).
  destruct (init_chain E (suite st) d0) as [d1 [res|e]] eqn:Hi; [|done]. intros [= -> Hm].
  destruct (init_chain_spec _ _ d0 _ _ es Hc Hi Hrun) as (Hs & es' & He & Hch).
  set (st1 := match res with Some _ => _ | None => _ end) in Hm.
  assert (suite st1 = suite st) as Hst1 by (by destruct res).
  assert (_last_chain_load_error st1 = res) as Herr by (by destruct res).
  unfold make_state in Hm. rewrite Hst1 in Hm.
  destruct (required_predicates (suite st)) eqn:Hr; [done|]. injection Hm as <-.
  split_and!; [|done|by rewrite Hst1, Hr|exists es'; by rewrite Herr].
  unfold load_suite_from_run_dir. rewrite Hs. cbn. f_equal.
  by apply suite_reads_back.
Qed.
End laws.

(** ** A concrete run *)
#[local] Existing Instance gate_runtime.
#[local] Existing Instance plain_pytext.
#[local] Existing Instance sample_sha.
#[local] Existing Instance sample_signing.
#[local] Instance gate_runtime_laws : RuntimeLaws gate_runtime.
Proof. by split. Qed.

(** A host with pytest and nothing else. *)
#[local] Instance sample_host : Gates.Host := {|
  which tool := String.eqb tool "pytest"; find_spec _ := Ok false;
  import_attr m _ := Err (ImportFailed "ModuleNotFoundError" m); elapsed := 1 |}.

Definition half_minute : spec_float := S754_finite false 8444249301319680 (-48).
Definition sample_budget (n : Z) : Budget :=
  {| max_iterations := n; wall_time_seconds := half_minute; step_timeout_seconds := half_minute |}.
Definition sample_state (recorded : list (string * json)) (r : Handshake.registry)
    (blocking : option (list string)) (i : Z) : LoopState := {|
  suite := sample_suite;
  workspace := {| files := []; Gates.timestamp := float_zero; Gates.metadata := recorded |};
  quality_history := [];
  assumption_registry := {| _assumptions := []; _wal := None; Assumptions.emitted := [] |};
  iteration := i; budget := sample_budget 3; handshakes := r; provenance_ok := true;
  consecutive_timeouts := 0; start_time := float_zero; delta_regress := float_zero;
  assumption_burst_threshold := 3; blocking_handshakes := blocking;
  strict_prompt_digest := false; current_intent_text := None; _last_chain_load_error := None |}.
Definition no_handshakes : Handshake.registry :=
  {| registry_file := Missing; marks := []; Handshake.emitted := [] |}.
Definition test_passed : list (string * json) :=
  [("pytest", JObj [("tests/test_x.py", JObj [("ok", JBool true)])])].

(** Nothing recorded: the loop goes on.  The test recorded as passed: done. *)
Example unrecorded_goes_on :
  (evaluate_termination (sample_state [] no_handshakes None 0) float_zero []).2 = Ok None.
Proof. vm_compute. reflexivity. Qed.
Example recorded_completes :
  (evaluate_termination (sample_state test_passed no_handshakes None 0) float_zero []).2
    = Ok (Some COMPLETE).
Proof. vm_compute. reflexivity. Qed.

Lemma loop_ends_witness :
  let st n := sample_state [] no_handshakes None (Z.of_nat n) in
  (evaluate_termination (st 0) float_zero []).2 = Ok None ∧
  ∃ n, (Z.of_nat n ≤ 3)%Z ∧ ∀ es es', evaluate_termination (st n) float_zero es ≠ (es', Ok None).
Proof.
  cbn zeta. split; [vm_compute; reflexivity|].
  apply (loop_ends (λ n, sample_state [] no_handshakes None (Z.of_nat n)) (λ _, float_zero)
           (sample_budget 3)); cbn; (done || lia).
Defined.

Definition sample_dir : run_dir :=
  {| dir_name := "run-7"; suite_json := None; chain := NoChain; marker := NoMarker |}.
Definition sample_env : entry_env :=
  {| ambient_run_id := None; entry_time := 5; chain_lock_free := true |}.

Example refused_without_pytest :
  let bare : Gates.Host := {| which _ := false; find_spec _ := Ok false;
    import_attr m _ := Err (ImportFailed "ModuleNotFoundError" m); elapsed := 1 |} in
  (build_loop_state (H := bare) sample_env false (sample_state [] no_handshakes None 0) sample_dir).1
    = sample_dir.
Proof. vm_compute. reflexivity. Qed.

Lemma entry_is_on_disk_witness : ∃ d' st' e,
  build_loop_state sample_env false (sample_state [] no_handshakes None 0) sample_dir = (d', Ok st') ∧
  load_suite_from_run_dir d' = Some (Ok sample_suite) ∧ entries (chain d') = Ok [e] ∧
  run_id e = "run-7".
Proof.
  destruct (build_loop_state sample_env false (sample_state [] no_handshakes None 0) sample_dir)
    as [d' [st'|e]] eqn:E; [|vm_compute in E; discriminate E].
  assert (chain_holds (chain sample_dir) []) as Hc by (left; split; reflexivity).
  assert (∀ run, resolve_run_id sample_env sample_dir = Ok run → plain_text run = true) as Hrun.
  { intros run. cbn. intros [= <-]. vm_compute. reflexivity. }
  destruct (entry_is_on_disk _ _ _ _ _ _ _ E Hc Hrun sample_suite_wf sample_suite_writable eq_refl)
    as (Hl & _ & _ & es' & He & _).
  assert (∃ e, es' = [e] ∧ run_id e = "run-7") as (e & -> & Hid).
  { assert (match entries (chain (build_loop_state sample_env false
        (sample_state [] no_handshakes None 0) sample_dir).1) with
      | Ok [e] => run_id e = "run-7" | _ => False end) as Hone by (vm_compute; reflexivity).
    rewrite E in Hone. cbn [fst] in Hone. rewrite He in Hone.
    destruct es' as [|e [|]]; [destruct Hone| |destruct Hone]. exists e. exact (conj eq_refl Hone). }
  exists d', st', e. split; [reflexivity|]. split; [exact Hl|]. exact (conj He Hid).
Defined.

(** On a run directory whose first append was torn, the entry returns and
    records no error, and the chain it leaves reads as empty. *)
Theorem entry_on_a_torn_chain_leaves_no_entry : ∃ d' st',
  build_loop_state sample_env false (sample_state [] no_handshakes None 0)
    {| dir_name := "run-7"; suite_json := None; chain := torn_chain; marker := NoMarker |}
    = (d', Ok st') ∧ _last_chain_load_error st' = None ∧ entries (chain d') = Ok [].
Proof.
  eexists _, _. split; [vm_compute; reflexivity|]. split; [reflexivity|].
  vm_compute. reflexivity.
Qed.

(** The registry a repository ships, with a pending item of an id the operator
    asks for and approves. *)
Definition shipped_pending : HandshakeItem := with_status "pending" shipped_item.
Definition shipping_machine : Handshake.registry :=
  {| registry_file := Data (json_dumps (Some 2) (JArr [raw_of shipped_pending])); marks := [];
     Handshake.emitted := [] |}.

(** A shipped pending copy of an id keeps the loop blocked after the operator
    approved the item he asked for, while the commit gate is open. *)
Theorem shipped_copy_blocks_the_loop :
  let r := run session shipping_machine in
  is_approved 5 r "deploy" = true ∧ blocks_commit 5 r ["deploy"] = [] ∧
  check_t6 r (Some ["deploy"]) = Some HANDSHAKE_BLOCKED.
Proof. vm_compute. by repeat split. Qed.
