(* ===== verification/ToolGate.v ===== *)
(** * The tool-invocation gate

    Models [executor/tool_gate.py]: argument schemas, the registry that
    freezes, the budget, and [ToolInvocationGate.invoke] with its four gates,
    its events and its records.  A tool is code outside of the gate: it acts on
    a world of its own and returns or raises. *)

From S2P Require Import Prelude Canonical.
From Stdlib Require Import Floats.SpecFloat.
From stdpp Require Import pretty.

(** ** Values and their classes *)
Inductive pytype : Type :=
| TStr | TInt | TFloat | TBool | TList | TTuple | TDict | TClass (name : string).
#[export] Instance pytype_eq_dec : EqDecision pytype.
Proof. solve_decision. Defined.

(** An argument or a result; [AObj] is an instance of another class, with the
    builtin classes it derives from. *)
Inductive arg : Type :=
| ANone
| ABool (b : bool)
| AInt (n : Z)
| AFloat (f : spec_float)
| AStr (s : string)
| ABytes (s : string)
| AList (l : list arg)
| ATuple (l : list arg)
| ADict (kvs : list (arg * arg))
| AObj (cls : string) (bases : list pytype).

Definition type_name (t : pytype) : string :=
  match t with
  | TStr => "str" | TInt => "int" | TFloat => "float" | TBool => "bool"
  | TList => "list" | TTuple => "tuple" | TDict => "dict" | TClass n => n
  end.
Definition class_of (a : arg) : string :=
  match a with
  | ANone => "NoneType" | ABool _ => "bool" | AInt _ => "int" | AFloat _ => "float"
  | AStr _ => "str" | ABytes _ => "bytes" | AList _ => "list" | ATuple _ => "tuple"
  | ADict _ => "dict" | AObj c _ => c
  end.

(** [isinstance]: [bool] derives from [int]. *)
Definition isinstance (a : arg) (t : pytype) : bool :=
  match a, t with
  | ABool _, (TBool | TInt) | AInt _, TInt | AFloat _, TFloat | AStr _, TStr
  | AList _, TList | ATuple _, TTuple | ADict _, TDict => true
  | AObj c bases, _ => bool_decide (t ∈ bases) || bool_decide (t = TClass c)
  | _, _ => bool_decide (t = TClass (class_of a))
  end.
Definition is_bool (a : arg) : bool := match a with ABool _ => true | _ => false end.

(** [repr]: of a string, of the arguments and of a result ([None]: it raised). *)
Class Repr := {
  repr_str : string → string;
  repr_args : list (string * arg) → string;
  repr_value : arg → option string;
}.
Definition plain_repr : Repr :=
  {| repr_str := λ s, s; repr_args := λ _, "{...}"; repr_value := λ _, Some "value" |}.

(** ** Schemas *)
Definition _ALLOWED_TYPES : list pytype := [TStr; TInt; TFloat; TBool; TList; TTuple; TDict].

Record ToolArgSpec := { name : string; type_ : pytype; optional : bool }.
Definition ToolArgSchema := list ToolArgSpec.

(** [ToolArgSpec.__post_init__]: [None] is the [ValueError]. *)
Definition make_spec (n : string) (t : pytype) (opt : bool) : option ToolArgSpec :=
  if decide (t ∈ _ALLOWED_TYPES) then Some {| name := n; type_ := t; optional := opt |} else None.

Notation args := (list (string * arg)).
Definition details := list (string * json).

(** What [invoke] raises: the gate's refusal, or what the tool raised. *)
Inductive gate_error : Type :=
| ToolInvocationRefused (tool_id gate reason : string) (ds : details)
| ToolRaised (exception message : string).

Section gate.
Context {Rp : Repr}.

Definition repr_names (l : list string) : string :=
  "[" +:+ str_join ", " (repr_str <$> l) +:+ "]".

(** The loop of [validate] over the declared arguments. *)
Fixpoint check_specs (specs : list ToolArgSpec) (a : args) : option (string * details) :=
  match specs with
  | [] => None
  | spec :: specs =>
      match Dict.get a (name spec) with
      | None =>
          if optional spec then check_specs specs a
          else Some ("missing required arg " +:+ repr_str (name spec),
                     [("missing_arg", JStr (name spec))])
      | Some value =>
          if bool_decide (type_ spec = TInt) && is_bool value
          then Some ("arg " +:+ repr_str (name spec) +:+ " expected int; got bool",
                     [("arg", JStr (name spec)); ("value_type", JStr "bool")])
          else if negb (isinstance value (type_ spec))
          then Some ("arg " +:+ repr_str (name spec) +:+ " type mismatch: expected " +:+
                     type_name (type_ spec) +:+ ", got " +:+ class_of value,
                     [("arg", JStr (name spec)); ("expected", JStr (type_name (type_ spec)))])
          else check_specs specs a
      end
  end.

(** [validate]: [None] is [(True, "", {})]. *)
Definition validate (schema : ToolArgSchema) (a : args) : option (string * details) :=
  match py_sorted String.leb (filter (.∉ (name <$> schema)) (Dict.keys a)) with
  | [] => check_specs schema a
  | extras => Some ("unknown args: " +:+ repr_names extras,
                    [("unknown_args", JArr (JStr <$> extras))])
  end.

(** ** The registry *)
Context {W : Type}.

Record ToolDefinition := {
  tool_id : string;
  schema : ToolArgSchema;
  call : args → W → W * result (string * string) arg;
}.

Record ToolRegistry := { _defs : list (string * ToolDefinition); _frozen : bool }.

Inductive registry_error : Type := Frozen | AlreadyRegistered (tid : string).

Definition register (defn : ToolDefinition) : action ToolRegistry registry_error unit := λ r,
  if _frozen r then (r, Err Frozen)
  else if Dict.mem (_defs r) (tool_id defn) then (r, Err (AlreadyRegistered (tool_id defn)))
  else ({| _defs := Dict.set (_defs r) (tool_id defn) defn; _frozen := false |}, Ok ()).
Definition freeze : action ToolRegistry registry_error unit :=
  modify (λ r, {| _defs := _defs r; _frozen := true |}).
Definition lookup (r : ToolRegistry) (tid : string) : option ToolDefinition :=
  Dict.get (_defs r) tid.
Definition declared_ids (r : ToolRegistry) : list string := Dict.keys (_defs r).

(** ** The budget *)
Record ToolBudget := { max_invocations : Z; used : Z }.
Definition consume (b : ToolBudget) : ToolBudget * bool :=
  if (max_invocations b <=? used b)%Z then (b, false)
  else ({| max_invocations := max_invocations b; used := used b + 1 |}, true).
Definition remaining (b : ToolBudget) : Z := Z.max 0 (max_invocations b - used b).

(** ** The gate *)
Record ToolInvocationRecord := {
  rec_tool_id : string;
  args_repr : string;
  ok : bool;
  refused_gate : string;
  refused_reason : string;
  latency_ms : spec_float;
  result_size_bytes : Z;
}.

(** What the gate does to the outside, in order. *)
Inductive effect : Type :=
| Emitted (kind : string) (p : details)
| Called (tid : string) (a : args).

(** The gate's own fields, the world the tools act on, and the effects. *)
Record gate_state := {
  budget : ToolBudget;
  records : list ToolInvocationRecord;
  world : W;
  effects : list effect;
}.

(** What the gate is built over. *)
Record gate_config := {
  registry : ToolRegistry;
  declared_tool_ids : gset string;
  step_id_hex : string;
}.

Definition _MAX_ARGS_REPR : nat := 512.
Definition _bounded_repr (a : args) : string :=
  let raw := repr_args a in
  if (str_len raw <=? _MAX_ARGS_REPR)%nat then raw
  else str_take (_MAX_ARGS_REPR - 3) raw +:+ "...".

(** [len(repr(result).encode())]: the bytes of the text. *)
Definition _approximate_size_bytes (r : arg) : Z :=
  match r with
  | ANone => 0
  | ABytes s => Z.of_nat (String.length s)
  | _ => match repr_value r with Some s => Z.of_nat (String.length s) | None => 0 end
  end.

Definition perform (e : effect) : action gate_state gate_error unit :=
  modify (λ g, {| budget := budget g; records := records g; world := world g;
                  effects := effects g ++ [e] |}).
Definition record (r : ToolInvocationRecord) : action gate_state gate_error unit :=
  modify (λ g, {| budget := budget g; records := records g ++ [r]; world := world g;
                  effects := effects g |}).

(** [_emit]: an error of the sink is swallowed. *)
Definition _emit (C : gate_config) (kind : string) (p : details) : action gate_state gate_error unit :=
  perform (Emitted kind
    (if Dict.mem p "step_id_hex" then p else Dict.set p "step_id_hex" (JStr (step_id_hex C)))).

Definition zero_float : spec_float := S754_zero false.

Definition _refuse {A} (C : gate_config) (tid gate reason : string) (ds : details) (arepr : string)
    : action gate_state gate_error A :=
  _ ← _emit C "tool.invocation.refused"
        [("tool_id", JStr tid); ("gate", JStr gate); ("reason", JStr reason); ("details", JObj ds)];
  _ ← record {| rec_tool_id := tid; args_repr := arepr; ok := false; refused_gate := gate;
                refused_reason := reason; latency_ms := zero_float; result_size_bytes := 0 |};
  raise (ToolInvocationRefused tid gate reason ds).

(** [self._budget.consume()] *)
Definition consume_slot : action gate_state gate_error bool := λ g,
  let '(b, got) := consume (budget g) in
  ({| budget := b; records := records g; world := world g; effects := effects g |}, Ok got).
Definition get_budget : action gate_state gate_error ToolBudget := λ g, (g, Ok (budget g)).

(** The call of the tool: it returns, or raises with its state changed. *)
Definition run_tool (d : ToolDefinition) (tid : string) (a : args)
    : action gate_state gate_error (result (string * string) arg) := λ g,
  let '(w, res) := call d a (world g) in
  ({| budget := budget g; records := records g; world := w;
      effects := effects g ++ [Called tid a] |}, Ok res).

(** [invoke], with the latency the clock will show. *)
Definition invoke (C : gate_config) (latency : spec_float) (tid : string) (a : args)
    : action gate_state gate_error arg :=
  let arepr := _bounded_repr a in
  if negb (bool_decide (tid ∈ declared_tool_ids C)) then
    _refuse C tid "manifest"
      ("tool " +:+ repr_str tid +:+ " is not declared in the run's CapabilityManifest.tools allowlist")
      [("declared_ids", JArr (JStr <$> py_sorted String.leb (elements (declared_tool_ids C))))] arepr
  else match lookup (registry C) tid with
  | None =>
      _refuse C tid "registry"
        ("tool " +:+ repr_str tid +:+
         " is declared in the manifest but no implementation is registered in the ToolRegistry")
        [] arepr
  | Some defn =>
      match validate (schema defn) a with
      | Some (reason, ds) => _refuse C tid "args" reason ds arepr
      | None =>
          got ← consume_slot;
          b ← get_budget;
          if negb got then
            _refuse C tid "budget"
              ("tool budget exhausted (used=" +:+ pretty (used b) +:+ " of max=" +:+
               pretty (max_invocations b) +:+ ")")
              [("used", JInt (used b)); ("max", JInt (max_invocations b))] arepr
          else
            _ ← _emit C "tool.invocation.pre"
                  [("tool_id", JStr tid); ("args_repr", JStr arepr);
                   ("budget_used", JInt (used b)); ("budget_max", JInt (max_invocations b))];
            res ← run_tool defn tid a;
            match res with
            | Err (exn, msg) =>
                _ ← _emit C "tool.invocation.post"
                      [("tool_id", JStr tid); ("ok", JBool false); ("exception", JStr exn);
                       ("latency_ms", JFloat latency)];
                _ ← record {| rec_tool_id := tid; args_repr := arepr; ok := false;
                              refused_gate := "exception"; refused_reason := exn +:+ ": " +:+ msg;
                              latency_ms := latency; result_size_bytes := 0 |};
                raise (ToolRaised exn msg)
            | Ok value =>
                let size := _approximate_size_bytes value in
                _ ← _emit C "tool.invocation.post"
                      [("tool_id", JStr tid); ("ok", JBool true); ("latency_ms", JFloat latency);
                       ("result_size_bytes", JInt size)];
                _ ← record {| rec_tool_id := tid; args_repr := arepr; ok := true;
                              refused_gate := ""; refused_reason := "";
                              latency_ms := latency; result_size_bytes := size |};
                mret value
            end
      end
  end.

(** The calls of one step, one after the other; an error does not end the step
    for the gate. *)
Fixpoint invoke_all (C : gate_config) (reqs : list (spec_float * string * args)) (g : gate_state)
    : gate_state :=
  match reqs with
  | [] => g
  | (lat, tid, a) :: reqs => invoke_all C reqs (invoke C lat tid a g).1
  end.
End gate.

(** ** Exempt sites *)
Definition _EXEMPT_SITES : list (string * string) :=
  [("policy/operator_key.py",
    "operator key file protection (B-111, D-123): icacls limits the key file's ACL to the current user on Windows and reports it for ract doctor. The argv is the key file's path and the user name; no model or repository input reaches it.");
   ("executor/runtime.py",
    "substrate-internal: ContainerBackend._run helper for backend probes (dagger/podman/docker version check).");
   ("loop_controller.py",
    "substrate-internal: LoopController one-off git probe. v0.6: fold into worktree.py helpers.");
   ("executor/process_group.py",
    "process-group-primitive: module_05 process_group.spawn IS the substrate-level spawn gate; taskkill /F /T fallback for tree reap on Windows.");
   ("memory/composition_runner.py",
    "observability-git-read: memory composition runner shell invocation for retrieval script (v0.6 target: gate through invoke_tool with capability declared per-composition).");
   ("providers/internal_provider.py",
    "provider-transport: LLM provider subprocess is the wire layer of the provider dispatch chain. Provider RPC is not a tool_use invocation; the model-facing gate is Executor's MCP tool_call path which DOES route through invoke_tool.");
   ("tools/read.py",
    "tool implementation: the read-only tools' own subprocesses (git check-ignore, ripgrep, the Python grep fallback), each with a fixed argv, a scrubbed environment and a timeout; the model fills only data fields. Calls to the tools go through SubstrateLoop.invoke_tool (B-011a), the way the MCP transport sits beneath its gated path.");
   ("tools/git_tools.py",
    "tool implementation: the git tools' own subprocesses (B-115, ADR-0048 D8), each a fixed git argv with fsmonitor off, an empty hooks folder, no pager, no external diff or textconv, a scrubbed environment and a timeout; the model fills only validated paths and names. Calls to the tools go through SubstrateLoop.invoke_tool; git_push runs through run_command under the grant.");
   ("security/command_sandbox.py",
    "operator-invoked-diagnostic: the sandbox self-test (B-114), one fixed /bin/sh probe line run once per process inside the rendered backend, with a timeout; no model input reaches the argv. Tier-3 commands themselves still go through run_command and its approval.");
   ("git_run.py",
    "RACT's own git reads and step commits (B-206): run_git starts git by its full path with G-239's whole hardening (fsmonitor off, an empty hooks folder, no pager, no external diff or signing program, a filtered environment). The callers pass fixed git argv; the model's git calls still go through SubstrateLoop.invoke_tool and the git tools.");
   ("mcp_adapter.py",
    "provider-transport: StdioMcpClient subprocess is the MCP transport under Executor's MCP tool_call path. That path IS gated at the Executor boundary; gating the transport too would emit two tool.invocation.pre events per call.");
   ("hook_system.py",
    "operator-invoked-diagnostic: operator-configured hooks (pre/post step callbacks). Not a model tool_use. v0.6: per-hook capability declaration in manifest.");
   ("repl.py",
    "operator-invoked-diagnostic: the session's ! shell escape (CLI_EXPECTATIONS.md row 2, 2026-11-03) runs a command the operator typed at the prompt, in the project folder. Only operator keystrokes reach ReplSession.handle; the model never does, so there is no tool_use to gate. The single subprocess.run in this file is that escape.");
   ("test_failure_diagnoser.py",
    "operator-invoked-diagnostic: pytest re-run for failure diagnosis. Operator-invoked, not model tool_use.");
   ("self_test_benchmark_mode.py",
    "operator-invoked-diagnostic: benchmark harness subprocess for self-test mode. Operator-invoked.");
   ("lint_format_repair.py",
    "operator-invoked-diagnostic: linter/formatter subprocess for lint-repair workflow. Operator-invoked.");
   ("coverage_delta.py",
    "operator-invoked-diagnostic: coverage.py subprocess for coverage-delta computation. Operator-invoked.");
   ("mutation_runner.py",
    "operator-invoked-diagnostic: mutation testing subprocess (wsl detection + test runner). Operator-invoked.");
   ("eval/runner.py",
    "operator-invoked-diagnostic: eval script subprocess for the eval harness. Operator-invoked, not model tool_use.");
   ("setup/host_probe.py",
    "operator-invoked-diagnostic: `ract setup` reads git --version and, on macOS, sysctl and vm_stat for memory size. Fixed argument lists, no model involvement.")].

Definition is_exempt_site (rel_path : string) : bool * string :=
  let reason := default "" (Dict.get _EXEMPT_SITES rel_path) in
  (negb (String.eqb reason ""), reason).
Definition exempt_sites : list (string * string) := _EXEMPT_SITES.
