(* ===== verification/ToolGateLaws.v ===== *)
(** * What the tool gate guarantees

    Every call is preceded by all four gates and its event, the budget bounds
    the calls, and a registered tool is never replaced. *)

From S2P Require Import Prelude Canonical ToolGate.
From Stdlib Require Import Floats.SpecFloat.

(** ** Schemas *)

(** What a schema promises: no argument it does not declare, every required
    one there, each of its type, and no [bool] for an [int]. *)
Definition arg_conforms (spec : ToolArgSpec) (v : arg) : bool :=
  isinstance v (type_ spec) && negb (bool_decide (type_ spec = TInt) && is_bool v).
Definition conforms (s : ToolArgSchema) (a : args) : bool :=
  forallb (λ k, existsb (λ spec, String.eqb (name spec) k) s) (Dict.keys a) &&
  forallb (λ spec, match Dict.get a (name spec) with
                   | None => optional spec
                   | Some v => arg_conforms spec v end) s.

Section laws.
Context {Rp : Repr} {W : Type}.

Lemma check_specs_None s a :
  check_specs s a = None ↔
  forallb (λ spec, match Dict.get a (name spec) with
                   | None => optional spec
                   | Some v => arg_conforms spec v end) s = true.
Proof.
  induction s as [|spec s IH]; [done|]. cbn. rewrite andb_true_iff, <-IH. unfold arg_conforms.
  destruct (Dict.get a (name spec)) as [v|].
  - destruct (bool_decide (type_ spec = TInt) && is_bool v);
      destruct (isinstance v (type_ spec)); cbn; naive_solver.
  - destruct (optional spec); naive_solver.
Qed.

Lemma no_extras s (a : args) :
  filter (.∉ (name <$> s)) (Dict.keys a) = [] ↔
  forallb (λ k, existsb (λ spec, String.eqb (name spec) k) s) (Dict.keys a) = true.
Proof.
  rewrite forallb_forall. split.
  - intros Hf k Hk%list_elem_of_In. apply existsb_exists.
    destruct (decide (k ∈ name <$> s)) as [Hin|Hni].
    + apply list_elem_of_fmap in Hin as (spec & -> & Hs). exists spec.
      split; [by apply list_elem_of_In|apply String.eqb_refl].
    + assert (k ∈ filter (.∉ (name <$> s)) (Dict.keys a)) as Hin
        by (by apply list_elem_of_filter).
      rewrite Hf in Hin. by apply not_elem_of_nil in Hin.
  - intros H. destruct (filter _ _) as [|k l] eqn:E; [done|]. exfalso.
    assert (k ∈ filter (.∉ (name <$> s)) (Dict.keys a)) as [Hn Hk]%list_elem_of_filter
      by (rewrite E; apply list_elem_of_here).
    apply list_elem_of_In, H, existsb_exists in Hk as (spec & Hs & He%String.eqb_eq).
    apply Hn, list_elem_of_fmap. exists spec. by rewrite list_elem_of_In.
Qed.

Lemma validate_conforms s a : validate s a = None ↔ conforms s a = true.
Proof.
  unfold validate, conforms. rewrite andb_true_iff, <-no_extras, <-check_specs_None.
  destruct (py_sorted _ _) as [|k l] eqn:E.
  - assert (filter (.∉ (name <$> s)) (Dict.keys a) = []) as ->; [|naive_solver].
    apply Permutation_nil. by rewrite <-E, py_sorted_perm.
  - split; [done|]. intros [Hf _]. by rewrite Hf in E.
Qed.

(** ** One invocation *)

(** The gate that turns a request away, if one does. *)
Definition first_gate (C : gate_config (W := W)) (b : ToolBudget) (tid : string) (a : args)
    : option string :=
  if decide (tid ∉ declared_tool_ids C) then Some "manifest"
  else match lookup (registry C) tid with
  | None => Some "registry"
  | Some defn =>
      if negb (conforms (schema defn) a) then Some "args"
      else if (max_invocations b <=? used b)%Z then Some "budget" else None
  end.

Definition stamped (C : gate_config (W := W)) (p : details) : details :=
  if Dict.mem p "step_id_hex" then p else Dict.set p "step_id_hex" (JStr (step_id_hex C)).

(** A refusal: one event, one record, nothing else. *)
Definition refused (C : gate_config) (tid gate : string) (a : args) (g g' : gate_state (W := W))
    (res : result gate_error arg) : Prop :=
  ∃ reason ds, res = Err (ToolInvocationRefused tid gate reason ds) ∧
    g' = {| budget := budget g; world := world g;
            records := records g ++ [{| rec_tool_id := tid; args_repr := _bounded_repr a;
              ok := false; refused_gate := gate; refused_reason := reason;
              latency_ms := zero_float; result_size_bytes := 0 |}];
            effects := effects g ++ [Emitted "tool.invocation.refused" (stamped C
              [("tool_id", JStr tid); ("gate", JStr gate); ("reason", JStr reason);
               ("details", JObj ds)])] |}.

(** A call: a slot of the budget, the event before, the tool, the event after,
    a record that says whether the tool raised. *)
Definition called (C : gate_config) (latency : spec_float) (tid : string) (a : args)
    (g g' : gate_state (W := W)) (res : result gate_error arg) : Prop :=
  ∃ defn post r, lookup (registry C) tid = Some defn ∧
    budget g' = {| max_invocations := max_invocations (budget g); used := used (budget g) + 1 |} ∧
    world g' = (call defn a (world g)).1 ∧
    records g' = records g ++ [r] ∧ rec_tool_id r = tid ∧ ok r = is_ok res ∧
    effects g' = effects g ++
      [Emitted "tool.invocation.pre" (stamped C
         [("tool_id", JStr tid); ("args_repr", JStr (_bounded_repr a));
          ("budget_used", JInt (used (budget g) + 1));
          ("budget_max", JInt (max_invocations (budget g)))]);
       Called tid a; Emitted "tool.invocation.post" post] ∧
    res = match (call defn a (world g)).2 with
          | Ok v => Ok v | Err (exn, msg) => Err (ToolRaised exn msg) end.

Lemma invoke_gates C latency tid a (g : gate_state (W := W)) :
  match first_gate C (budget g) tid a with
  | Some gate => refused C tid gate a g (invoke C latency tid a g).1 (invoke C latency tid a g).2
  | None => called C latency tid a g (invoke C latency tid a g).1 (invoke C latency tid a g).2
  end.
Proof.
  unfold first_gate, invoke, lookup. destruct (decide (tid ∉ declared_tool_ids C)) as [Hd|Hd].
  { rewrite bool_decide_false by done. cbn. by eexists _, _. }
  rewrite bool_decide_true by (by apply dec_stable). cbn [negb].
  destruct (Dict.get (_defs (registry C)) tid) as [defn|] eqn:Hl; [|cbn; by eexists _, _].
  destruct (validate (schema defn) a) as [[reason ds]|] eqn:Hv.
  { assert (conforms (schema defn) a = false) as ->; [|cbn; by eexists _, _].
    apply not_true_iff_false. rewrite <-validate_conforms. by rewrite Hv. }
  apply validate_conforms in Hv as ->. cbn [negb].
  unfold mbind, action_bind, consume_slot, consume, get_budget, run_tool, called, lookup.
  destruct (max_invocations (budget g) <=? used (budget g))%Z; [cbn; by eexists _, _|].
  cbn. destruct (call defn a (world g)) as [w [v|[exn msg]]] eqn:Hc; cbn;
    eexists defn, _, _; rewrite Hc; split_and!; try done; cbn; by rewrite <-!app_assoc.
Qed.

(** C11: an invocation is decided by the first gate that fails, in the order
    manifest, registry, arguments, budget: it is then refused with one event
    and one record, the budget and the tools' world untouched; with no failing
    gate the tool is called once, between its two events, on one slot of the
    budget, and its result or exception is the caller's. *)
Theorem invoke_decides C latency tid a (g : gate_state (W := W)) :
  match first_gate C (budget g) tid a with
  | Some gate => refused C tid gate a g (invoke C latency tid a g).1 (invoke C latency tid a g).2
  | None => called C latency tid a g (invoke C latency tid a g).1 (invoke C latency tid a g).2
  end.
Proof. apply invoke_gates. Qed.

(** ** A step's invocations *)
Definition is_call (e : effect) : bool := match e with Called _ _ => true | _ => false end.
Definition calls (l : list effect) : list effect := List.filter is_call l.

(** What one request adds to the outside. *)
Definition block_ok (C : gate_config (W := W)) (req : spec_float * string * args) (b : list effect) : Prop :=
  let '(_, tid, a) := req in
  (∃ p, b = [Emitted "tool.invocation.refused" p]) ∨
  (tid ∈ declared_tool_ids C ∧
   (∃ defn, lookup (registry C) tid = Some defn ∧ conforms (schema defn) a = true) ∧
   ∃ p p', b = [Emitted "tool.invocation.pre" p; Called tid a; Emitted "tool.invocation.post" p']).

Lemma first_gate_None C b tid a : first_gate C b tid a = None →
  tid ∈ declared_tool_ids C ∧ (used b < max_invocations b)%Z ∧
  ∃ defn, lookup (registry C) tid = Some defn ∧ conforms (schema defn) a = true.
Proof.
  unfold first_gate. destruct (decide (tid ∉ _)) as [|Hd]; [done|]. apply dec_stable in Hd.
  destruct (lookup (registry C) tid) as [defn|]; [|done].
  destruct (conforms (schema defn) a) eqn:Hc; [|done]. cbn.
  destruct (Z.leb_spec (max_invocations b) (used b)); [done|]. intros _. split_and!; eauto.
Qed.

(** One request: its block, its slot if it called, its record. *)
Lemma invoke_block C latency tid a g :
  let g' := (invoke C latency tid a g).1 in
  ∃ b, effects g' = effects g ++ b ∧ block_ok C (latency, tid, a) b ∧
    max_invocations (budget g') = max_invocations (budget g) ∧
    used (budget g') = (used (budget g) + Z.of_nat (length (calls b)))%Z ∧
    (used (budget g) ≤ max_invocations (budget g) → used (budget g') ≤ max_invocations (budget g))%Z ∧
    length (records g') = S (length (records g)).
Proof.
  cbn zeta. pose proof (invoke_gates C latency tid a g) as H.
  destruct (first_gate C (budget g) tid a) as [gate|] eqn:Hg.
  - destruct H as (reason & ds & _ & ->). eexists. split; [reflexivity|]. unfold calls. cbn.
    split_and!; [|done|lia|done|].
    + left. by eexists.
    + rewrite length_app. cbn. lia.
  - destruct H as (defn & post & r & Hl & Hb & _ & Hr & _ & _ & He & _).
    apply first_gate_None in Hg as (Hd & Hu & Hdefn).
    eexists. split; [exact He|]. rewrite Hb, Hr, length_app. cbn. split_and!; [|done|lia..].
    right. split_and!; [done|done|]. by eexists _, _.
Qed.

Lemma invoke_all_blocks C reqs g :
  let g' := invoke_all C reqs g in
  ∃ bs, effects g' = effects g ++ concat bs ∧ Forall2 (block_ok C) reqs bs ∧
    max_invocations (budget g') = max_invocations (budget g) ∧
    used (budget g') = (used (budget g) + Z.of_nat (length (calls (concat bs))))%Z ∧
    (used (budget g) ≤ max_invocations (budget g) → used (budget g') ≤ max_invocations (budget g))%Z ∧
    length (records g') = length (records g) + length reqs.
Proof.
  cbn zeta. revert g. induction reqs as [|[[lat tid] a] reqs IH]; intros g; cbn [invoke_all].
  { exists []. cbn. rewrite app_nil_r. split_and!; (done || lia). }
  destruct (invoke_block C lat tid a g) as (b & He & Hb & Hm & Hu & Hle & Hr).
  destruct (IH (invoke C lat tid a g).1) as (bs & He' & Hbs & Hm' & Hu' & Hle' & Hr').
  exists (b :: bs). cbn [concat length]. unfold calls in *. rewrite List.filter_app, length_app.
  split_and!; [|by constructor|congruence|lia| |lia].
  - by rewrite He', He, <-app_assoc.
  - rewrite Hm in Hle'. auto.
Qed.

(** In any step, whatever is requested, every call of a tool is authorised
    and bracketed by its events: the effects are one block per request, either
    one refusal or the event, the call of that request's tool (declared,
    registered, its arguments conforming to the schema) and the event after;
    each request leaves one record. *)
Theorem step_effects_authorised C reqs (g : gate_state (W := W)) :
  ∃ bs, effects (invoke_all C reqs g) = effects g ++ concat bs ∧ Forall2 (block_ok C) reqs bs ∧
        length (records (invoke_all C reqs g)) = length (records g) + length reqs.
Proof.
  destruct (invoke_all_blocks C reqs g) as (bs & ? & ? & _ & _ & _ & ?). eauto.
Qed.

(** C39: the budget bounds the calls of a step: with a budget not overdrawn, the
    calls made are exactly the slots used, and never more than remained. *)
Theorem budget_bounds_calls C reqs (g : gate_state (W := W)) :
  (used (budget g) ≤ max_invocations (budget g))%Z →
  ∃ es, effects (invoke_all C reqs g) = effects g ++ es ∧
    Z.of_nat (length (calls es)) = (used (budget (invoke_all C reqs g)) - used (budget g))%Z ∧
    (Z.of_nat (length (calls es)) ≤ remaining (budget g))%Z.
Proof.
  intros Hle. destruct (invoke_all_blocks C reqs g) as (bs & He & _ & Hm & Hu & Hmax & _).
  specialize (Hmax Hle). exists (concat bs). unfold remaining. split_and!; [done|lia|lia].
Qed.

(** ** The registry *)
Inductive registry_op : Type := ORegister (d : ToolDefinition (W := W)) | OFreeze.
Definition run_registry (o : registry_op) : action ToolRegistry registry_error unit :=
  match o with ORegister d => register d | OFreeze => freeze end.
Fixpoint run_registry_all (os : list registry_op) (r : ToolRegistry) : ToolRegistry :=
  match os with [] => r | o :: os => run_registry_all os (run_registry o r).1 end.

(** A tool cannot be swapped: no sequence of registrations and freezes,
    whatever it raises, changes a registered tool, and after a freeze none
    changes anything. *)
Theorem registered_tool_stays os r :
  (∀ tid d, lookup r tid = Some d → lookup (run_registry_all os r) tid = Some d) ∧
  (_frozen r = true → run_registry_all os r = r).
Proof.
  revert r. induction os as [|o os IH]; intros r; [done|]. cbn.
  destruct (IH (run_registry o r).1) as [IH1 IH2]. split.
  - intros tid d Hd. apply IH1. destruct o as [d'|]; [|done]. cbn. unfold register, lookup in *.
    destruct (_frozen r); [done|]. destruct (Dict.mem (_defs r) (tool_id d')) eqn:Hm; [done|].
    cbn. rewrite Dict.get_set_ne; [done|]. intros <-.
    apply not_true_iff_false in Hm. apply Hm, Dict.mem_true, Dict.get_is_Some. by eexists.
  - intros Hf. destruct o as [d'|]; cbn in *.
    + unfold register in *. rewrite Hf in *. by apply IH2.
    + rewrite IH2 by done. destruct r. cbn in *. by subst.
Qed.

(** What the log shows of the arguments is at most 512 characters: the
    text itself, or the first 509 of it and an ellipsis. *)
Theorem bounded_repr_bounded a :
  str_len (_bounded_repr a) ≤ _MAX_ARGS_REPR ∧
  (_bounded_repr a = repr_args a ∨
   ∃ p r, _bounded_repr a = p +:+ "..." ∧ repr_args a = p +:+ r ∧ r ≠ "").
Proof.
  unfold _bounded_repr. destruct (Nat.leb_spec (str_len (repr_args a)) _MAX_ARGS_REPR) as [|Hl];
    [by auto|].
  split.
  - rewrite str_len_app. pose proof (str_len_take (_MAX_ARGS_REPR - 3) (repr_args a)) as H.
    change (str_len "...") with 3. unfold _MAX_ARGS_REPR in *. lia.
  - right. destruct (str_take_prefix (_MAX_ARGS_REPR - 3) (repr_args a)) as [r Hr].
    eexists _, r. split_and!; [done|done|]. intros ->. rewrite str_app_nil_r in Hr.
    pose proof (str_len_take (_MAX_ARGS_REPR - 3) (repr_args a)) as H.
    rewrite <-Hr in H. unfold _MAX_ARGS_REPR in *. lia.
Qed.
End laws.

(** A site is exempt from the gate exactly when the table gives it a
    reason, and the table gives every site it lists one. *)
Theorem exempt_iff_listed p :
  is_exempt_site p = (bool_decide (p ∈ Dict.keys exempt_sites), default "" (Dict.get exempt_sites p)).
Proof.
  unfold is_exempt_site, exempt_sites. f_equal.
  assert (forallb (λ kv, negb (String.eqb kv.2 "")) _EXEMPT_SITES = true) as Ht by done.
  rewrite forallb_forall in Ht. destruct (Dict.get _EXEMPT_SITES p) as [r|] eqn:E.
  - rewrite bool_decide_true by (apply Dict.get_is_Some; by eexists).
    apply Dict.get_Some_elem, list_elem_of_In, Ht in E. exact E.
  - apply Dict.get_None in E. by rewrite bool_decide_false.
Qed.

(** ** The guarantees at work *)
Lemma budget_bounds_calls_witness :
  let tool := {| tool_id := "echo"; schema := [{| name := "n"; type_ := TInt; optional := false |}];
                 call := λ a w, (S w, Ok (AInt 1)) |} in
  let C := {| registry := {| _defs := [("echo", tool)]; _frozen := true |};
              declared_tool_ids := {["echo"]}; step_id_hex := "aa" |} in
  let g := {| budget := {| max_invocations := 2; used := 0 |}; records := []; world := 0;
              effects := [] |} in
  let req := (S754_zero false, "echo", [("n", AInt 3)]) in
  ∃ es, effects (invoke_all (Rp := plain_repr) C [req; req; req] g) = [] ++ es ∧
    Z.of_nat (length (calls es)) = 2%Z ∧ (Z.of_nat (length (calls es)) ≤ 2)%Z.
Proof.
  intros tool C g req. apply (budget_bounds_calls (Rp := plain_repr) C [req; req; req] g).
  simpl. lia.
Defined.
