(* ===== verification/Trace.v ===== *)
(** * Events and their hash chain

    Models [trace/events.py]: the closed list of kinds, [Event] with its checks,
    the chain hash, and [EventChain]. *)

From S2P Require Import Prelude Canonical JsonText.

Definition LEGAL_EVENT_KINDS : list string :=
  ["run.started"; "run.completed"; "run.aborted"; "step.started"; "step.committed";
   "step.rolled_back"; "prompt.sent"; "response.received"; "response.validated";
   "response.rejected"; "tool.called"; "tool.result"; "tool.refused"; "sandbox.granted";
   "sandbox.denied"; "sandbox.unenforced"; "sandbox.env_scrubbed"; "predicate.evaluated";
   "handshake.requested"; "handshake.resolved"; "rootknot.created"; "rootknot.verified";
   "assumption.proposed"; "assumption.accepted"; "assumption.discharged";
   "assumption.violated"; "auction.proposal"; "laziness.violated"; "reversal.suspicious";
   "investigator.report"; "plan.rewritten"; "plan.risk_assessed"; "budget.declared";
   "budget.exceeded"; "retrieval.requested"; "retrieval.satisfied"; "retrieval.cascaded";
   "retrieval.refused"; "probe.evaluated"; "manifest.ledger.appended";
   "manifest.ledger.refused"; "whisperer.contract_violation"; "process.reaped";
   "state.budget_capped"; "retrieval.grouping.applied"; "subagent.disposed";
   "substrate.subagent.tree_kill_invoked"; "substrate.subagent.pid_reuse_detected";
   "substrate.subagent.orphan_reaped"; "runtime.run_id.env_injected";
   "runtime.run_id.env_rejected"; "runtime.run_id.env_stripped_from_parent";
   "runtime.run_id.orphan_generated"; "sidecar.header.written";
   "sidecar.header.missing_refused"; "sidecar.header.mismatch_refused";
   "sidecar.header.legacy_fallback"; "trace.torn_tail_detected";
   "trace.incremental_verify_resumed"; "trace.verify_completed"; "budget.clamp_refused";
   "budget.adjusted_by_probes"; "tool.invocation.bypassed"; "laziness.skipped";
   "whisperer.classifier_error"; "laziness.gate_error"; "memory.probe_scheduler_error";
   "memory.composition_runner_error"; "memory.cascade_error"; "memory.freshness_gap";
   "tool.invocation.pre"; "tool.invocation.post"; "tool.invocation.refused";
   "compensator.installed"; "compensator.discarded"; "compensator.applied";
   "compensator.refused"].

Definition payload := list (string * json).

(** What the module raises: [ValueError] of a field, [OverflowError] of a
    timestamp, [CanonicalJSONError] of a payload, [ChainBrokenError]. *)
Inductive event_error : Type :=
| BadField (field : string)
| TimestampOverflow
| NotCanonical (e : jcs_error)
| ChainBroken.

Record Event := {
  id : string;
  run_id : string;
  step_id : option string;
  parent_id : option string;
  timestamp_ns : Z;
  kind : string;
  payload_of : payload;
  hash : string;
  prev_hash : string;
}.

(** A constant string, and an unsigned integer in [n] big-endian bytes. *)
Fixpoint repeat_char (n : nat) (c : ascii) : string :=
  match n with O => "" | S n => String c (repeat_char n c) end.
Fixpoint to_bytes (n : nat) (z : Z) : string :=
  match n with
  | O => ""
  | S n => String (ascii_of_N (Z.to_N (z / 2 ^ (8 * Z.of_nat n) mod 256))) (to_bytes n z)
  end.
Definition zero_bytes (n : nat) : string := repeat_char n "000".

(** [x or b"\x00" * 16] *)
Definition or_zeros (x : option string) : string :=
  match x with Some s => if String.eqb s "" then zero_bytes 16 else s | None => zero_bytes 16 end.

Definition uint64 (z : Z) : bool := (0 <=? z)%Z && (z <? 2 ^ 64)%Z.

Section events.
Context {R : Runtime} {Sh : Sha256} {T : PyText}.

Definition canonical_payload_bytes (p : payload) : result event_error string :=
  match encode (JObj p) with Ok s => Ok s | Err e => Err (NotCanonical e) end.

Definition hash_event (k : string) (p : payload) (prev : string) (id_bytes run : string)
    (step parent : option string) (ts : Z) : result event_error string :=
  if uint64 ts then
    body ← canonical_payload_bytes p;
    Ok (sha256 (k +:+ zero_bytes 1 +:+ id_bytes +:+ run +:+ or_zeros step +:+ or_zeros parent +:+
                to_bytes 8 ts +:+ body +:+ prev))
  else Err TimestampOverflow.

(** [Event.__post_init__] *)
Definition len_is (n : nat) (s : string) : bool := Nat.eqb (String.length s) n.
Definition opt_len_is (n : nat) (s : option string) : bool :=
  match s with None => true | Some s => len_is n s end.
Definition __post_init__ (e : Event) : result event_error unit :=
  _ ← guard_or (len_is 16 (id e)) (BadField "id");
  _ ← guard_or (len_is 16 (run_id e)) (BadField "run_id");
  _ ← guard_or (opt_len_is 16 (step_id e)) (BadField "step_id");
  _ ← guard_or (opt_len_is 16 (parent_id e)) (BadField "parent_id");
  _ ← guard_or (uint64 (timestamp_ns e)) (BadField "timestamp_ns");
  _ ← guard_or (bool_decide (kind e ∈ LEGAL_EVENT_KINDS)) (BadField "kind");
  _ ← guard_or (len_is 32 (hash e)) (BadField "hash");
  guard_or (len_is 32 (prev_hash e)) (BadField "prev_hash").

(** [Event(...)] *)
Definition make_event (e : Event) : result event_error Event :=
  _ ← __post_init__ e; Ok e.

(** The hash of an event's own fields. *)
Definition event_hash (e : Event) : result event_error string :=
  hash_event (kind e) (payload_of e) (prev_hash e) (id e) (run_id e) (step_id e) (parent_id e)
    (timestamp_ns e).

(** *** The disk form *)
Definition opt_hex (s : option string) : json :=
  match s with Some s => JStr (hex s) | None => JNull end.
Definition to_canonical_dict (e : Event) : payload :=
  [("id", JStr (hex (id e))); ("run_id", JStr (hex (run_id e))); ("step_id", opt_hex (step_id e));
   ("parent_id", opt_hex (parent_id e)); ("timestamp_ns", JInt (timestamp_ns e));
   ("kind", JStr (kind e)); ("payload", JObj (payload_of e)); ("hash", JStr (hex (hash e)));
   ("prev_hash", JStr (hex (prev_hash e)))].

(** A member in hexadecimal, one that may be missing or falsy, the time through
    [int()], which overflows on an infinite float, and the payload through
    [dict()], which also takes a list of pairs ([BadField] where a pair is keyed
    by something other than a text). The other [BadField]s are the [KeyError],
    [TypeError] or [ValueError] of the member. *)
Definition hex_field (raw : payload) (f : string) : result event_error string :=
  match Dict.get raw f with
  | Some (JStr s) => match fromhex s with Some b => Ok b | None => Err (BadField f) end
  | _ => Err (BadField f)
  end.
Definition opt_hex_field (raw : payload) (f : string) : result event_error (option string) :=
  if py_bool (get_or raw f JNull) then Some <$> hex_field raw f else Ok None.
Definition time_field (raw : payload) (f : string) : result event_error Z :=
  match Dict.get raw f with
  | Some v => match py_int v with
              | Ok n => Ok n
              | Err OverflowError => Err TimestampOverflow
              | Err _ => Err (BadField f)
              end
  | None => Err (BadField f)
  end.
Definition pair_of (v : json) : option (string * json) :=
  match py_iter v with Ok [JStr k; x] => Some (k, x) | _ => None end.
Definition dict_field (raw : payload) (f : string) : result event_error payload :=
  match Dict.get raw f with
  | Some (JObj kvs) => Ok kvs
  | Some (JStr "") => Ok []
  | Some (JArr l) => match mapM pair_of l with
                     | Some kvs => Ok (foldl (λ d kv, Dict.set d kv.1 kv.2) [] kvs)
                     | None => Err (BadField f)
                     end
  | _ => Err (BadField f)
  end.
Definition from_canonical_dict (raw : payload) : result event_error Event :=
  i ← hex_field raw "id";
  r ← hex_field raw "run_id";
  s ← opt_hex_field raw "step_id";
  p ← opt_hex_field raw "parent_id";
  ts ← time_field raw "timestamp_ns";
  k ← match Dict.get raw "kind" with Some (JStr k) => Ok k | _ => Err (BadField "kind") end;
  pl ← dict_field raw "payload";
  h ← hex_field raw "hash";
  ph ← hex_field raw "prev_hash";
  make_event {| id := i; run_id := r; step_id := s; parent_id := p; timestamp_ns := ts; kind := k;
                payload_of := pl; hash := h; prev_hash := ph |}.

(** ** The chain *)
Definition _GENESIS_HASH : string := zero_bytes 32.
Record EventChain := { chain_run_id : string; events : list Event; tip_hash : string }.

Definition append (e : Event) : action EventChain event_error unit := λ c,
  if negb (String.eqb (prev_hash e) (tip_hash c)) then (c, Err ChainBroken)
  else match event_hash e with
       | Err err => (c, Err err)
       | Ok expected =>
           if String.eqb expected (hash e)
           then ({| chain_run_id := chain_run_id c; events := events c ++ [e]; tip_hash := hash e |}, Ok ())
           else (c, Err ChainBroken)
       end.

(** [build_next], with the id and the time it draws. *)
Definition build_next (c : EventChain) (eid : string) (ts : Z) (k : string) (p : payload)
    (step parent : option string) : result event_error Event :=
  h ← hash_event k p (tip_hash c) eid (chain_run_id c) step parent ts;
  make_event {| id := eid; run_id := chain_run_id c; step_id := step; parent_id := parent;
                timestamp_ns := ts; kind := k; payload_of := p; hash := h; prev_hash := tip_hash c |}.

Fixpoint append_all (es : list Event) : action EventChain event_error unit :=
  match es with [] => mret () | e :: es => _ ← append e; append_all es end.
Definition empty_chain (run : string) : EventChain :=
  {| chain_run_id := run; events := []; tip_hash := _GENESIS_HASH |}.
End events.

(** ** What a chain is *)
Section chain_laws.
Context {R : Runtime} {Sh : Sha256}.

(** Each event carries the hash of the one before and its own. *)
Fixpoint chained (tip : string) (es : list Event) : Prop :=
  match es with
  | [] => True
  | e :: es => prev_hash e = tip ∧ event_hash e = Ok (hash e) ∧ chained (hash e) es
  end.
Definition tip_of (tip : string) (es : list Event) : string :=
  match last es with Some e => hash e | None => tip end.

Lemma tip_of_cons tip e es : tip_of tip (e :: es) = tip_of (hash e) es.
Proof. unfold tip_of. by destruct es as [|e' es]; [|rewrite last_cons; destruct (last (e' :: es)) eqn:E; [|apply last_None in E]]. Qed.

Lemma chained_app tip es1 es2 :
  chained tip (es1 ++ es2) ↔ chained tip es1 ∧ chained (tip_of tip es1) es2.
Proof.
  revert tip. induction es1 as [|e es1 IH]; intros tip; [naive_solver|].
  cbn. rewrite IH, tip_of_cons. tauto.
Qed.

Lemma append_ok e c c' : append e c = (c', Ok ()) ↔
  prev_hash e = tip_hash c ∧ event_hash e = Ok (hash e) ∧
  c' = {| chain_run_id := chain_run_id c; events := events c ++ [e]; tip_hash := hash e |}.
Proof.
  unfold append. destruct (String.eqb_spec (prev_hash e) (tip_hash c)) as [Hp|Hp]; cbn;
    [|naive_solver].
  destruct (event_hash e) as [h|err]; [|naive_solver].
  destruct (String.eqb_spec h (hash e)) as [->|Hh]; naive_solver.
Qed.

(** [append] accepts exactly the chained events. *)
Lemma append_all_ok es c c' : append_all es c = (c', Ok ()) ↔
  chained (tip_hash c) es ∧
  c' = {| chain_run_id := chain_run_id c; events := events c ++ es;
          tip_hash := tip_of (tip_hash c) es |}.
Proof.
  revert c. induction es as [|e es IH]; intros c; cbn [append_all chained].
  { unfold mret, action_ret. rewrite app_nil_r. destruct c. cbn. naive_solver. }
  rewrite action_bind_ok, tip_of_cons. split.
  - intros (c1 & [] & (Hp & Hh & ->)%append_ok & (Hc & ->)%IH). cbn in *.
    by rewrite <-app_assoc.
  - intros ((Hp & Hh & Hc) & ->). eexists _, (). split; [by apply append_ok|].
    apply IH. cbn. by rewrite <-app_assoc.
Qed.
End chain_laws.
