(* ===== verification/Repair.v ===== *)
(** * Repairing a truncated event log

    Models [trace/repair.py]: the open handles of a log, the synthesized close
    events and their order, ids and hashes, and the rebuilt chain. *)

From S2P Require Import Prelude Canonical Trace.

Definition _SYNTH_MARKER : string := "ract.trace.repair.synth.v1".

(** The close kind and the payload template of each kind that opens. *)
Definition _CLOSE_MAP : list (string * (string * payload)) :=
  [("run.started", ("run.aborted", []));
   ("step.started", ("step.rolled_back", []));
   ("tool.called", ("tool.result", [("status", JStr "unknown")]));
   ("prompt.sent", ("response.received", [("status", JStr "timed_out")]));
   ("handshake.requested", ("handshake.resolved", [("resolution", JStr "interrupted")]))].

Definition _CLOSE_KINDS : list (string * string) :=
  [("run.completed", "run.started"); ("run.aborted", "run.started");
   ("step.committed", "step.started"); ("step.rolled_back", "step.started");
   ("tool.result", "tool.called"); ("tool.refused", "tool.called");
   ("response.received", "prompt.sent"); ("response.rejected", "prompt.sent");
   ("handshake.resolved", "handshake.requested")].

Record RepairSummary := {
  synthesized_count : nat;
  dropped_count : nat;
  closed_kinds : list (string * nat);
  dropped_reasons : list (string * nat);
  already_closed : bool;
}.
Record RepairedEventStream := {
  repaired_events : list Event;
  synthesized_close_events : list Event;
  dropped_events : list Event;
  repair_summary : RepairSummary;
}.

Notation opens := (list (string * list Event)).

(** The first event of the id in hexadecimal, removed. *)
Fixpoint pop_id (source : json) (l : list Event) : list Event :=
  match l with
  | [] => []
  | cand :: l => match source with
                 | JStr s => if String.eqb (hex (id cand)) s then l else cand :: pop_id source l
                 | _ => cand :: pop_id source l
                 end
  end.

(** [payload.get("source_event_id")], [None] for a missing or null member. *)
Definition source_event_id (e : Event) : option json :=
  match Dict.get (payload_of e) "source_event_id" with
  | Some JNull | None => None
  | Some v => Some v
  end.

(** One event of the loop. *)
Definition track (o : opens) (ev : Event) : opens :=
  if Dict.mem _CLOSE_MAP (kind ev) then
    Dict.set o (kind ev) (default [] (Dict.get o (kind ev)) ++ [ev])
  else match Dict.get _CLOSE_KINDS (kind ev) with
  | None => o
  | Some open_kind =>
      let l := default [] (Dict.get o open_kind) in
      match source_event_id ev with
      | Some source => Dict.set o open_kind (pop_id source l)
      | None => Dict.set o open_kind (tail l)
      end
  end.

Definition no_opens : opens := (λ kv, (kv.1, [])) <$> _CLOSE_MAP.
Definition open_handles (events : list Event) : opens := foldl track no_opens events.

(** The order of the synthesized closes: [(timestamp_ns, id.hex())]. *)
Definition open_le (a b : Event) : bool :=
  (timestamp_ns a <? timestamp_ns b)%Z ||
  (timestamp_ns a =? timestamp_ns b)%Z && String.leb (hex (id a)) (hex (id b)).
Definition still_open (o : opens) : list Event := py_sorted open_le (concat (Dict.values o)).

Section repair.
Context {R : Runtime} {Sh : Sha256}.

Definition _derive_synth_id (open_event_id close_kind : string) : string :=
  String.substring 0 16 (sha256 (_SYNTH_MARKER +:+ open_event_id +:+ close_kind)).

(** [{**template, "synthesized": True, ...}] *)
Definition close_payload (template : payload) (open_event : Event) : payload :=
  Dict.set (Dict.set (Dict.set template "synthesized" (JBool true)) "reason" (JStr "interrupted"))
    "source_event_id" (JStr (hex (id open_event))).

Definition synthesize (run tip : string) (open_event : Event) : result event_error Event :=
  match Dict.get _CLOSE_MAP (kind open_event) with
  | None => Err (BadField "kind")
  | Some (close_kind, template) =>
      let p := close_payload template open_event in
      let synth_id := _derive_synth_id (id open_event) close_kind in
      let synth_ts := (timestamp_ns open_event + 1)%Z in
      h ← hash_event close_kind p tip synth_id run (step_id open_event) (parent_id open_event) synth_ts;
      make_event {| id := synth_id; run_id := run; step_id := step_id open_event;
                    parent_id := parent_id open_event; timestamp_ns := synth_ts;
                    kind := close_kind; payload_of := p; hash := h; prev_hash := tip |}
  end.

(** The loop over the open handles, with the hash of the last event. *)
Fixpoint synthesize_all (run tip : string) (l : list Event) : result event_error (list Event) :=
  match l with
  | [] => Ok []
  | e :: l => c ← synthesize run tip e; rest ← synthesize_all run (hash c) l; Ok (c :: rest)
  end.

Definition count_kind (h : list (string * nat)) (e : Event) : list (string * nat) :=
  Dict.set h (kind e) (default 0 (Dict.get h (kind e)) + 1).

Definition repair (events : list Event) : result event_error RepairedEventStream :=
  let l := still_open (open_handles events) in
  let tip := match last events with Some e => hash e | None => zero_bytes 32 end in
  let run := match events with e :: _ => run_id e | [] => zero_bytes 16 end in
  synthesized ← synthesize_all run tip l;
  Ok {| repaired_events := events ++ synthesized;
        synthesized_close_events := synthesized;
        dropped_events := [];
        repair_summary :=
          {| synthesized_count := length synthesized; dropped_count := 0;
             closed_kinds := foldl count_kind [] l; dropped_reasons := [];
             already_closed := bool_decide (synthesized = []) |} |}.

(** [None] is the [ValueError] of an empty stream. *)
Definition rebuild_chain_from_repaired (s : RepairedEventStream)
    : option (result event_error EventChain) :=
  match repaired_events s with
  | [] => None
  | e :: _ =>
      let '(c, r) := append_all (repaired_events s) (empty_chain (run_id e)) in
      Some (match r with Ok _ => Ok c | Err err => Err err end)
  end.
End repair.
