(* ===== verification/RepairLaws.v ===== *)
(** * What a repair guarantees

    It keeps every event, closes exactly the handles left open, keeps the hash
    chain, needs no second pass, and never fails on a log whose open handles
    have room for a later timestamp. *)

From S2P Require Import Prelude Canonical CanonicalRead CanonicalScan CanonicalPrefix CanonicalLines JsonText Trace Repair.

(** ** Open handles *)
Definition opens_ok (o : opens) : Prop :=
  Dict.keys o = Dict.keys _CLOSE_MAP ∧ Forall (λ kv, Forall (λ e, kind e = kv.1) kv.2) o.
Definition of_kind (k : string) (l : list Event) : list Event := filter (λ e, kind e = k) l.
Definition opens_of (o : opens) (k : string) : list Event := default [] (Dict.get o k).

Lemma close_map_keys_NoDup : NoDup (Dict.keys _CLOSE_MAP).
Proof. apply (bool_decide_unpack _). vm_compute. exact I. Qed.

Lemma pop_id_sublist s l : pop_id s l `sublist_of` l.
Proof.
  induction l as [|e l IH]; cbn; [constructor|]. destruct s; try by constructor.
  destruct (String.eqb _ _); [by constructor|by constructor].
Qed.

Lemma tail_sublist {A} (l : list A) : tail l `sublist_of` l.
Proof. destruct l; [constructor|by constructor]. Qed.

Lemma opens_ok_set o k l : opens_ok o → k ∈ Dict.keys _CLOSE_MAP →
  Forall (λ e, kind e = k) l → opens_ok (Dict.set o k l).
Proof.
  intros [Hk Ho] Hin Hl. split; [by rewrite Dict.keys_set_in, Hk by (by rewrite Hk)|].
  clear Hk. induction Ho as [|[k' v] o Hv Ho IH]; cbn; [by repeat constructor|].
  destruct (decide (k = k')) as [->|]; by constructor.
Qed.

Lemma opens_ok_get o k : opens_ok o → Forall (λ e, kind e = k) (opens_of o k).
Proof.
  intros [_ Ho]. unfold opens_of. destruct (Dict.get o k) as [l|] eqn:E; [|constructor].
  apply Dict.get_Some_elem in E. rewrite Forall_forall in Ho. by apply (Ho (k, l)).
Qed.

Lemma Forall_sublist {A} (P : A → Prop) l l' : l `sublist_of` l' → Forall P l' → Forall P l.
Proof. induction 1; rewrite ?Forall_cons; naive_solver. Qed.

Lemma close_kinds_values k k' : Dict.get _CLOSE_KINDS k = Some k' → k' ∈ Dict.keys _CLOSE_MAP.
Proof.
  intros H%Dict.get_Some_elem. assert (Forall (λ kv, kv.2 ∈ Dict.keys _CLOSE_MAP) _CLOSE_KINDS) as Hf.
  { apply (bool_decide_unpack _). vm_compute. exact I. }
  rewrite Forall_forall in Hf. by apply (Hf (k, k')).
Qed.

Lemma opens_ok_track o e : opens_ok o → opens_ok (track o e).
Proof.
  intros Ho. unfold track. destruct (Dict.mem _CLOSE_MAP (kind e)) eqn:Hm.
  { apply opens_ok_set; [done|by apply Dict.mem_true|]. apply Forall_app. split; [|by repeat constructor].
    by apply opens_ok_get. }
  destruct (Dict.get _CLOSE_KINDS (kind e)) as [k|] eqn:Hk; [|done].
  apply close_kinds_values in Hk. pose proof (opens_ok_get o k Ho) as Hl. unfold opens_of in Hl.
  destruct (source_event_id e); (apply opens_ok_set; [done|done|]);
    (eapply Forall_sublist; [|exact Hl]); [apply pop_id_sublist|apply tail_sublist].
Qed.

Lemma opens_ok_handles es : opens_ok (open_handles es).
Proof.
  unfold open_handles. assert (opens_ok no_opens) as H.
  { split; [done|]. repeat constructor. }
  revert H. generalize no_opens. induction es as [|e es IH]; intros o Ho; [done|].
  cbn. apply IH. by apply opens_ok_track.
Qed.

(** The open handles of a kind, found again in all of them. *)
Lemma of_kind_concat (o : opens) k : NoDup (Dict.keys o) →
  Forall (λ kv, Forall (λ e, kind e = kv.1) kv.2) o →
  of_kind k (concat (Dict.values o)) = opens_of o k.
Proof.
  unfold of_kind, opens_of. intros Hn Ho. induction Ho as [|[k' l] o Hl Ho IH]; [done|].
  rewrite Dict.keys_cons in Hn. apply NoDup_cons in Hn as [Hk Hn]. cbn [Dict.values fmap list_fmap concat].
  rewrite filter_app. change (concat (snd <$> o)) with (concat (Dict.values o)). rewrite IH by done.
  cbn. cbn in Hl. destruct (decide (k = k')) as [->|Hne].
  - rewrite filter_all by done. apply Dict.get_None in Hk. rewrite Hk. cbn. by rewrite app_nil_r.
  - rewrite filter_none; [done|]. eapply Forall_impl; [exact Hl|]. intros e <-. congruence.
Qed.

Lemma still_open_kind o k : opens_ok o → of_kind k (still_open o) ≡ₚ opens_of o k.
Proof.
  intros [Hk Ho]. unfold still_open, of_kind. rewrite (py_sorted_perm open_le).
  change (of_kind k (concat (Dict.values o)) ≡ₚ opens_of o k). rewrite of_kind_concat; [done| |done].
  rewrite Hk. apply close_map_keys_NoDup.
Qed.

Lemma still_open_kinds o e : opens_ok o → e ∈ still_open o → kind e ∈ Dict.keys _CLOSE_MAP.
Proof.
  intros [Hk Ho] He. unfold still_open in He. rewrite elem_of_py_sorted in He.
  apply list_elem_of_In, in_concat in He as (l & Hl%list_elem_of_In & He%list_elem_of_In).
  unfold Dict.values in Hl. apply list_elem_of_fmap in Hl as ([k l'] & -> & Hin).
  rewrite Forall_forall in Ho. specialize (Ho _ Hin). cbn in *. rewrite Forall_forall in Ho.
  rewrite (Ho _ He), <-Hk. apply list_elem_of_fmap. by exists (k, l').
Qed.

Lemma concat_values_set (o : opens) k l x :
  x ∈ concat (Dict.values (Dict.set o k l)) → x ∈ l ∨ x ∈ concat (Dict.values o).
Proof.
  induction o as [|[k' l'] o IH]; cbn; [rewrite app_nil_r; auto|].
  case_decide; cbn; rewrite !elem_of_app; [tauto|]. intros [?|?%IH]; tauto.
Qed.
Lemma opens_of_concat (o : opens) k x : x ∈ opens_of o k → x ∈ concat (Dict.values o).
Proof.
  unfold opens_of. induction o as [|[k' l'] o IH]; cbn; [done|].
  case_decide; cbn; rewrite elem_of_app; tauto.
Qed.
Lemma sublist_elem {A} (l l' : list A) x : l `sublist_of` l' → x ∈ l → x ∈ l'.
Proof. intros H. induction H; rewrite ?elem_of_cons; tauto. Qed.

Lemma track_concat o e x : x ∈ concat (Dict.values (track o e)) →
  x = e ∨ x ∈ concat (Dict.values o).
Proof.
  unfold track. destruct (Dict.mem _CLOSE_MAP (kind e)).
  { intros [[Hx|Hx]%elem_of_app|Hx]%concat_values_set; [|set_solver|by right].
    right. by eapply opens_of_concat. }
  destruct (Dict.get _CLOSE_KINDS (kind e)) as [k|]; [|by right].
  destruct (source_event_id e); intros [Hx|Hx]%concat_values_set; auto; right;
    eapply (opens_of_concat _ k); (eapply sublist_elem; [|exact Hx]);
    [apply pop_id_sublist|apply tail_sublist].
Qed.

Lemma open_handles_from es o x : x ∈ concat (Dict.values (foldl track o es)) →
  x ∈ es ∨ x ∈ concat (Dict.values o).
Proof.
  revert o. induction es as [|e es IH]; intros o; cbn; [auto|].
  intros [?|[->|?]%track_concat]%IH; rewrite elem_of_cons; auto.
Qed.

Lemma still_open_from es x : x ∈ still_open (open_handles es) → x ∈ es.
Proof.
  unfold still_open. rewrite elem_of_py_sorted. intros [?|H]%open_handles_from; [done|].
  by apply not_elem_of_nil in H.
Qed.

(** ** The synthesized closes *)
Section repair_laws.
Context {R : Runtime} {Sh : Sha256}.

(** [c] closes [e] after an event of hash [tip]. *)
Definition closes (run tip : string) (e c : Event) : Prop :=
  ∃ close_kind template, Dict.get _CLOSE_MAP (kind e) = Some (close_kind, template) ∧
    kind c = close_kind ∧ payload_of c = close_payload template e ∧
    id c = _derive_synth_id (id e) close_kind ∧ run_id c = run ∧ step_id c = step_id e ∧
    parent_id c = parent_id e ∧ timestamp_ns c = (timestamp_ns e + 1)%Z ∧ prev_hash c = tip ∧
    event_hash c = Ok (hash c).

Fixpoint closes_all (run tip : string) (l cs : list Event) : Prop :=
  match l, cs with
  | [], [] => True
  | e :: l, c :: cs => closes run tip e c ∧ closes_all run (hash c) l cs
  | _, _ => False
  end.

Lemma make_event_id e e' : make_event e = Ok e' → e' = e.
Proof. unfold make_event. intros (? & _ & [= ->])%result_bind_ok. done. Qed.

Lemma synthesize_closes run tip e c : synthesize run tip e = Ok c → closes run tip e c.
Proof.
  unfold synthesize, closes. destruct (Dict.get _CLOSE_MAP (kind e)) as [[ck t]|]; [|done].
  intros (h & Hh & ->%make_event_id)%result_bind_ok. exists ck, t. by split_and!.
Qed.

Lemma synthesize_all_closes run tip l cs :
  synthesize_all run tip l = Ok cs → closes_all run tip l cs.
Proof.
  revert tip cs. induction l as [|e l IH]; intros tip cs; cbn [synthesize_all].
  { by intros [= <-]. }
  intros (c & Hc & (rest & Hr & [= <-])%result_bind_ok)%result_bind_ok.
  split; [by apply synthesize_closes|by apply IH].
Qed.

Lemma close_map_cases k ck t : Dict.get _CLOSE_MAP k = Some (ck, t) →
  Dict.mem _CLOSE_MAP ck = false ∧ Dict.get _CLOSE_KINDS ck = Some k.
Proof.
  intros H%Dict.get_Some_elem.
  assert (Forall (λ kv : string * (string * payload), Dict.mem _CLOSE_MAP kv.2.1 = false ∧
            Dict.get _CLOSE_KINDS kv.2.1 = Some kv.1) _CLOSE_MAP) as Hf
    by (repeat constructor).
  rewrite Forall_forall in Hf. apply (Hf _ H).
Qed.

(** A synthesized close takes its handle out, by id. *)
Lemma track_close o run tip e c : closes run tip e c →
  track o c = Dict.set o (kind e) (pop_id (JStr (hex (id e))) (opens_of o (kind e))).
Proof.
  intros (ck & t & Hm & Hk & Hp & _). destruct (close_map_cases _ _ _ Hm) as [Hno Hck].
  unfold track, source_event_id. rewrite Hk, Hno, Hck, Hp. unfold close_payload.
  by rewrite Dict.get_set_eq.
Qed.

Lemma pop_id_perm e l : id e ∈ id <$> l →
  id <$> l ≡ₚ id e :: (id <$> pop_id (JStr (hex (id e))) l).
Proof.
  induction l as [|c l IH]; cbn; [by intros ?%not_elem_of_nil|].
  destruct (String.eqb_spec (hex (id c)) (hex (id e))) as [H%(inj hex)|Hne].
  - intros _. by rewrite H.
  - intros [He|He]%elem_of_cons; [congruence|]. cbn. rewrite IH by done. apply Permutation_swap.
Qed.

(** The handles left are those of the closes still to come. *)
Definition pending (o : opens) (l : list Event) : Prop :=
  opens_ok o ∧ Forall (λ e, kind e ∈ Dict.keys _CLOSE_MAP) l ∧
  ∀ k, id <$> opens_of o k ≡ₚ id <$> of_kind k l.

Lemma pending_step o run tip e l c : pending o (e :: l) → closes run tip e c → pending (track o c) l.
Proof.
  intros (Ho & [He Hl]%Forall_cons & Hp) Hc. split_and!; [by apply opens_ok_track|done|].
  intros k. rewrite (track_close _ _ _ _ _ Hc). unfold opens_of. rewrite Dict.get_set.
  specialize (Hp k). unfold of_kind in Hp |- *. rewrite filter_cons in Hp.
  destruct (decide (kind e = k)) as [<-|]; [|done]. cbn in Hp |- *.
  rewrite pop_id_perm in Hp by (rewrite Hp; apply list_elem_of_here). by apply (inj (cons (id e))).
Qed.

Lemma pending_nil o : pending o [] → still_open o = [].
Proof.
  intros (Ho & _ & Hp). apply Permutation_nil. unfold still_open.
  rewrite (py_sorted_perm open_le). destruct Ho as [Hk Ho].
  assert (Forall (λ kv, kv.2 = []) o) as Hall.
  { apply Forall_forall. intros [k l] Hin. specialize (Hp k). unfold opens_of in Hp.
    rewrite (Dict.elem_get o k l) in Hp; [|rewrite Hk; apply close_map_keys_NoDup|done].
    cbn in *. apply Permutation_nil_r in Hp. by destruct l. }
  clear -Hall. induction Hall as [|[k l] o Hl _ IH]; [done|]. cbn in *. by subst.
Qed.

Lemma pending_closed o run tip l cs : pending o l → closes_all run tip l cs →
  still_open (foldl track o cs) = [].
Proof.
  revert o tip cs. induction l as [|e l IH]; intros o tip [|c cs] Hp Hc; try done.
  - by apply pending_nil.
  - destruct Hc as [Hc Hcs]. cbn. eapply IH; [by eapply pending_step|done].
Qed.

Lemma pending_start es : pending (open_handles es) (still_open (open_handles es)).
Proof.
  pose proof (opens_ok_handles es) as Ho. split_and!; [done|..].
  - apply Forall_forall. intros e. by apply still_open_kinds.
  - intros k. by rewrite still_open_kind.
Qed.

Lemma repair_inv es s : repair es = Ok s →
  ∃ cs, repaired_events s = es ++ cs ∧ synthesized_close_events s = cs ∧
    closes_all (match es with e :: _ => run_id e | [] => zero_bytes 16 end) (tip_of _GENESIS_HASH es)
      (still_open (open_handles es)) cs ∧
    already_closed (repair_summary s) = bool_decide (cs = []) ∧
    synthesized_count (repair_summary s) = length cs ∧ dropped_events s = [].
Proof.
  unfold repair. intros (cs & Hcs%synthesize_all_closes & [= <-])%result_bind_ok.
  exists cs. unfold tip_of. by split_and!.
Qed.

Lemma repair_closed_id es : still_open (open_handles es) = [] →
  ∃ s, repair es = Ok s ∧ repaired_events s = es ∧ synthesized_close_events s = [] ∧
       already_closed (repair_summary s) = true.
Proof. unfold repair. intros ->. eexists. split; [done|]. cbn. by rewrite app_nil_r. Qed.

(** ** The guarantees *)

(** C36: a repaired log needs no repair: a second pass returns the same events,
    synthesizes none and reports the log closed, whatever the log, duplicate
    ids included. *)
Theorem repair_idempotent es s : repair es = Ok s →
  ∃ s', repair (repaired_events s) = Ok s' ∧ repaired_events s' = repaired_events s ∧
        synthesized_close_events s' = [] ∧ already_closed (repair_summary s') = true.
Proof.
  intros (cs & He & _ & Hcs & _)%repair_inv. apply repair_closed_id.
  rewrite He. unfold open_handles. rewrite foldl_app. eapply pending_closed; [|exact Hcs].
  apply pending_start.
Qed.

(** a repair keeps every event in place, drops none, and appends one close
    for each handle still open, in the order of time and id: of the kind that
    closes it, naming it, in its step, one nanosecond later, and linked to the
    event before. *)
Theorem repair_closes_open_handles es s : repair es = Ok s →
  ∃ cs, repaired_events s = es ++ cs ∧ synthesized_close_events s = cs ∧ dropped_events s = [] ∧
    synthesized_count (repair_summary s) = length (still_open (open_handles es)) ∧
    closes_all (match es with e :: _ => run_id e | [] => zero_bytes 16 end) (tip_of _GENESIS_HASH es)
      (still_open (open_handles es)) cs.
Proof.
  intros (cs & He & Hs & Hcs & _ & Hn & Hd)%repair_inv. exists cs. split_and!; try done.
  rewrite Hn. clear -Hcs. revert Hcs. generalize (tip_of _GENESIS_HASH es).
  generalize (still_open (open_handles es)). intros l. revert cs.
  induction l as [|e l IH]; intros [|c cs] tip; try done. intros [_ Hcs]. cbn. f_equal. by eapply IH.
Qed.

Lemma closes_all_chained run tip l cs : closes_all run tip l cs → chained tip cs.
Proof.
  revert tip cs. induction l as [|e l IH]; intros tip [|c cs]; try done.
  intros [(? & ? & _ & _ & _ & _ & _ & _ & _ & _ & Hp & Hh) Hcs]. cbn. split_and!; [done|done|].
  by apply IH.
Qed.

(** A repair keeps the hash chain: if the events of a non-empty log are
    accepted by an [EventChain] from genesis, so are the repaired ones, and the
    rebuilt chain holds exactly them. *)
Theorem repair_keeps_chain es s : repair es = Ok s → es ≠ [] → chained _GENESIS_HASH es →
  ∃ c, rebuild_chain_from_repaired s = Some (Ok c) ∧ events c = repaired_events s.
Proof.
  intros (cs & He & _ & Hcs & _)%repair_inv Hne Hch. apply closes_all_chained in Hcs.
  assert (chained _GENESIS_HASH (repaired_events s)) as Hall by (rewrite He; by apply chained_app).
  unfold rebuild_chain_from_repaired. destruct (repaired_events s) as [|e l] eqn:E.
  { symmetry in He. by apply app_nil in He as [-> _]. }
  destruct (append_all (e :: l) (empty_chain (run_id e))) as [c r] eqn:Ha.
  assert (append_all (e :: l) (empty_chain (run_id e)) =
    ({| chain_run_id := run_id e; events := e :: l; tip_hash := tip_of _GENESIS_HASH (e :: l) |}, Ok ()))
    as Hok by (by apply append_all_ok).
  rewrite Hok in Ha. injection Ha as <- <-. by eexists.
Qed.

(** ** When a repair fails *)
Context {RL : RuntimeLaws R} {SL : Sha256Laws Sh}.

Lemma close_payload_plain e ck t : Dict.get _CLOSE_MAP (kind e) = Some (ck, t) →
  plain_json (JObj (close_payload t e)) = true.
Proof using RL.
  intros H. unfold close_payload.
  repeat (apply plain_set; [|done|(done || apply plain_hex || (by apply ascii_plain))]).
  apply Dict.get_Some_elem in H.
  assert (Forall (λ kv : string * (string * payload), plain_json (JObj kv.2.2) = true) _CLOSE_MAP) as Hf.
  { repeat (constructor; [|]); try constructor; cbn -[plain_json]; apply plain_obj;
      try done; repeat (constructor; [split; [done|by apply ascii_plain]|]); constructor. }
  rewrite Forall_forall in Hf. apply (Hf _ H).
Qed.
Lemma close_payload_encodes e ck t : Dict.get _CLOSE_MAP (kind e) = Some (ck, t) →
  ∃ body, canonical_payload_bytes (close_payload t e) = Ok body.
Proof using RL.
  intros Hp%close_payload_plain. unfold canonical_payload_bytes. pose proof (plain_encode _ Hp).
  destruct (encode (JObj (close_payload t e))); [by eexists|done].
Qed.
(** A synthesized event passes the checks and has a plain payload. *)
Lemma synthesize_valid run tip l cs : synthesize_all run tip l = Ok cs →
  Forall (λ c, __post_init__ c = Ok () ∧ plain_json (JObj (payload_of c)) = true) cs.
Proof using RL.
  revert tip cs. induction l as [|e l IH]; intros tip cs; cbn [synthesize_all]; [by intros [= <-]|].
  intros (c & Hc & (rest & Hr & [= <-])%result_bind_ok)%result_bind_ok.
  constructor; [|by eapply IH]. revert Hc. unfold synthesize.
  destruct (Dict.get _CLOSE_MAP (kind e)) as [[ck t]|] eqn:Hm; [|done].
  intros (h & _ & (u & Hi & [= <-])%result_bind_ok)%result_bind_ok. destruct u.
  split; [done|]. by eapply close_payload_plain.
Qed.

Lemma length_substring_16 s : String.length s = 32 → String.length (String.substring 0 16 s) = 16.
Proof.
  intros H. do 16 (destruct s as [|? s]; [done|]). cbn. by destruct s.
Qed.

Lemma post_init_ok e : __post_init__ e = Ok () ↔
  len_is 16 (id e) = true ∧ len_is 16 (run_id e) = true ∧ opt_len_is 16 (step_id e) = true ∧
  opt_len_is 16 (parent_id e) = true ∧ uint64 (timestamp_ns e) = true ∧
  kind e ∈ LEGAL_EVENT_KINDS ∧ len_is 32 (hash e) = true ∧ len_is 32 (prev_hash e) = true.
Proof.
  unfold __post_init__, guard_or, mbind, result_bind.
  rewrite <-(bool_decide_eq_true (kind e ∈ LEGAL_EVENT_KINDS)).
  repeat case_match; naive_solver.
Qed.

Lemma close_kind_legal k ck t : Dict.get _CLOSE_MAP k = Some (ck, t) → ck ∈ LEGAL_EVENT_KINDS.
Proof.
  intros H%Dict.get_Some_elem.
  assert (Forall (λ kv : string * (string * payload), kv.2.1 ∈ LEGAL_EVENT_KINDS) _CLOSE_MAP) as Hf.
  { apply (bool_decide_unpack _). vm_compute. exact I. }
  rewrite Forall_forall in Hf. apply (Hf _ H).
Qed.

Lemma synthesize_total run tip e : kind e ∈ Dict.keys _CLOSE_MAP → __post_init__ e = Ok () →
  len_is 16 run = true → len_is 32 tip = true →
  if uint64 (timestamp_ns e + 1) then ∃ c, synthesize run tip e = Ok c ∧ len_is 32 (hash c) = true
  else synthesize run tip e = Err TimestampOverflow.
Proof using RL SL.
  intros [[ck t] Hm]%Dict.get_is_Some He Hrun Htip. unfold synthesize, hash_event. rewrite Hm.
  apply post_init_ok in He as (_ & _ & Hstep & Hpar & _).
  destruct (uint64 (timestamp_ns e + 1)) eqn:Hu; [|done].
  destruct (close_payload_encodes _ _ _ Hm) as [body ->]. cbn [mbind result_bind].
  unfold make_event. eexists. rewrite (proj2 (post_init_ok _)); [split; [done|]|].
  - cbn. unfold len_is. by rewrite sha256_length.
  - cbn. split_and!; try done.
    + unfold len_is, _derive_synth_id. by rewrite length_substring_16 by apply sha256_length.
    + by eapply close_kind_legal.
    + unfold len_is. by rewrite sha256_length.
Qed.

Lemma synthesize_all_total run tip l : len_is 16 run = true → len_is 32 tip = true →
  Forall (λ e, kind e ∈ Dict.keys _CLOSE_MAP ∧ __post_init__ e = Ok ()) l →
  if forallb (λ e, uint64 (timestamp_ns e + 1)) l then ∃ cs, synthesize_all run tip l = Ok cs
  else synthesize_all run tip l = Err TimestampOverflow.
Proof using RL SL.
  intros Hrun Htip Hl. revert tip Htip. induction Hl as [|e l [Hk He] _ IH]; intros tip Htip; cbn.
  { by eexists. }
  pose proof (synthesize_total run tip e Hk He Hrun Htip) as H.
  destruct (uint64 (timestamp_ns e + 1)); cbn [andb]; [|by rewrite H].
  destruct H as (c & -> & Hc). cbn. specialize (IH _ Hc).
  destruct (forallb _ l); [|by rewrite IH]. destruct IH as [cs ->]. cbn. by eexists.
Qed.

(** C40: a repair of valid events fails only where an open handle has the last
    timestamp a log can hold, and then as an overflow; otherwise it returns. *)
Theorem repair_fails_only_at_the_end_of_time es :
  Forall (λ e, __post_init__ e = Ok ()) es →
  if forallb (λ e, uint64 (timestamp_ns e + 1)) (still_open (open_handles es))
  then ∃ s, repair es = Ok s else repair es = Err TimestampOverflow.
Proof using RL SL.
  intros Hes. unfold repair.
  assert (len_is 16 (match es with e :: _ => run_id e | [] => zero_bytes 16 end) = true) as Hrun.
  { destruct es as [|e es]; [done|]. apply Forall_cons in Hes as [He _].
    by apply post_init_ok in He as (_ & ? & _). }
  assert (len_is 32 (match last es with Some e => hash e | None => zero_bytes 32 end) = true) as Htip.
  { destruct (last es) as [e|] eqn:E; [|done]. apply last_Some_elem_of in E.
    rewrite Forall_forall in Hes. apply Hes, post_init_ok in E. tauto. }
  pose proof (synthesize_all_total _ _ (still_open (open_handles es)) Hrun Htip) as H.
  destruct (forallb _ _).
  - destruct H as [cs ->]; [|by eexists]. apply Forall_forall. intros e He. split.
    + apply (still_open_kinds (open_handles es)); [apply opens_ok_handles|done].
    + apply still_open_from in He. rewrite Forall_forall in Hes. by apply Hes.
  - rewrite H; [done|]. apply Forall_forall. intros e He. split.
    + apply (still_open_kinds (open_handles es)); [apply opens_ok_handles|done].
    + apply still_open_from in He. rewrite Forall_forall in Hes. by apply Hes.
Qed.

(** An event read back from its disk form is the event. *)
Theorem event_roundtrip {T : PyText} e : __post_init__ e = Ok () →
  from_canonical_dict (to_canonical_dict e) = Ok e.
Proof.
  intros He. assert (∀ f s, opt_len_is 16 s = true → Dict.get (to_canonical_dict e) f = Some (opt_hex s) →
    opt_hex_field (to_canonical_dict e) f = Ok s) as Hopt.
  { unfold opt_hex_field, hex_field, get_or. intros f [s|] Hs ->; [|done]. cbn.
    destruct (String.eqb_spec (hex s) "") as [E|_]; cbn; [|by rewrite fromhex_hex].
    apply hex_nil in E. by subst. }
  pose proof He as (_ & _ & Hst & Hpa & _)%post_init_ok.
  unfold from_canonical_dict, time_field, dict_field.
  rewrite (Hopt "step_id" (step_id e)), (Hopt "parent_id" (parent_id e)) by done.
  unfold hex_field, to_canonical_dict. cbn -[hex fromhex make_event]. decide_keys.
  cbn -[hex fromhex make_event]. rewrite !fromhex_hex. cbn -[make_event].
  transitivity (make_event e); [by destruct e|]. unfold make_event. by rewrite He.
Qed.
End repair_laws.

(** ** The guarantees at work *)
Section sample.
#[local] Existing Instance plain_runtime.
#[local] Existing Instance plain_pytext.
#[local] Instance sample_sha : Sha256 := λ _, repeat_char 32 "a".
#[local] Instance sample_sha_laws : Sha256Laws sample_sha.
Proof. done. Qed.

Definition sample_event (n : ascii) (ts : Z) (k prev : string) : Event :=
  {| id := repeat_char 16 n; run_id := repeat_char 16 "r"; step_id := Some (repeat_char 16 "s");
     parent_id := None; timestamp_ns := ts; kind := k; payload_of := [("n", JInt 1)];
     hash := repeat_char 32 "a"; prev_hash := prev |}.
(** A log cut after a tool was called. *)
Definition torn_log : list Event :=
  [sample_event "0" 5 "run.started" _GENESIS_HASH; sample_event "1" 6 "tool.called" (repeat_char 32 "a");
   sample_event "2" 7 "tool.result" (repeat_char 32 "a"); sample_event "3" 8 "tool.called" (repeat_char 32 "a")].

Lemma repair_idempotent_witness : ∃ s, repair torn_log = Ok s ∧
  ∃ s', repair (repaired_events s) = Ok s' ∧ repaired_events s' = repaired_events s ∧
        synthesized_close_events s' = [] ∧ already_closed (repair_summary s') = true.
Proof.
  eexists. split; [vm_compute; reflexivity|]. apply (repair_idempotent torn_log).
  vm_compute. reflexivity.
Defined.

Lemma repair_closes_open_handles_witness : ∃ s, repair torn_log = Ok s ∧
  ∃ cs, repaired_events s = torn_log ++ cs ∧ synthesized_close_events s = cs ∧ dropped_events s = [] ∧
    synthesized_count (repair_summary s) = length (still_open (open_handles torn_log)) ∧
    closes_all (repeat_char 16 "r") (tip_of _GENESIS_HASH torn_log)
      (still_open (open_handles torn_log)) cs.
Proof.
  eexists. split; [vm_compute; reflexivity|]. apply (repair_closes_open_handles torn_log).
  vm_compute. reflexivity.
Defined.

Lemma repair_keeps_chain_witness : ∃ s, repair torn_log = Ok s ∧
  ∃ c, rebuild_chain_from_repaired s = Some (Ok c) ∧ events c = repaired_events s.
Proof.
  eexists. split; [vm_compute; reflexivity|].
  apply (repair_keeps_chain torn_log); [vm_compute; reflexivity|discriminate|].
  repeat split; vm_compute; reflexivity.
Defined.

Lemma repair_fails_only_at_the_end_of_time_witness :
  repair [sample_event "0" (2 ^ 64 - 1) "run.started" _GENESIS_HASH] = Err TimestampOverflow.
Proof.
  apply (repair_fails_only_at_the_end_of_time
    [sample_event "0" (2 ^ 64 - 1) "run.started" _GENESIS_HASH]).
  repeat constructor.
Defined.

Lemma event_roundtrip_witness :
  from_canonical_dict (to_canonical_dict (sample_event "0" 5 "run.started" _GENESIS_HASH))
  = Ok (sample_event "0" 5 "run.started" _GENESIS_HASH).
Proof. apply event_roundtrip. vm_compute. reflexivity. Defined.
End sample.
