(* ===== verification/TraceWriter.v ===== *)
(** * Writing and reading the event log

    Models [trace/writer.py]: the redaction profile, [JsonlEventWriter] with its
    reopening, its commit sequence, its observers and its repair, and
    [EventReader].  The log is the bytes of [events.jsonl]; the calls an
    observer gets are kept with the log as it stood then. *)

From S2P Require Import Prelude Canonical JsonText Text TextLines Trace Repair.

(** What the module raises: an error of the event or of the chain, the
    [ValueError]s of the run id, [ChainBrokenError] with its causes, [OSError],
    [WriteFirstViolation], what an observer raised, and [re.error]. *)
Inductive writer_error : Type :=
| Bad (e : event_error)
| NoRunId
| BadRunId
| LogNotUtf8
| MalformedLine (i : nat)
| EmptyLog
| OSErr
| WriteFirstViolation
| Raised (observer : string)
| ReError.
Definition chain_broken (e : writer_error) : bool :=
  match e with Bad ChainBroken | LogNotUtf8 | MalformedLine _ | EmptyLog => true | _ => false end.
Definition bad {A} (r : result event_error A) : result writer_error A :=
  match r with Ok a => Ok a | Err e => Err (Bad e) end.

(** ** Redaction

    The regular expressions are Python's: whether a pattern compiles, and
    [regex.sub(replacement, text)], [None] for a template it refuses. *)
Class Regex := {
  re_compile : string → bool;
  re_sub : string → string → string → option string;
}.
Record RedactionProfile := {
  patterns : list string;
  fields : list string;
  replacement : string;
}.

Section redaction.
Context {X : Regex}.

Definition scrub_text (r : RedactionProfile) (s : string) : option string :=
  foldl (λ acc p, acc ≫= re_sub p (replacement r)) (Some s) (patterns r).
Fixpoint _scrub (r : RedactionProfile) (v : json) : option json :=
  match v with
  | JStr s => JStr <$> scrub_text r s
  | JObj kvs =>
      JObj <$> mapM (λ kv, pair kv.1 <$> (if bool_decide (kv.1 ∈ fields r)
                                          then Some (JStr (replacement r))
                                          else _scrub r kv.2)) kvs
  | JArr l => JArr <$> mapM (_scrub r) l
  | v => Some v
  end.
(** [RedactionProfile.apply] *)
Definition apply (r : RedactionProfile) (p : payload) : result writer_error payload :=
  if forallb re_compile (patterns r) then
    match _scrub r (JObj p) with Some (JObj p') => Ok p' | _ => Err ReError end
  else Err ReError.
End redaction.

(** ** Bytes and lines *)

(** [data.decode("utf-8", errors="replace")]: each maximal ill-formed part
    becomes U+FFFD. *)
Definition REPLACEMENT : string := String "239" (String "191" (String "189" "")).
Definition second_of_3 (a b : ascii) : bool :=
  if (ord a =? 0xE0)%N then byte_in 0xA0 0xBF b
  else if (ord a =? 0xED)%N then byte_in 0x80 0x9F b else continuation b.
Definition second_of_4 (a b : ascii) : bool :=
  if (ord a =? 0xF0)%N then byte_in 0x90 0xBF b
  else if (ord a =? 0xF4)%N then byte_in 0x80 0x8F b else continuation b.
Fixpoint utf8_replace (s : string) : string :=
  match s with
  | "" => ""
  | String a s1 =>
      if byte_in 0 0x7F a then String a (utf8_replace s1)
      else if byte_in 0xC2 0xDF a then
        match s1 with
        | "" => REPLACEMENT
        | String b s2 => if continuation b then String a (String b (utf8_replace s2))
                         else REPLACEMENT +:+ utf8_replace s1
        end
      else if byte_in 0xE0 0xEF a then
        match s1 with
        | "" => REPLACEMENT
        | String b s2 =>
            if second_of_3 a b then
              match s2 with
              | "" => REPLACEMENT
              | String c s3 =>
                  if continuation c then String a (String b (String c (utf8_replace s3)))
                  else REPLACEMENT +:+ utf8_replace s2
              end
            else REPLACEMENT +:+ utf8_replace s1
        end
      else if byte_in 0xF0 0xF4 a then
        match s1 with
        | "" => REPLACEMENT
        | String b s2 =>
            if second_of_4 a b then
              match s2 with
              | "" => REPLACEMENT
              | String c s3 =>
                  if continuation c then
                    match s3 with
                    | "" => REPLACEMENT
                    | String d s4 =>
                        if continuation d
                        then String a (String b (String c (String d (utf8_replace s4))))
                        else REPLACEMENT +:+ utf8_replace s3
                    end
                  else REPLACEMENT +:+ utf8_replace s2
              end
            else REPLACEMENT +:+ utf8_replace s1
        end
      else REPLACEMENT +:+ utf8_replace s1
  end.

(** The successive [fp.readline()] of a binary file, each with its newline. *)
Fixpoint readlines (raw : string) : list string :=
  match raw with
  | "" => []
  | String c rest =>
      if Ascii.eqb c newline then LF :: readlines rest
      else match readlines rest with
           | l :: ls => String c l :: ls
           | [] => [String c ""]
           end
  end.
Definition drop_last (n : nat) (s : string) : string := String.substring 0 (String.length s - n) s.
Definition CR : string := String "013" "".
(** The line ending off, then a stray carriage return. *)
Definition universal (raw : string) : string :=
  let l := if endswith raw CRLF then drop_last 2 raw
           else if endswith raw LF then drop_last 1 raw else raw in
  if endswith l CR then drop_last 1 l else l.
(** [fh.truncate(n)] *)
Definition truncate (n : nat) (s : string) : string :=
  String.substring 0 n s +:+ zero_bytes (n - String.length s).

Section trace.
Context {R : Runtime} {Sh : Sha256} {T : PyText} {X : Regex}.

(** [Event.from_canonical_dict(json.loads(line))]: an event, one of the errors
    that are caught, or the [OverflowError] that is not. *)
Inductive candidate : Type := Good (e : Event) | Torn | Escapes.
Definition parse_line (line : string) : candidate :=
  match json_loads line with
  | Some (JObj kvs) => match from_canonical_dict kvs with
                       | Ok e => Good e
                       | Err TimestampOverflow => Escapes
                       | Err _ => Torn
                       end
  | _ => Torn
  end.

(** ** [EventReader] *)
Fixpoint iter_lines (i : nat) (lines : list string) : result writer_error (list Event) :=
  match lines with
  | [] => Ok []
  | raw :: rest =>
      let is_tail := bool_decide (rest = []) in
      let raw_bytes := universal raw in
      line_text ← (if utf8_valid raw_bytes then Ok raw_bytes
                   else if is_tail then Ok (utf8_replace raw_bytes) else Err (MalformedLine i));
      let line := strip line_text in
      if String.eqb line "" then iter_lines (S i) rest
      else match parse_line line with
           | Good e => es ← iter_lines (S i) rest; Ok (e :: es)
           | Torn => if is_tail then Ok [] else Err (MalformedLine i)
           | Escapes => Err (Bad TimestampOverflow)
           end
  end.
(** A log that is not there has no events. *)
Definition read_all_events (log : option string) : result writer_error (list Event) :=
  match log with None => Ok [] | Some raw => iter_lines 0 (readlines raw) end.
Definition load (log : option string) : result writer_error EventChain :=
  events ← read_all_events log;
  match events with
  | [] => Err EmptyLog
  | e :: _ => let '(c, r) := append_all events (empty_chain (run_id e)) in
              match r with Ok _ => Ok c | Err err => Err (Bad err) end
  end.
(** [EventReader.verify]: only [ChainBrokenError] becomes a refusal. *)
Definition verify (log : option string) : result writer_error bool :=
  match load log with
  | Ok _ => Ok true
  | Err e => if chain_broken e then Ok false else Err e
  end.

Definition rebuild_hash (e : Event) : result event_error string :=
  hash_event (kind e) (payload_of e) (prev_hash e) (id e) (run_id e) (step_id e) (parent_id e)
    (timestamp_ns e).

(** ** [JsonlEventWriter] *)
Record call := { observer : string; seen : Event; log_then : option string }.
Record Writer := {
  log : option string;
  chain : EventChain;
  redaction : option RedactionProfile;
  mirror_sinks : list string;
  post_commit_observers : list string;
  durability_observers : list string;
  committing : bool;
  checkpoint_watermark : nat;
  last_repair_summary : option RepairSummary;
  calls : list call;
}.
Definition set_log l w := {| log := l; chain := chain w; redaction := redaction w; mirror_sinks := mirror_sinks w; post_commit_observers := post_commit_observers w; durability_observers := durability_observers w; committing := committing w; checkpoint_watermark := checkpoint_watermark w; last_repair_summary := last_repair_summary w; calls := calls w |}.
Definition set_chain c w := {| log := log w; chain := c; redaction := redaction w; mirror_sinks := mirror_sinks w; post_commit_observers := post_commit_observers w; durability_observers := durability_observers w; committing := committing w; checkpoint_watermark := checkpoint_watermark w; last_repair_summary := last_repair_summary w; calls := calls w |}.
Definition set_observers m p d w := {| log := log w; chain := chain w; redaction := redaction w; mirror_sinks := m; post_commit_observers := p; durability_observers := d; committing := committing w; checkpoint_watermark := checkpoint_watermark w; last_repair_summary := last_repair_summary w; calls := calls w |}.
Definition set_committing b w := {| log := log w; chain := chain w; redaction := redaction w; mirror_sinks := mirror_sinks w; post_commit_observers := post_commit_observers w; durability_observers := durability_observers w; committing := b; checkpoint_watermark := checkpoint_watermark w; last_repair_summary := last_repair_summary w; calls := calls w |}.
Definition set_watermark n w := {| log := log w; chain := chain w; redaction := redaction w; mirror_sinks := mirror_sinks w; post_commit_observers := post_commit_observers w; durability_observers := durability_observers w; committing := committing w; checkpoint_watermark := n; last_repair_summary := last_repair_summary w; calls := calls w |}.
Definition set_summary s w := {| log := log w; chain := chain w; redaction := redaction w; mirror_sinks := mirror_sinks w; post_commit_observers := post_commit_observers w; durability_observers := durability_observers w; committing := committing w; checkpoint_watermark := checkpoint_watermark w; last_repair_summary := Some s; calls := calls w |}.
Definition record o e w := {| log := log w; chain := chain w; redaction := redaction w; mirror_sinks := mirror_sinks w; post_commit_observers := post_commit_observers w; durability_observers := durability_observers w; committing := committing w; checkpoint_watermark := checkpoint_watermark w; last_repair_summary := last_repair_summary w; calls := calls w ++ [{| observer := o; seen := e; log_then := log w |}] |}.

Definition add_mirror o w :=
  set_observers (mirror_sinks w ++ [o]) (post_commit_observers w) (durability_observers w) w.
Definition add_post_commit_observer o w :=
  set_observers (mirror_sinks w) (post_commit_observers w ++ [o]) (durability_observers w) w.
Definition add_durability_observer o w :=
  set_observers (mirror_sinks w) (post_commit_observers w) (durability_observers w ++ [o]) w.

(** *** Observers

    What an observer does is its own; whether it raises may depend on all the
    calls before. *)
Context (raises : list call → string → Event → bool).

Definition notify (o : string) (e : Event) : action Writer writer_error unit := λ w,
  (record o e w, guard_or (negb (raises (calls w) o e)) (Raised o)).
(** A raise goes to the caller. *)
Fixpoint notify_all (os : list string) (e : Event) : action Writer writer_error unit :=
  match os with [] => mret () | o :: os => _ ← notify o e; notify_all os e end.
(** A raise is logged. *)
Fixpoint notify_each (os : list string) (e : Event) (w : Writer) : Writer :=
  match os with [] => w | o :: os => notify_each os e (notify o e w).1 end.
Fixpoint notify_events (es : list Event) (os : list string) : action Writer writer_error unit :=
  match es with [] => mret () | e :: es => _ ← notify_all os e; notify_events es os end.

Definition checkpoint : action Writer writer_error unit :=
  w ← get_state;
  _ ← ensure (negb (committing w)) WriteFirstViolation;
  let new_events := drop (checkpoint_watermark w) (events (chain w)) in
  _ ← modify (set_watermark (length (events (chain w))));
  notify_events new_events (durability_observers w).
Definition close : action Writer writer_error unit := checkpoint.

(** *** The commit

    What becomes of the bytes of a line: on the disk after the [fsync], not
    even a file to write, or the first [n] of them before an [OSError] (all of
    them where the [fsync] fails). *)
Inductive disk : Type := Durable | NotOpened | CutShort (n : nat).

Definition append_bytes (s : string) (w : Writer) : Writer :=
  set_log (Some (default "" (log w) +:+ s)) w.
Definition _write_line (d : disk) (e : Event) : action Writer writer_error unit :=
  line ← lift_result (match encode (JObj (to_canonical_dict e)) with
                      | Ok line => Ok line | Err x => Err (Bad (NotCanonical x)) end);
  let data := line +:+ LF in
  match d with
  | Durable => modify (append_bytes data)
  | NotOpened => raise OSErr
  | CutShort n => _ ← modify (append_bytes (String.substring 0 n data)); raise OSErr
  end.
Definition on_chain {A} (m : action EventChain event_error A) : action Writer writer_error A := λ w,
  let '(c, r) := m (chain w) in (set_chain c w, bad r).
(** The body of the lock, between [_committing = True] and its reset. *)
Definition guarded {A} (m : action Writer writer_error A) : action Writer writer_error A := λ w,
  let '(w', r) := m (set_committing true w) in (set_committing false w', r).

(** What [emit] is called with, the id and the time it draws, and the disk. *)
Record emission := {
  e_kind : string; e_payload : payload; e_step : option string; e_parent : option string;
  e_time : option Z; e_now : Z; e_id : string; e_disk : disk;
}.
Definition commit (m : emission) (p : payload) : action Writer writer_error Event :=
  w ← get_state;
  event ← lift_result (bad (build_next (chain w) (e_id m) (default (e_now m) (e_time m)) (e_kind m) p
                              (e_step m) (e_parent m)));
  _ ← _write_line (e_disk m) event;
  _ ← on_chain (append event);
  mret event.
Definition redact (r : option RedactionProfile) (p : payload) : result writer_error payload :=
  match r with None => Ok p | Some r => apply r p end.
Definition emit (m : emission) : action Writer writer_error Event :=
  w ← get_state;
  p ← lift_result (redact (redaction w) (e_payload m));
  event ← guarded (commit m p);
  _ ← notify_all (mirror_sinks w) event;
  _ ← modify (notify_each (post_commit_observers w) event);
  mret event.

(** *** Repair *)
Fixpoint write_closes (ds : list disk) (synths : list Event) : action Writer writer_error unit :=
  match synths with
  | [] => mret ()
  | e :: synths => _ ← _write_line (default Durable (head ds)) e;
                   _ ← on_chain (append e);
                   write_closes (tail ds) synths
  end.
Definition repair_from_disk (ds : list disk) : action Writer writer_error RepairedEventStream :=
  w ← get_state;
  existing ← lift_result (read_all_events (log w));
  stream ← lift_result (bad (repair existing));
  _ ← modify (set_summary (repair_summary stream));
  if bool_decide (synthesized_close_events stream = []) then mret stream
  else _ ← guarded (write_closes ds (synthesized_close_events stream)); mret stream.

(** *** Opening *)

(** The hash of the first line from the end that is an event, and how many were
    passed over. *)
Fixpoint seed_from (dropped : nat) (candidates : list string)
    : result writer_error (option (string * nat)) :=
  match candidates with
  | [] => Ok None
  | l :: candidates => match parse_line l with
                       | Good e => Ok (Some (hash e, dropped))
                       | Torn => seed_from (S dropped) candidates
                       | Escapes => Err (Bad TimestampOverflow)
                       end
  end.
Fixpoint kept_prefix_bytes (seed : string) (lines : list string) : result writer_error nat :=
  match lines with
  | [] => Ok 0
  | l :: lines =>
      match parse_line l with
      | Good e => if String.eqb (hash e) seed then Ok (String.length l + 1)
                  else rest ← kept_prefix_bytes seed lines; Ok (String.length l + 1 + rest)
      | Torn => Ok 0
      | Escapes => Err (Bad TimestampOverflow)
      end
  end.
Definition seed_tip (h : string) (w : Writer) : Writer :=
  set_chain {| chain_run_id := chain_run_id (chain w); events := events (chain w); tip_hash := h |} w.
(** Whether the file can be read, and truncated. *)
Definition _reseed_tip_from_disk (can_read can_truncate : bool) : action Writer writer_error unit :=
  w ← get_state;
  match log w with
  | None => mret ()
  | Some raw =>
      if negb can_read || String.eqb raw "" then mret () else
      _ ← ensure (utf8_valid raw) LogNotUtf8;
      let lines := filter (λ l, strip l ≠ "") (split_char newline raw) in
      seed ← lift_result (seed_from 0 (reverse lines));
      match seed with
      | None => mret ()
      | Some (h, dropped) =>
          _ ← modify (seed_tip h);
          if Nat.eqb dropped 0 then mret () else
          n ← lift_result (kept_prefix_bytes h lines);
          if can_truncate then modify (set_log (Some (truncate n raw))) else mret ()
      end
  end.

(** The run id: the caller's as it is, or the one bound to the process. *)
Definition run_id_of (run_id ambient : option string) : result writer_error string :=
  match run_id with
  | Some r => Ok r
  | None =>
      match ambient with
      | None | Some "" => Err NoRunId
      | Some h => match fromhex h with
                  | Some r => if len_is 16 r then Ok r else Err BadRunId
                  | None => Err BadRunId
                  end
      end
  end.
Record opening := {
  o_run_id : option string; o_ambient : option string; o_redaction : option RedactionProfile;
  o_repair : bool; o_can_read : bool; o_can_truncate : bool; o_disks : list disk;
}.
Definition new_writer (l : option string) (r : string) (red : option RedactionProfile) : Writer :=
  {| log := l; chain := empty_chain r; redaction := red; mirror_sinks := [];
     post_commit_observers := []; durability_observers := []; committing := false;
     checkpoint_watermark := 0; last_repair_summary := None; calls := [] |}.
(** [JsonlEventWriter.__init__], on the file's bytes. *)
Definition __init__ (o : opening) : action (option string) writer_error Writer := λ l,
  match run_id_of (o_run_id o) (o_ambient o) with
  | Err e => (l, Err e)
  | Ok r =>
      let '(w, res) := (_ ← _reseed_tip_from_disk (o_can_read o) (o_can_truncate o);
                        if o_repair o then void (repair_from_disk (o_disks o)) else mret ())
                       (new_writer l r (o_redaction o)) in
      (log w, match res with Ok _ => Ok w | Err e => Err e end)
  end.
End trace.
