(* ===== verification/TraceWriterLaws.v ===== *)
(** * What the event log guarantees

    The log reads back as the events that were committed, in a chain that
    verifies, across reopening, repair and a kill; an observer only gets events
    that are on the disk. *)

From S2P Require Import Prelude Canonical CanonicalRead CanonicalScan CanonicalPrefix CanonicalLines JsonText Text TextLines Trace Repair RepairLaws TraceWriter.

(** ** Lines of text *)
Lemma drop_prefix_inv e s t : str_drop_prefix e s = Some t → s = e +:+ t.
Proof.
  revert s. induction e as [|c e IH]; intros s; [by intros [= ->]|].
  destruct s as [|c' s]; [done|]. cbn. destruct (Ascii.eqb_spec c c') as [<-|]; [|done].
  intros H. rewrite str_app_cons. f_equal. by apply IH.
Qed.

Lemma first_space_inv s t : first_space s = Some t → ∃ e, e ∈ space_encodings ∧ s = e +:+ t.
Proof.
  unfold first_space. induction space_encodings as [|e l IH]; [done|]. cbn.
  destruct (str_drop_prefix e s) as [u|] eqn:E.
  - intros [= ->]. exists e. split; [by left|by apply drop_prefix_inv].
  - intros (e' & ? & ?)%IH. exists e'. split; [by right|done].
Qed.

Lemma lstrip_suffix s : ∃ u, s = u +:+ lstrip s.
Proof.
  unfold lstrip. generalize (String.length s) as n. intros n. revert s.
  induction n as [|n IH]; intros s; cbn [lstrip_fuel]; [by exists ""|].
  destruct (first_space s) as [t|] eqn:E; [|by exists ""].
  apply first_space_inv in E as (e & _ & ->). destruct (IH t) as [u Hu].
  exists (e +:+ u). by rewrite str_app_assoc, <-Hu.
Qed.
Lemma rstrip_prefix s : ∃ u, s = rstrip s +:+ u.
Proof.
  induction s as [|c s [u IH]]; [by exists ""|]. cbn [rstrip].
  destruct (String.eqb (lstrip (String c s)) ""); [by exists (String c s)|].
  exists u. rewrite str_app_cons. by f_equal.
Qed.

(** No white space has the byte of a brace. *)
Lemma space_no_brace e : e ∈ space_encodings → no_char "}" e = true ∧ no_char "{" e = true ∧ e ≠ "".
Proof.
  assert (Forall (λ e, no_char "}" e = true ∧ no_char "{" e = true ∧ e ≠ "") space_encodings) as H.
  { apply (bool_decide_unpack _). vm_compute. exact I. }
  rewrite Forall_forall in H. apply H.
Qed.
Lemma lstrip_brace s : lstrip (String "{" s) = String "{" s.
Proof.
  unfold lstrip. cbn [String.length lstrip_fuel].
  destruct (first_space (String "{" s)) as [t|] eqn:E; [|done].
  apply first_space_inv in E as (e & (_ & Hb & Hne)%space_no_brace & Ht).
  destruct e as [|c e]; [done|]. rewrite str_app_cons in Ht. injection Ht as <- _. done.
Qed.
Lemma lstrip_keeps s : no_char "}" s = false → lstrip s ≠ "".
Proof.
  intros Hs. assert (no_char "}" (lstrip s) = false) as H; [|by intros E; rewrite E in H].
  unfold lstrip. generalize (String.length s) as n. intros n. revert s Hs.
  induction n as [|n IH]; intros s Hs; cbn [lstrip_fuel]; [done|].
  destruct (first_space s) as [t|] eqn:E; [|done].
  apply first_space_inv in E as (e & (He & _)%space_no_brace & ->).
  rewrite no_char_app, He in Hs. by apply IH.
Qed.
Lemma rstrip_brace s : rstrip (s +:+ "}") = s +:+ "}".
Proof.
  induction s as [|c s IH]; [done|]. rewrite str_app_cons. cbn [rstrip].
  destruct (String.eqb_spec (lstrip (String c (s +:+ "}"))) "") as [E|_]; [|by rewrite IH].
  apply lstrip_keeps in E; [done|]. change (String c (s +:+ "}")) with (String c "" +:+ (s +:+ "}")).
  rewrite !no_char_app. cbn. by rewrite !andb_false_r.
Qed.
Lemma strip_object s : strip ("{" +:+ s +:+ "}") = "{" +:+ s +:+ "}".
Proof.
  unfold strip. rewrite <-str_app_assoc, rstrip_brace, str_app_assoc. apply lstrip_brace.
Qed.

(** What is left of the beginning of an object. *)
Lemma strip_prefix s : strip (String "{" s) ≠ "" ∧ ∃ u, String "{" s = strip (String "{" s) +:+ u.
Proof.
  unfold strip. destruct (rstrip_prefix (String "{" s)) as [u Hu].
  cbn [rstrip] in *. rewrite lstrip_brace in *. cbn [String.eqb] in *.
  rewrite lstrip_brace. split; [done|]. by exists u.
Qed.

Lemma readlines_line l s : no_char newline l = true →
  readlines (l +:+ LF +:+ s) = (l +:+ LF) :: readlines s.
Proof.
  unfold no_char. induction l as [|c l IH]; [done|]. cbn [str_forall].
  intros [Hc%negb_true_iff Hl]%andb_true_iff. rewrite !str_app_cons. cbn [readlines].
  by rewrite Hc, IH.
Qed.
Lemma readlines_last t : no_char newline t = true → t ≠ "" → readlines t = [t].
Proof.
  unfold no_char. induction t as [|c t IH]; [done|]. cbn [str_forall].
  intros [Hc%negb_true_iff Ht]%andb_true_iff _. cbn [readlines]. rewrite Hc.
  destruct t as [|c' t]; [done|]. by rewrite IH.
Qed.
Lemma readlines_join ls t : Forall (λ l, no_char newline l = true) ls → no_char newline t = true →
  readlines (join_lines ls +:+ t) =
  ((λ l, l +:+ LF) <$> ls) ++ (if String.eqb t "" then [] else [t]).
Proof.
  intros Hls Ht. induction Hls as [|l ls Hl _ IH].
  - cbn. destruct (String.eqb_spec t "") as [->|]; [done|by apply readlines_last].
  - cbn [join_lines]. change (String newline (join_lines ls)) with (LF +:+ join_lines ls).
    rewrite !str_app_assoc, readlines_line by done. by rewrite IH.
Qed.

Section writer_laws.
Context {R : Runtime} {Sh : Sha256} {T : PyText} {X : Regex} {RL : RuntimeLaws R}.

(** ** The line of an event *)

(** A payload without a float, whose text decodes. *)
Definition writable (p : payload) : bool := no_float (JObj p) && json_utf8 (JObj p).
(** The payload and the event as they read back: members in key order, text
    normal. *)
Definition canon_members (p : payload) : payload :=
  match canon (JObj p) with JObj kvs => kvs | _ => [] end.
Definition read_back (e : Event) : Event :=
  {| id := id e; run_id := run_id e; step_id := step_id e; parent_id := parent_id e;
     timestamp_ns := timestamp_ns e; kind := kind e; payload_of := canon_members (payload_of e);
     hash := hash e; prev_hash := prev_hash e |}.
(** [e] is what the line [l] of a log says. *)
Definition line_of (e : Event) (l : string) : Prop :=
  ∃ e0, __post_init__ e0 = Ok () ∧ writable (payload_of e0) = true ∧
        encode (JObj (to_canonical_dict e0)) = Ok l ∧ e = read_back e0.

Lemma canon_members_eq p : canon (JObj p) = JObj (canon_members p).
Proof. unfold canon_members. by rewrite canon_obj. Qed.

Lemma legal_kind_ascii k : k ∈ LEGAL_EVENT_KINDS → ascii_text k = true.
Proof.
  assert (Forall (λ k, ascii_text k = true) LEGAL_EVENT_KINDS) as H.
  { apply (bool_decide_unpack _). vm_compute. exact I. }
  rewrite Forall_forall in H. apply H.
Qed.

Lemma dict_no_float e : no_float (JObj (to_canonical_dict e)) = no_float (JObj (payload_of e)).
Proof. cbn. destruct (step_id e), (parent_id e); cbn; by rewrite andb_true_r. Qed.
Lemma dict_utf8 e : __post_init__ e = Ok () → json_utf8 (JObj (payload_of e)) = true →
  json_utf8 (JObj (to_canonical_dict e)) = true.
Proof using RL.
  intros (_ & _ & _ & _ & _ & Hk & _)%post_init_ok Hp.
  assert (∀ s, ascii_text s = true → utf8_valid (nfc s) = true) as Ha.
  { intros s Hs. rewrite (ascii_nfc s Hs). by apply utf8_valid_ascii. }
  assert (∀ s, utf8_valid (nfc (hex s)) = true) as Hh by (intros s; apply Ha, hex_ascii).
  assert (∀ o, json_utf8 (opt_hex o) = true) as Ho by (by intros [o|]; cbn).
  apply forallb_forall. intros [k v] Hin. cbn [fst snd].
  assert (ascii_text k = true) as Hka.
  { assert (Forall (λ kv, ascii_text kv.1 = true) (to_canonical_dict e)) as HF by (by repeat constructor).
    rewrite Forall_forall in HF. apply (HF (k, v)). by apply list_elem_of_In. }
  rewrite (ascii_nfc k Hka), (ascii_nfc k Hka), (utf8_valid_ascii _ Hka). cbn [andb].
  unfold to_canonical_dict in Hin.
  repeat (destruct Hin as [[= <- <-]|Hin]; [first [done|apply Hh|apply Ho|by apply Ha, legal_kind_ascii]|]).
  destruct Hin.
Qed.

(** An event's dict, read from its canonical form. *)
Lemma from_own_canon e : __post_init__ e = Ok () → ∃ kvs,
  canon (JObj (to_canonical_dict e)) = JObj kvs ∧ from_canonical_dict kvs = Ok (read_back e).
Proof using RL.
  intros He. destruct (get_canon_keys (to_canonical_dict e)) as (kvs & Hc & Hg).
  { apply (bool_decide_unpack _). by vm_compute. }
  { by repeat constructor. }
  exists kvs. split; [done|].
  assert (∀ f, Dict.get kvs f = Dict.get (to_canonical_dict (read_back e)) f) as Hg'.
  { pose proof He as (_ & _ & _ & _ & _ & Hk & _)%post_init_ok.
    pose proof (ascii_nfc _ (legal_kind_ascii _ Hk)) as Hnk.
    assert (∀ o, canon (opt_hex o) = opt_hex o) as Ho by (intros [o|]; cbn; by rewrite ?nfc_hex).
    intros f. rewrite Hg. unfold to_canonical_dict.
    repeat (cbn -[canon hex opt_hex]; case_decide; [cbn -[hex opt_hex canon]; f_equal;
      first [apply Ho|apply canon_members_eq|cbn; by rewrite ?nfc_hex, ?Hnk]|]).
    done. }
  assert (∀ d, (∀ f, Dict.get d f = Dict.get (to_canonical_dict (read_back e)) f) →
    from_canonical_dict d = from_canonical_dict (to_canonical_dict (read_back e))) as Hext.
  { intros d Hd. unfold from_canonical_dict, opt_hex_field, hex_field, time_field, dict_field, get_or.
    by rewrite !Hd. }
  rewrite (Hext _ Hg'). apply event_roundtrip. revert He. unfold __post_init__. done.
Qed.

Lemma encode_braces kvs s : encode (JObj kvs) = Ok s → ∃ u, s = "{" +:+ u +:+ "}".
Proof.
  rewrite encode_obj, encode_dict_Ok. intros (_ & _ & ms & _ & ->). by eexists.
Qed.

Lemma event_line_facts e l : line_of e l →
  no_ctl l = true ∧ utf8_valid l = true ∧ parse_line l = Good e ∧ ∃ u, l = "{" +:+ u +:+ "}".
Proof using RL.
  intros (e0 & He & [Hf Hu]%andb_true_iff & Hl & ->). split_and!.
  - eapply encode_no_ctl; [exact Hl|]. by rewrite dict_no_float.
  - eapply encode_utf8; [exact Hl|by rewrite dict_no_float|by apply dict_utf8].
  - unfold parse_line. rewrite (loads_encode _ _ Hl) by by rewrite dict_no_float.
    destruct (from_own_canon _ He) as (kvs & -> & ->). done.
  - by eapply encode_braces.
Qed.
Lemma line_no_newline e l : line_of e l → no_char newline l = true.
Proof using T RL. intros (H & _)%event_line_facts. by apply no_ctl_no_char. Qed.

(** What is torn off a line is no event. *)
Lemma line_prefix_torn e p x : line_of e (p +:+ x) → x ≠ "" → parse_line p = Torn.
Proof using RL.
  intros (e0 & He & [Hf _]%andb_true_iff & Hl & ->) Hx. unfold parse_line.
  by rewrite (loads_prefix_None _ _ _ Hl) by (by rewrite ?dict_no_float).
Qed.

(** ** Reading a log *)
Definition log_holds (l : option string) (es : list Event) : Prop :=
  (l = None ∧ es = []) ∨ ∃ ls, l = Some (join_lines ls) ∧ Forall2 line_of es ls.

Lemma lines_no_newline es ls : Forall2 line_of es ls →
  Forall (λ l, no_char newline l = true) ls.
Proof using T RL.
  intros H. eapply Forall2_Forall_r; [exact H|]. apply Forall_true. intros e l. apply line_no_newline.
Qed.

Lemma substring_prefix (a b : string) : String.substring 0 (String.length a) (a +:+ b) = a.
Proof.
  induction a as [|c a IH]; [by destruct b|]. rewrite str_app_cons. cbn. by rewrite IH.
Qed.
Lemma drop_last_app a b : drop_last (String.length b) (a +:+ b) = a.
Proof.
  unfold drop_last. rewrite str_length_app.
  replace (String.length a + String.length b - String.length b) with (String.length a) by lia.
  apply substring_prefix.
Qed.
Lemma endswith_inv s e : endswith s e = true → ∃ u, s = u +:+ e.
Proof.
  induction s as [|c s IH]; cbn [endswith]; rewrite orb_true_iff, String.eqb_eq.
  - intros [<-|?]; [by exists ""|done].
  - intros [<-|[u ->]%IH]; [by exists ""|]. exists (String c u). done.
Qed.
Lemma endswith_app u e : endswith (u +:+ e) e = true.
Proof.
  induction u as [|c u IH].
  - rewrite str_app_nil_l. destruct e; cbn -[String.eqb]; by rewrite String.eqb_refl.
  - rewrite str_app_cons. cbn [endswith]. by rewrite IH, orb_true_r.
Qed.
Lemma no_char_not_endswith c s e : no_char c s = true → no_char c e = false → endswith s e = false.
Proof.
  intros Hs He. destruct (endswith s e) eqn:E; [|done]. apply endswith_inv in E as [u ->].
  rewrite no_char_app, He, andb_false_r in Hs. done.
Qed.
Lemma no_ctl_no_CR s : no_ctl s = true → endswith s CR = false.
Proof. intros H%(no_ctl_no_char "013"%char); [|done]. by eapply no_char_not_endswith. Qed.
Lemma universal_line l : no_ctl l = true → universal (l +:+ LF) = l.
Proof.
  intros Hl. unfold universal. destruct (endswith (l +:+ LF) CRLF) eqn:E.
  { apply endswith_inv in E as [u E]. change CRLF with (CR +:+ LF) in E.
    rewrite <-str_app_assoc in E. apply str_app_inv_tail in E as ->.
    apply no_ctl_no_CR in Hl. by rewrite endswith_app in Hl. }
  rewrite endswith_app. change 1 with (String.length LF). rewrite drop_last_app.
  by rewrite no_ctl_no_CR.
Qed.
Lemma universal_torn t : no_ctl t = true → universal t = t.
Proof.
  intros Ht. unfold universal.
  pose proof (no_ctl_no_char newline t ltac:(by vm_compute) Ht) as Hn.
  rewrite !(no_char_not_endswith newline t) by done. by rewrite no_ctl_no_CR.
Qed.

(** The lines of events, then whatever follows. *)
Lemma iter_lines_app i es ls rest : Forall2 line_of es ls →
  iter_lines i (((λ l, l +:+ LF) <$> ls) ++ rest) =
  match iter_lines (length ls + i) rest with Ok out => Ok (es ++ out) | Err e => Err e end.
Proof using RL.
  intros H. revert i. induction H as [|e l es ls Hl _ IH]; intros i.
  { cbn. by destruct (iter_lines i rest). }
  destruct (event_line_facts _ _ Hl) as (Hc & Hu & Hp & u & Hb).
  cbn [fmap list_fmap app iter_lines]. rewrite universal_line, Hu by done. cbn [mbind result_bind].
  rewrite Hb, strip_object, <-Hb. rewrite Hp.
  assert (String.eqb l "" = false) as -> by (by rewrite Hb).
  rewrite IH. cbn [length]. rewrite <-Nat.add_succ_comm. by destruct (iter_lines _ rest).
Qed.
Lemma read_lines es ls t : Forall2 line_of es ls → no_char newline t = true →
  read_all_events (Some (join_lines ls +:+ t)) =
  match iter_lines (length ls) (if String.eqb t "" then [] else [t]) with
  | Ok out => Ok (es ++ out) | Err e => Err e end.
Proof using RL.
  intros Hls Ht. cbn [read_all_events]. rewrite readlines_join by eauto using lines_no_newline.
  by rewrite (iter_lines_app _ _ _ _ Hls), Nat.add_0_r.
Qed.
Lemma log_reads l es : log_holds l es → read_all_events l = Ok es.
Proof using RL.
  intros [[-> ->]|(ls & -> & Hls)]; [done|].
  rewrite <-(str_app_nil_r (join_lines ls)), (read_lines es ls "") by done.
  cbn. by rewrite app_nil_r.
Qed.
(** A torn tail is not seen. *)
Lemma log_reads_torn es ls e t x : Forall2 line_of es ls → line_of e (t +:+ x) → x ≠ "" →
  utf8_valid t = true → read_all_events (Some (join_lines ls +:+ t)) = Ok es.
Proof using RL.
  intros Hls Hl Hx Hu. pose proof (event_line_facts _ _ Hl) as (Hc & _ & _ & u & Hb).
  rewrite no_ctl_app in Hc. apply andb_true_iff in Hc as [Hc _].
  rewrite (read_lines es ls t) by (done || by apply no_ctl_no_char).
  destruct t as [|c t]; [cbn; by rewrite app_nil_r|]. cbn [String.eqb]. cbn [iter_lines].
  rewrite universal_torn, Hu by done. cbn [mbind result_bind].
  rewrite str_app_cons in Hb. injection Hb as -> _.
  destruct (strip_prefix t) as [Hne [v Hv]]. apply String.eqb_neq in Hne as ->.
  assert (parse_line (strip (String "{" t)) = Torn) as ->.
  { apply (line_prefix_torn e _ (v +:+ x)).
    - rewrite <-str_app_assoc, <-Hv. done.
    - intros [_ ->]%str_app_eq_nil. done. }
  cbn. by rewrite app_nil_r.
Qed.

(** ** The writer's invariant *)
Context (raises : list call → string → Event → bool).

Lemma canon_bytes p body : canonical_payload_bytes p = Ok body →
  canonical_payload_bytes (canon_members p) = Ok body.
Proof using RL.
  unfold canonical_payload_bytes. destruct (encode (JObj p)) as [s|] eqn:E; [|done].
  intros [= ->]. by rewrite <-canon_members_eq, (encode_canon _ _ E).
Qed.
Lemma read_back_hash e h : event_hash e = Ok h → event_hash (read_back e) = Ok h.
Proof using RL.
  unfold event_hash, hash_event. cbn [read_back kind payload_of prev_hash id run_id step_id parent_id timestamp_ns].
  destruct (uint64 (timestamp_ns e)); [|done].
  intros (body & Hb & [= <-])%result_bind_ok. by rewrite (canon_bytes _ _ Hb).
Qed.

Record writer_ok (w : Writer) (es : list Event) : Prop := {
  wo_log : log_holds (log w) es;
  wo_chained : chained _GENESIS_HASH es;
  wo_tip : tip_hash (chain w) = tip_of _GENESIS_HASH es;
  wo_mark : checkpoint_watermark w ≤ length (events (chain w));
  wo_own : ∀ e, e ∈ events (chain w) → read_back e ∈ es;
  wo_seen : ∀ c, c ∈ calls w → ∃ es', log_holds (log_then c) es' ∧ read_back (seen c) ∈ es';
}.

Lemma log_append l es e line : log_holds l es → line_of e line →
  log_holds (Some (default "" l +:+ (line +:+ LF))) (es ++ [e]).
Proof.
  intros Hl He. right.
  assert (∃ ls, default "" l = join_lines ls ∧ Forall2 line_of es ls) as (ls & -> & Hls).
  { destruct Hl as [[-> ->]|(ls & -> & ?)]; [by exists []|by exists ls]. }
  exists (ls ++ [line]). rewrite join_lines_app. split; [done|].
  apply Forall2_app; [done|]. by constructor.
Qed.

(** Writing a valid event and appending it to the chain, as [emit] and the
    repair do. *)
Definition put (d : disk) (e : Event) : action Writer writer_error unit :=
  _ ← _write_line d e; on_chain (append e).
Definition with_event (l : option string) (e : Event) (w : Writer) : Writer :=
  set_chain {| chain_run_id := chain_run_id (chain w); events := events (chain w) ++ [e];
               tip_hash := hash e |} (set_log l w).

Lemma put_spec d e w w' r : d = Durable ∨ d = NotOpened →
  prev_hash e = tip_hash (chain w) → event_hash e = Ok (hash e) →
  put d e w = (w', r) →
  (is_ok r = false ∧ w' = w) ∨
  (r = Ok () ∧ ∃ line, encode (JObj (to_canonical_dict e)) = Ok line ∧
     w' = with_event (Some (default "" (log w) +:+ (line +:+ LF))) e w).
Proof.
  intros Hd Hp Hh. unfold put, _write_line, lift_result, mbind, action_bind.
  destruct (encode (JObj (to_canonical_dict e))) as [line|]; [|intros [= <- <-]; by left].
  destruct Hd as [->| ->]; [|intros [= <- <-]; by left].
  unfold modify, on_chain. cbn [append_bytes set_log chain].
  assert (append e (chain w) = ({| chain_run_id := chain_run_id (chain w);
    events := events (chain w) ++ [e]; tip_hash := hash e |}, Ok ())) as -> by by apply append_ok.
  cbn. intros [= <- <-]. right. split; [done|]. by exists line.
Qed.

Definition valid (e : Event) : Prop := __post_init__ e = Ok () ∧ writable (payload_of e) = true.

Lemma chained_snoc tip es e : chained tip es → prev_hash e = tip_of tip es →
  event_hash e = Ok (hash e) → chained tip (es ++ [e]).
Proof. intros. apply chained_app. by split_and!. Qed.
Lemma tip_of_snoc tip es e : tip_of tip (es ++ [e]) = hash e.
Proof. unfold tip_of. by rewrite last_snoc. Qed.

Lemma writer_ok_with_event w es e line : writer_ok w es → valid e →
  prev_hash e = tip_hash (chain w) → event_hash e = Ok (hash e) →
  encode (JObj (to_canonical_dict e)) = Ok line →
  writer_ok (with_event (Some (default "" (log w) +:+ (line +:+ LF))) e w) (es ++ [read_back e]).
Proof using RL.
  intros [Hl Hc Ht Hm Ho Hs] [Hv Hw] Hp Hh He.
  split; cbn [log chain set_chain set_log with_event events tip_hash checkpoint_watermark calls].
  - apply log_append; [done|]. by exists e.
  - apply chained_snoc; [done|by rewrite <-Ht, <-Hp|by apply read_back_hash].
  - by rewrite tip_of_snoc.
  - rewrite length_app. cbn. lia.
  - intros x [?%Ho| ->%list_elem_of_singleton]%elem_of_app; apply elem_of_app; [by left|].
    right. by apply list_elem_of_singleton.
  - done.
Qed.

Lemma writer_ok_committing w es b : writer_ok w es → writer_ok (set_committing b w) es.
Proof. intros []. by split. Qed.

Lemma put_committed d e w es w' r : writer_ok w es → d = Durable ∨ d = NotOpened → valid e →
  prev_hash e = tip_hash (chain w) → event_hash e = Ok (hash e) → put d e w = (w', r) →
  (∃ x, r = Err x ∧ w' = w) ∨
  (r = Ok () ∧ writer_ok w' (es ++ [read_back e]) ∧ ∃ l, w' = with_event l e w).
Proof using RL.
  intros Hw Hd Hv Hp Hh [[Hr ->]|(-> & line & He & ->)]%put_spec; [|..|done|done|done].
  - left. destruct r as [|x]; [done|by exists x].
  - right. split_and!; [done|by apply writer_ok_with_event|by eexists].
Qed.

Lemma build_next_inv c i ts k p st pa e : build_next c i ts k p st pa = Ok e →
  __post_init__ e = Ok () ∧ payload_of e = p ∧ prev_hash e = tip_hash c ∧ event_hash e = Ok (hash e).
Proof.
  unfold build_next, make_event. intros (h & Hh & (? & Hi & [= <-])%result_bind_ok)%result_bind_ok.
  destruct x. by split_and!.
Qed.

(** What the caller of [emit] owes: after redaction, no float and text that
    decodes; the disk writes the line whole or not at all. *)
Definition emission_ok (red : option RedactionProfile) (m : emission) : bool :=
  match redact red (e_payload m) with Ok p => writable p | Err _ => true end &&
  match e_disk m with CutShort _ => false | _ => true end.

Lemma commit_put m p w : commit m p w =
  match build_next (chain w) (e_id m) (default (e_now m) (e_time m)) (e_kind m) p (e_step m) (e_parent m) with
  | Ok e => let '(w', r) := put (e_disk m) e w in (w', (λ _, e) <$> r)
  | Err x => (w, Err (Bad x))
  end.
Proof.
  unfold commit, put, get_state, lift_result, mbind, action_bind.
  destruct (build_next _ _ _ _ _ _ _) as [e|]; [|done]. cbn [bad].
  destruct (_write_line (e_disk m) e w) as [w1 [[]|]]; [|done].
  destruct (on_chain (append e) w1) as [w2 [[]|]]; done.
Qed.

(** *** Observers change nothing but the calls they got *)
Definition quiet (w w' : Writer) : Prop :=
  log w' = log w ∧ chain w' = chain w ∧ redaction w' = redaction w ∧
  committing w' = committing w ∧ checkpoint_watermark w' = checkpoint_watermark w.
Lemma quiet_refl w : quiet w w.
Proof. by split_and!. Qed.
Lemma quiet_trans w1 w2 w3 : quiet w1 w2 → quiet w2 w3 → quiet w1 w3.
Proof. unfold quiet. intuition congruence. Qed.

Lemma notify_ok w es o e w' r : writer_ok w es → read_back e ∈ es →
  notify raises o e w = (w', r) → writer_ok w' es ∧ quiet w w'.
Proof.
  intros [] He [= <- _]. split; [|done]. split; try done.
  intros c [?| ->%list_elem_of_singleton]%elem_of_app; [eauto|]. cbn. eauto.
Qed.
Lemma notify_all_ok os w es e w' r : writer_ok w es → read_back e ∈ es →
  notify_all raises os e w = (w', r) → writer_ok w' es ∧ quiet w w'.
Proof.
  revert w. induction os as [|o os IH]; intros w Hw He; cbn [notify_all].
  { intros [= <- _]. split; [done|apply quiet_refl]. }
  unfold mbind, action_bind. destruct (notify raises o e w) as [w1 r1] eqn:E.
  destruct (notify_ok _ _ _ _ _ _ Hw He E) as [Hw1 Hq].
  destruct r1 as [[]|x]; [|by intros [= <- _]].
  intros H. destruct (IH _ Hw1 He H). eauto using quiet_trans.
Qed.
Lemma notify_each_ok os w es e : writer_ok w es → read_back e ∈ es →
  writer_ok (notify_each raises os e w) es ∧ quiet w (notify_each raises os e w).
Proof.
  revert w. induction os as [|o os IH]; intros w Hw He; cbn [notify_each].
  { split; [done|apply quiet_refl]. }
  destruct (notify_ok w es o e _ _ Hw He eq_refl) as [Hw1 Hq].
  destruct (IH _ Hw1 He). cbn [fst]. eauto using quiet_trans.
Qed.
Lemma notify_events_ok os evs w es w' r : writer_ok w es → (∀ e, e ∈ evs → read_back e ∈ es) →
  notify_events raises evs os w = (w', r) → writer_ok w' es ∧ quiet w w'.
Proof.
  revert w. induction evs as [|e evs IH]; intros w Hw He; cbn [notify_events].
  { intros [= <- _]. split; [done|apply quiet_refl]. }
  unfold mbind, action_bind. destruct (notify_all raises os e w) as [w1 r1] eqn:E.
  destruct (notify_all_ok _ _ _ _ _ _ Hw (He e (list_elem_of_here _ _)) E) as [Hw1 Hq].
  destruct r1 as [[]|x]; [|by intros [= <- _]].
  intros H. destruct (IH _ Hw1 (λ e0 H0, He e0 (proj2 (elem_of_cons _ _ _) (or_intror H0))) H). eauto using quiet_trans.
Qed.

Lemma notify_all_err os e w w' x : notify_all raises os e w = (w', Err x) → ∃ o, x = Raised o.
Proof.
  revert w. induction os as [|o os IH]; intros w; cbn [notify_all]; [done|].
  unfold mbind, action_bind, notify. destruct (negb _); cbn; [apply IH|].
  intros [= _ <-]. by exists o.
Qed.
Lemma notify_events_err evs os w w' x : notify_events raises evs os w = (w', Err x) → ∃ o, x = Raised o.
Proof.
  revert w. induction evs as [|e evs IH]; intros w; cbn [notify_events]; [done|].
  unfold mbind, action_bind. destruct (notify_all raises os e w) as [w2 [[]|y]] eqn:E; [apply IH|].
  intros [= _ <-]. by eapply notify_all_err.
Qed.

(** ** What the operations do *)

(** What a call leaves: the writer in order, with the events it committed. *)
Record leaves (w w' : Writer) (es new : list Event) : Prop := {
  lv_ok : writer_ok w' (es ++ (read_back <$> new));
  lv_events : events (chain w') = events (chain w) ++ new;
  lv_idle : committing w' = false;
  lv_red : redaction w' = redaction w;
}.
Lemma leaves_nothing w w' es : writer_ok w' es → quiet w w' → committing w = false →
  leaves w w' es [].
Proof.
  intros Hw (_ & Hc & Hr & Hi & _) Hf. split; [|by rewrite Hc, app_nil_r|congruence|done].
  by rewrite app_nil_r.
Qed.
Lemma leaves_quiet w w1 w2 es new : leaves w w1 es new → quiet w1 w2 →
  writer_ok w2 (es ++ (read_back <$> new)) → leaves w w2 es new.
Proof. intros [? He Hi Hr] (_ & Hc & Hr' & Hi' & _) Hw. split; congruence. Qed.

Lemma guarded_commit m p w es w' r : writer_ok w es → committing w = false →
  writable p = true → e_disk m = Durable ∨ e_disk m = NotOpened →
  guarded (commit m p) w = (w', r) →
  (∃ x, r = Err x ∧ w' = w) ∨ (∃ e, r = Ok e ∧ leaves w w' es [e]).
Proof using RL.
  intros Hw Hi Hp Hd. unfold guarded. rewrite commit_put. cbn [set_committing chain].
  assert (set_committing false (set_committing true w) = w) as Hback by (destruct w; cbn in *; by subst).
  destruct (build_next _ _ _ _ _ _ _) as [e|x] eqn:Hb.
  2: { intros [= <- <-]. left. by exists (Bad x). }
  apply build_next_inv in Hb as (Hv & <- & Hprev & Hh).
  destruct (put (e_disk m) e (set_committing true w)) as [w1 r1] eqn:Hput.
  apply (put_committed _ _ _ es) in Hput as [(x & -> & ->)|(-> & Hok & l & ->)];
    [| |by apply writer_ok_committing|done|by split|done|done]; intros [= <- <-].
  - left. by exists x.
  - right. exists e. split; [done|]. split; [by apply writer_ok_committing|done..].
Qed.

(** An [emit] leaves the log as it was or one event longer, the event it
    returns; an observer that raises does not undo the commit. *)
Lemma emit_spec m w es w' r : writer_ok w es → committing w = false →
  emission_ok (redaction w) m = true → emit raises m w = (w', r) →
  ∃ new, leaves w w' es new ∧ length new ≤ 1 ∧ (∀ e, r = Ok e → new = [e]).
Proof using RL.
  intros Hw Hi [Hred Hd]%andb_true_iff. unfold emit, get_state, lift_result, mbind, action_bind.
  assert (leaves w w es []) as Hnone by (by apply leaves_nothing).
  destruct (redact (redaction w) (e_payload m)) as [p|x].
  2: { intros [= <- <-]. exists []. split_and!; [done|cbn; lia|done]. }
  destruct (guarded (commit m p) w) as [w1 r1] eqn:Hg.
  destruct (guarded_commit m p w es w1 r1) as [(x & -> & ->)|(e & -> & Hl)];
    [done|done|done|by destruct (e_disk m); auto|done| |].
  { intros [= <- <-]. exists []. split_and!; [done|cbn; lia|done]. }
  assert (read_back e ∈ es ++ (read_back <$> [e])) as Hin by (apply elem_of_app; right; by left).
  destruct (notify_all raises (mirror_sinks w) e w1) as [w2 r2] eqn:E2.
  destruct (notify_all_ok _ _ _ _ _ _ (lv_ok _ _ _ _ Hl) Hin E2) as [Hw2 Hq2].
  intros Hr. exists [e]. split; [|split; [cbn; lia|]].
  - destruct r2 as [[]|x]; injection Hr as <- <-; [|by eapply leaves_quiet].
    destruct (notify_each_ok (post_commit_observers w) _ _ e Hw2 Hin) as [Hw3 Hq3].
    by eapply leaves_quiet; [|eapply quiet_trans|].
  - intros e' ->. destruct r2 as [[]|x]; [|done]. by injection Hr as _ ->.
Qed.

Lemma checkpoint_spec w es w' r : writer_ok w es → committing w = false →
  checkpoint raises w = (w', r) →
  leaves w w' es [] ∧ checkpoint_watermark w' = length (events (chain w)) ∧ r ≠ Err WriteFirstViolation.
Proof.
  intros Hw Hi. unfold checkpoint, get_state, ensure, modify, mbind, action_bind. rewrite Hi. cbn [negb guard_or].
  set (w1 := set_watermark _ w). intros H.
  assert (writer_ok w1 es) as Hw1 by (destruct Hw; split; try done; cbn; lia).
  pose proof H as Hn. apply (notify_events_ok _ _ _ es) in H as [Hw' Hq]; [|done|].
  2: { intros e He. apply Hw. by eapply (sublist_elem (drop _ _)); [apply sublist_drop|]. }
  destruct Hq as (Hq1 & Hq2 & Hq3 & Hq4 & Hq5). split_and!; [|done|].
  - split; cbn; rewrite ?app_nil_r; [done|by rewrite Hq2|by rewrite Hq4|by rewrite Hq3].
  - intros ->. by apply notify_events_err in Hn as [o [=]].
Qed.

(** *** Repair *)
Lemma closes_chained run tip l cs : closes_all run tip l cs → chained tip cs.
Proof. apply closes_all_chained. Qed.

Definition whole (d : disk) : bool := match d with CutShort _ => false | _ => true end.
Lemma whole_cases d : whole d = true → d = Durable ∨ d = NotOpened.
Proof. destruct d; auto; done. Qed.

Lemma write_closes_put ds e cs w : write_closes ds (e :: cs) w =
  (_ ← put (default Durable (head ds)) e; write_closes (tail ds) cs) w.
Proof.
  cbn [write_closes]. unfold put, mbind, action_bind.
  destruct (_write_line _ e w) as [w1 [[]|]]; [|done].
  by destruct (on_chain (append e) w1) as [w2 [[]|]].
Qed.

Lemma write_closes_spec ds cs w es w' r : writer_ok w es → Forall (λ d, whole d = true) ds →
  chained (tip_of _GENESIS_HASH es) cs → Forall valid cs → write_closes ds cs w = (w', r) →
  ∃ new, new `prefix_of` cs ∧ writer_ok w' (es ++ (read_back <$> new)) ∧
    events (chain w') = events (chain w) ++ new ∧ redaction w' = redaction w ∧ (r = Ok () → new = cs).
Proof using RL.
  intros Hw Hds Hc Hv. revert ds w es Hw Hds Hc. induction Hv as [|e cs He Hv IH]; intros ds w es Hw Hds Hc.
  { intros [= <- <-]. exists []. by rewrite !app_nil_r. }
  rewrite write_closes_put. unfold mbind, action_bind.
  destruct Hc as (Hp & Hh & Hc). destruct (put _ e w) as [w1 r1] eqn:Hput.
  apply (put_committed _ _ _ es) in Hput as [(x & -> & ->)|(-> & Hok & l & ->)];
    [..|done| |done|by rewrite (wo_tip _ _ Hw)|done].
  { intros [= <- <-]. exists []. rewrite !app_nil_r. split_and!; try done. apply prefix_nil. }
  - intros H. apply (IH (tail ds) _ (es ++ [read_back e])) in H as (new & Hpre & Hok' & Hev & Hr & Hall).
    + exists (e :: new). rewrite <-app_assoc in Hok'. cbn [with_event chain set_chain events set_log] in Hev.
      rewrite <-app_assoc in Hev. split_and!; try done; [by apply prefix_cons|].
      intros Hr'. f_equal. by apply Hall.
    + done.
    + destruct Hds; [constructor|done].
    + rewrite tip_of_snoc. done.
  - apply whole_cases. destruct Hds; done.
Qed.

Lemma guarded_closes ds cs w es w' r : writer_ok w es → Forall (λ d, whole d = true) ds →
  chained (tip_of _GENESIS_HASH es) cs → Forall valid cs →
  guarded (write_closes ds cs) w = (w', r) →
  ∃ new, leaves w w' es new ∧ new `prefix_of` cs ∧ (r = Ok () → new = cs).
Proof using RL.
  intros Hw Hds Hc Hv. unfold guarded. destruct (write_closes ds cs _) as [w1 r1] eqn:E.
  apply (write_closes_spec _ _ _ es) in E as (new & Hpre & Hok & Hev & Hr & Hall);
    [|by apply writer_ok_committing|done..].
  intros [= <- <-]. exists new. split_and!; [|done|done].
  by split; [apply writer_ok_committing|..].
Qed.

(** A repair appends the closes of the handles left open in the log: all of
    them when it returns, those before the failed write otherwise. *)
Lemma repair_from_disk_spec ds w es w' r : writer_ok w es → committing w = false →
  Forall (λ d, whole d = true) ds → repair_from_disk ds w = (w', r) →
  ∃ new, leaves w w' es new ∧
    (∀ s, repair es = Ok s → new `prefix_of` synthesized_close_events s) ∧
    (∀ s, r = Ok s → repair es = Ok s ∧ new = synthesized_close_events s).
Proof using RL.
  intros Hw Hi Hds. unfold repair_from_disk, get_state, lift_result, modify, mbind, action_bind.
  rewrite (log_reads _ _ (wo_log _ _ Hw)).
  destruct (repair es) as [s|x] eqn:Hrep; cbn [bad].
  2: { intros [= <- <-]. exists []. split; [by apply leaves_nothing|done]. }
  apply repair_inv in Hrep as Hinv. destruct Hinv as (cs & Hes & Hcs & Hclo & _).
  set (w1 := set_summary (repair_summary s) w).
  assert (writer_ok w1 es) as Hw1 by (by destruct Hw).
  rewrite Hcs. case_bool_decide as Hnil.
  { intros [= <- <-]. exists []. split_and!; [by apply leaves_nothing|intros s0 [= <-]; apply prefix_nil|].
    intros s' [= <-]. by rewrite Hcs, Hnil. }
  destruct (guarded (write_closes ds cs) w1) as [w2 r2] eqn:Hg.
  apply (guarded_closes _ _ _ es) in Hg as (new & Hl & Hpre & Hall); try done.
  - intros Hr. exists new. assert (leaves w w' es new) as Hl'.
    { destruct Hl, r2 as [[]|]; injection Hr as <- <-; by split. }
    split_and!; [done|intros s' [= <-]; by rewrite Hcs|].
    intros s' ->. destruct r2 as [[]|]; [|done]. injection Hr as _ <-. split; [done|].
    rewrite Hcs. by apply Hall.
  - by eapply closes_all_chained.
  - rewrite <-Hcs. clear -Hrep RL. unfold repair in Hrep.
    apply result_bind_ok in Hrep as (cs & Hs%synthesize_valid & [= <-]). cbn.
    eapply Forall_impl; [exact Hs|]. intros c [? Hp]. split; [done|]. unfold writable.
    by rewrite (plain_no_float _ Hp), (plain_utf8 _ Hp).
Qed.

(** *** Opening *)
Lemma strip_line e l : line_of e l → strip l ≠ "".
Proof using T RL. intros (_ & _ & _ & u & ->)%event_line_facts. by rewrite strip_object. Qed.
Lemma nonblank_lines es ls t : Forall2 line_of es ls → no_char newline t = true →
  filter (λ l, strip l ≠ "") (split_char newline (join_lines ls +:+ t)) =
  ls ++ (if String.eqb (strip t) "" then [] else [t]).
Proof using T RL.
  intros Hls Ht. rewrite split_join_lines by eauto using lines_no_newline.
  rewrite filter_app, filter_all.
  - f_equal. destruct (String.eqb_spec (strip t) ""); [by rewrite filter_cons_False by auto|].
    by rewrite filter_cons_True.
  - eapply Forall2_Forall_r; [exact Hls|]. apply Forall_true. intros e l. apply strip_line.
Qed.

Lemma seed_from_lines n es ls : Forall2 line_of es ls →
  seed_from n (reverse ls) = Ok ((λ e, (hash e, n)) <$> last es).
Proof using RL.
  intros H. destruct es as [|e es _] using rev_ind.
  - apply Forall2_nil_inv_l in H as ->. done.
  - apply Forall2_app_inv_l in H as (l1 & l2 & _ & H2 & ->).
    apply Forall2_cons_inv_l in H2 as (l & l3 & Hl & ->%Forall2_nil_inv_l & ->).
    rewrite reverse_snoc, last_snoc. cbn [seed_from].
    by destruct (event_line_facts _ _ Hl) as (_ & _ & -> & _).
Qed.

Lemma kept_lines es ls rest : Forall2 line_of es ls → NoDup (hash <$> es) → es ≠ [] →
  kept_prefix_bytes (tip_of _GENESIS_HASH es) (ls ++ rest) = Ok (String.length (join_lines ls)).
Proof using RL.
  intros H. revert H. generalize _GENESIS_HASH as tip. intros tip H. revert tip.
  induction H as [|e l es ls Hl H IH]; intros tip Hn Hne; [done|].
  rewrite fmap_cons in Hn. apply NoDup_cons in Hn as [Hin Hn].
  cbn [app kept_prefix_bytes join_lines]. destruct (event_line_facts _ _ Hl) as (_ & _ & -> & _).
  rewrite str_length_app, tip_of_cons. cbn [String.length].
  destruct (String.eqb_spec (hash e) (tip_of (hash e) es)) as [Ht|Ht].
  - destruct es as [|e' es]; [|exfalso; apply Hin; rewrite Ht; clear].
    { apply Forall2_nil_inv_l in H as ->. cbn; f_equal; lia. }
    unfold tip_of. apply list_elem_of_fmap. destruct (last (e' :: es)) as [e2|] eqn:E.
    + exists e2. split; [done|]. by apply last_Some_elem_of.
    + by apply last_None in E.
  - destruct (decide (es = [])) as [->|Hne']; [done|].
    rewrite (IH (hash e)) by done. cbn. f_equal. lia.
Qed.

Lemma truncate_prefix a b : truncate (String.length a) (a +:+ b) = a.
Proof.
  unfold truncate. rewrite substring_prefix, str_length_app.
  replace (String.length a - _) with 0 by lia. apply str_app_nil_r.
Qed.

Lemma tip_of_last es e : last es = Some e → tip_of _GENESIS_HASH es = hash e.
Proof. unfold tip_of. by intros ->. Qed.

(** What a reopening can start from: a log that holds events, or one with a
    torn line after at least one event, if no two hashes are equal. *)
Definition recoverable (can_truncate : bool) (l : option string) (es : list Event) : Prop :=
  log_holds l es ∨
  ∃ ls t, can_truncate = true ∧ l = Some (join_lines ls +:+ t) ∧ Forall2 line_of es ls ∧ es ≠ [] ∧ NoDup (hash <$> es) ∧
    no_char newline t = true ∧ utf8_valid t = true ∧ strip t ≠ "" ∧ parse_line t = Torn.

Lemma join_lines_utf8 es ls t : Forall2 line_of es ls → utf8_valid t = true →
  utf8_valid (join_lines ls +:+ t) = true.
Proof using T RL.
  intros H Ht. induction H as [|e l es ls Hl H IH]; [done|].
  destruct (event_line_facts _ _ Hl) as (_ & Hu & _). cbn [join_lines].
  rewrite str_app_assoc, utf8_valid_app by done. rewrite str_app_cons. exact IH.
Qed.
Lemma new_writer_ok l r red es : log_holds l es → chained _GENESIS_HASH es →
  writer_ok (seed_tip (tip_of _GENESIS_HASH es) (new_writer l r red)) es.
Proof. intros. split; try done; by intros ? ?%not_elem_of_nil. Qed.

Lemma reseed_spec l es ct r red w' res : recoverable ct l es → chained _GENESIS_HASH es →
  _reseed_tip_from_disk true ct (new_writer l r red) = (w', res) →
  res = Ok () ∧ writer_ok w' es ∧ events (chain w') = [] ∧ committing w' = false ∧ redaction w' = red.
Proof using RL.
  intros Hr Hc. unfold _reseed_tip_from_disk, get_state, lift_result, ensure, modify, mbind, action_bind.
  cbn [new_writer log]. destruct Hr as [Hl|(ls & t & -> & -> & Hls & Hne & Hn & Ht & Hu & Hs & Hp)].
  - destruct Hl as [[-> ->]|(ls & -> & Hls)].
    { intros [= <- <-]. split_and!; try done.
      exact (new_writer_ok None r red [] (or_introl (conj eq_refl eq_refl)) Hc). }
    assert (log_holds (Some (join_lines ls)) es) as Hl by (right; by exists ls).
    destruct (String.eqb_spec (join_lines ls) "") as [E|_]; cbn [negb orb].
    { intros [= <- <-]. assert (ls = []) as -> by (destruct ls as [|[]]; done).
      apply Forall2_nil_inv_r in Hls as ->. split_and!; try done. exact (new_writer_ok _ r red [] Hl Hc). }
    pose proof (join_lines_utf8 es ls "" Hls eq_refl) as Hu. rewrite str_app_nil_r in Hu. rewrite Hu.
    pose proof (nonblank_lines es ls "" Hls eq_refl) as Hf. rewrite str_app_nil_r in Hf. rewrite Hf.
    cbn [String.eqb strip lstrip rstrip]. change (strip "") with "". cbn [String.eqb guard_or].
    rewrite app_nil_r, (seed_from_lines 0 _ _ Hls). destruct (last es) as [e|] eqn:E; cbn.
    + intros [= <- <-]. split_and!; try done. rewrite <-(tip_of_last _ _ E). by apply new_writer_ok.
    + intros [= <- <-]. split_and!; try done. apply last_None in E as ->. exact (new_writer_ok _ r red [] Hl Hc).
  - destruct (String.eqb_spec (join_lines ls +:+ t) "") as [E|_].
    { apply str_app_eq_nil in E as [_ ->]. done. }
    cbn [negb orb]. rewrite (join_lines_utf8 _ _ _ Hls Hu), (nonblank_lines _ _ _ Hls Ht).
    apply String.eqb_neq in Hs as ->. cbn [guard_or]. rewrite reverse_snoc. cbn [seed_from].
    rewrite Hp, (seed_from_lines 1 _ _ Hls). destruct (last es) as [e|] eqn:E; [|by apply last_None in E].
    cbn [fmap option_fmap option_map Nat.eqb]. rewrite <-(tip_of_last _ _ E), (kept_lines _ _ _ Hls Hn Hne).
    rewrite truncate_prefix. intros [= <- <-]. split_and!; try done.
    apply (new_writer_ok (Some (join_lines ls)) r red es); [right; by exists ls|done].
Qed.

Lemma init_spec o l es l' w : recoverable (o_can_truncate o) l es → chained _GENESIS_HASH es →
  o_can_read o = true → Forall (λ d, whole d = true) (o_disks o) →
  __init__ o l = (l', Ok w) →
  writer_ok w (es ++ (read_back <$> events (chain w))) ∧ committing w = false ∧ log w = l' ∧
  (o_repair o = false → events (chain w) = []) ∧
  (o_repair o = true → ∃ s, repair es = Ok s ∧ events (chain w) = synthesized_close_events s).
Proof using RL.
  intros Hr Hc Hread Hds. unfold __init__. destruct (run_id_of _ _) as [rid|]; [|done].
  rewrite Hread. unfold mbind, action_bind.
  destruct (_reseed_tip_from_disk true _ _) as [w1 r1] eqn:Hseed.
  apply (reseed_spec _ es) in Hseed as (-> & Hok & Hev & Hi & Hred); [|done|done].
  destruct (o_repair o).
  - unfold void. destruct (repair_from_disk (o_disks o) w1) as [w2 [s|x]] eqn:Hrep; [|done].
    intros [= <- <-]. apply (repair_from_disk_spec _ _ es) in Hrep as (new & [Hw He Hi2 Hr2] & _ & Hall);
      [|done..]. rewrite Hev, app_nil_l in He. destruct (Hall s eq_refl) as [Hs Hn].
    rewrite He. split_and!; try done. intros _. exists s. by subst.
  - intros [= <- <-]. rewrite Hev. cbn. rewrite app_nil_r. by split_and!.
Qed.

(** An [emit] that is killed while it writes. *)
Lemma killed_spec m n w es w' r : writer_ok w es →
  match redact (redaction w) (e_payload m) with Ok p => writable p | Err _ => true end = true →
  e_disk m = CutShort n → emit raises m w = (w', r) →
  log w' = log w ∨ ∃ e line, line_of e line ∧ prev_hash e = tip_of _GENESIS_HASH es ∧
    event_hash e = Ok (hash e) ∧
    log w' = Some (default "" (log w) +:+ String.substring 0 n (line +:+ LF)).
Proof using RL.
  intros Hw Hp Hd. unfold emit, get_state, lift_result, mbind, action_bind.
  destruct (redact (redaction w) (e_payload m)) as [p|x]; [|by intros [= <- _]; left].
  unfold guarded. rewrite commit_put. cbn [set_committing chain].
  destruct (build_next _ _ _ _ _ _ _) as [e|x] eqn:Hb; [|by intros [= <- _]; left].
  apply build_next_inv in Hb as (Hv & <- & Hprev & Hh).
  unfold put, _write_line, lift_result, mbind, action_bind. rewrite Hd.
  destruct (encode (JObj (to_canonical_dict e))) as [line|] eqn:He; [|by intros [= <- _]; left].
  intros [= <- _]. right. exists (read_back e), line. split_and!.
  - by exists e.
  - cbn. by rewrite Hprev, (wo_tip _ _ Hw).
  - by apply read_back_hash.
  - done.
Qed.

Lemma substring_split n s : ∃ x, s = String.substring 0 n s +:+ x.
Proof.
  revert n. induction s as [|c s IH]; intros [|n]; [by exists ""|by exists ""|by exists (String c s)|].
  destruct (IH n) as [x Hx]. exists x. cbn [String.substring]. rewrite str_app_cons. by f_equal.
Qed.

(** The three things a cut line can be. *)
Lemma cut_cases line n p : p = String.substring 0 n (line +:+ LF) →
  p = line +:+ LF ∨ p = line ∨ ∃ x, line = p +:+ x ∧ x ≠ "".
Proof.
  intros ->. destruct (substring_split n (line +:+ LF)) as [x Hx].
  destruct (str_app_snoc_prefix _ _ _ _ Hx) as [[Hp _]|(y & Hy & _)]; [by left|].
  right. destruct (String.eqb_spec y "") as [->|Hne]; [left|right; eauto].
  by rewrite str_app_nil_r in Hy.
Qed.
Lemma holds_lines l es : log_holds l es → ∃ ls, default "" l = join_lines ls ∧ Forall2 line_of es ls.
Proof. intros [[-> ->]|(ls & -> & ?)]; [by exists []|by exists ls]. Qed.

Lemma read_unended es ls e line : Forall2 line_of es ls → line_of e line →
  read_all_events (Some (join_lines ls +:+ line)) = Ok (es ++ [e]).
Proof using RL.
  intros Hls Hl. destruct (event_line_facts _ _ Hl) as (Hc & Hu & Hp & u & Hb).
  rewrite (read_lines es ls line) by (done || by eapply line_no_newline).
  assert (String.eqb line "" = false) as -> by (by rewrite Hb).
  cbn [iter_lines]. rewrite universal_torn, Hu by done. cbn [mbind result_bind].
  rewrite Hb, strip_object, <-Hb, Hp. assert (String.eqb line "" = false) as -> by (by rewrite Hb).
  done.
Qed.

(** The last line, what follows the last newline. *)
Definition last_line (l : option string) : string :=
  default "" (last (split_char newline (default "" l))).

Lemma last_line_app ls t : Forall (λ l, no_char newline l = true) ls → no_char newline t = true →
  last_line (Some (join_lines ls +:+ t)) = t.
Proof.
  intros Hls Ht. unfold last_line. change (default "" (Some ?x)) with x.
  by rewrite split_join_lines, last_snoc.
Qed.

(** What a killed [emit] leaves on the disk. *)
Lemma killed_reads m n w es w' r : writer_ok w es →
  match redact (redaction w) (e_payload m) with Ok p => writable p | Err _ => true end = true →
  e_disk m = CutShort n → emit raises m w = (w', r) → utf8_valid (default "" (log w')) = true →
  ∃ es', read_all_events (log w') = Ok es' ∧ (es' = es ∨ ∃ e, es' = es ++ [e]) ∧
    chained _GENESIS_HASH es' ∧
    (es ≠ [] → NoDup (hash <$> es') → (∀ e, parse_line (last_line (log w')) ≠ Good e) →
     recoverable true (log w') es').
Proof using RL.
  intros Hw Hp Hd He Hu. pose proof Hw as [Hl Hc _ _ _ _].
  destruct (killed_spec _ _ _ _ _ _ Hw Hp Hd He) as [Hlog|(e & line & Hline & Hprev & Hh & Hlog)].
  { exists es. rewrite Hlog. split_and!; [by apply log_reads|by left|done|]. intros _ _ _. by left. }
  destruct (holds_lines _ _ Hl) as (ls & Hls & Hf). rewrite Hls in Hlog.
  assert (chained _GENESIS_HASH (es ++ [e])) as Hc' by by apply chained_snoc.
  remember (String.substring 0 n (line +:+ LF)) as p eqn:Hcut. apply cut_cases in Hcut.
  destruct Hcut as [E|[E|(x & E & Hx)]]; [rewrite E in Hlog..|].
  - exists (es ++ [e]). assert (log_holds (log w') (es ++ [e])) as Hl'.
    { rewrite Hlog, <-Hls. by apply log_append. }
    split_and!; [by apply log_reads|by right; exists e|done|]. intros _ _ _. by left.
  - exists (es ++ [e]). rewrite Hlog. split_and!; [by apply read_unended|by right; exists e|done|].
    intros _ _ Hno. exfalso. apply (Hno e).
    rewrite last_line_app by eauto using lines_no_newline, line_no_newline. by destruct (event_line_facts _ _ Hline) as (_ & _ & -> & _).
  - assert (utf8_valid p = true) as Hup.
    { rewrite Hlog in Hu. change (utf8_valid (join_lines ls +:+ p) = true) in Hu. clear -Hu Hf RL T.
      induction Hf as [|e' l' es ls Hl Hf IH]; [done|]. apply IH.
      destruct (event_line_facts _ _ Hl) as (_ & Hu' & _). cbn [join_lines] in Hu.
      rewrite str_app_assoc, utf8_valid_app, str_app_cons in Hu by done. exact Hu. }
    rewrite E in Hline. exists es. rewrite Hlog. split_and!; [by eapply log_reads_torn|by left|done|].
    intros Hne Hn _. destruct (String.eqb_spec p "") as [->|Hpne].
    { left. rewrite str_app_nil_r. right. by exists ls. }
    right. exists ls, p. pose proof (event_line_facts _ _ Hline) as (Hctl & _ & _ & u & Hb).
    rewrite no_ctl_app in Hctl. apply andb_true_iff in Hctl as [Hctl _].
    split_and!; try done; [by apply no_ctl_no_char|..|by eapply line_prefix_torn].
    destruct p as [|c p]; [done|]. rewrite str_app_cons in Hb. injection Hb as -> _.
    by apply strip_prefix.
Qed.
End writer_laws.
