(* ===== verification/TraceWriterClaims.v ===== *)
(** * The life of an event log

    A log is written, reopened, repaired and cut short in any order; what holds
    in every state it reaches, and the places where the writer's recovery falls
    short of what it sets out to do. *)

From Stdlib Require Import Floats.SpecFloat.
From S2P Require Import Prelude Canonical CanonicalRead CanonicalScan CanonicalPrefix CanonicalLines JsonText Text TextLines Trace Repair RepairLaws TraceWriter TraceWriterLaws.

Section life.
Context {R : Runtime} {Sh : Sha256} {T : PyText} {X : Regex} {RL : RuntimeLaws R}.
Context (raises : list call → string → Event → bool) (run : string) (red : option RedactionProfile).

(** ** The states of a log

    One call on the writer of the moment, or a process that ends, in between
    two calls or inside an [emit], and another that opens the log again. The
    second component is what the log holds.

    No step has a payload with a float or with text that is not UTF-8, a write
    whose [fsync] fails, a kill inside the first event, inside a character or
    exactly before the newline: what those leave is shown below, in
    [failed_sync_forks_log], [torn_first_line_is_kept],
    [torn_character_refuses_reopening] and [torn_before_newline_glues]. *)
Inductive step : Writer * list Event → Writer * list Event → Prop :=
| step_emit m w es w' r new :
    emission_ok (redaction w) m = true → emit raises m w = (w', r) →
    events (chain w') = events (chain w) ++ new → step (w, es) (w', es ++ (read_back <$> new))
| step_checkpoint w es w' r : checkpoint raises w = (w', r) → step (w, es) (w', es)
| step_observers w es m p d : step (w, es) (set_observers m p d w, es)
| step_repair ds w es w' r new :
    Forall (λ d, whole d = true) ds → repair_from_disk ds w = (w', r) →
    events (chain w') = events (chain w) ++ new → step (w, es) (w', es ++ (read_back <$> new))
| step_reopen o w es l w' :
    o_can_read o = true → Forall (λ d, whole d = true) (o_disks o) → __init__ o (log w) = (l, Ok w') →
    step (w, es) (w', es ++ (read_back <$> events (chain w')))
| step_crash m n w es w1 r es1 o l w' :
    match redact (redaction w) (e_payload m) with Ok p => writable p | Err _ => true end = true →
    e_disk m = CutShort n → emit raises m w = (w1, r) → utf8_valid (default "" (log w1)) = true →
    read_all_events (log w1) = Ok es1 → es ≠ [] → NoDup (hash <$> es1) →
    (∀ e, parse_line (last_line (log w1)) ≠ Good e) →
    o_can_read o = true → o_can_truncate o = true → Forall (λ d, whole d = true) (o_disks o) →
    __init__ o (log w1) = (l, Ok w') →
    step (w, es) (w', es1 ++ (read_back <$> events (chain w'))).
Definition reachable (w : Writer) (es : list Event) : Prop :=
  rtc step (new_writer None run red, []) (w, es).

Lemma step_ok w es w' es' : step (w, es) (w', es') →
  writer_ok w es ∧ committing w = false → writer_ok w' es' ∧ committing w' = false.
Proof using RL.
  intros H [Hw Hi]. inversion H; subst; clear H.
  - edestruct emit_spec as (new' & [Hok Hev Hi' _] & _); [exact Hw|done..|].
    assert (new' = new) as -> by (apply (app_inv_head (events (chain w))); congruence). done.
  - edestruct checkpoint_spec as ([Hok _ Hi' _] & _); [exact Hw|done..|].
    cbn in Hok. by rewrite app_nil_r in Hok.
  - split; [|done]. by destruct Hw.
  - edestruct repair_from_disk_spec as (new' & [Hok Hev Hi' _] & _); [exact Hw|done..|].
    assert (new' = new) as -> by (apply (app_inv_head (events (chain w))); congruence). done.
  - edestruct init_spec as (Hok & Hi' & _); [left; apply Hw|apply Hw|done..].
  - edestruct killed_reads as (es2 & Hr2 & _ & Hc2 & Hrec); [exact Hw|done..|].
    assert (es2 = es1) as -> by congruence.
    edestruct init_spec as (Hok & Hi' & _); [|exact Hc2|done..|done].
    replace (o_can_truncate o) with true by done. by apply Hrec.
Qed.
Definition in_order (s : Writer * list Event) : Prop := writer_ok s.1 s.2 ∧ committing s.1 = false.
Lemma reachable_ok w es : reachable w es → writer_ok w es ∧ committing w = false.
Proof using RL.
  unfold reachable. intros H. change (in_order (w, es)).
  assert (in_order (new_writer None run red, [])) as H0.
  { split; [|done]. exact (new_writer_ok None run red [] (or_introl (conj eq_refl eq_refl)) I). }
  induction H as [s|[w1 es1] [w2 es2] s3 H1 _ IH]; [done|]. apply IH. by eapply step_ok.
Qed.

Lemma load_chained l es : read_all_events l = Ok es → chained _GENESIS_HASH es → es ≠ [] →
  ∃ c, load l = Ok c ∧ events c = es ∧ tip_hash c = tip_of _GENESIS_HASH es.
Proof.
  intros Hr Hc Hne. unfold load. rewrite Hr. cbn [mbind result_bind]. destruct es as [|e es]; [done|].
  eexists. assert (append_all (e :: es) (empty_chain (run_id e)) =
    ({| chain_run_id := run_id e; events := e :: es; tip_hash := tip_of _GENESIS_HASH (e :: es) |}, Ok ()))
    as -> by (by apply append_all_ok). done.
Qed.

(** ** The guarantees *)

(** C12: a log that any number of [step]s leads to reads back as exactly the
    events that were committed, in their order; they form a hash chain that
    verifies, and the writer goes on from its last hash. The steps are writes of
    payloads without floats, checkpoints, repairs, reopenings, and kills that tear
    a line behind other events, between two characters, after its first byte and
    before its last; a kill just before the newline, in the first event or inside
    a character, and a failed fsync, are no [step]. *)
Theorem log_verifies w es : reachable w es →
  read_all_events (log w) = Ok es ∧
  (es ≠ [] → verify (log w) = Ok true ∧ ∃ c, load (log w) = Ok c ∧ events c = es ∧
             tip_hash c = tip_hash (chain w)) ∧
  committing w = false.
Proof using RL.
  intros [Hw Hi]%reachable_ok. pose proof (log_reads _ _ (wo_log _ _ Hw)) as Hr.
  split_and!; [done| |done]. intros Hne.
  destruct (load_chained _ _ Hr (wo_chained _ _ Hw) Hne) as (c & Hc & He & Ht).
  split; [unfold verify; by rewrite Hc|]. exists c. by rewrite Ht, (wo_tip _ _ Hw).
Qed.

(** C14: write first, on every log that [step]s lead to: whatever mirror, post-commit or durability observer was
    called, the event it got was in the log when it was called. *)
Theorem observers_see_durable_events w es c : reachable w es → c ∈ calls w →
  ∃ es', read_all_events (log_then c) = Ok es' ∧ read_back (seen c) ∈ es'.
Proof using RL.
  intros [Hw _]%reachable_ok (es' & Hl & Hin)%(wo_seen _ _ Hw). exists es'.
  split; [by apply log_reads|done].
Qed.

(** C13: an [emit] on such a log, with a payload the log can hold, that is killed
    while it writes and not inside a character, leaves a log that reads as
    before or as after it.  If moreover an event was there before, the hashes
    differ and the last line is not a whole event (the cut was not exactly
    before the newline), reopening succeeds, drops the torn bytes, and the log
    verifies. *)
Theorem killed_emit_recovers w es m n w1 r : reachable w es →
  match redact (redaction w) (e_payload m) with Ok p => writable p | Err _ => true end = true →
  e_disk m = CutShort n → emit raises m w = (w1, r) → utf8_valid (default "" (log w1)) = true →
  ∃ es1, read_all_events (log w1) = Ok es1 ∧ (es1 = es ∨ ∃ e, es1 = es ++ [e]) ∧
    (es ≠ [] → NoDup (hash <$> es1) → (∀ e, parse_line (last_line (log w1)) ≠ Good e) →
     ∀ o, o_run_id o = Some run → o_can_read o = true → o_can_truncate o = true → o_repair o = false →
     ∃ w2, __init__ o (log w1) = (log w2, Ok w2) ∧ read_all_events (log w2) = Ok es1 ∧
           verify (log w2) = Ok true ∧ tip_hash (chain w2) = tip_of _GENESIS_HASH es1).
Proof using RL.
  intros [Hw _]%reachable_ok Hp Hd He Hu.
  destruct (killed_reads _ _ _ _ _ _ _ Hw Hp Hd He Hu) as (es1 & Hr1 & Hes1 & Hc1 & Hrec).
  exists es1. split_and!; [done|done|]. intros Hne Hn Hno o Ho Hread Htr Hrep.
  specialize (Hrec Hne Hn Hno).
  destruct (_reseed_tip_from_disk true true (new_writer (log w1) run (o_redaction o))) as [w2 r2] eqn:E.
  pose proof E as Hseed. apply (reseed_spec _ es1) in Hseed as (-> & Hok & _ & _ & _); [|done|done].
  exists w2. pose proof (log_reads _ _ (wo_log _ _ Hok)) as Hr2. split_and!; [|done| |by apply Hok].
  - unfold __init__, run_id_of. rewrite Ho, Hread, Htr, Hrep. unfold mbind, action_bind. by rewrite E.
  - assert (es1 ≠ []) as Hne1 by (destruct Hes1 as [->|(e & ->)]; [done|by destruct es]).
    destruct (load_chained _ _ Hr2 Hc1 Hne1) as (c & Hc & _). unfold verify. by rewrite Hc.
Qed.

(** *** Repair on opening *)
Lemma get_canon_members p k : plain_json (JObj p) = true →
  Dict.get (canon_members p) k = canon <$> Dict.get p k.
Proof using RL.
  intros (kvs & Hc & Hg)%get_canon. rewrite canon_members_eq in Hc. injection Hc as <-. apply Hg.
Qed.
(** A close reads back as a close of the same handle. *)
Lemma closes_read_back rid tip e c : closes rid tip e c → plain_json (JObj (payload_of c)) = true →
  ∀ o, track o (read_back c) = track o c.
Proof using RL.
  intros (ck & t & (Hno & _)%close_map_cases & Hk & Hp & _) Hpl o. unfold track, source_event_id. cbn [read_back kind payload_of].
  rewrite (get_canon_members _ _ Hpl), Hp. unfold close_payload. rewrite Dict.get_set_eq.
  cbn [fmap option_fmap option_map canon]. by rewrite nfc_hex, Hk, Hno.
Qed.
Lemma handles_read_back rid tip l cs o : closes_all rid tip l cs →
  Forall (λ c, plain_json (JObj (payload_of c)) = true) cs →
  foldl track o (read_back <$> cs) = foldl track o cs.
Proof using RL.
  revert tip cs o. induction l as [|e l IH]; intros tip [|c cs] o; try done.
  intros [Hc Hcs] [Hp Hps]%Forall_cons. cbn [fmap list_fmap foldl].
  rewrite (closes_read_back _ _ _ _ Hc Hp). by apply (IH (hash c)).
Qed.

(** C15: a log that [step]s lead to, opened with [repair_on_open] by an opening
    that succeeds, has no handle left open: the events it held are there, followed by their closes, and a repair of it adds
    nothing. *)
Theorem repair_on_open_closes w es o l w' : reachable w es →
  o_can_read o = true → Forall (λ d, whole d = true) (o_disks o) → o_repair o = true →
  __init__ o (log w) = (l, Ok w') →
  ∃ cs s, read_all_events (log w') = Ok (es ++ cs) ∧
    length cs = length (still_open (open_handles es)) ∧
    repair (es ++ cs) = Ok s ∧ synthesized_close_events s = [] ∧
    already_closed (repair_summary s) = true.
Proof using RL.
  intros [Hw _]%reachable_ok Hread Hds Hrep Hinit.
  apply (init_spec _ _ es) in Hinit as (Hok & _ & _ & _ & Hs); [|by left; apply Hw|apply Hw|done..].
  destruct (Hs Hrep) as (s & Hrs & Hcs). clear Hs.
  pose proof (log_reads _ _ (wo_log _ _ Hok)) as Hr.
  pose proof (repair_inv _ _ Hrs) as (cs & _ & Hcs' & Hclo & _ & Hn & _).
  assert (Forall (λ c, plain_json (JObj (payload_of c)) = true) cs) as Hpl.
  { rewrite <-Hcs'. unfold repair in Hrs.
    apply result_bind_ok in Hrs as (cs2 & Hv%synthesize_valid & [= <-]).
    eapply Forall_impl; [exact Hv|]. by intros c [_ ?]. }
  rewrite Hcs, Hcs' in Hr.
  destruct (repair_closed_id (es ++ (read_back <$> cs))) as (s' & Hs1 & Hs2 & Hs3 & Hs4).
  { unfold open_handles. rewrite foldl_app, (handles_read_back _ _ _ _ _ Hclo Hpl).
    eapply pending_closed; [apply pending_start|exact Hclo]. }
  exists (read_back <$> cs), s'. split_and!; try done. rewrite length_fmap. clear -Hclo.
  revert Hclo. generalize (tip_of _GENESIS_HASH es). generalize (still_open (open_handles es)).
  intros h. revert cs. induction h as [|e h IH]; intros [|c cs] tip; try done.
  intros [_ Hc]. cbn. f_equal. by eapply IH.
Qed.
End life.

(** ** Observers and redaction *)
Section delivery.
Context (raises : list call → string → Event → bool).

Definition deliveries (l : option string) (os : list string) (es : list Event) : list call :=
  concat ((λ e, (λ o, {| observer := o; seen := e; log_then := l |}) <$> os) <$> es).

Lemma notify_all_calls os e w w' : notify_all raises os e w = (w', Ok ()) →
  calls w' = calls w ++ deliveries (log w) os [e] ∧ quiet w w'.
Proof.
  unfold deliveries. cbn. rewrite app_nil_r. revert w. induction os as [|o os IH]; intros w; cbn [notify_all].
  { intros [= <-]. rewrite app_nil_r. split; [done|apply quiet_refl]. }
  unfold mbind, action_bind, notify. destruct (negb _); cbn; [|done].
  intros [-> Hq]%IH. cbn. rewrite <-app_assoc. split; [done|]. exact Hq.
Qed.
Lemma notify_events_calls os es w w' : notify_events raises es os w = (w', Ok ()) →
  calls w' = calls w ++ deliveries (log w) os es ∧ quiet w w'.
Proof.
  revert w. induction es as [|e es IH]; intros w; cbn [notify_events].
  { intros [= <-]. rewrite app_nil_r. split; [done|apply quiet_refl]. }
  unfold mbind, action_bind. destruct (notify_all raises os e w) as [w1 [[]|]] eqn:E; [|done].
  apply notify_all_calls in E as [Hc1 Hq1]. intros [-> Hq]%IH. split; [|by eapply quiet_trans].
  destruct Hq1 as [Hl1 _]. rewrite Hc1, Hl1, <-app_assoc. f_equal. unfold deliveries. cbn.
  by rewrite app_nil_r.
Qed.

(** A checkpoint that returns has told every durability observer, in order and
    once, of each event since the last one, and a second one tells nothing. *)
Theorem checkpoint_delivers_once w w' : committing w = false → checkpoint raises w = (w', Ok ()) →
  calls w' = calls w ++ deliveries (log w) (durability_observers w)
                          (drop (checkpoint_watermark w) (events (chain w))) ∧
  calls (checkpoint raises w').1 = calls w'.
Proof.
  intros Hi. unfold checkpoint, get_state, ensure, modify, mbind, action_bind. rewrite Hi. cbn [negb guard_or].
  intros [Hc (_ & Hch & _ & _ & Hm)]%notify_events_calls. split; [done|].
  destruct (negb (committing w')); cbn [guard_or]; [|done]. rewrite Hm, Hch. cbn. by rewrite drop_all.
Qed.
End delivery.

Section redacted.
Context {X : Regex}.

(** Every member under a redacted field holds the replacement, at any depth. *)
Fixpoint hidden (r : RedactionProfile) (v : json) : Prop :=
  match v with
  | JObj kvs => foldr (λ kv acc, (if bool_decide (kv.1 ∈ fields r)
                                  then kv.2 = JStr (replacement r) else hidden r kv.2) ∧ acc) True kvs
  | JArr l => foldr (λ x acc, hidden r x ∧ acc) True l
  | _ => True
  end.
Lemma scrub_hidden r v v' : _scrub r v = Some v' → hidden r v'.
Proof.
  revert v'. induction v as [|b|n|f|t|l IH|kvs IH] using json_ind'; intros v' H; cbn in H.
  - by injection H as <-.
  - by injection H as <-.
  - by injection H as <-.
  - by injection H as <-.
  - destruct (scrub_text r t); [|done]. by injection H as <-.
  - destruct (mapM (_scrub r) l) as [l'|] eqn:E; [|done]. injection H as <-.
    apply mapM_Some in E. induction E as [|x y l l' Hx _ IHl]; [done|].
    apply Forall_cons in IH as [IHx IH]. cbn. split; [by apply IHx|by apply IHl].
  - match type of H with context [mapM ?g kvs] => destruct (mapM g kvs) as [kvs'|] eqn:E end; [|done].
    injection H as <-. apply mapM_Some in E.
    induction E as [|[k x] [k' y] l l' Hx _ IHl]; [done|].
    apply Forall_cons in IH as [IHx IH]. cbn in *.
    destruct (if bool_decide (k ∈ fields r) then _ else _) as [z|] eqn:Ez; [|done].
    injection Hx as <- <-. split; [|by apply IHl].
    case_bool_decide; [by injection Ez as <-|by apply IHx].
Qed.
(** A redacted payload shows no value of a redacted field. *)
Theorem redaction_hides_fields r p p' : apply r p = Ok p' → hidden r (JObj p').
Proof.
  unfold apply. destruct (forallb _ _); [|done].
  destruct (_scrub r (JObj p)) as [v|] eqn:E; [|done]. apply scrub_hidden in E.
  destruct v; try done. by intros [= <-].
Qed.
End redacted.

(** ** The guarantees at work, and where recovery falls short *)
Section sample.
#[local] Existing Instance plain_runtime.
#[local] Existing Instance plain_pytext.
(** A checksum of 32 bytes, in the place of SHA-256. *)
Fixpoint checksum (acc : Z) (s : string) : Z :=
  match s with
  | "" => acc
  | String c s => checksum ((acc * 257 + Z.of_N (ord c) + 1) mod (2 ^ 256 - 189))%Z s
  end.
#[local] Instance sample_sha : Sha256 := λ s, to_bytes 32 (checksum 7 s).
#[local] Instance no_regex : Regex := {| re_compile := λ _, true; re_sub := λ _ _ s, Some s |}.

(** The observer [index] raises. *)
Definition index_raises (_ : list call) (o : string) (_ : Event) : bool := String.eqb o "index".
Definition a_run : string := repeat_char 16 "r".
Definition emission_of (n : ascii) (k : string) (d : disk) : emission :=
  {| e_kind := k; e_payload := [("n", JStr (String n "")); ("api_key", JStr "s3cret")]; e_step := None;
     e_parent := None; e_time := Some 5%Z; e_now := 9%Z; e_id := repeat_char 16 n; e_disk := d |}.
Definition keys_hidden : RedactionProfile :=
  {| patterns := []; fields := ["api_key"]; replacement := "[REDACTED]" |}.
Definition opening_of (repair : bool) : opening :=
  {| o_run_id := Some a_run; o_ambient := None; o_redaction := Some keys_hidden; o_repair := repair;
     o_can_read := true; o_can_truncate := true; o_disks := [] |}.
Definition fresh_log : Writer := new_writer None a_run (Some keys_hidden).
Definition emitting (n : ascii) (k : string) (d : disk) (w : Writer) : Writer :=
  (emit index_raises (emission_of n k d) w).1.
Definition one_event : Writer := emitting "1" "run.started" Durable fresh_log.
Definition two_events : Writer := emitting "2" "tool.called" Durable one_event.
Definition new_in (w w' : Writer) : list Event := drop (length (events (chain w))) (events (chain w')).
Definition ids (r : result writer_error (list Event)) : result writer_error (list string) :=
  map id <$> r.
Definition reopened (l : option string) : option Writer :=
  match (__init__ (opening_of false) l).2 with Ok w => Some w | Err _ => None end.

Lemma emitting_step n k d w w' es : w' = emitting n k d w →
  emission_ok (redaction w) (emission_of n k d) = true →
  events (chain w') = events (chain w) ++ new_in w w' →
  step index_raises (w, es) (w', es ++ (read_back <$> new_in w w')).
Proof. intros -> Hok He. by eapply (step_emit _ _ _ _ _ _ _ Hok (surjective_pairing _)). Qed.
Definition one_held : list Event := [] ++ (read_back <$> new_in fresh_log one_event).
Definition two_held : list Event := one_held ++ (read_back <$> new_in one_event two_events).
Lemma one_step : step index_raises (fresh_log, []) (one_event, one_held).
Proof.
  unfold one_held. apply (emitting_step "1" "run.started" Durable); [reflexivity|vm_compute; reflexivity..].
Qed.
Lemma two_step : step index_raises (one_event, one_held) (two_events, two_held).
Proof.
  unfold two_held. apply (emitting_step "2" "tool.called" Durable); [reflexivity|vm_compute; reflexivity..].
Qed.
Lemma two_events_reachable : reachable index_raises a_run (Some keys_hidden) two_events two_held.
Proof. eapply rtc_l; [exact one_step|]. eapply rtc_l; [exact two_step|]. apply rtc_refl. Qed.
Lemma two_events_held : two_held ≠ [] ∧ read_all_events (log two_events) = Ok two_held.
Proof. split; vm_compute; [discriminate|reflexivity]. Qed.

Lemma log_verifies_witness : verify (log two_events) = Ok true.
Proof.
  apply (log_verifies index_raises a_run (Some keys_hidden) two_events two_held two_events_reachable).
  exact (proj1 two_events_held).
Defined.

Definition watched : Writer := add_post_commit_observer "screen" (add_mirror "otel" fresh_log).
Definition watched_event : Writer := emitting "1" "run.started" Durable watched.
Lemma watched_step es :
  step index_raises (watched, es) (watched_event, es ++ (read_back <$> new_in watched watched_event)).
Proof. apply (emitting_step "1" "run.started" Durable); [reflexivity|vm_compute; reflexivity..]. Qed.
Lemma watched_reachable : reachable index_raises a_run (Some keys_hidden) watched_event
  ([] ++ (read_back <$> new_in watched watched_event)).
Proof.
  eapply rtc_l; [exact (step_observers _ fresh_log [] ["otel"] ["screen"] [])|].
  eapply rtc_l; [apply watched_step|]. apply rtc_refl.
Qed.
Lemma observers_see_durable_events_witness : map observer (calls watched_event) = ["otel"; "screen"] ∧
  Forall (λ c, ∃ es', read_all_events (log_then c) = Ok es' ∧ read_back (seen c) ∈ es') (calls watched_event).
Proof.
  split; [vm_compute; reflexivity|]. apply Forall_forall. intros c Hc.
  exact (observers_see_durable_events index_raises a_run (Some keys_hidden) watched_event _ c watched_reachable Hc).
Defined.

Lemma ok_inj {E A} (a b : A) : @Ok E A a = Ok b → a = b.
Proof. by intros [= ->]. Qed.
(** A kill in the third event, after nine bytes. *)
Definition killed_at (n : nat) : Writer := emitting "3" "tool.result" (CutShort n) two_events.
Lemma killed_emit_recovers_witness : ∃ es w2, read_all_events (log two_events) = Ok es ∧
  __init__ (opening_of false) (log (killed_at 9)) = (log w2, Ok w2) ∧
  read_all_events (log w2) = Ok es ∧ verify (log w2) = Ok true.
Proof.
  destruct two_events_held as [Hne Hread]. pose proof two_events_reachable as Hr.
  destruct (killed_emit_recovers index_raises a_run (Some keys_hidden) two_events two_held
    (emission_of "3" "tool.result" (CutShort 9)) 9 (killed_at 9)
    (emit index_raises (emission_of "3" "tool.result" (CutShort 9)) two_events).2 Hr)
    as (es1 & Hr1 & _ & Hopen); [vm_compute; reflexivity|reflexivity|unfold killed_at, emitting; apply surjective_pairing|
    vm_compute; reflexivity|].
  assert (es1 = two_held) as ->.
  { assert (read_all_events (log (killed_at 9)) = Ok two_held) as H by (vm_compute; reflexivity).
    exact (ok_inj _ _ (eq_trans (eq_sym Hr1) H)). }
  destruct (Hopen Hne) with (o := opening_of false) as (w2 & H1 & H2 & H3 & _); try reflexivity.
  - apply (bool_decide_unpack _). vm_compute. exact I.
  - intros e. vm_compute. discriminate.
  - exists two_held, w2. split_and!; assumption.
Defined.

Lemma repair_on_open_closes_witness : ∃ cs s es, read_all_events (log two_events) = Ok es ∧
  length cs = 2 ∧ repair (es ++ cs) = Ok s ∧ synthesized_close_events s = [].
Proof.
  destruct two_events_held as [_ Hread]. pose proof two_events_reachable as Hr.
  assert (is_ok (__init__ (opening_of true) (log two_events)).2 = true) as Hopens
    by (vm_compute; reflexivity).
  destruct (__init__ (opening_of true) (log two_events)) as [l [w'|x]] eqn:E; [|discriminate Hopens].
  destruct (repair_on_open_closes index_raises a_run (Some keys_hidden) two_events two_held (opening_of true) l w' Hr)
    as (cs & s & _ & Hn & Hs & Hnil & _); [reflexivity|constructor|reflexivity|exact E|].
  exists cs, s, two_held. split_and!; [exact Hread| |exact Hs|exact Hnil].
  rewrite Hn. vm_compute. reflexivity.
Defined.

(** *** Where recovery falls short *)
Definition third_line : string :=
  match build_next (chain two_events) (repeat_char 16 "3") 5 "tool.result"
          [("n", JStr "3"); ("api_key", JStr "[REDACTED]")] None None with
  | Ok e => match encode (JObj (to_canonical_dict e)) with Ok l => l | Err _ => "" end
  | Err _ => ""
  end.
Definition then_emitting (n : ascii) (w : option Writer) : option Writer :=
  emitting n "tool.result" Durable <$> w.
Definition log_of (w : option Writer) : option string := w ≫= log.

(** A kill exactly before the newline: reopening takes the line for whole and
    leaves it unended, the next event is written behind it on the same line and
    both are lost; after one more the log does not verify. *)
Theorem torn_before_newline_glues :
  let l := log (killed_at (String.length third_line)) in
  let after_one := log_of (then_emitting "4" (reopened l)) in
  let after_two := log_of (then_emitting "5" (then_emitting "4" (reopened l))) in
  ids (read_all_events l) = Ok [repeat_char 16 "1"; repeat_char 16 "2"; repeat_char 16 "3"] ∧
  ids (read_all_events after_one) = Ok [repeat_char 16 "1"; repeat_char 16 "2"] ∧
  verify after_two = Ok false.
Proof. vm_compute. done. Qed.

(** A kill in the first event: nothing seeds the chain and nothing is cut off,
    so the events of the next run are written behind the torn bytes. *)
Theorem torn_first_line_is_kept :
  let l := log (emitting "1" "run.started" (CutShort 9) fresh_log) in
  let after_one := log_of (then_emitting "2" (reopened l)) in
  read_all_events after_one = Ok [] ∧
  verify (log_of (then_emitting "3" (then_emitting "2" (reopened l)))) = Ok false.
Proof. vm_compute. done. Qed.

(** A line cut inside a character: the reader passes over it, but the writer
    cannot be opened again. *)
Definition cut_in_character : option string :=
  Some (default "" (log two_events) +:+ "{" +:+ String dquote (String "195" "")).
Theorem torn_character_refuses_reopening :
  ids (read_all_events cut_in_character) = Ok [repeat_char 16 "1"; repeat_char 16 "2"] ∧
  (__init__ (opening_of false) cut_in_character).2 = Err LogNotUtf8.
Proof. vm_compute. done. Qed.

(** A blank line before the last event, which both sides pass over, is not
    counted when the torn tail is cut off: the cut takes the newline of the
    last good line, and the next event is lost behind it. *)
Definition with_blank : option string :=
  Some (String newline (default "" (log two_events) +:+ "{")).
Theorem blank_line_cuts_too_much :
  ids (read_all_events with_blank) = Ok [repeat_char 16 "1"; repeat_char 16 "2"] ∧
  ids (read_all_events (log_of (then_emitting "3" (reopened with_blank)))) = Ok [repeat_char 16 "1"].
Proof. vm_compute. done. Qed.

(** A failed [fsync]: the line is on the disk, the chain does not have it, and
    the next event forks the log. *)
Theorem failed_sync_forks_log :
  let failed := emitting "3" "tool.result" (CutShort (S (String.length third_line))) two_events in
  length (events (chain failed)) = 2 ∧ verify (log failed) = Ok true ∧
  verify (log (emitting "4" "tool.result" Durable failed)) = Ok false.
Proof. vm_compute. done. Qed.

(** A checkpoint moves its mark before it tells the observers: when one raises,
    the rest of the events never reach any of them. *)
Theorem raising_observer_loses_events :
  let w := add_durability_observer "copy" (add_durability_observer "index" two_events) in
  let '(w1, r1) := checkpoint index_raises w in
  let '(w2, r2) := checkpoint index_raises w1 in
  r1 = Err (Raised "index") ∧ r2 = Ok () ∧ map observer (calls w2) = ["index"].
Proof. vm_compute. done. Qed.

(** A line with an infinite time: the verifier raises instead of refusing. *)
Definition infinite_time : option string :=
  Some (json_dumps None (JObj (Dict.set (to_canonical_dict
          {| id := a_run; run_id := a_run; step_id := None; parent_id := None; timestamp_ns := 5;
             kind := "run.started"; payload_of := []; hash := zero_bytes 32; prev_hash := zero_bytes 32 |})
          "timestamp_ns" (JFloat (S754_infinity false)))) +:+ LF).
Theorem infinite_time_escapes_verify : verify infinite_time = Err (Bad TimestampOverflow).
Proof. vm_compute. done. Qed.

(** A synthesized close reaches no mirror: only [emit] calls them. *)
Theorem synthesized_closes_not_mirrored :
  let w := add_mirror "otel" two_events in
  let w' := (repair_from_disk [] w).1 in
  length (events (chain w')) = 4 ∧ calls w' = [].
Proof. vm_compute. done. Qed.
End sample.
