(* ===== verification/Sidecar.v ===== *)
(** * Headers of sidecar files

    Models [sidecar_header.py]: the registry of types and their versions, the
    header that binds a JSON sidecar to a run, its writer and its reader.  The
    layout of a header as the first line of a file, which nothing uses, and the
    events of the trace are left out. *)

From S2P Require Import Prelude Canonical CanonicalRead CanonicalScan CanonicalPrefix CanonicalLines JsonText.

(** The refusals, the [KeyError] of an unknown type, the [ValueError]s of an
    argument, and the errors of the file and of the encoder. *)
Inductive sidecar_error : Type :=
| SidecarHeaderMissing
| SidecarRunIdMismatch (header_run_id expected_run_id : string)
| SidecarUnknownSchemaAtWrite
| SidecarUnknownSchemaAtRead
| SidecarDowngradeRefused
| NotRegistered
| BadArgument
| NoSuchFile
| NotCanonical (e : jcs_error)
| CannotWrite.
(** [SidecarHeaderError] and its subclasses. *)
Definition header_error (e : sidecar_error) : bool :=
  match e with
  | SidecarHeaderMissing | SidecarRunIdMismatch _ _ | SidecarUnknownSchemaAtWrite
  | SidecarUnknownSchemaAtRead | SidecarDowngradeRefused => true
  | _ => false
  end.

(** ** The registry *)
Definition registry := list (string * list Z).
Definition _KNOWN_SIDECAR_SCHEMAS : registry := [("loop_state", [4%Z])].
Definition register_sidecar_type (r : registry) (sidecar_type : string) (known : list Z)
    : result sidecar_error registry :=
  _ ← guard_or (negb (String.eqb sidecar_type "")) BadArgument;
  _ ← guard_or (bool_decide (known ≠ [])) BadArgument;
  _ ← guard_or (forallb (λ v, 1 <=? v)%Z known) BadArgument;
  Ok (Dict.set r sidecar_type known).
Definition known_versions_for (r : registry) (sidecar_type : string) : result sidecar_error (list Z) :=
  match Dict.get r sidecar_type with Some known => Ok known | None => Err NotRegistered end.

(** ** The header *)
Definition HEADER_KIND : string := "sidecar_header".
Record SidecarHeader := {
  schema_version : Z;
  run_id : string;
  sidecar_type : string;
  created_at : json;
  ract_version : string;
  synthetic_legacy : bool;
}.
Definition to_dict (h : SidecarHeader) : list (string * json) :=
  [("kind", JStr HEADER_KIND); ("schema_version", JInt (schema_version h)); ("run_id", JStr (run_id h));
   ("sidecar_type", JStr (sidecar_type h)); ("created_at", created_at h);
   ("ract_version", JStr (ract_version h))].
Definition build_sidecar_header (r : registry) (type : string) (version : Z) (run version_text now : string)
    : result sidecar_error SidecarHeader :=
  known ← known_versions_for r type;
  _ ← guard_or (bool_decide (version ∈ known)) SidecarUnknownSchemaAtWrite;
  _ ← guard_or (negb (String.eqb run "")) BadArgument;
  Ok {| schema_version := version; run_id := run; sidecar_type := type; created_at := JStr now;
        ract_version := version_text; synthetic_legacy := false |}.
Definition json_body_with_header (h : SidecarHeader) (body : list (string * json))
    : result sidecar_error (list (string * json)) :=
  _ ← guard_or (negb (Dict.mem body "sidecar_header")) BadArgument;
  Ok (foldl (λ out kv, Dict.set out kv.1 kv.2) [("sidecar_header", JObj (to_dict h))] body).

Section sidecar.
Context {R : Runtime} {Sh : Sha256} {T : PyText}.

(** [_validate_header_shape]; an int is any JSON integer or boolean. *)
Definition int_of (v : json) : option Z :=
  match v with JInt n => Some n | JBool b => Some (Z.b2z b) | _ => None end.
Definition is_text (v : option json) (s : string) : bool :=
  match v with Some (JStr t) => String.eqb t s | _ => false end.
Definition nonempty_text (v : option json) : result sidecar_error string :=
  match v with
  | Some (JStr s) => if String.eqb s "" then Err SidecarHeaderMissing else Ok s
  | _ => Err SidecarHeaderMissing
  end.
Definition _validate_header_shape (v : json) (type : option string) : result sidecar_error SidecarHeader :=
  match v with
  | JObj p =>
      _ ← guard_or (is_text (Dict.get p "kind") HEADER_KIND) SidecarHeaderMissing;
      _ ← guard_or (forallb (Dict.mem p) ["schema_version"; "run_id"; "sidecar_type"; "created_at"])
            SidecarHeaderMissing;
      version ← match Dict.get p "schema_version" ≫= int_of with
                | Some n => Ok n | None => Err SidecarHeaderMissing end;
      run ← nonempty_text (Dict.get p "run_id");
      own ← nonempty_text (Dict.get p "sidecar_type");
      _ ← guard_or (match type with Some t => String.eqb own t | None => true end) SidecarHeaderMissing;
      Ok {| schema_version := version; run_id := run; sidecar_type := own;
            created_at := get_or p "created_at" JNull;
            ract_version := py_str (get_or p "ract_version" (JStr "unknown"));
            synthetic_legacy := false |}
  | _ => Err SidecarHeaderMissing
  end.

Definition _synthetic_legacy_run_id (resolved : string) : string :=
  "RUN-LEGACY-" +:+ String.substring 0 16 (hex (sha256 resolved)).
Definition _LEGACY_SCHEMA_VERSION : Z := 3.

(** What the reader is asked: the type, the run and the lowest version it must
    be of, and whether a file without a header is refused. *)
Record query := {
  q_type : option string; q_run : option string; q_min : option Z; q_strict : bool;
}.
(** The header's text: [None] when there is none, or where the file cannot be
    read and may be taken for an old one. *)
Definition header_payload (strict : bool) (file : option string) : result sidecar_error (option json) :=
  match file with
  | Some raw =>
      match (if utf8_valid raw then json_loads raw else None) with
      | Some (JObj body) => Ok (match Dict.get body "sidecar_header" with Some JNull => None | v => v end)
      | Some _ => Ok None
      | None => if strict then Err SidecarHeaderMissing else Ok None
      end
  | None => if strict then Err SidecarHeaderMissing else Ok None
  end.
(** A file without a header, under the run bound to the process. *)
Definition legacy_header (q : query) (resolved : string) (ambient : option string)
    : result sidecar_error SidecarHeader :=
  _ ← guard_or (negb (q_strict q)) SidecarHeaderMissing;
  match q_type q with
  | None => Err BadArgument
  | Some type =>
      let synthetic := _synthetic_legacy_run_id resolved in
      _ ← match q_run q with
          | Some run => Err (SidecarRunIdMismatch synthetic run)
          | None => match ambient with
                    | Some run => if String.eqb run synthetic then Ok ()
                                  else Err (SidecarRunIdMismatch synthetic run)
                    | None => Ok ()
                    end
          end;
      _ ← guard_or (match q_min q with Some m => (m <=? _LEGACY_SCHEMA_VERSION)%Z | None => true end)
            SidecarDowngradeRefused;
      Ok {| schema_version := _LEGACY_SCHEMA_VERSION; run_id := synthetic; sidecar_type := type;
            created_at := JStr "0000-00-00T00:00:00Z"; ract_version := "pre-header";
            synthetic_legacy := true |}
  end.
(** [read_sidecar_header] of a JSON sidecar; [file] is [None] where there is
    one that cannot be read. *)
Definition headerless (v : option json) : bool :=
  match v with
  | None => true
  | Some (JObj p) => negb (is_text (Dict.get p "kind") HEADER_KIND)
  | Some _ => false
  end.
Definition read_sidecar_header (r : registry) (q : query) (exists_ : bool) (file : option string)
    (resolved : string) (ambient : option string) : result sidecar_error SidecarHeader :=
  if negb exists_ then Err NoSuchFile else
  payload ← header_payload (q_strict q) file;
  if headerless payload then legacy_header q resolved ambient else
  h ← _validate_header_shape (default JNull payload) (q_type q);
  _ ← match q_type q with
      | Some type => known ← known_versions_for r type;
                     guard_or (bool_decide (schema_version h ∈ known)) SidecarUnknownSchemaAtRead
      | None => Ok ()
      end;
  _ ← guard_or (match q_min q with Some m => (m <=? schema_version h)%Z | None => true end)
        SidecarDowngradeRefused;
  _ ← match q_run q with
      | Some run => guard_or (String.eqb (run_id h) run) (SidecarRunIdMismatch (run_id h) run)
      | None => Ok ()
      end;
  Ok h.

(** [write_json_sidecar_with_header]: the file, put in place whole. *)
Definition write_json_sidecar_with_header (r : registry) (body : list (string * json)) (type : string)
    (version : Z) (run version_text now : string) (can_write : bool)
    : action (option string) sidecar_error SidecarHeader :=
  h ← lift_result (build_sidecar_header r type version run version_text now);
  merged ← lift_result (json_body_with_header h body);
  raw ← lift_result (match encode (JObj merged) with Ok raw => Ok raw | Err e => Err (NotCanonical e) end);
  _ ← ensure can_write CannotWrite;
  _ ← modify (λ _, Some raw);
  mret h.

(** ** What a header binds *)

(** A reader that names a type and a run only accepts a header of that type and
    that run, in a version the type knows and not below the floor, and never a
    made-up one. *)
Theorem header_binds r q exists_ file resolved ambient h :
  read_sidecar_header r q exists_ file resolved ambient = Ok h →
  (∀ type, q_type q = Some type → sidecar_type h = type) ∧
  (∀ run, q_run q = Some run → run_id h = run ∧ synthetic_legacy h = false) ∧
  (∀ m, q_min q = Some m → (m <= schema_version h)%Z) ∧
  (synthetic_legacy h = false → ∀ type, q_type q = Some type →
     ∃ known, Dict.get r type = Some known ∧ schema_version h ∈ known) ∧
  (synthetic_legacy h = true → q_strict q = false ∧ q_run q = None ∧
     (ambient = None ∨ ambient = Some (run_id h))).
Proof.
  unfold read_sidecar_header. destruct exists_; [|done]. cbn [negb].
  intros (payload & _ & H)%result_bind_ok. destruct (headerless payload).
  - revert H. unfold legacy_header, guard_or, mbind, result_bind.
    destruct (q_strict q), (q_type q) as [type|], (q_run q) as [run|], ambient as [a|];
      cbn [negb]; try done.
    all: try (destruct (String.eqb_spec a (_synthetic_legacy_run_id resolved)) as [->|]; [|done]).
    all: destruct (q_min q) as [m|]; [destruct (Z.leb_spec m _LEGACY_SCHEMA_VERSION); [|done]|];
      intros [= <-]; cbn; split_and!; try done; try naive_solver.
  - apply result_bind_ok in H as (h' & Hshape & (u1 & Hv & (u2 & Hm & (u3 & Hr & [= ->])%result_bind_ok)%result_bind_ok)%result_bind_ok).
    assert (synthetic_legacy h = false ∧ ∀ type, q_type q = Some type → sidecar_type h = type) as [Hs Ht].
    { revert Hshape. unfold _validate_header_shape. destruct (default JNull payload); try done.
      unfold guard_or, mbind, result_bind. repeat case_match; try done; intros [= <-]; cbn; split; try done.
      all: intros type [= <-]; by apply String.eqb_eq. }
    split_and!; [done|..].
    + intros run Hrun. rewrite Hrun in Hr. unfold guard_or in Hr.
      destruct (String.eqb_spec (run_id h) run); done.
    + intros m Hmin. rewrite Hmin in Hm. unfold guard_or in Hm.
      destruct (Z.leb_spec m (schema_version h)); done.
    + intros _ type Htype. rewrite Htype in Hv. unfold known_versions_for in Hv.
      destruct (Dict.get r type) as [known|]; [|done]. exists known. split; [done|].
      cbn in Hv. unfold guard_or in Hv. by case_bool_decide.
    + by rewrite Hs.
Qed.

(** ** What is written reads back *)
Context {RL : RuntimeLaws R}.

Lemma merged_members h body merged : json_body_with_header h body = Ok merged → NoDup (Dict.keys body) →
  merged = ("sidecar_header", JObj (to_dict h)) :: body.
Proof.
  unfold json_body_with_header, guard_or. destruct (Dict.mem body "sidecar_header") eqn:Hm; [done|].
  intros [= <-] Hn. cbn [negb] in *. assert ("sidecar_header" ∉ Dict.keys body) as Hk.
  { intros Hin%Dict.mem_true. congruence. }
  cut (∀ pre, (∀ k, k ∈ Dict.keys body → k ∉ Dict.keys pre) →
    foldl (λ out kv, Dict.set out kv.1 kv.2) pre body = pre ++ body).
  { intros H. rewrite H; [done|]. intros k Hin [->|Hk']%elem_of_cons; [done|].
    by apply not_elem_of_nil in Hk'. }
  clear Hm Hk. induction body as [|[k v] body IH]; intros pre Hpre; [by rewrite app_nil_r|].
  rewrite Dict.keys_cons in Hn, Hpre. apply NoDup_cons in Hn as [Hk Hn]. cbn [foldl fst snd].
  rewrite Dict.set_notin by (apply Hpre; by left). rewrite IH; [by rewrite <-app_assoc|done|].
  intros k' Hk'. unfold Dict.keys. rewrite fmap_app, not_elem_of_app. split; [apply Hpre; by right|].
  cbn. intros [->|Hx]%elem_of_cons; [done|by apply not_elem_of_nil in Hx].
Qed.

Definition header_plain (h : SidecarHeader) : Prop :=
  plain_text (run_id h) = true ∧ plain_text (sidecar_type h) = true ∧
  plain_text (ract_version h) = true ∧ text_json (created_at h) = true.
Lemma header_dict_plain h : header_plain h → text_json (JObj (to_dict h)) = true.
Proof using RL.
  intros (Hr & Ht & Hv & Hc). apply plain_obj; [by vm_compute|].
  unfold to_dict. repeat (apply Forall_cons; split); [..|apply Forall_nil; done];
    cbn [fst snd]; (split; [done|]); try done. by apply ascii_plain.
Qed.
Lemma plain_cons k v body : text_json (JObj body) = true → ascii_text k = true → text_json v = true →
  k ∉ Dict.keys body → text_json (JObj ((k, v) :: body)) = true.
Proof using RL.
  intros (Hn & Hk & Hv)%plain_keys Ha Hp Hin. apply plain_obj.
  - apply bool_decide_eq_true. rewrite Dict.keys_cons. by apply NoDup_cons.
  - constructor; [done|]. rewrite Forall_forall in Hk, Hv |- *. intros x Hx. split; [by apply Hk|by apply Hv].
Qed.

(** The header that [build_sidecar_header] makes, read from its canonical form. *)
Lemma own_header_shape h now : header_plain h → created_at h = JStr now → synthetic_legacy h = false →
  run_id h ≠ "" → sidecar_type h ≠ "" → ∃ kvs, canon (JObj (to_dict h)) = JObj kvs ∧
  is_text (Dict.get kvs "kind") HEADER_KIND = true ∧
  _validate_header_shape (JObj kvs) (Some (sidecar_type h)) = Ok h.
Proof using RL.
  intros Hp Hc Hl Hr Ht. destruct (get_canon _ (header_dict_plain _ Hp)) as (kvs & Hk & Hg).
  exists kvs. destruct Hp as (Hpr & Hpt & Hpv & Hpc). rewrite Hc in Hpc. cbn in Hpc.
  assert (nfc HEADER_KIND = HEADER_KIND) as Hhk by by apply ascii_nfc.
  assert (∀ k v, Dict.get (to_dict h) k = Some v → Dict.get kvs k = Some (canon v)) as Hget.
  { intros k v Hkv. by rewrite Hg, Hkv. }
  pose proof (Hget "kind" (JStr HEADER_KIND) eq_refl) as G1. pose proof (Hget "schema_version" _ eq_refl) as G2.
  pose proof (Hget "run_id" _ eq_refl) as G3. pose proof (Hget "sidecar_type" _ eq_refl) as G4.
  pose proof (Hget "created_at" _ eq_refl) as G5. pose proof (Hget "ract_version" _ eq_refl) as G6.
  rewrite Hc in G5. cbn [canon] in *.
  rewrite ?Hhk, ?(plain_text_nfc _ Hpr), ?(plain_text_nfc _ Hpt), ?(plain_text_nfc _ Hpv), ?(plain_text_nfc _ Hpc) in *.
  split_and!; [done|by rewrite G1|]. unfold _validate_header_shape, Dict.mem, get_or.
  rewrite G1. cbn [is_text]. rewrite String.eqb_refl. cbn [forallb guard_or mbind result_bind].
  rewrite G2, G3, G4, G5, G6. rewrite !bool_decide_eq_true_2 by by eexists.
  cbn [andb guard_or mbind result_bind option_bind int_of nonempty_text].
  apply String.eqb_neq in Hr, Ht. rewrite Hr, Ht. cbn [mbind result_bind]. rewrite String.eqb_refl. cbn.
  destruct h. cbn in *. by subst.
Qed.

(** A sidecar reads back: its header for the run and type it was written for,
    and the members of its body. *)
Lemma written_reads r type version run text now body merged raw h strict :
  build_sidecar_header r type version run text now = Ok h → header_plain h → type ≠ "" →
  text_json (JObj body) = true → json_body_with_header h body = Ok merged → encode (JObj merged) = Ok raw →
  read_sidecar_header r {| q_type := Some type; q_run := Some run; q_min := None; q_strict := strict |}
    true (Some raw) "" None = Ok h ∧
  ∃ kvs, json_loads raw = Some (JObj kvs) ∧ utf8_valid raw = true ∧
    ∀ k, k ≠ "sidecar_header" → Dict.get kvs k = canon <$> Dict.get body k.
Proof using RL.
  intros Hb Hh Htype Hbody Hm Hraw. pose proof (plain_keys _ Hbody) as (Hn & _ & _).
  unfold json_body_with_header in Hm. destruct (Dict.mem body "sidecar_header") eqn:Hmem; [done|].
  pose proof (merged_members h body merged) as Hmm. unfold json_body_with_header in Hmm. rewrite Hmem in Hmm.
  specialize (Hmm Hm Hn). subst merged. clear Hm.
  assert ("sidecar_header" ∉ Dict.keys body) as Hnk by (intros Hin%Dict.mem_true; congruence).
  assert (text_json (JObj (("sidecar_header", JObj (to_dict h)) :: body)) = true) as Hp.
  { apply plain_cons; [done|done|by apply header_dict_plain|done]. }
  pose proof (loads_encode _ _ Hraw (plain_no_float _ Hp)) as Hl.
  pose proof (encode_utf8 _ _ Hraw (plain_no_float _ Hp) (plain_utf8 _ Hp)) as Hu.
  destruct (get_canon _ Hp) as (kvs & Hc & Hg). rewrite Hc in Hl.
  revert Hb. unfold build_sidecar_header.
  intros (known & Hk & (u1 & Hv & (u2 & Hne & Heq)%result_bind_ok)%result_bind_ok)%result_bind_ok.
  assert (schema_version h = version ∧ run_id h = run ∧ sidecar_type h = type ∧ created_at h = JStr now ∧
    synthetic_legacy h = false) as (E1 & E2 & E3 & E4 & E5) by (by injection Heq as <-).
  destruct (own_header_shape h now) as (hk & Hhc & Hkind & Hshape); [done|done|done| |congruence|].
  { rewrite E2. unfold guard_or in Hne. by destruct (String.eqb_spec run ""). }
  split.
  - unfold read_sidecar_header, header_payload. cbn [q_type q_run q_min q_strict negb]. rewrite Hu, Hl.
    rewrite (Hg "sidecar_header"). cbn [Dict.get decide]. rewrite decide_True by done.
    cbn [fmap option_fmap option_map]. rewrite Hhc. cbn [mbind result_bind headerless]. rewrite Hkind. cbn [negb].
    change (default JNull (Some (JObj hk))) with (JObj hk). rewrite E3 in Hshape. rewrite Hshape. cbn [mbind result_bind].
    rewrite Hk, E1, E2. cbn [mbind result_bind].
    unfold guard_or in Hv |- *. case_bool_decide; [|done]. by rewrite String.eqb_refl.
  - exists kvs. split_and!; [done|done|]. intros k Hk'. rewrite Hg. cbn [Dict.get]. by rewrite decide_False by done.
Qed.
End sidecar.
