(* ===== verification/TraceVerify.v ===== *)
(** * Verifying an event log

    Models [trace/verify.py]: the verdict on a log, the walk over its lines, the
    cold verification, the warm one that starts from a sidecar's checkpoint,
    with its spot check of the tail, and the sidecar itself.  The words of a
    verdict and the events of the trace are left out. *)

From S2P Require Import Prelude Canonical JsonText Text TextLines Trace TraceWriter Sidecar.

Inductive verify_status : Type := VALID | INVALID | TORN_TAIL | TAMPERED.
#[export] Instance verify_status_eq_dec : EqDecision verify_status.
Proof. solve_decision. Defined.
(** [tamper_details]: where, which event, and what is wrong. *)
Record tamper := { t_offset : nat; t_index : nat; t_kind : string }.
Record TraceVerifyResult := {
  status : verify_status;
  verified_head : option string;
  verified_offset : nat;
  events_verified : nat;
  events_torn : nat;
  events_tampered : nat;
  tamper_details : option tamper;
}.
Definition is_valid (r : TraceVerifyResult) : bool :=
  bool_decide (status r = VALID) || bool_decide (status r = TORN_TAIL).
Definition is_healthy (r : TraceVerifyResult) : bool := bool_decide (status r = VALID).
Definition valid_result (head : option string) (offset n : nat) : TraceVerifyResult :=
  {| status := VALID; verified_head := head; verified_offset := offset; events_verified := n;
     events_torn := 0; events_tampered := 0; tamper_details := None |}.
Definition torn_tail (head : option string) (offset n : nat) : TraceVerifyResult :=
  {| status := TORN_TAIL; verified_head := head; verified_offset := offset; events_verified := n;
     events_torn := 1; events_tampered := 0; tamper_details := None |}.
Definition tampered (head : option string) (offset n : nat) (d : tamper) : TraceVerifyResult :=
  {| status := TAMPERED; verified_head := head; verified_offset := offset; events_verified := n;
     events_torn := 0; events_tampered := 1; tamper_details := Some d |}.
Definition invalid_result : TraceVerifyResult :=
  {| status := INVALID; verified_head := None; verified_offset := 0; events_verified := 0;
     events_torn := 0; events_tampered := 0; tamper_details := None |}.

(** [__post_init__]: what every verdict is checked for; the status is of its
    type and the offset a natural number. *)
Definition result_ok (r : TraceVerifyResult) : bool :=
  Nat.leb (events_torn r) 1 &&
  Bool.eqb (bool_decide (status r = TAMPERED)) (bool_decide (is_Some (tamper_details r))).

(** ** Lines *)

(** The line ending off. *)
Definition trim_line (raw : string) : string :=
  if endswith raw CRLF then drop_last 2 raw else if endswith raw LF then drop_last 1 raw else raw.
(** Where a text stops being UTF-8: the [start] of the decoder's error. *)
Fixpoint utf8_start (s : string) : nat :=
  match s with
  | "" => 0
  | String a s1 =>
      if byte_in 0 0x7F a then S (utf8_start s1)
      else if byte_in 0xC2 0xDF a then
        match s1 with
        | String b s2 => if continuation b then 2 + utf8_start s2 else 0
        | "" => 0
        end
      else if byte_in 0xE0 0xEF a then
        match s1 with
        | String b (String c s3) =>
            if second_of_3 a b && continuation c then 3 + utf8_start s3 else 0
        | _ => 0
        end
      else if byte_in 0xF0 0xF4 a then
        match s1 with
        | String b (String c (String d s4)) =>
            if second_of_4 a b && continuation c && continuation d then 4 + utf8_start s4 else 0
        | _ => 0
        end
      else 0
  end.
Definition str_drop (n : nat) (s : string) : string := String.substring n (String.length s - n) s.

(** What the walk raises: a line in the middle that does not decode, or an
    error of the event that it does not catch, or the file's [OSError]. *)
Inductive walk_error : Type := Utf8Corruption (start : nat) | Uncaught (e : event_error) | Unreadable.

Section verify.
Context {R : Runtime} {Sh : Sha256} {T : PyText}.

Definition event_of (data : json) : result event_error Event :=
  match data with JObj kvs => from_canonical_dict kvs | _ => Err (BadField "") end.

(** ** The walk

    The events verified so far, the offset reached and the head. *)
Record position := { p_chain : EventChain; p_n : nat; p_offset : nat; p_head : option string }.
Definition stop (p : position) (what : string) : TraceVerifyResult :=
  tampered (p_head p) (p_offset p) (p_n p)
    {| t_offset := p_offset p; t_index := p_n p; t_kind := what |}.

(** One event: the chain after it, or the verdict. *)
Inductive checked : Type := Passed (p : position) | Stopped (r : TraceVerifyResult).
Definition bind_run (p : position) (e : Event) : EventChain :=
  if Nat.eqb (p_n p) 0 && String.eqb (tip_hash (p_chain p)) _GENESIS_HASH
  then empty_chain (Trace.run_id e) else p_chain p.
Definition check_event (p : position) (end_ : nat) (e : Event) : result walk_error checked :=
  let chain := bind_run p e in
  if negb (String.eqb (Trace.run_id e) (chain_run_id chain)) then Ok (Stopped (stop p "run_id_mismatch"))
  else if negb (bool_decide (kind e ∈ LEGAL_EVENT_KINDS)) then Ok (Stopped (stop p "unknown_event_kind"))
  else if negb (String.eqb (prev_hash e) (tip_hash chain)) then Ok (Stopped (stop p "prev_hash_mismatch"))
  else match event_hash e with
  | Err x => Err (Uncaught x)
  | Ok recomputed =>
      if negb (String.eqb recomputed (hash e)) then Ok (Stopped (stop p "payload_tampered"))
      else match append e chain with
      | (_, Err ChainBroken) => Ok (Stopped (stop p "chain_broken"))
      | (_, Err x) => Err (Uncaught x)
      | (chain', Ok _) =>
          Ok (Passed {| p_chain := chain'; p_n := S (p_n p); p_offset := end_; p_head := Some (hex (hash e)) |})
      end
  end.
Definition skip_line (p : position) (end_ : nat) : position :=
  {| p_chain := p_chain p; p_n := p_n p; p_offset := end_; p_head := p_head p |}.
Fixpoint walk_lines (p : position) (lines : list string) : result walk_error TraceVerifyResult :=
  match lines with
  | [] => Ok (valid_result (p_head p) (p_offset p) (p_n p))
  | raw :: rest =>
      let is_last := bool_decide (rest = []) in
      let end_ := p_offset p + String.length raw in
      let line := trim_line raw in
      let torn := torn_tail (p_head p) (p_offset p) (p_n p) in
      if negb (utf8_valid line) then
        if is_last && negb (endswith raw LF) then Ok torn else Err (Utf8Corruption (utf8_start line))
      else
      let stripped := strip line in
      if String.eqb stripped "" then walk_lines (skip_line p end_) rest
      else match json_loads stripped with
      | None => if is_last then Ok torn else Ok (stop p "json_decode_error")
      | Some data =>
          match event_of data with
          | Err TimestampOverflow => Err (Uncaught TimestampOverflow)
          | Err _ => Ok (stop p "event_shape_invalid")
          | Ok e => c ← check_event p end_ e;
                    match c with Passed p' => walk_lines p' rest | Stopped r => Ok r end
          end
      end
  end.
(** [_walk_verify] from a chain, an offset and a count. *)
Definition start_of (chain : EventChain) (offset n : nat) : position :=
  {| p_chain := chain; p_n := n; p_offset := offset;
     p_head := if Nat.eqb n 0 && String.eqb (tip_hash chain) _GENESIS_HASH then None
               else Some (hex (tip_hash chain)) |}.
Definition _walk_verify (raw : string) (chain : EventChain) (offset n : nat)
    : result walk_error TraceVerifyResult :=
  walk_lines (start_of chain offset n) (readlines (str_drop offset raw)).

(** ** Cold *)
Definition cold_verify (can_read : bool) (log : option string) : result walk_error TraceVerifyResult :=
  match log with
  | None => Ok (valid_result None 0 0)
  | Some raw =>
      if can_read || String.eqb raw "" then
        match _walk_verify raw (empty_chain (zero_bytes 16)) 0 0 with
        | Err (Utf8Corruption start) =>
            Ok (tampered None start 0 {| t_offset := start; t_index := 0; t_kind := "middle_utf8_corruption" |})
        | r => r
        end
      else Ok invalid_result
  end.

(** ** The spot check *)
Definition WARM_SPOT_CHECK_EVENTS : nat := 64.
Definition INITIAL_WINDOW : nat := Z.to_nat 65536.
Fixpoint find_newline (s : string) : option nat :=
  match s with
  | "" => None
  | String c s => if Ascii.eqb c newline then Some 0 else S <$> find_newline s
  end.
Fixpoint window_start (fuel : nat) (raw : string) (target window : nat) : option nat :=
  match fuel with
  | O => None
  | S fuel =>
      let file_size := String.length raw in
      let start := file_size - window in
      let wider := window_start fuel raw target (Nat.min (window * 2) file_size) in
      if Nat.eqb start 0 then Some 0
      else let blob := str_drop start raw in
      match find_newline blob with
      | None => wider
      | Some idx => if Nat.leb target (count_char newline (str_drop (S idx) blob))
                    then Some (start + idx + 1) else wider
      end
  end.
Definition _find_backwards_window_start (raw : string) (target : nat) : option nat :=
  window_start (S (String.length raw)) raw target INITIAL_WINDOW.

(** The events from an offset to an end, each with its own end, and whether the
    lines were read to the end or to a torn one. *)
Fixpoint range_lines (offset end_ : nat) (lines : list string)
    : result walk_error (list (nat * Event) * bool) :=
  match lines with
  | [] => Ok ([], true)
  | raw :: rest =>
      let is_last := bool_decide (rest = []) in
      let end_off := offset + String.length raw in
      let line := trim_line raw in
      if negb (utf8_valid line) then
        if is_last && negb (endswith raw LF) then Ok ([], true) else Ok ([], false)
      else if Nat.ltb end_ end_off then Ok ([], true)
      else let stripped := strip line in
      if String.eqb stripped "" then range_lines end_off end_ rest
      else match (data ← json_loads stripped; Some (event_of data)) with
      | Some (Ok e) =>
          '(out, complete) ← range_lines end_off end_ rest;
          Ok ((end_off, e) :: out, complete)
      | Some (Err TimestampOverflow) => Err (Uncaught TimestampOverflow)
      | _ => Ok ([], false)
      end
  end.
Definition _read_events_in_range (raw : string) (start end_ : nat)
    : result walk_error (list (nat * Event) * bool) :=
  range_lines start end_ (readlines (str_drop start raw)).

(** The last [n], each with its own hash and linked to the one before. *)
Fixpoint links (before : option string) (events : list (nat * Event)) : result walk_error bool :=
  match events with
  | [] => Ok true
  | (_, e) :: events =>
      match event_hash e with
      | Err x => Err (Uncaught x)
      | Ok recomputed =>
          if negb (String.eqb recomputed (hash e)) then Ok false
          else if match before with Some h => negb (String.eqb (prev_hash e) h) | None => false end
          then Ok false else links (Some (hash e)) events
      end
  end.
Definition anchored (head : option string) (offset : nat) (events : list (nat * Event)) : bool :=
  match head with
  | Some h =>
      if Nat.eqb offset 0 then true
      else match list_find (λ oe : nat * Event, oe.1 = offset) events with
           | Some (_, (_, e)) => String.eqb (hex (hash e)) h
           | None => true
           end
  | None => true
  end.
Definition _spot_check_tail (raw : string) (head : option string) (offset n : nat)
    : result walk_error bool :=
  if String.eqb raw "" then Ok true
  else match _find_backwards_window_start raw (n + 1) with
  | None => Ok false
  | Some start =>
      '(all, complete) ← _read_events_in_range raw start (String.length raw);
      if negb complete then Ok false
      else let events := drop (length all - n) all in
      ok ← links None events;
      Ok (ok && anchored head offset events)
  end.

(** ** The sidecar *)
Definition TRACE_VERIFY_SIDECAR_TYPE : string := "trace_verify".
Definition TRACE_VERIFY_SIDECAR_SCHEMA : Z := 1.
Definition trace_registry : registry :=
  Dict.set _KNOWN_SIDECAR_SCHEMAS TRACE_VERIFY_SIDECAR_TYPE [TRACE_VERIFY_SIDECAR_SCHEMA].
(** The time of the day, the version, whether the file can be written. *)
Record host := { h_now : string; h_version : string; h_can_read : bool; h_can_write : bool }.
Definition sidecar_body (now : string) (r : TraceVerifyResult) : list (string * json) :=
  [("last_verified_head", match verified_head r with Some h => JStr h | None => JNull end);
   ("last_verified_offset", JInt (Z.of_nat (verified_offset r)));
   ("last_verified_events", JInt (Z.of_nat (events_verified r)));
   ("last_verified_at", JStr now)].
Definition _write_verify_sidecar (h : host) (run_id_hex : string) (r : TraceVerifyResult)
    : action (option string) sidecar_error SidecarHeader :=
  write_json_sidecar_with_header trace_registry (sidecar_body (h_now h) r) TRACE_VERIFY_SIDECAR_TYPE
    TRACE_VERIFY_SIDECAR_SCHEMA run_id_hex (h_version h) (h_now h) (h_can_write h).

(** A count of the body: an int that is no bool and not negative. *)
Definition count_field (p : list (string * json)) (k : string) : option nat :=
  match Dict.get p k with
  | Some (JInt n) => if (0 <=? n)%Z then Some (Z.to_nat n) else None
  | _ => None
  end.
Definition hex_digit_char (c : ascii) : bool := bool_decide (is_Some (hex_value c)).
Definition head_field (p : list (string * json)) (k : string) : option (option string) :=
  match Dict.get p k with
  | Some JNull => Some None
  | Some (JStr s) => if Nat.eqb (String.length s) 64 && str_forall hex_digit_char s
                     then Some (Some s) else None
  | _ => None
  end.
Definition checkpoint_of (p : list (string * json)) : option (option string * nat * nat) :=
  if Dict.mem p "last_verified_at" then
    offset ← count_field p "last_verified_offset";
    n ← count_field p "last_verified_events";
    head ← head_field p "last_verified_head";
    Some (head, offset, n)
  else None.
(** [None] is the way back to the cold verification. *)
Definition _read_verify_sidecar (sidecar : option string) (run_id_hex : string)
    : option (option string * nat * nat) :=
  match sidecar with
  | None => None
  | Some raw =>
      match read_sidecar_header trace_registry
              {| q_type := Some TRACE_VERIFY_SIDECAR_TYPE; q_run := Some run_id_hex; q_min := None;
                 q_strict := true |} true (Some raw) "" None with
      | Err _ => None
      | Ok _ => match json_loads raw with Some (JObj p) => checkpoint_of p | _ => None end
      end
  end.

(** ** Warm *)
Inductive verify_error : Type := Walk (e : walk_error) | RunIdLength | Sidecar (e : sidecar_error).
Definition walked {A} (r : result walk_error A) : result verify_error A :=
  match r with Ok a => Ok a | Err e => Err (Walk e) end.

(** The checkpoint is only a cache: an [OSError] is logged. *)
Definition _persist_sidecar_after_verify (h : host) (run_id_hex : string) (r : TraceVerifyResult)
    : action (option string) verify_error unit := λ s,
  match _write_verify_sidecar h run_id_hex r s with
  | (s', Ok _) => (s', Ok ())
  | (s', Err CannotWrite) => (s', Ok ())
  | (s', Err e) => (s', Err (Sidecar e))
  end.
Definition persist_verify_sidecar (h : host) (run_id_hex : string) (r : TraceVerifyResult)
    : action (option string) verify_error unit :=
  if is_valid r then _persist_sidecar_after_verify h run_id_hex r else mret ().
Definition persist_if (b : bool) (h : host) (run_id_hex : string) (r : TraceVerifyResult)
    : action (option string) verify_error TraceVerifyResult :=
  _ ← (if b && is_valid r then _persist_sidecar_after_verify h run_id_hex r else mret ());
  mret r.
(** The walk from a checkpoint, its errors made a verdict. *)
Definition warm_walk (raw : string) (chain : EventChain) (offset n : nat)
    : result walk_error TraceVerifyResult :=
  match _walk_verify raw chain offset n with
  | Err (Utf8Corruption _) =>
      Ok (tampered None offset n {| t_offset := offset; t_index := n; t_kind := "middle_utf8_corruption" |})
  | r => r
  end.
(** [verify_trace]; the state is the sidecar's bytes. *)
Definition verify_trace (h : host) (log : option string) (run_id_hex : option string) (force_cold persist : bool)
    : action (option string) verify_error TraceVerifyResult :=
  match log with
  | None => mret (valid_result None 0 0)
  | Some raw =>
      let cold := lift_result (walked (cold_verify (h_can_read h) log)) in
      match run_id_hex with
      | None => cold
      | Some run =>
          if force_cold then r ← cold; persist_if persist h run r else
          sidecar ← get_state;
          match _read_verify_sidecar sidecar run with
          | None => r ← cold; persist_if persist h run r
          | Some (head, offset, n) =>
              _ ← ensure (h_can_read h || String.eqb raw "") (Walk Unreadable);
              ok ← lift_result (walked (_spot_check_tail raw head offset WARM_SPOT_CHECK_EVENTS));
              if negb ok then cold else
              match fromhex run with
              | None => cold
              | Some run_bytes =>
                  _ ← ensure (len_is 16 run_bytes) RunIdLength;
                  let start tip := {| chain_run_id := run_bytes; events := []; tip_hash := tip |} in
                  match (match head with Some s => fromhex s | None => Some _GENESIS_HASH end) with
                  | None => cold
                  | Some tip =>
                      if Nat.ltb (String.length raw) offset then cold else
                      r ← lift_result (walked (warm_walk raw (start tip) offset n));
                      persist_if persist h run r
                  end
              end
          end
      end
  end.
End verify.
