(* ===== verification/TraceVerifyLaws.v ===== *)
(** * What a verdict says

    A log is found valid, or valid up to a torn line, only if its lines are a
    hash chain of events of one run; every log a writer of one run leaves is
    found valid; and the warm verification of a log that grew gives the verdict
    of a cold one. *)

From S2P Require Import Prelude Canonical CanonicalRead CanonicalScan CanonicalPrefix CanonicalLines JsonText Text TextLines Trace Repair RepairLaws TraceWriter TraceWriterLaws Sidecar TraceVerify.

(** ** Bytes *)
Lemma str_drop_app a b : str_drop (String.length a) (a +:+ b) = b.
Proof.
  unfold str_drop. rewrite str_length_app.
  replace (String.length a + String.length b - String.length a) with (String.length b) by lia.
  induction a as [|c a IH]; [|done]. rewrite str_app_nil_l.
  induction b as [|c b IH]; [done|]. cbn. by f_equal.
Qed.
Lemma str_drop_0 s : str_drop 0 s = s.
Proof. exact (str_drop_app "" s). Qed.

Definition joined (ls : list string) : string := foldr (λ a b, a +:+ b) "" ls.
Lemma joined_app a b : joined (a ++ b) = joined a +:+ joined b.
Proof.
  induction a as [|l a IH]; [done|]. cbn [app joined foldr].
  change (foldr _ "" (a ++ b)) with (joined (a ++ b)). by rewrite IH, str_app_assoc.
Qed.
Lemma joined_readlines raw : joined (readlines raw) = raw.
Proof.
  induction raw as [|c raw IH]; [done|]. cbn [readlines].
  destruct (Ascii.eqb_spec c newline) as [->|_].
  - cbn [joined foldr]. change (foldr _ "" (readlines raw)) with (joined (readlines raw)). by rewrite IH.
  - destruct (readlines raw) as [|l ls]; rewrite <-IH; [done|].
    change (String c l +:+ joined ls = String c (l +:+ joined ls)). by rewrite str_app_cons.
Qed.

(** Text that ends at the end of a line. *)
Definition whole_lines (s : string) : Prop := s = "" ∨ ∃ u, s = u +:+ LF.
Lemma whole_lines_cons c s : c ≠ newline → whole_lines (String c s) → s ≠ "" ∧ whole_lines s.
Proof.
  intros Hc [?|[u Hu]]; [done|]. destruct u as [|c' u].
  - rewrite str_app_nil_l in Hu. injection Hu as -> _. done.
  - rewrite str_app_cons in Hu. injection Hu as -> ->. split; [|right; by exists u].
    by intros [_ [=]]%str_app_eq_nil.
Qed.
Lemma readlines_nil s : readlines s = [] → s = "".
Proof. intros H. by rewrite <-(joined_readlines s), H. Qed.
Lemma readlines_app a b : whole_lines a → readlines (a +:+ b) = readlines a ++ readlines b.
Proof.
  induction a as [|c a IH]; intros Ha; [done|]. rewrite str_app_cons. cbn [readlines].
  destruct (Ascii.eqb_spec c newline) as [->|Hc].
  - rewrite IH; [done|]. destruct Ha as [?|[u Hu]]; [done|]. destruct u as [|c' u].
    + rewrite str_app_nil_l in Hu. injection Hu as ->. by left.
    + rewrite str_app_cons in Hu. injection Hu as _ ->. right. by exists u.
  - apply whole_lines_cons in Ha as [Hne Ha]; [|done]. rewrite IH by done.
    destruct (readlines a) eqn:E; [|done]. by apply readlines_nil in E.
Qed.
(** All lines but the last end in a newline. *)
Lemma readlines_init raw ls l : readlines raw = ls ++ [l] →
  readlines (joined ls) = ls ∧ whole_lines (joined ls).
Proof.
  revert ls. induction raw as [|c raw IH]; intros ls; cbn [readlines]; [by destruct ls|].
  destruct (Ascii.eqb_spec c newline) as [->|Hc].
  - destruct ls as [|l' ls]; [intros _; split; [done|by left]|].
    intros [= <- H]. destruct (IH ls H) as [Hr Hw]. cbn [joined foldr].
    change (foldr _ "" ls) with (joined ls). rewrite readlines_app by (right; by exists "").
    rewrite Hr. split; [done|]. right. destruct Hw as [->|[u ->]]; [by exists ""|].
    exists (LF +:+ u). by rewrite str_app_assoc.
  - destruct (readlines raw) as [|m ms] eqn:E.
    { destruct ls as [|? ls]; [|by destruct ls]. intros _. split; [done|by left]. }
    destruct ls as [|l' ls]; [intros _; split; [done|by left]|]. intros [= <- H].
    destruct (IH (m :: ls)) as [Hr Hw]; [by rewrite H|]. cbn [joined foldr] in *.
    change (foldr _ "" ls) with (joined ls) in *. rewrite str_app_cons. cbn [readlines].
    destruct (Ascii.eqb_spec c newline); [done|]. rewrite Hr. split; [done|].
    right. destruct Hw as [Hn|[u Hu]]; [by rewrite Hn in Hr|]. rewrite Hu. by exists (String c u).
Qed.

Section laws.
Context {R : Runtime} {Sh : Sha256} {T : PyText}.

(** ** The lines that pass *)
Definition pass_line (p : position) (raw : string) : option position :=
  let line := trim_line raw in
  let end_ := p_offset p + String.length raw in
  if utf8_valid line then
    if String.eqb (strip line) "" then Some (skip_line p end_)
    else match json_loads (strip line) with
    | Some data => match event_of data with
                   | Ok e => match check_event p end_ e with Ok (Passed p') => Some p' | _ => None end
                   | Err _ => None
                   end
    | None => None
    end
  else None.
Fixpoint advance (p : position) (lines : list string) : option position :=
  match lines with [] => Some p | raw :: rest => p' ← pass_line p raw; advance p' rest end.

Lemma walk_pass p raw rest p' : pass_line p raw = Some p' → walk_lines p (raw :: rest) = walk_lines p' rest.
Proof.
  unfold pass_line. cbn [walk_lines]. destruct (utf8_valid (trim_line raw)); [|done]. cbn [negb].
  destruct (String.eqb (strip (trim_line raw)) ""); [by intros [= <-]|].
  destruct (json_loads _) as [data|]; [|done]. destruct (event_of data) as [e|]; [|done].
  destruct (check_event _ _ e) as [[q|]|]; [|done..]. by intros [= ->].
Qed.
Lemma walk_advance p ls p' rest : advance p ls = Some p' → walk_lines p (ls ++ rest) = walk_lines p' rest.
Proof.
  revert p. induction ls as [|raw ls IH]; intros p; cbn [advance app]; [by intros [= ->]|].
  intros (q & Hq & Hr)%bind_Some. rewrite (walk_pass _ _ _ _ Hq). by apply IH.
Qed.

(** A verdict that lets the run go on: every line passed, or all but the last. *)
Lemma walk_valid p ls r : walk_lines p ls = Ok r → is_valid r = true →
  ∃ p' ls', advance p ls' = Some p' ∧ verified_head r = p_head p' ∧ verified_offset r = p_offset p' ∧
    events_verified r = p_n p' ∧
    ((status r = VALID ∧ ls = ls') ∨ (status r = TORN_TAIL ∧ ∃ l, ls = ls' ++ [l])).
Proof.
  revert p. induction ls as [|raw ls IH]; intros p.
  { intros [= <-] _. exists p, []. split_and!; try done. by left. }
  assert (∀ p', pass_line p raw = Some p' → walk_lines p' ls = Ok r → is_valid r = true →
    ∃ p'' ls', advance p ls' = Some p'' ∧ verified_head r = p_head p'' ∧ verified_offset r = p_offset p'' ∧
      events_verified r = p_n p'' ∧
      ((status r = VALID ∧ raw :: ls = ls') ∨ (status r = TORN_TAIL ∧ ∃ l, raw :: ls = ls' ++ [l]))) as Hgo.
  { intros p' Hp Hw Hv. destruct (IH p' Hw Hv) as (p2 & ls' & Ha & Hh & Ho & Hn & Hs).
    exists p2, (raw :: ls'). split_and!; try done; [cbn [advance]; by rewrite Hp|].
    destruct Hs as [[? ->]|[? [l ->]]]; [by left|right; split; [done|by exists l]]. }
  assert (∀ r', r' = torn_tail (p_head p) (p_offset p) (p_n p) → bool_decide (ls = []) = true → r' = r →
    ∃ p'' ls', advance p ls' = Some p'' ∧ verified_head r = p_head p'' ∧ verified_offset r = p_offset p'' ∧
      events_verified r = p_n p'' ∧
      ((status r = VALID ∧ raw :: ls = ls') ∨ (status r = TORN_TAIL ∧ ∃ l, raw :: ls = ls' ++ [l]))) as Htorn.
  { intros r' -> Hl%bool_decide_eq_true <-. subst ls. exists p, []. split_and!; try done. right. split; [done|].
    by exists raw. }
  cbn [walk_lines]. unfold pass_line in Hgo. destruct (utf8_valid (trim_line raw)); cbn [negb].
  2: { destruct (bool_decide (ls = [])) eqn:E; cbn [andb]; [|done].
       destruct (negb _); [|done]. intros [= H] _. by eapply Htorn. }
  destruct (String.eqb (strip (trim_line raw)) ""); [by apply Hgo|].
  destruct (json_loads _) as [data|].
  2: { destruct (bool_decide (ls = [])) eqn:E; intros [= H]; [intros _; by eapply Htorn|by subst]. }
  destruct (event_of data) as [e|[]] eqn:Ee; try (by intros [= <-]); try done.
  destruct (check_event _ _ e) as [[q|r0]|] eqn:Ec; cbn [mbind result_bind]; [by apply Hgo| |done].
  intros [= <-] Hv. revert Ec. unfold check_event. repeat case_match; try done; intros [= <-]; done.
Qed.

(** ** What the lines say *)
Definition line_says (raw : string) : option (list Event) :=
  let line := trim_line raw in
  if utf8_valid line then
    if String.eqb (strip line) "" then Some []
    else match parse_line (strip line) with Good e => Some [e] | _ => None end
  else None.
Fixpoint says (lines : list string) : option (list Event) :=
  match lines with
  | [] => Some []
  | raw :: rest => es ← line_says raw; es' ← says rest; Some (es ++ es')
  end.

Lemma bind_run_tip p e : tip_hash (bind_run p e) = tip_hash (p_chain p).
Proof.
  unfold bind_run. destruct (Nat.eqb _ _); [|done]. cbn [andb].
  by destruct (String.eqb_spec (tip_hash (p_chain p)) _GENESIS_HASH) as [->|].
Qed.
Definition passed (p : position) (end_ : nat) (e : Event) : position :=
  let c := bind_run p e in
  {| p_chain := {| chain_run_id := chain_run_id c; events := events c ++ [e]; tip_hash := hash e |};
     p_n := S (p_n p); p_offset := end_; p_head := Some (hex (hash e)) |}.
Lemma check_passed p end_ e p' : check_event p end_ e = Ok (Passed p') ↔
  Trace.run_id e = chain_run_id (bind_run p e) ∧ kind e ∈ LEGAL_EVENT_KINDS ∧
  prev_hash e = tip_hash (p_chain p) ∧ event_hash e = Ok (hash e) ∧ p' = passed p end_ e.
Proof.
  unfold check_event. rewrite !bind_run_tip.
  destruct (String.eqb_spec (Trace.run_id e) (chain_run_id (bind_run p e))); cbn [negb]; [|naive_solver].
  case_bool_decide; cbn [negb]; [|naive_solver].
  destruct (String.eqb_spec (prev_hash e) (tip_hash (p_chain p))) as [Hp|]; cbn [negb]; [|naive_solver].
  destruct (event_hash e) as [h|] eqn:Eh; [|naive_solver].
  destruct (String.eqb_spec h (hash e)) as [->|]; cbn [negb]; [|naive_solver].
  assert (append e (bind_run p e) = (p_chain (passed p end_ e), Ok ())) as ->.
  { apply append_ok. by rewrite bind_run_tip. }
  unfold passed. cbn. naive_solver.
Qed.

Lemma pass_line_inv p raw p' : pass_line p raw = Some p' →
  (line_says raw = Some [] ∧ p' = skip_line p (p_offset p + String.length raw)) ∨
  ∃ e, line_says raw = Some [e] ∧ check_event p (p_offset p + String.length raw) e = Ok (Passed p').
Proof.
  unfold pass_line, line_says. destruct (utf8_valid (trim_line raw)); [|done].
  destruct (String.eqb (strip (trim_line raw)) ""); [by intros [= <-]; left|].
  unfold parse_line, event_of. destruct (json_loads _) as [data|]; [|done]. destruct data; try done.
  destruct (from_canonical_dict kvs) as [e|]; [|done].
  destruct (check_event _ _ e) as [[q|]|] eqn:E; try done. intros [= <-]. right. by exists e.
Qed.

(** The events of the lines that passed: how many, and where the chain is. *)
Record advanced (p p' : position) (ls : list string) (es : list Event) : Prop := {
  ad_says : says ls = Some es;
  ad_chained : chained (tip_hash (p_chain p)) es;
  ad_n : p_n p' = p_n p + length es;
  ad_offset : p_offset p' = p_offset p + String.length (joined ls);
  ad_tip : tip_hash (p_chain p') = tip_of (tip_hash (p_chain p)) es;
  ad_head : p_head p' = match es with [] => p_head p | _ => Some (hex (tip_hash (p_chain p'))) end;
  ad_run : Forall (λ e, Trace.run_id e = chain_run_id (p_chain p')) es;
  ad_same : p_n p ≠ 0 ∨ es = [] → chain_run_id (p_chain p') = chain_run_id (p_chain p);
}.
Lemma advance_sound p ls p' : advance p ls = Some p' → ∃ es, advanced p p' ls es.
Proof.
  revert p. induction ls as [|raw ls IH]; intros p; cbn [advance].
  { intros [= <-]. exists []. split; try done; cbn; lia. }
  intros (q & Hq & Hr)%bind_Some. destruct (IH q Hr) as (es & [H1 H2 H3 H4 H5 H6 H7 H8]).
  assert (String.length (joined (raw :: ls)) = String.length raw + String.length (joined ls)) as Hlen.
  { cbn [joined foldr]. by rewrite str_length_app. }
  apply pass_line_inv in Hq as [[Hs ->]|(e & Hs & (Hrun & Hk & Hp & Hh & ->)%check_passed)].
  - exists es. split; try done; [cbn [says]; by rewrite Hs, H1|cbn in H4; lia].
  - exists (e :: es). unfold passed in *. cbn [p_chain p_n p_offset p_head tip_hash chain_run_id] in *.
    assert (chain_run_id (p_chain p') = Trace.run_id e) as Hre by (rewrite Hrun; apply H8; left; lia).
    split; try done.
    + cbn [says]. by rewrite Hs, H1.
    + cbn [length]. lia.
    + lia.
    + by rewrite tip_of_cons.
    + destruct es; [|done]. rewrite H6, H5. done.
    + by constructor.
    + intros [Hn|]; [|done]. rewrite Hre, Hrun. unfold bind_run.
      destruct (Nat.eqb_spec (p_n p) 0); [done|]. done.
Qed.

(** Every verdict is one that its class accepts. *)
Lemma walk_result_ok p ls r : walk_lines p ls = Ok r → result_ok r = true.
Proof.
  revert p. induction ls as [|raw ls IH]; intros p; cbn [walk_lines]; [by intros [= <-]|].
  destruct (utf8_valid _); cbn [negb]; [|by destruct (_ && _); [intros [= <-]|]].
  destruct (String.eqb _ ""); [by apply IH|].
  destruct (json_loads _) as [data|]; [|by destruct (bool_decide _); intros [= <-]].
  destruct (event_of data) as [e|[]]; try done; try by intros [= <-].
  intros ([p'|r'] & Hc & H)%result_bind_ok; [by apply (IH p')|]. injection H as <-.
  revert Hc. unfold check_event. repeat case_match; try done; intros [= <-]; done.
Qed.
Lemma cold_result_ok b log r : cold_verify b log = Ok r → result_ok r = true.
Proof.
  destruct log as [raw|]; cbn [cold_verify]; [|by intros [= <-]].
  destruct (_ || _); [|by intros [= <-]]. unfold _walk_verify.
  destruct (walk_lines _ _) as [q|[]] eqn:Hw; try done; intros [= <-]; [|done].
  by apply walk_result_ok in Hw.
Qed.

(** ** Soundness *)
Definition head_of (es : list Event) : option string :=
  match es with [] => None | _ => Some (hex (tip_of _GENESIS_HASH es)) end.

Lemma cold_valid_log log r : cold_verify true log = Ok r → is_valid r = true →
  ∃ ls es rest run, readlines (default "" log) = ls ++ rest ∧ says ls = Some es ∧
    chained _GENESIS_HASH es ∧ Forall (λ e, Trace.run_id e = run) es ∧
    events_verified r = length es ∧ verified_offset r = String.length (joined ls) ∧
    verified_head r = head_of es ∧
    ((status r = VALID ∧ rest = []) ∨ (status r = TORN_TAIL ∧ ∃ l, rest = [l])).
Proof.
  destruct log as [raw|]; cbn [cold_verify orb].
  2: { intros [= <-] _. exists [], [], [], "". split_and!; try done. by left. }
  unfold _walk_verify. rewrite str_drop_0. intros H Hv.
  destruct (walk_lines _ _) as [r0|x] eqn:Hw.
  2: { destruct x; try done. by injection H as <-. }
  injection H as ->.
  destruct (walk_valid _ _ _ Hw Hv) as (p' & ls & Ha & Hh & Ho & Hn & Hs).
  apply advance_sound in Ha as (es & [H1 H2 H3 H4 H5 H6 H7 _]). cbn in H2, H3, H4, H5.
  exists ls, es. rewrite Hh, Ho, Hn, H3, H4, H6, H5. change (default "" (Some raw)) with raw.
  destruct Hs as [[Hs ->]|[Hs [l ->]]]; [exists []|exists [l]]; exists (chain_run_id (p_chain p'));
    rewrite ?app_nil_r; split_and!; try done; first [by left|by right; split; [|exists l]].
Qed.

(** C16: a log found valid is a hash chain from the genesis of events of one run,
    as many as the verdict says and ending in its head, and all its lines are
    those events; found torn, all its lines but the last are. *)
Theorem cold_verify_sound log r : cold_verify true log = Ok r → is_valid r = true →
  ∃ ls es rest run, readlines (default "" log) = ls ++ rest ∧ says ls = Some es ∧
    chained _GENESIS_HASH es ∧ Forall (λ e, Trace.run_id e = run) es ∧
    events_verified r = length es ∧ verified_offset r = String.length (joined ls) ∧
    verified_head r = head_of es ∧
    ((status r = VALID ∧ rest = []) ∨ (status r = TORN_TAIL ∧ ∃ l, rest = [l])).
Proof. apply cold_valid_log. Qed.

(** ** Completeness *)
Context {RL : RuntimeLaws R} {X : Regex}.

Lemma trim_line_ended l : no_ctl l = true → trim_line (l +:+ LF) = l.
Proof.
  intros Hl. unfold trim_line. destruct (endswith (l +:+ LF) CRLF) eqn:E.
  { apply endswith_inv in E as [u E]. change CRLF with (CR +:+ LF) in E.
    rewrite <-str_app_assoc in E. apply str_app_inv_tail in E as ->.
    apply no_ctl_no_CR in Hl. by rewrite endswith_app in Hl. }
  rewrite endswith_app. change 1 with (String.length LF). apply drop_last_app.
Qed.
Definition of_run (run : string) (p : position) : Prop :=
  (p_n p = 0 ∧ tip_hash (p_chain p) = _GENESIS_HASH) ∨ chain_run_id (p_chain p) = run.

Lemma pass_own_line p e l run : line_of e l → of_run run p → Trace.run_id e = run →
  prev_hash e = tip_hash (p_chain p) → event_hash e = Ok (hash e) →
  pass_line p (l +:+ LF) = Some (passed p (p_offset p + String.length (l +:+ LF)) e).
Proof using RL.
  intros Hl Hp Hrun Hprev Hh. destruct (event_line_facts _ _ Hl) as (Hc & Hu & Hpl & u & Hb).
  unfold pass_line. rewrite trim_line_ended, Hu by done. rewrite Hb, strip_object, <-Hb.
  assert (String.eqb l "" = false) as -> by (by rewrite Hb).
  unfold parse_line in Hpl. unfold event_of. destruct (json_loads l) as [[]|]; try done.
  destruct (from_canonical_dict kvs) as [e'|[]]; try done. injection Hpl as ->.
  set (end_ := p_offset p + _).
  assert (check_event p end_ e = Ok (Passed (passed p end_ e))) as ->; [|done].
  apply check_passed. split_and!; try done.
  - unfold bind_run. destruct Hp as [[-> ->]|Hr].
    + rewrite String.eqb_refl. done.
    + destruct (Nat.eqb _ _ && _); [done|]. congruence.
  - destruct Hl as (e0 & (_ & _ & _ & _ & _ & Hk & _)%post_init_ok & _ & _ & ->). done.
Qed.
Lemma advance_holds p es ls run : Forall2 line_of es ls → of_run run p →
  chained (tip_hash (p_chain p)) es → Forall (λ e, Trace.run_id e = run) es →
  is_Some (advance p ((λ l, l +:+ LF) <$> ls)).
Proof using RL.
  intros H. revert p. induction H as [|e l es ls Hl _ IH]; intros p Hp Hc Hr; [by eexists|].
  destruct Hc as (Hprev & Hh & Hc). apply Forall_cons in Hr as [Hr1 Hr].
  cbn [fmap list_fmap advance]. rewrite (pass_own_line _ _ _ _ Hl Hp Hr1 Hprev Hh). cbn [mbind option_bind].
  apply IH; [|done|done]. right. unfold passed, bind_run. cbn [p_chain chain_run_id].
  destruct Hp as [[-> ->]|Hp]; [by rewrite String.eqb_refl|]. by destruct (_ && _).
Qed.

(** C17: every log that holds events of one run, in a chain from the genesis, is
    found valid to its last byte, with all its events and the last hash. *)
Theorem cold_verify_complete log es run : log_holds log es → chained _GENESIS_HASH es →
  Forall (λ e, Trace.run_id e = run) es →
  cold_verify true log =
  Ok (valid_result (head_of es)
        (String.length (default "" log)) (length es)).
Proof using RL.
  intros [[-> ->]|(ls & -> & Hls)] Hc Hr; [done|]. cbn [cold_verify orb].
  unfold _walk_verify. rewrite str_drop_0.
  assert (readlines (join_lines ls) = (λ l, l +:+ LF) <$> ls) as Hrl.
  { pose proof (readlines_join ls "" (lines_no_newline _ _ Hls) eq_refl) as H.
    by rewrite str_app_nil_r, app_nil_r in H. }
  set (p := start_of (empty_chain (zero_bytes 16)) 0 0).
  destruct (advance_holds p es ls run Hls) as [p' Ha]; [by left|done|done|].
  apply advance_sound in Ha as Hs. destruct Hs as (es' & [H1 _ H3 H4 H5 H6 _ _]).
  assert (es' = es) as ->.
  { assert (says ((λ l, l +:+ LF) <$> ls) = Some es) as Hsay; [|congruence]. clear -Hls RL.
    induction Hls as [|e l es ls Hl _ IH]; [done|]. cbn [fmap list_fmap says].
    destruct (event_line_facts _ _ Hl) as (Hc & Hu & Hpl & u & Hb). unfold line_says.
    rewrite trim_line_ended, Hu by done. rewrite Hb, strip_object, <-Hb.
    assert (String.eqb l "" = false) as -> by (by rewrite Hb). rewrite Hpl. cbn.
    change (list_fmap _ _ (λ l, l +:+ LF) ls) with ((λ l, l +:+ LF) <$> ls). by rewrite IH. }
  rewrite Hrl, <-(app_nil_r (fmap _ ls)), (walk_advance _ _ _ [] Ha). cbn [walk_lines].
  rewrite H3, H4, H6, H5, <-Hrl, joined_readlines. done.
Qed.

(** ** The reader accepts what the verifier finds valid *)
Lemma iter_says i lines es : says lines = Some es →
  Forall (λ raw, endswith (trim_line raw) CR = false) lines → iter_lines i lines = Ok es.
Proof.
  revert i es. induction lines as [|raw lines IH]; intros i es; cbn [says]; [by intros [= <-]|].
  intros (es1 & H1 & (es2 & H2 & [= <-])%bind_Some)%bind_Some [Hcr Hall]%Forall_cons.
  cbn [iter_lines]. assert (universal raw = trim_line raw) as ->.
  { unfold universal. change (if endswith raw CRLF then _ else _) with (trim_line raw). by rewrite Hcr. }
  unfold line_says in H1. destruct (utf8_valid (trim_line raw)); [|done]. cbn [mbind result_bind].
  destruct (String.eqb (strip (trim_line raw)) ""); [injection H1 as <-; by apply IH|].
  destruct (parse_line _) as [e| |]; [|done..]. injection H1 as <-. rewrite (IH _ _ H2 Hall). done.
Qed.
Theorem valid_log_loads raw r : cold_verify true (Some raw) = Ok r → status r = VALID →
  events_verified r ≠ 0 → Forall (λ l, endswith (trim_line l) CR = false) (readlines raw) →
  verify (Some raw) = Ok true ∧ ∃ c, load (Some raw) = Ok c ∧ length (events c) = events_verified r.
Proof.
  intros Hc Hs Hn Hcr.
  destruct (cold_valid_log _ _ Hc) as (ls & es & rest & run & Hls & Hsay & Hch & _ & Hlen & _ & _ & Hst).
  { unfold is_valid. by rewrite Hs. }
  destruct Hst as [[_ ->]|[H _]]; [|congruence]. rewrite app_nil_r in Hls.
  change (default "" (Some raw)) with raw in Hls. subst ls.
  assert (load (Some raw) = Ok {| chain_run_id := match es with e :: _ => Trace.run_id e | [] => "" end;
    events := es; tip_hash := tip_of _GENESIS_HASH es |}) as Hload.
  { unfold load. cbn [read_all_events]. rewrite (iter_says _ _ _ Hsay Hcr). cbn [mbind result_bind].
    destruct es as [|e es]; [by rewrite Hlen in Hn|].
    assert (append_all (e :: es) (empty_chain (Trace.run_id e)) =
      ({| chain_run_id := Trace.run_id e; events := e :: es; tip_hash := tip_of _GENESIS_HASH (e :: es) |}, Ok ()))
      as -> by (by apply append_all_ok). done. }
  split; [unfold verify; by rewrite Hload|]. eexists. split; [exact Hload|]. done.
Qed.

(** ** Warm and cold *)

(** Two places of a walk that nothing tells apart. *)
Record sim (p q : position) : Prop := {
  s_n : p_n p = p_n q;
  s_offset : p_offset p = p_offset q;
  s_head : p_head p = p_head q;
  s_tip : tip_hash (p_chain p) = tip_hash (p_chain q);
  s_run : (p_n p = 0 ∧ tip_hash (p_chain p) = _GENESIS_HASH) ∨
          chain_run_id (p_chain p) = chain_run_id (p_chain q);
}.
Lemma sim_bind p q e : sim p q → chain_run_id (bind_run p e) = chain_run_id (bind_run q e).
Proof.
  intros [Hn _ _ Ht Hr]. unfold bind_run. rewrite <-Hn, <-Ht.
  destruct Hr as [[-> ->]|Hr]; [by rewrite String.eqb_refl|]. by destruct (_ && _).
Qed.
Lemma sim_stop p q what : sim p q → stop p what = stop q what.
Proof. intros [Hn Ho Hh _ _]. unfold stop. by rewrite Hn, Ho, Hh. Qed.
Lemma check_event_eq p end_ e : check_event p end_ e =
  if negb (String.eqb (Trace.run_id e) (chain_run_id (bind_run p e))) then Ok (Stopped (stop p "run_id_mismatch"))
  else if negb (bool_decide (kind e ∈ LEGAL_EVENT_KINDS)) then Ok (Stopped (stop p "unknown_event_kind"))
  else if negb (String.eqb (prev_hash e) (tip_hash (p_chain p))) then Ok (Stopped (stop p "prev_hash_mismatch"))
  else match event_hash e with
       | Err x => Err (Uncaught x)
       | Ok h => if negb (String.eqb h (hash e)) then Ok (Stopped (stop p "payload_tampered"))
                 else Ok (Passed (passed p end_ e))
       end.
Proof.
  unfold check_event. rewrite !bind_run_tip. destruct (negb _); [done|]. destruct (negb _); [done|].
  destruct (String.eqb_spec (prev_hash e) (tip_hash (p_chain p))) as [Hp|]; cbn [negb]; [|done].
  destruct (event_hash e) as [h|] eqn:Eh; [|done].
  destruct (String.eqb_spec h (hash e)) as [->|]; cbn [negb]; [|done].
  assert (append e (bind_run p e) = (p_chain (passed p end_ e), Ok ())) as ->; [|done].
  apply append_ok. by rewrite bind_run_tip.
Qed.
Lemma check_sim p q end_ e : sim p q →
  match check_event p end_ e, check_event q end_ e with
  | Ok (Passed p'), Ok (Passed q') => sim p' q'
  | a, b => a = b
  end.
Proof.
  intros Hs. rewrite !check_event_eq, (sim_bind p q e Hs), (s_tip _ _ Hs), !(sim_stop p q _ Hs).
  destruct (negb _); [done|]. destruct (negb _); [done|]. destruct (negb _); [done|].
  destruct (event_hash e) as [h|]; [|done]. destruct (negb _); [done|].
  split; try done; [cbn; f_equal; apply Hs|]. right. by apply sim_bind.
Qed.
Lemma walk_sim p q ls : sim p q → walk_lines p ls = walk_lines q ls.
Proof.
  revert p q. induction ls as [|raw ls IH]; intros p q Hs; cbn [walk_lines];
    rewrite ?(s_head _ _ Hs), ?(s_offset _ _ Hs), ?(s_n _ _ Hs), ?(sim_stop p q _ Hs); [done|].
  destruct (negb (utf8_valid _)); [done|].
  destruct (String.eqb _ ""); [apply IH; by destruct Hs|].
  destruct (json_loads _) as [data|]; [|done]. destruct (event_of data) as [e|]; [|done].
  pose proof (check_sim p q (p_offset q + String.length raw) e Hs) as Hc.
  destruct (check_event p _ e) as [[p'|r]|x], (check_event q _ e) as [[q'|r']|x']; try done;
    cbn [mbind result_bind]; [by apply IH|congruence..].
Qed.

Lemma prefix_drop a b : String.substring 0 (String.length a) (a +:+ b) = a.
Proof. apply substring_prefix. Qed.

(** Where a cold verification got to, the warm one starts. *)
Lemma start_sim es ls p1 tip run : advanced (start_of (empty_chain (zero_bytes 16)) 0 0) p1 ls es →
  tip = tip_of _GENESIS_HASH es → (es ≠ [] → chain_run_id (p_chain p1) = run) →
  sim p1 (start_of {| chain_run_id := run; events := []; tip_hash := tip |}
            (String.length (joined ls)) (length es)).
Proof.
  intros [_ _ Hn Ho Ht Hh _ _] -> Hr. cbn in Hn, Ho, Ht, Hh.
  split; cbn [start_of p_n p_offset p_head p_chain tip_hash chain_run_id]; try done.
  - rewrite Hh, Ht. by destruct es.
  - rewrite Hn, Ht. destruct es; [by left|]. right. by apply Hr.
Qed.

(** The walk from a checkpoint goes on as the walk from the start. *)
Lemma warm_walk_sound raw1 r1 post run : cold_verify true (Some raw1) = Ok r1 → is_valid r1 = true →
  (status r1 = VALID → whole_lines raw1) →
  let pre := String.substring 0 (verified_offset r1) raw1 in
  (∀ es, says (readlines pre) = Some es → Forall (λ e, Trace.run_id e = run) es) →
  ∃ es, says (readlines pre) = Some es ∧ events_verified r1 = length es ∧
    verified_head r1 = head_of es ∧
    verified_offset r1 = String.length pre ∧
    _walk_verify (pre +:+ post) (empty_chain (zero_bytes 16)) 0 0 =
    _walk_verify (pre +:+ post) {| chain_run_id := run; events := []; tip_hash := tip_of _GENESIS_HASH es |}
      (verified_offset r1) (events_verified r1).
Proof.
  cbn [cold_verify orb]. intros Hc Hv Hwl.
  assert (_walk_verify raw1 (empty_chain (zero_bytes 16)) 0 0 = Ok r1) as Hw.
  { destruct (_walk_verify _ _ _ _) as [r|[]]; try done. by injection Hc as <-. }
  unfold _walk_verify in Hw. rewrite str_drop_0 in Hw.
  destruct (walk_valid _ _ _ Hw Hv) as (p1 & ls & Ha & Hh & Ho & Hn & Hst).
  apply advance_sound in Ha as Hs. destruct Hs as (es & Hs). pose proof Hs as [H1 _ H3 H4 H5 H6 H7 _].
  cbn in H3, H4, H5, H6.
  assert (readlines (joined ls) = ls ∧ whole_lines (joined ls) ∧ ∃ x, raw1 = joined ls +:+ x) as (Hrl & Hwh & x & Hx).
  { destruct Hst as [[Hs0 Hls]|[_ [l Hls]]].
    - rewrite <-Hls, joined_readlines. split_and!; [done|by apply Hwl|exists ""; by rewrite str_app_nil_r].
    - destruct (readlines_init _ _ _ Hls) as [? ?]. split_and!; [done..|]. exists (joined [l]).
      by rewrite <-joined_app, <-Hls, joined_readlines. }
  rewrite Ho, H4. cbn [Nat.add]. rewrite Hx, prefix_drop, Hrl. intros Hrun. exists es.
  rewrite Hn, H3, Hh, H6, H5. split_and!; try done.
  unfold _walk_verify. rewrite str_drop_0, (str_drop_app (joined ls) post), readlines_app, Hrl by done.
  rewrite (walk_advance _ _ _ _ Ha). apply walk_sim. eapply start_sim; [exact Hs|done|].
  intros Hne. destruct es as [|e es]; [done|]. specialize (Hrun _ H1).
  apply Forall_cons in Hrun as [<- _]. by apply Forall_cons in H7 as [-> _].
Qed.

(** ** The sidecar *)
Lemma length_hex' s : String.length (hex s) = 2 * String.length s.
Proof. induction s as [|c s IH]; cbn; [done|]. rewrite IH. lia. Qed.
Lemma hex_digits s : str_forall hex_digit_char (hex s) = true.
Proof. induction s as [|c s IH]; [done|]. cases_char c; exact IH. Qed.

Definition head_ok (head : option string) : Prop :=
  match head with Some s => ∃ b, s = hex b ∧ String.length b = 32 | None => True end.
Lemma sidecar_body_plain now r : plain_text now = true → head_ok (verified_head r) →
  text_json (JObj (sidecar_body now r)) = true.
Proof using RL.
  intros Hn Hh. apply plain_obj; [by vm_compute|].
  unfold sidecar_body. repeat (apply Forall_cons; split); [..|apply Forall_nil; done];
    cbn [fst snd]; (split; [done|]); try done.
  destruct (verified_head r) as [s|]; [|done]. destruct Hh as (b & -> & _). apply plain_hex.
Qed.
Lemma checkpoint_of_body now r kvs : head_ok (verified_head r) →
  (∀ k, k ≠ "sidecar_header" → Dict.get kvs k = canon <$> Dict.get (sidecar_body now r) k) →
  checkpoint_of kvs = Some (verified_head r, verified_offset r, events_verified r).
Proof using RL.
  intros Hh Hg. unfold checkpoint_of, Dict.mem, count_field, head_field.
  rewrite !Hg by done. unfold sidecar_body. cbn -[Z.of_nat canon nfc hex]. decide_keys.
  cbn -[Z.of_nat canon nfc hex]. cbn [canon]. rewrite !Nat2Z.id.
  assert ((0 <=? Z.of_nat (verified_offset r))%Z = true) as -> by (apply Z.leb_le; lia).
  assert ((0 <=? Z.of_nat (events_verified r))%Z = true) as -> by (apply Z.leb_le; lia).
  destruct (verified_head r) as [s|]; [|done]. destruct Hh as (b & -> & Hb).
  cbn [canon]. rewrite nfc_hex, length_hex', Hb, hex_digits. done.
Qed.
(** The host's words are plain text. *)
Definition host_plain (h : host) : Prop := plain_text (h_now h) = true ∧ plain_text (h_version h) = true.
Lemma checkpoint_roundtrip h run r s s' hd : host_plain h → plain_text run = true → head_ok (verified_head r) →
  _write_verify_sidecar h run r s = (s', Ok hd) →
  ∃ side, s' = Some side ∧
    _read_verify_sidecar (Some side) run = Some (verified_head r, verified_offset r, events_verified r).
Proof using RL.
  intros [Hnow Hver] Hrun Hh. unfold _write_verify_sidecar, write_json_sidecar_with_header.
  unfold lift_result, ensure, modify, mret, action_ret, mbind, action_bind.
  destruct (build_sidecar_header _ _ _ _ _ _) as [hdr|] eqn:Hb; [|done].
  destruct (json_body_with_header _ _) as [merged|] eqn:Hm; [|done].
  destruct (encode (JObj merged)) as [raw|] eqn:He; [|done].
  destruct (h_can_write h); [|done]. cbn [guard_or]. intros [= <- <-]. exists raw. split; [done|].
  assert (header_plain hdr) as Hhp.
  { revert Hb. unfold build_sidecar_header, guard_or, mbind, result_bind. repeat case_match; try done.
    intros [= <-]. split_and!; cbn; [done| |done|done]. by apply ascii_plain. }
  pose proof (sidecar_body_plain _ _ Hnow Hh) as Hbp.
  destruct (written_reads _ _ _ _ _ _ _ _ _ _ true Hb Hhp ltac:(done) Hbp Hm He)
    as [Hrd (kvs & Hl & _ & Hg)].
  unfold _read_verify_sidecar. rewrite Hrd, Hl. by eapply checkpoint_of_body.
Qed.

(** A hash that a line says has its 32 bytes. *)
Lemma parse_line_valid l e : parse_line l = Good e → __post_init__ e = Ok ().
Proof.
  unfold parse_line. destruct (json_loads l) as [[]|]; try done.
  destruct (from_canonical_dict kvs) as [e'|[]] eqn:E; try done. intros [= ->].
  unfold from_canonical_dict in E. do 9 (apply result_bind_ok in E as (? & _ & E)).
  unfold make_event in E. apply result_bind_ok in E as (u & Hu & [= <-]). by destruct u.
Qed.
Lemma says_valid ls es : says ls = Some es → Forall (λ e, __post_init__ e = Ok ()) es.
Proof.
  revert es. induction ls as [|raw ls IH]; intros es; cbn [says]; [by intros [= <-]|].
  intros (es1 & H1 & (es2 & H2 & [= <-])%bind_Some)%bind_Some. apply Forall_app. split; [|by apply IH].
  revert H1. unfold line_says. destruct (utf8_valid _); [|done]. destruct (String.eqb _ ""); [by intros [= <-]|].
  destruct (parse_line _) as [e| |] eqn:E; try done. intros [= <-]. constructor; [|done].
  by eapply parse_line_valid.
Qed.
Lemma tip_of_valid es : Forall (λ e, __post_init__ e = Ok ()) es → String.length (tip_of _GENESIS_HASH es) = 32.
Proof.
  intros H. unfold tip_of. destruct (last es) as [e|] eqn:E; [|done]. apply last_Some_elem_of in E.
  rewrite Forall_forall in H. apply H, post_init_ok in E as (_ & _ & _ & _ & _ & _ & Hl & _).
  by apply Nat.eqb_eq in Hl.
Qed.

(** A cold verification that is kept: the checkpoint is its verdict. *)
Lemma cold_persists h raw run s side r : host_plain h → plain_text run = true →
  h_can_read h = true → h_can_write h = true →
  verify_trace h (Some raw) (Some run) true true s = (Some side, Ok r) → is_valid r = true →
  cold_verify true (Some raw) = Ok r ∧
  _read_verify_sidecar (Some side) run = Some (verified_head r, verified_offset r, events_verified r).
Proof using RL.
  intros Hh Hrun Hread Hwrite. unfold verify_trace, lift_result, persist_if, mret, action_ret, mbind, action_bind.
  rewrite Hread. destruct (cold_verify true (Some raw)) as [r0|] eqn:Hc; [|done]. cbn [walked andb].
  intros H Hv. destruct (is_valid r0) eqn:Hv0; [|injection H as _ ->; congruence].
  destruct (_persist_sidecar_after_verify h run r0 s) as [s1 [[]|]] eqn:Hp; [|done].
  injection H as -> ->. split; [done|]. revert Hp. unfold _persist_sidecar_after_verify.
  destruct (_write_verify_sidecar h run r s) as [s2 [hd|e]] eqn:Hw.
  - intros [= ->]. apply checkpoint_roundtrip in Hw as (side' & [= <-] & Hr); [done|done|done|].
    destruct (cold_valid_log _ _ Hc Hv) as (ls & es & _ & _ & _ & Hsay & _ & _ & _ & _ & Hhead & _).
    rewrite Hhead. destruct es as [|e es]; [done|]. eexists. split; [done|].
    by apply tip_of_valid, (says_valid ls).
  - intros Hx. exfalso. revert Hw. unfold _write_verify_sidecar, write_json_sidecar_with_header.
    unfold lift_result, ensure, modify, mret, action_ret, mbind, action_bind. rewrite Hwrite.
    destruct e; try done. unfold build_sidecar_header, known_versions_for, json_body_with_header, guard_or.
    unfold mbind, result_bind. repeat case_match; try done; congruence.
Qed.

(** C18: a log was verified from its start, and the checkpoint written; its valid
    part ends at the end of a line and holds events of the run that was asked
    for; then other bytes came after that part.  The warm verification from the
    checkpoint, where it returns, gives the verdict of a cold one: the same
    status, and unless it was tampered with the same head, offset and count.
    (For events of another run the two differ: [cold_ignores_the_run].) *)
Theorem warm_verify_equals_cold h1 h2 raw1 post run rb s0 side r1 persist s' r :
  host_plain h1 → plain_text run = true → h_can_read h1 = true → h_can_write h1 = true → h_can_read h2 = true →
  verify_trace h1 (Some raw1) (Some run) true true s0 = (Some side, Ok r1) → is_valid r1 = true →
  (status r1 = VALID → whole_lines raw1) → fromhex run = Some rb →
  let pre := String.substring 0 (verified_offset r1) raw1 in
  (∀ es, says (readlines pre) = Some es → Forall (λ e, Trace.run_id e = rb) es) →
  verify_trace h2 (Some (pre +:+ post)) (Some run) false persist (Some side) = (s', Ok r) →
  ∃ b, cold_verify true (Some (pre +:+ post)) = Ok b ∧ status r = status b ∧ (status r = TAMPERED ∨ r = b).
Proof using RL.
  intros Hh Hrun Hr1 Hw1 Hr2 Hfirst Hv Hwl Hrb pre Hes.
  destruct (cold_persists _ _ _ _ _ _ Hh Hrun Hr1 Hw1 Hfirst Hv) as [Hc Hside].
  destruct (warm_walk_sound raw1 r1 post rb Hc Hv Hwl Hes) as (es & _ & Hn & Hhead & Hoff & Hwalk). fold pre in Hoff, Hwalk.
  unfold verify_trace, lift_result, get_state, ensure, mbind, action_bind. rewrite Hside, Hr2. cbn [orb guard_or].
  assert (∀ x, (Some side, walked (cold_verify true (Some (pre +:+ post)))) = (s', Ok r) → x = () →
    ∃ b, cold_verify true (Some (pre +:+ post)) = Ok b ∧ status r = status b ∧ (status r = TAMPERED ∨ r = b)) as Hcold.
  { intros x H _. remember (cold_verify true (Some (pre +:+ post))) as cv eqn:Hcv. clear Hcv.
    destruct cv as [b|]; [|done]. injection H as _ ->. exists r. auto. }
  destruct (_spot_check_tail _ _ _ _) as [[]|]; cbn [walked negb]; [|by intros H; apply (Hcold () H)|done].
  rewrite Hrb. destruct (len_is 16 rb); cbn [guard_or]; [|done].
  assert (match verified_head r1 with Some s => fromhex s | None => Some _GENESIS_HASH end =
    Some (tip_of _GENESIS_HASH es)) as ->.
  { rewrite Hhead. destruct es; [done|]. apply fromhex_hex. }
  destruct (Nat.ltb _ _); [by intros H; apply (Hcold () H)|].
  unfold warm_walk. rewrite <-Hwalk. cbn [cold_verify orb].
  assert (∀ q, persist_if persist h2 run q (Some side) = (s', Ok r) → q = r) as Hq.
  { intros q. unfold persist_if, mbind, action_bind, mret, action_ret. destruct (persist && is_valid q).
    - destruct (_persist_sidecar_after_verify _ _ _ _) as [s2 [[]|]]; [|done]. by intros [= _ ->].
    - by intros [= _ ->]. }
  destruct (_walk_verify _ (empty_chain _) 0 0) as [q|[]]; cbn [walked]; try done; intros H%Hq; subst r.
  - exists q. auto.
  - eexists. split; [done|]. auto.
Qed.

(** ** The window of the spot check *)
(** The search ends: the window grows until it covers the file. *)
Theorem window_search_ends raw target : is_Some (_find_backwards_window_start raw target).
Proof.
  unfold _find_backwards_window_start.
  cut (∀ fuel window, 0 < window → String.length raw - window < fuel → is_Some (window_start fuel raw target window)).
  { intros H. apply H; [|lia]. unfold INITIAL_WINDOW. lia. }
  induction fuel as [|fuel IH]; intros window Hw Hf; [lia|]. cbn [window_start].
  destruct (Nat.eqb_spec (String.length raw - window) 0); [by eexists|].
  assert (is_Some (window_start fuel raw target (Nat.min (window * 2) (String.length raw)))) as Hwide
    by (apply IH; lia).
  destruct (find_newline _); [|done]. destruct (Nat.leb _ _); [by eexists|done].
Qed.
End laws.
