(* ===== verification/TraceVerifyClaims.v ===== *)
(** * Verdicts on the logs a writer leaves

    The verdicts at work on the log of [TraceWriterClaims], and where they part
    from the reader's, from each other or from what they are said to be. *)

From Stdlib Require Import Floats.SpecFloat.
From S2P Require Import Prelude Canonical CanonicalRead CanonicalScan CanonicalPrefix CanonicalLines JsonText Text TextLines Trace Repair RepairLaws TraceWriter TraceWriterLaws TraceWriterClaims Sidecar TraceVerify TraceVerifyLaws.

#[local] Existing Instance plain_runtime.
#[local] Existing Instance plain_pytext.
#[local] Existing Instance sample_sha.
#[local] Existing Instance no_regex.

Definition a_log : string := default "" (log two_events).
Definition shorter_log : string := default "" (log one_event).
Definition longer_part : string := str_drop (String.length shorter_log) a_log.
Definition a_host : host :=
  {| h_now := "2026-01-01T00:00:00Z"; h_version := "0.5.2"; h_can_read := true; h_can_write := true |}.
Definition verdict {E} (r : result E TraceVerifyResult) : option (verify_status * nat * nat) :=
  match r with Ok v => Some (status v, verified_offset v, events_verified v) | Err _ => None end.
Definition what_kind {E} (r : result E TraceVerifyResult) : option string :=
  match r with Ok v => t_kind <$> tamper_details v | Err _ => None end.

Definition verdict_of {E} (r : result E TraceVerifyResult) : TraceVerifyResult :=
  match r with Ok r => r | Err _ => invalid_result end.

Definition a_verdict : TraceVerifyResult := verdict_of (cold_verify true (Some a_log)).
Lemma a_log_valid : is_valid a_verdict = true.
Proof. vm_compute. reflexivity. Qed.
Lemma a_log_events : events_verified a_verdict = 2.
Proof. vm_compute. reflexivity. Qed.
Lemma is_ok_verdict {E} (r : result E TraceVerifyResult) : is_ok r = true → r = Ok (verdict_of r).
Proof. by destruct r. Qed.
Lemma a_log_read : is_ok (cold_verify true (Some a_log)) = true.
Proof. vm_compute. reflexivity. Qed.

Lemma cold_verify_sound_witness : ∃ ls es rest run, readlines (default "" (Some a_log)) = ls ++ rest ∧ says ls = Some es ∧
    chained _GENESIS_HASH es ∧ Forall (λ e, Trace.run_id e = run) es ∧
    events_verified a_verdict = length es ∧ verified_offset a_verdict = String.length (joined ls) ∧
    verified_head a_verdict = head_of es ∧
    ((status a_verdict = VALID ∧ rest = []) ∨ (status a_verdict = TORN_TAIL ∧ ∃ l, rest = [l])).
Proof. exact (cold_verify_sound (Some a_log) a_verdict (is_ok_verdict _ a_log_read) a_log_valid). Defined.

(** The run of every event, decided. *)
Definition all_of_run (run : string) (es : list Event) : bool :=
  forallb (λ e, String.eqb (Trace.run_id e) run) es.
Lemma all_of_run_spec run es : all_of_run run es = true → Forall (λ e, Trace.run_id e = run) es.
Proof.
  unfold all_of_run. rewrite forallb_forall, Forall_forall. intros H e He.
  by apply String.eqb_eq, H, list_elem_of_In.
Qed.
Lemma two_held_run : all_of_run a_run two_held = true.
Proof. vm_compute. reflexivity. Qed.
Lemma two_events_ok : writer_ok two_events two_held.
Proof. exact (proj1 (reachable_ok index_raises a_run (Some keys_hidden) two_events two_held two_events_reachable)). Qed.
Lemma cold_verify_complete_witness : cold_verify true (log two_events) =
  Ok (valid_result (head_of two_held) (String.length (default "" (log two_events))) (length two_held)).
Proof.
  exact (cold_verify_complete (log two_events) two_held a_run (wo_log _ _ two_events_ok)
    (wo_chained _ _ two_events_ok) (all_of_run_spec _ _ two_held_run)).
Defined.

(** The log after its first event, verified and kept; then grown by the second. *)
Definition first_check : option string * result verify_error TraceVerifyResult :=
  verify_trace a_host (Some shorter_log) (Some (hex a_run)) true true None.
Definition a_sidecar : string := default "" first_check.1.
Definition first_verdict : TraceVerifyResult := verdict_of first_check.2.
Definition second_check : option string * result verify_error TraceVerifyResult :=
  verify_trace a_host (Some (String.substring 0 (verified_offset first_verdict) shorter_log +:+ longer_part))
    (Some (hex a_run)) false true (Some a_sidecar).
Definition second_verdict : TraceVerifyResult := verdict_of second_check.2.
Definition second_sidecar : option string := second_check.1.

Lemma first_checked : verify_trace a_host (Some shorter_log) (Some (hex a_run)) true true None =
  (Some a_sidecar, Ok first_verdict).
Proof. vm_compute. reflexivity. Qed.
Lemma second_checked :
  verify_trace a_host (Some (String.substring 0 (verified_offset first_verdict) shorter_log +:+ longer_part))
    (Some (hex a_run)) false true (Some a_sidecar) = (second_sidecar, Ok second_verdict).
Proof. vm_compute. reflexivity. Qed.
Lemma first_verdict_valid : is_valid first_verdict = true.
Proof. vm_compute. reflexivity. Qed.
Lemma second_verdict_events : events_verified second_verdict = 2.
Proof. vm_compute. reflexivity. Qed.
Lemma a_host_plain : host_plain a_host.
Proof. split; vm_compute; reflexivity. Qed.
Lemma a_run_plain : plain_text (hex a_run) = true.
Proof. vm_compute. reflexivity. Qed.
Lemma a_run_bytes : fromhex (hex a_run) = Some a_run.
Proof. vm_compute. reflexivity. Qed.
Lemma shorter_log_ended : shorter_log = drop_last 1 shorter_log +:+ LF.
Proof. vm_compute. reflexivity. Qed.
Lemma ended_whole s t : s = t +:+ LF → whole_lines s.
Proof. intros ->. right. by exists t. Qed.
Lemma shorter_log_whole : whole_lines shorter_log.
Proof. exact (ended_whole _ _ shorter_log_ended). Qed.
Definition said_by (run : string) (ls : list string) : bool :=
  match says ls with Some es => all_of_run run es | None => true end.
Lemma said_of_run ls run : said_by run ls = true →
  ∀ es, says ls = Some es → Forall (λ e, Trace.run_id e = run) es.
Proof. unfold said_by. intros H es Hes. rewrite Hes in H. by apply all_of_run_spec. Qed.
Lemma before_of_run :
  said_by a_run (readlines (String.substring 0 (verified_offset first_verdict) shorter_log)) = true.
Proof. vm_compute. reflexivity. Qed.
Lemma warm_verify_equals_cold_witness : ∃ b,
  cold_verify true (Some (String.substring 0 (verified_offset first_verdict) shorter_log +:+ longer_part)) = Ok b ∧
  status second_verdict = status b ∧ (status second_verdict = TAMPERED ∨ second_verdict = b).
Proof.
  exact (warm_verify_equals_cold a_host a_host shorter_log longer_part (hex a_run) a_run None a_sidecar
    first_verdict true second_sidecar second_verdict a_host_plain a_run_plain eq_refl eq_refl eq_refl
    first_checked first_verdict_valid (λ _, shorter_log_whole) a_run_bytes
    (said_of_run _ _ before_of_run) second_checked).
Defined.

(** *** Where the verdicts part *)

(** The last line is an object that is no event: the reader passes over it as
    torn, the verifier calls the log tampered with. *)
Theorem shapeless_tail_is_tampered :
  let l := Some (a_log +:+ "{}" +:+ LF) in
  TraceWriter.verify l = Ok true ∧
  verdict (cold_verify true l) = Some (TAMPERED, String.length a_log, 2) ∧
  what_kind (cold_verify true l) = Some "event_shape_invalid".
Proof. vm_compute. done. Qed.

(** A payload with a NaN, which [json.loads] reads and canonical JSON refuses:
    both verifiers raise. *)
Definition nan_event : string :=
  json_dumps None (JObj (to_canonical_dict
    {| id := a_run; Trace.run_id := a_run; step_id := None; parent_id := None; timestamp_ns := 5;
       kind := "run.started"; payload_of := [("x", JFloat S754_nan)]; hash := zero_bytes 32;
       prev_hash := zero_bytes 32 |})) +:+ LF.
Theorem nan_payload_escapes :
  is_ok (cold_verify true (Some nan_event)) = false ∧ is_ok (TraceWriter.verify (Some nan_event)) = false.
Proof. vm_compute. done. Qed.

(** A log that cannot be read: without a sidecar a verdict, with one a raise. *)
Theorem unreadable_log_raises :
  let h := {| h_now := ""; h_version := ""; h_can_read := false; h_can_write := true |} in
  verdict (verify_trace h (Some a_log) (Some (hex a_run)) false false None).2 = Some (INVALID, 0, 0) ∧
  (verify_trace h (Some a_log) (Some (hex a_run)) false false (Some a_sidecar)).2 = Err (Walk Unreadable).
Proof. vm_compute. done. Qed.

(** A cold verification does not look at the run it is asked about: a log of
    another run is valid, its checkpoint is kept, and only when the log has
    grown is it found to be of another run. *)
Definition other_run : string := hex (repeat_char 16 "q").
Definition as_other : option string * result verify_error TraceVerifyResult :=
  verify_trace a_host (Some shorter_log) (Some other_run) false true None.
Theorem cold_ignores_the_run :
  verdict as_other.2 = Some (VALID, String.length shorter_log, 1) ∧
  what_kind (verify_trace a_host (Some a_log) (Some other_run) false true as_other.1).2 = Some "run_id_mismatch".
Proof. vm_compute. done. Qed.

(** A line in the middle that is not UTF-8: the offset of the verdict counts
    from the start of that line, not of the file. *)
Theorem corrupt_middle_offset_is_in_line :
  verdict (cold_verify true (Some (a_log +:+ "ab" +:+ String "255" (LF +:+ a_log)))) = Some (TAMPERED, 2, 0).
Proof. vm_compute. done. Qed.

(** A last line that is cut inside a character but ended by hand: the reader
    passes over it, the verifier calls the log tampered with. *)
Theorem ended_torn_tail_is_tampered :
  let l := Some (a_log +:+ "{" +:+ String dquote (String "195" LF)) in
  TraceWriter.verify l = Ok true ∧ what_kind (cold_verify true l) = Some "middle_utf8_corruption".
Proof. vm_compute. done. Qed.
