(* ===== verification/JsonLines.v ===== *)
(** * A file of JSON objects, one per line

    How [json.loads] reads the lines of a whole file that is decoded at once: a
    malformed last line is passed over, any other refuses the file.  What a
    file that holds canonical objects reads as, whole or cut short. *)

From S2P Require Import Prelude Canonical CanonicalRead CanonicalScan CanonicalPrefix CanonicalLines.

(** Not UTF-8, a line in the middle that is no JSON, a line that is no object. *)
Inductive line_fault : Type := LogNotUtf8 | LineMalformed (i : nat) | LineNotObject (i : nat).
Definition members := list (string * json).

Section lines.
Context {R : Runtime}.

Fixpoint parse_objects (i : nat) (lines : list string) : result line_fault (list members) :=
  match lines with
  | [] => Ok []
  | line :: rest =>
      match json_loads line with
      | None => if bool_decide (rest = []) then Ok [] else Err (LineMalformed i)
      | Some (JObj p) => out ← parse_objects (S i) rest; Ok (p :: out)
      | Some _ => Err (LineNotObject i)
      end
  end.
(** [lines.pop()] when the text ends in a newline. *)
Fixpoint pop_empty (lines : list string) : list string :=
  match lines with
  | [] => []
  | [l] => if String.eqb l "" then [] else [l]
  | l :: ls => l :: pop_empty ls
  end.
Definition read_objects (raw : string) : result line_fault (list members) :=
  if String.eqb raw "" then Ok []
  else if utf8_valid raw then parse_objects 0 (pop_empty (split_char newline raw))
  else Err LogNotUtf8.

(** The members of an object once it was written and read. *)
Definition as_read (p : members) : members := match canon (JObj p) with JObj kvs => kvs | _ => [] end.
Lemma canon_as_read p : canon (JObj p) = JObj (as_read p).
Proof. unfold as_read. by rewrite canon_obj. Qed.

(** [ls] are the lines of the objects [ps]. *)
Definition objects_of (ps : list members) (ls : list string) : Prop :=
  Forall2 (λ p l, text_json (JObj p) = true ∧ encode (JObj p) = Ok l) ps ls.

Context {RL : RuntimeLaws R}.

Lemma object_line p l : text_json (JObj p) = true → encode (JObj p) = Ok l →
  no_char newline l = true ∧ utf8_valid l = true ∧ json_loads l = Some (JObj (as_read p)).
Proof using RL.
  intros Hp Hl. pose proof (plain_no_float _ Hp) as Hf.
  split_and!; [by eapply encode_no_newline|eapply encode_utf8; eauto using plain_utf8|].
  rewrite (loads_encode _ _ Hl Hf). by rewrite canon_as_read.
Qed.
Lemma objects_no_newline ps ls : objects_of ps ls → Forall (λ l, no_char newline l = true) ls.
Proof using RL.
  intros H. eapply Forall2_Forall_r; [exact H|]. apply Forall_true. intros p l [Hp Hl]. by eapply object_line.
Qed.
Lemma objects_utf8 ps ls : objects_of ps ls → utf8_valid (join_lines ls) = true.
Proof using RL.
  induction 1 as [|p l ps ls [Hp Hl] _ IH]; [done|]. cbn [join_lines].
  rewrite utf8_valid_app by (by eapply object_line). exact IH.
Qed.
Lemma pop_empty_snoc ls t : pop_empty (ls ++ [t]) = ls ++ (if String.eqb t "" then [] else [t]).
Proof. induction ls as [|l ls IH]; [done|]. cbn [app pop_empty]. rewrite IH. by destruct ls. Qed.

Lemma parse_objects_app i ps ls tail : objects_of ps ls →
  parse_objects i (ls ++ tail) =
  match parse_objects (length ls + i) tail with Ok out => Ok ((as_read <$> ps) ++ out) | Err e => Err e end.
Proof using RL.
  intros H. revert i. induction H as [|p l ps ls [Hp Hl] _ IH]; intros i.
  { cbn. by destruct (parse_objects i tail). }
  cbn [app parse_objects]. destruct (object_line _ _ Hp Hl) as (_ & _ & ->). rewrite IH. cbn [length].
  rewrite <-Nat.add_succ_comm. by destruct (parse_objects _ tail).
Qed.

(** The objects, then what the tail gives. *)
Lemma read_objects_tail ps ls t : objects_of ps ls → no_char newline t = true → utf8_valid t = true →
  read_objects (join_lines ls +:+ t) =
  match parse_objects (length ls) (if String.eqb t "" then [] else [t]) with
  | Ok out => Ok ((as_read <$> ps) ++ out) | Err e => Err e end.
Proof using RL.
  intros Hls Hn Hu. unfold read_objects. destruct (String.eqb_spec (join_lines ls +:+ t) "") as [E|_].
  { apply str_app_eq_nil in E as [E ->]. destruct ls as [|l ls]; [by inversion Hls|].
    apply str_app_eq_nil in E as [_ E]. done. }
  rewrite utf8_valid_app, Hu by (by eapply objects_utf8).
  rewrite split_join_lines by (done || by eapply objects_no_newline).
  rewrite pop_empty_snoc, (parse_objects_app _ _ _ _ Hls). by rewrite Nat.add_0_r.
Qed.
Lemma read_objects_holds ps ls : objects_of ps ls → read_objects (join_lines ls) = Ok (as_read <$> ps).
Proof using RL.
  intros H. rewrite <-(str_app_nil_r (join_lines ls)), (read_objects_tail _ _ _ H) by done.
  cbn. by rewrite app_nil_r.
Qed.

(** A line that was not written to its end: the file reads as without it or
    with it, unless it ends inside a character. *)
Lemma read_objects_cut ps ls p body written rest : objects_of ps ls → text_json (JObj p) = true →
  encode (JObj p) = Ok body → body +:+ String newline "" = written +:+ rest → utf8_valid written = true →
  read_objects (join_lines ls +:+ written) = Ok (as_read <$> ps) ∨
  read_objects (join_lines ls +:+ written) = Ok ((as_read <$> ps) ++ [as_read p]).
Proof using RL.
  intros Hls Hp Hb E Hu. destruct (object_line _ _ Hp Hb) as (Hn & _ & Hl).
  destruct (str_app_snoc_prefix _ _ _ _ E) as [[-> ->]|(r & Hw & ->)].
  - right. change ((as_read <$> ps) ++ [as_read p]) with ((as_read <$> ps) ++ (as_read <$> [p])).
    rewrite <-fmap_app.
    assert (join_lines ls +:+ (body +:+ String newline "") = join_lines (ls ++ [body])) as -> by (by rewrite join_lines_app).
    apply read_objects_holds, Forall2_app; [done|]. by repeat constructor.
  - subst body. rewrite no_char_app in Hn. apply andb_true_iff in Hn as [Hn _].
    rewrite (read_objects_tail _ _ _ Hls Hn Hu).
    destruct (String.eqb_spec written "") as [->|Hw]; [left; cbn; by rewrite app_nil_r|].
    destruct (String.eqb_spec r "") as [->|Hr].
    + right. rewrite str_app_nil_r in Hl. cbn [parse_objects]. by rewrite Hl.
    + left. assert (json_loads written = None) as Hj.
      { eapply loads_prefix_None; [exact Hb|by eapply plain_no_float|done]. }
      cbn [parse_objects]. rewrite Hj. cbn. by rewrite app_nil_r.
Qed.
End lines.
