(* ===== verification/ManifestLedger.v ===== *)
(** * The ledger of manifests

    Models [security/manifest_ledger.py]: the append-only file
    [manifest_ledger.jsonl] whose entries each carry the hash of the one before,
    the store of manifests by their hash, the check of the chain, proofs that
    an entry is on it, and the helper that records an attestation.  Taking the
    file's lock is an argument; two writers at once are kept apart by it. *)

From S2P Require Import Prelude Canonical JsonText Text TextLines AssumptionsWal JsonLines Trace.

(** What the ledger raises: [ValueError]s of the arguments, [OSError] of the
    store, [LedgerLockContended], [UnicodeDecodeError], [LedgerCorruptError]
    with its causes, [CanonicalJSONError], the errors of a summary, and those of
    the readers. *)
Inductive ledger_error : Type :=
| BadDigest
| EmptyRunId
| DigestMismatch (stored claimed : string)
| CannotStore
| LedgerLockContended
| NotUtf8
| LedgerMalformed (i : nat)
| LedgerNotObject (i : nat)
| NotCanonical (e : jcs_error)
| BadSummary (e : py_error)
| LedgerSnapshotMissing
| IndexOutOfRange
| NoLoader
| WalUnreadable (e : wal_error).
Definition of_fault (f : line_fault) : ledger_error :=
  match f with
  | LogNotUtf8 => NotUtf8
  | LineMalformed i => LedgerMalformed i
  | LineNotObject i => LedgerNotObject i
  end.

Definition GENESIS : string := "GENESIS".
Definition SNAPSHOT_DIR_NAME : string := "manifest_snapshots".
Definition entry := list (string * json).

(** [ManifestLedger]: the ledger file, the snapshot files by their name, and
    the events sent. *)
Record ManifestLedger := {
  ledger_file : option string;
  snapshots : list (string * string);
  sent : list (string * list (string * json));
}.
Definition new_ledger : ManifestLedger := {| ledger_file := None; snapshots := []; sent := [] |}.
Definition set_file (f : option string) (l : ManifestLedger) : ManifestLedger :=
  {| ledger_file := f; snapshots := snapshots l; sent := sent l |}.
Definition set_snapshots (s : list (string * string)) (l : ManifestLedger) : ManifestLedger :=
  {| ledger_file := ledger_file l; snapshots := s; sent := sent l |}.
Definition send (kind : string) (payload : list (string * json)) (l : ManifestLedger) : ManifestLedger :=
  {| ledger_file := ledger_file l; snapshots := snapshots l; sent := sent l ++ [(kind, payload)] |}.

Record LedgerAppendResult := { entry_index : nat; entry_hash : string; duplicate : bool }.
Record LedgerVerifyResult := { valid : bool; first_break_at : option nat; tail_valid_count : nat }.
Record MerkleProof := {
  target_index : nat;
  target_entry : entry;
  target_hash : string;
  forward_hashes : list string;
  tail_hash : string;
}.

(** ** Base64 *)

(** [base64.b64encode], and whether [base64.b64decode] takes a text with
    [validate=True]. *)
Definition b64_char (n : N) : ascii :=
  if (n <? 26)%N then ascii_of_N (65 + n)
  else if (n <? 52)%N then ascii_of_N (71 + n)
  else if (n <? 62)%N then ascii_of_N (n - 4)
  else if (n =? 62)%N then "+"%char else "/"%char.
Fixpoint b64encode (s : string) : string :=
  match s with
  | "" => ""
  | String a "" => String (b64_char (ord a / 4)) (String (b64_char (ord a mod 4 * 16)) "==")
  | String a (String b "") =>
      String (b64_char (ord a / 4)) (String (b64_char (ord a mod 4 * 16 + ord b / 16))
        (String (b64_char (ord b mod 16 * 4)) "="))
  | String a (String b (String c s)) =>
      String (b64_char (ord a / 4)) (String (b64_char (ord a mod 4 * 16 + ord b / 16))
        (String (b64_char (ord b mod 16 * 4 + ord c / 64)) (String (b64_char (ord c mod 64)) (b64encode s))))
  end.
Definition is_b64 (c : ascii) : bool :=
  byte_in 65 90 c || byte_in 97 122 c || byte_in 48 57 c || Ascii.eqb c "+" || Ascii.eqb c "/".
Fixpoint b64_valid (s : string) : bool :=
  match s with
  | "" => true
  | String a (String b (String c (String d s))) =>
      is_b64 a && is_b64 b &&
      (if Ascii.eqb d "=" then (is_b64 c || Ascii.eqb c "=") && String.eqb s ""
       else is_b64 c && is_b64 d && b64_valid s)
  | _ => false
  end.

(** ** Hexadecimal numbers

    [int(text, 16)] first takes the Unicode decimals and spaces of a text for
    ASCII ones ([to_ascii_digits]), then allows spaces around, a sign, a
    prefix, and single underscores between the digits. *)
Class DecimalSpace := { to_ascii_digits : string → string }.
Definition ascii_space (c : ascii) : bool := byte_in 9 13 c || Ascii.eqb c " ".
Fixpoint lstrip_ascii (s : string) : string :=
  match s with String c s' => if ascii_space c then lstrip_ascii s' else s | "" => "" end.
Definition is_hex (c : ascii) : bool := bool_decide (is_Some (hex_value c)).
(** Digits from a digit on, then spaces to the end. *)
Fixpoint hex_run (s : string) : bool :=
  match s with
  | "" => false
  | String c s =>
      is_hex c &&
      match s with
      | "" => true
      | String d s' => if Ascii.eqb d "_" then hex_run s'
                       else if is_hex d then hex_run s else String.eqb (lstrip_ascii s) ""
      end
  end.
Definition drop_sign (s : string) : string :=
  match s with String c s' => if Ascii.eqb c "+" || Ascii.eqb c "-" then s' else s | "" => "" end.
Definition drop_0x (s : string) : string :=
  match s with
  | String c (String x s') =>
      if Ascii.eqb c "0" && (Ascii.eqb x "x" || Ascii.eqb x "X") then
        match s' with String u s'' => if Ascii.eqb u "_" then s'' else s' | "" => "" end
      else s
  | s => s
  end.
Definition int16_ok {D : DecimalSpace} (s : string) : bool :=
  hex_run (drop_0x (drop_sign (lstrip_ascii (to_ascii_digits s)))).

Section ledger.
Context {R : Runtime} {Sh : Sha256} {T : PyText} {D : DecimalSpace}.

(** 64 characters that [int(_, 16)] takes. *)
Definition hex64 (s : string) : bool := Nat.eqb (length (utf8_decode s)) 64 && int16_ok s.
Definition _validate_digest_hex (s : string) : result ledger_error unit := guard_or (hex64 s) BadDigest.

(** ** Entries *)
Definition canonical (p : entry) : result ledger_error string :=
  match encode (JObj p) with Ok s => Ok s | Err e => Err (NotCanonical e) end.
Definition _canonical_line (p : entry) : result ledger_error string :=
  s ← canonical p; Ok (s +:+ String newline "").
Definition _hash_entry (p : entry) : result ledger_error string :=
  s ← canonical p; Ok (hex (sha256 s)).

Definition text_member (p : entry) (k : string) : option string :=
  match Dict.get p k with Some (JStr s) => Some s | _ => None end.
Definition optional (v : option json) (ok : json → bool) : bool :=
  match v with None | Some JNull => true | Some v => ok v end.
Definition int_member (p : entry) (k : string) : bool :=
  match Dict.get p k with Some (JInt _) | Some (JBool _) => true | _ => false end.
Definition snapshot_ref_ok (v : json) : bool :=
  match v with JStr s => startswith s (SNAPSHOT_DIR_NAME +:+ "/") && endswith s ".json" | _ => false end.
Definition _entry_schema_valid (p : entry) : bool :=
  match text_member p "manifest_digest" with Some s => hex64 s | None => false end &&
  match text_member p "rootknot_signature" with Some s => b64_valid s | None => false end &&
  match text_member p "rootknot_run_id" with Some s => negb (String.eqb s "") | None => false end &&
  match Dict.get p "tool_trace_summary" with Some (JObj _) => true | _ => false end &&
  match text_member p "prev_ledger_hash" with
  | Some s => String.eqb s GENESIS || hex64 s
  | None => false
  end &&
  optional (Dict.get p "manifest_snapshot_ref") snapshot_ref_ok &&
  optional (Dict.get p "wal_cross_link")
    (λ v, match v with JObj x => int_member x "first_wal_seq" && int_member x "last_wal_seq" | _ => false end) &&
  optional (Dict.get p "entry_index") (λ v, match v with JInt n => (0 <=? n)%Z | _ => false end).

(** [_normalise_tool_trace] *)
Definition _normalise_tool_trace (summary : entry) : result ledger_error entry :=
  match
    (ids ← py_iter (get_or summary "tool_ids_invoked" (JArr []));
     count ← py_int (get_or summary "invocation_count" (JInt 0));
     Ok [("tool_ids_invoked", JArr (JStr <$> py_sorted String.leb (remove_dups (py_str <$> ids))));
         ("invocation_count", JInt count);
         ("first_invoke_at", get_or summary "first_invoke_at" JNull);
         ("last_invoke_at", get_or summary "last_invoke_at" JNull)])
  with Ok s => Ok s | Err e => Err (BadSummary e) end.
Definition empty_summary : entry :=
  [("tool_ids_invoked", JArr []); ("invocation_count", JInt 0);
   ("first_invoke_at", JNull); ("last_invoke_at", JNull)].
Definition opt_member (k : string) (v : option json) : entry :=
  match v with Some v => [(k, v)] | None => [] end.
Definition cross_link (first_wal_seq last_wal_seq : option Z) : option json :=
  match first_wal_seq, last_wal_seq with
  | None, None => None
  | f, l => Some (JObj [("first_wal_seq", JInt (default 0%Z f)); ("last_wal_seq", JInt (default 0%Z l))])
  end.
Definition _build_entry (timestamp manifest_digest : string) (snapshot_ref : option string)
    (signature run_id : string) (summary : entry) (first_wal_seq last_wal_seq : option Z)
    (prev_hash : string) (index : nat) : result ledger_error entry :=
  s ← _normalise_tool_trace summary;
  Ok ([("timestamp", JStr timestamp); ("manifest_digest", JStr manifest_digest);
       ("rootknot_signature", JStr (b64encode signature)); ("rootknot_run_id", JStr run_id);
       ("tool_trace_summary", JObj s); ("prev_ledger_hash", JStr prev_hash);
       ("entry_index", JInt (Z.of_nat index))] ++
      opt_member "manifest_snapshot_ref" (JStr <$> snapshot_ref) ++
      opt_member "wal_cross_link" (cross_link first_wal_seq last_wal_seq)).

(** ** Snapshots *)

(** The file is put in place whole, and only where there is none of its name. *)
Definition store_snapshot (can_store : bool) (manifest : string)
    : action ManifestLedger ledger_error string :=
  let digest := hex (sha256 manifest) in
  l ← get_state;
  _ ← (if Dict.mem (snapshots l) digest then mret () else
       _ ← ensure can_store CannotStore;
       modify (set_snapshots (Dict.set (snapshots l) digest manifest)));
  mret digest.
Definition read_snapshot (l : ManifestLedger) (digest : string) : result ledger_error string :=
  match Dict.get (snapshots l) digest with Some s => Ok s | None => Err LedgerSnapshotMissing end.

(** ** Reading *)
Definition load (l : ManifestLedger) : result ledger_error (list entry) :=
  match ledger_file l with
  | None => Ok []
  | Some raw => match read_objects raw with Ok es => Ok es | Err f => Err (of_fault f) end
  end.

(** ** Appending *)

(** What the caller gives [append]. *)
Record observation := {
  o_digest : string;
  o_signature : string;
  o_run_id : string;
  o_manifest : option string;
  o_summary : option entry;
  o_first : option Z;
  o_last : option Z;
}.
(** The time, and what the file system and the lock allow. *)
Record surroundings := { now : string; can_store : bool; lock_free : bool }.

Definition same_key (o : observation) (e : entry) : bool :=
  bool_decide (text_member e "rootknot_run_id" = Some (o_run_id o)) &&
  bool_decide (text_member e "manifest_digest" = Some (o_digest o)).
Fixpoint find_key (o : observation) (i : nat) (es : list entry) : option (nat * entry) :=
  match es with
  | [] => None
  | e :: es => if same_key o e then Some (i, e) else find_key o (S i) es
  end.
(** [tool_trace_summary or {...}] *)
Definition summary_of (o : observation) : entry :=
  match o_summary o with Some (kv :: kvs) => kv :: kvs | _ => empty_summary end.
(** [os.open] with [O_CREAT]. *)
Definition open_file (l : ManifestLedger) : ManifestLedger :=
  set_file (Some (default "" (ledger_file l))) l.
Definition write_line (line : string) (l : ManifestLedger) : ManifestLedger :=
  set_file (Some (default "" (ledger_file l) +:+ line)) l.
(** The snapshot first, outside the lock. *)
Definition snapshot_ref (w : surroundings) (o : observation) : action ManifestLedger ledger_error (option string) :=
  match o_manifest o with
  | None => mret None
  | Some m =>
      stored ← store_snapshot (can_store w) m;
      _ ← ensure (String.eqb stored (o_digest o)) (DigestMismatch stored (o_digest o));
      mret (Some (SNAPSHOT_DIR_NAME +:+ "/" +:+ o_digest o +:+ ".json"))
  end.
Definition prev_of (es : list entry) : result ledger_error string :=
  match last es with None => Ok GENESIS | Some e => _hash_entry e end.
(** The entry for the ledger's [es]. *)
Definition next_entry (w : surroundings) (o : observation) (ref : option string) (es : list entry)
    : result ledger_error (string * entry) :=
  prev ← prev_of es;
  e ← _build_entry (now w) (o_digest o) ref (o_signature o) (o_run_id o) (summary_of o) (o_first o) (o_last o)
        prev (length es);
  Ok (prev, e).
(** [len] of the summary's tools; the event is lost where it has none. *)
Definition tool_count (o : observation) : option nat :=
  match o_summary o with
  | None => Some 0
  | Some s => match get_or s "tool_ids_invoked" (JArr []) with
              | JArr l => Some (length l)
              | JObj kvs => Some (length kvs)
              | JStr t => Some (length (utf8_decode t))
              | _ => None
              end
  end.
Definition announce (o : observation) (index : nat) (prev : string) : action ManifestLedger ledger_error unit :=
  match tool_count o with
  | Some n => modify (send "manifest.ledger.appended"
      [("entry_index", JInt (Z.of_nat index)); ("manifest_digest", JStr (o_digest o));
       ("prev_ledger_hash", JStr prev); ("tool_ids_invoked_count", JInt (Z.of_nat n))])
  | None => mret ()
  end.
(** What is done while the lock is held: the ledger is read again, the pair of
    run and manifest is looked for, and the entry is written behind the last. *)
Definition append_locked (w : surroundings) (o : observation) (ref : option string)
    : action ManifestLedger ledger_error (LedgerAppendResult * option string) :=
  l ← get_state;
  es ← lift_result (load l);
  match find_key o 0 es with
  | Some (i, e) =>
      h ← lift_result (_hash_entry e);
      mret ({| entry_index := i; entry_hash := h; duplicate := true |}, None)
  | None =>
      '(prev, e) ← lift_result (next_entry w o ref es);
      line ← lift_result (_canonical_line e);
      _ ← modify (write_line line);
      h ← lift_result (_hash_entry e);
      mret ({| entry_index := length es; entry_hash := h; duplicate := false |}, Some prev)
  end.
Definition append (w : surroundings) (o : observation) : action ManifestLedger ledger_error LedgerAppendResult :=
  _ ← lift_result (_validate_digest_hex (o_digest o));
  _ ← ensure (negb (String.eqb (o_run_id o) "")) EmptyRunId;
  ref ← snapshot_ref w o;
  _ ← modify open_file;
  _ ← ensure (lock_free w) LedgerLockContended;
  '(a, written) ← append_locked w o ref;
  _ ← match written with Some prev => announce o (entry_index a) prev | None => mret () end;
  mret a.

(** ** Verifying *)
Definition break_at (i : nat) : LedgerVerifyResult :=
  {| valid := false; first_break_at := Some i; tail_valid_count := i |}.
Definition stamp_ok (i : nat) (e : entry) : bool :=
  match Dict.get e "entry_index" with
  | Some (JInt n) => (n =? Z.of_nat i)%Z
  | Some (JBool b) => (Z.b2z b =? Z.of_nat i)%Z
  | _ => true
  end.
(** From entry [i] on, after the entries [before]. *)
Fixpoint verify_from (i : nat) (before : list entry) (es : list entry) : result ledger_error LedgerVerifyResult :=
  match es with
  | [] => Ok {| valid := true; first_break_at := None; tail_valid_count := i |}
  | e :: es =>
      if negb (_entry_schema_valid e) then Ok (break_at i)
      else if negb (stamp_ok i e) then Ok (break_at i)
      else expected ← prev_of before;
           if bool_decide (text_member e "prev_ledger_hash" = Some expected)
           then verify_from (S i) (before ++ [e]) es else Ok (break_at i)
  end.
Definition verify_chain (l : ManifestLedger) : result ledger_error LedgerVerifyResult :=
  es ← load l; verify_from 0 [] es.

(** ** Proofs *)
Definition proof_of (l : ManifestLedger) (index : nat) : result ledger_error MerkleProof :=
  es ← load l;
  match drop index es with
  | [] => Err IndexOutOfRange
  | target :: after =>
      th ← _hash_entry target;
      forward ← mapM _hash_entry after;
      Ok {| target_index := index; target_entry := target; target_hash := th; forward_hashes := forward;
            tail_hash := default th (last forward) |}
  end.
(** [loader] is [None] where it raises. *)
Fixpoint walk_proof (loader : string → option json) (prev : string) (hashes : list string)
    : result ledger_error bool :=
  match hashes with
  | [] => Ok true
  | h :: hashes =>
      match loader h with
      | Some (JObj next) =>
          own ← _hash_entry next;
          if negb (String.eqb own h) then Ok false
          else if negb (bool_decide (text_member next "prev_ledger_hash" = Some prev)) then Ok false
          else walk_proof loader h hashes
      | _ => Ok false
      end
  end.
Definition ends_in_tail (p : MerkleProof) : bool :=
  String.eqb (default (target_hash p) (last (forward_hashes p))) (tail_hash p).
Definition verify_proof (p : MerkleProof) (loader : option (string → option json)) : result ledger_error bool :=
  match loader with
  | None => Err NoLoader
  | Some loader =>
      own ← _hash_entry (target_entry p);
      if negb (String.eqb own (target_hash p)) then Ok false else
      ok ← walk_proof loader (target_hash p) (forward_hashes p);
      Ok (ok && ends_in_tail p)
  end.
Definition verify_proof_shape_only (p : MerkleProof) : result ledger_error bool :=
  own ← _hash_entry (target_entry p);
  Ok (String.eqb own (target_hash p) && ends_in_tail p).

(** ** The helper of an attestation *)

(** The tools that were called; [iso] prints a time in nanoseconds. *)
Definition first_of (v w : option json) (k : string) : string :=
  match v with
  | Some v => if py_bool v then py_str v else match w with Some w => if py_bool w then py_str w else k | None => k end
  | None => match w with Some w => if py_bool w then py_str w else k | None => k end
  end.
Definition tool_id_of (e : Event) : string :=
  first_of (Dict.get (payload_of e) "tool_id") (Dict.get (payload_of e) "name") "unknown".
Definition fold_time (f : Z → Z → Z) (ts : list Z) : option Z :=
  match ts with [] => None | t :: ts => Some (foldl f t ts) end.
Definition summarise_tool_trace_from_events (iso : Z → string) (evs : list Event) : entry :=
  let called := filter (λ e, Trace.kind e = "tool.called") evs in
  let at_ t := match t with Some n => JStr (iso n) | None => JNull end in
  [("tool_ids_invoked", JArr (JStr ∘ tool_id_of <$> called));
   ("invocation_count", JInt (Z.of_nat (length called)));
   ("first_invoke_at", at_ (fold_time Z.min (timestamp_ns <$> called)));
   ("last_invoke_at", at_ (fold_time Z.max (timestamp_ns <$> called)))].

Definition count_wal_entries (d : AssumptionWal) : result ledger_error Z :=
  match load_all d with
  | Ok (snap, log) => Ok (Z.of_nat (length snap + length log))
  | Err e => Err (WalUnreadable e)
  end.
(** What a Rootknot carries. *)
Record knot := {
  k_manifest_digest : option string;
  k_environment_signature : option string;
  k_run_id : option string;
}.
Definition present (v : option string) : option string :=
  match v with Some s => if String.eqb s "" then None else Some s | None => None end.
Definition nonzero (v : option string) : option string :=
  match v with Some s => if str_forall (λ c, Ascii.eqb c "000") s then None else Some s | None => None end.
(** The state is the ledger that is given or bound, if one is.  A refusal of the
    ledger is sent as an event, an unreadable log is raised. *)
Definition record_environment_attestation (w : surroundings) (words : ledger_error → string * string)
    (k : knot) (manifest : option string) (summary : option entry) (wal : option AssumptionWal)
    (first last : option Z)
    : action (option ManifestLedger) ledger_error (option LedgerAppendResult) := λ s,
  match s, nonzero (k_manifest_digest k), present (k_environment_signature k), present (k_run_id k) with
  | Some l, Some digest, Some sig, Some run =>
      match (match wal, first, last with
             | Some d, None, None => n ← count_wal_entries d; Ok (Some n, Some n)
             | _, _, _ => Ok (first, last)
             end) with
      | Err e => (Some l, Err e)
      | Ok (first, last) =>
          let o := {| o_digest := hex digest; o_signature := sig; o_run_id := run; o_manifest := manifest;
                      o_summary := summary; o_first := first; o_last := last |} in
          match append w o l with
          | (l', Ok r) => (Some l', Ok (Some r))
          | (l', Err e) =>
              (Some (send "manifest.ledger.refused"
                 [("manifest_digest", JStr (hex digest)); ("run_id", JStr run);
                  ("error_kind", JStr (words e).1); ("error_message", JStr (words e).2)] l'), Ok None)
          end
      end
  | _, _, _, _ => (s, Ok None)
  end.

(** An [append] the process was killed in: some of the line's bytes are there. *)
Inductive append_killed (w : surroundings) (o : observation) (l : ManifestLedger)
    : entry → ManifestLedger → Prop :=
| killed_writing l1 ref es prev e body written rest :
    hex64 (o_digest o) = true → o_run_id o ≠ "" →
    snapshot_ref w o l = (l1, Ok ref) → load (open_file l1) = Ok es → find_key o 0 es = None →
    next_entry w o ref es = Ok (prev, e) → canonical e = Ok body →
    body +:+ String newline "" = written +:+ rest →
    append_killed w o l e (write_line written (open_file l1)).
End ledger.
