(* ===== verification/ManifestLedgerLaws.v ===== *)
(** * The ledger: its chain, its proofs and its life

    What the check of the chain means, that a ledger's last hash fixes all of
    it, that proofs are found for every entry and only for entries, and that
    appends keep all this, in any order and with any failures. *)

From S2P Require Import Prelude Canonical CanonicalRead CanonicalScan CanonicalPrefix CanonicalLines JsonText Text TextLines AssumptionsWal JsonLines Trace ManifestLedger.

Class DecimalSpaceLaws (D : DecimalSpace) : Prop :=
  { to_ascii_digits_ascii : ∀ s, ascii_text s = true → to_ascii_digits s = s }.

Lemma b64_char_range n : (n < 64)%N → is_b64 (b64_char n) = true ∧
  Ascii.eqb (b64_char n) "=" = false ∧ (ord (b64_char n) <? 128)%N = true.
Proof.
  intros Hn. assert (n ∈ N.of_nat <$> seq 0 64) as Hin.
  { apply list_elem_of_fmap. exists (N.to_nat n). split; [lia|]. apply elem_of_seq. lia. }
  clear Hn. revert n Hin. apply Forall_forall. vm_compute. repeat constructor.
Qed.
Lemma b64_encode_valid s : b64_valid (b64encode s) = true ∧ ascii_text (b64encode s) = true.
Proof.
  assert (∀ n, (n < 64)%N → is_b64 (b64_char n) = true) as H1 by (intros n Hn; by apply b64_char_range).
  assert (∀ n, (n < 64)%N → Ascii.eqb (b64_char n) "=" = false) as H2 by (intros n Hn; by apply b64_char_range).
  assert (∀ n, (n < 64)%N → (ord (b64_char n) <? 128)%N = true) as H3 by (intros n Hn; by apply b64_char_range).
  assert (∀ c, (ord c < 256)%N) as Hlt by (intros c; unfold ord; apply N_ascii_bounded).
  assert (∀ c, (ord c / 4 < 64)%N) as Hq4.
  { intros c. apply N.Div0.div_lt_upper_bound. specialize (Hlt c). lia. }
  assert (∀ c, (ord c / 16 < 16)%N) as Hq16.
  { intros c. apply N.Div0.div_lt_upper_bound. specialize (Hlt c). lia. }
  assert (∀ c, (ord c / 64 < 4)%N) as Hq64.
  { intros c. apply N.Div0.div_lt_upper_bound. specialize (Hlt c). lia. }
  assert (∀ n k, k ≠ 0%N → (n mod k < k)%N) as Hm by (intros; by apply N.mod_lt).
  cut (∀ n s, String.length s <= n → b64_valid (b64encode s) = true ∧ ascii_text (b64encode s) = true).
  { intros H. by apply (H (String.length s)). }
  induction n as [|n IH]; intros t Ht; [destruct t; [done|cbn in Ht; lia]|].
  destruct t as [|a [|b [|c t]]]; [done|..]; cbn [b64encode b64_valid].
  - pose proof (Hm (ord a) 4%N ltac:(lia)). rewrite !H1 by (done || lia). split; [done|].
    unfold ascii_text. cbn [str_forall]. by rewrite !H3 by (done || lia).
  - pose proof (Hm (ord a) 4%N ltac:(lia)). pose proof (Hm (ord b) 16%N ltac:(lia)). pose proof (Hq16 b).
    rewrite !H1 by (done || lia). split; [done|].
    unfold ascii_text. cbn [str_forall]. by rewrite !H3 by (done || lia).
  - pose proof (Hm (ord a) 4%N ltac:(lia)). pose proof (Hm (ord b) 16%N ltac:(lia)). pose proof (Hq16 b).
    pose proof (Hq64 c). pose proof (Hm (ord c) 64%N ltac:(lia)).
    destruct (IH t) as [I1 I2]; [cbn in Ht; lia|]. rewrite !H1, H2 by (done || lia). split; [done|].
    unfold ascii_text in *. cbn [str_forall]. by rewrite I2, !H3 by (done || lia).
Qed.

(** 64 hexadecimal digits are taken. *)
Lemma utf8_decode_ascii s : ascii_text s = true → length (utf8_decode s) = String.length s.
Proof.
  induction s as [|c s IH]; [done|]. unfold ascii_text. cbn [str_forall].
  intros [Hc Hs]%andb_true_iff. apply N.ltb_lt in Hc. cbn [utf8_decode].
  assert (byte_in 0 0x7F c = true) as ->.
  { unfold byte_in. apply andb_true_iff. rewrite !N.leb_le. lia. }
  cbn. by rewrite IH.
Qed.
Lemma hex_chars s : str_forall is_hex (hex s) = true.
Proof.
  induction s as [|c s IH]; [done|]. cbn [hex str_forall]. rewrite IH, andb_true_r.
  destruct c as [[] [] [] [] [] [] [] []]; reflexivity.
Qed.
Lemma hex_run_digits s : s ≠ "" → str_forall is_hex s = true → hex_run s = true.
Proof.
  induction s as [|c s IH]; [done|]. intros _. cbn [str_forall hex_run]. intros [-> Hs]%andb_true_iff.
  destruct s as [|d s]; [done|]. cbn [andb]. assert (Hs' := Hs). cbn [str_forall] in Hs'.
  apply andb_true_iff in Hs' as [Hd _]. destruct (Ascii.eqb_spec d "_") as [->|]; [by vm_compute in Hd|].
  rewrite Hd. by apply IH.
Qed.

Section chain.
Context {R : Runtime} {Sh : Sha256} {T : PyText} {D : DecimalSpace}.

(** ** What the check of the chain means *)

(** The entry at [i], after the entries [before]: its shape, its stamp and its
    link. *)
Definition link_ok (before : list entry) (e : entry) : Prop :=
  _entry_schema_valid e = true ∧ stamp_ok (length before) e = true ∧
  ∃ h, prev_of before = Ok h ∧ text_member e "prev_ledger_hash" = Some h.
Definition chain_ok (es : list entry) : Prop := ∀ i e, es !! i = Some e → link_ok (take i es) e.

Lemma chain_ok_snoc es e : chain_ok (es ++ [e]) ↔ chain_ok es ∧ link_ok es e.
Proof.
  split.
  - intros H. split.
    + intros i x Hx. pose proof (lookup_lt_Some _ _ _ Hx). specialize (H i x).
      rewrite lookup_app_l, take_app_le in H by lia. by apply H.
    + specialize (H (length es) e). rewrite take_app_length in H. apply H.
      by rewrite lookup_app_r, Nat.sub_diag by lia.
  - intros [H He] i x Hx. apply lookup_snoc_Some in Hx as [[Hlt Hx]|[-> ->]].
    + rewrite take_app_le by lia. by apply H.
    + by rewrite take_app_length.
Qed.

Lemma verify_from_step before e es : link_ok before e →
  verify_from (length before) before (e :: es) = verify_from (length (before ++ [e])) (before ++ [e]) es.
Proof.
  intros (Hs & Hst & h & Hp & Ht). cbn [verify_from]. rewrite Hs, Hst, Hp, Ht. cbn [negb mbind result_bind].
  rewrite bool_decide_eq_true_2 by done. by rewrite length_app, Nat.add_comm.
Qed.
Lemma verify_from_ok before es : chain_ok (before ++ es) →
  verify_from (length before) before es =
  Ok {| valid := true; first_break_at := None; tail_valid_count := length (before ++ es) |}.
Proof.
  revert before. induction es as [|e es IH]; intros before H; [by rewrite app_nil_r|].
  assert (before ++ e :: es = (before ++ [e]) ++ es) as E by (by rewrite <-app_assoc).
  rewrite E in H |- *. rewrite verify_from_step; [by apply IH|].
  specialize (H (length before) e). rewrite <-app_assoc, take_app_length in H. apply H.
  by rewrite lookup_app_r, Nat.sub_diag by lia.
Qed.
(** The verdict: every entry is linked, or the first that is not is named. *)
Lemma verify_from_spec before es r : chain_ok before → verify_from (length before) before es = Ok r →
  (valid r = true ∧ first_break_at r = None ∧ tail_valid_count r = length (before ++ es) ∧ chain_ok (before ++ es)) ∨
  ∃ good e bad, es = good ++ e :: bad ∧ valid r = false ∧ first_break_at r = Some (length (before ++ good)) ∧
    tail_valid_count r = length (before ++ good) ∧ chain_ok (before ++ good) ∧ ¬ link_ok (before ++ good) e.
Proof.
  revert before. induction es as [|e es IH]; intros before Hb.
  { cbn [verify_from]. intros [= <-]. left. by rewrite app_nil_r. }
  assert (∀ i, Ok (E := ledger_error) (break_at i) = Ok r → i = length before → ¬ link_ok before e →
    ∃ good x bad, e :: es = good ++ x :: bad ∧ valid r = false ∧ first_break_at r = Some (length (before ++ good)) ∧
    tail_valid_count r = length (before ++ good) ∧ chain_ok (before ++ good) ∧ ¬ link_ok (before ++ good) x) as Hbr.
  { intros i [= <-] -> Hn. exists [], e, es. rewrite app_nil_r. done. }
  cbn [verify_from]. intros H. destruct (_entry_schema_valid e) eqn:Hs; cbn [negb] in H.
  2: { right. eapply Hbr; [done..|]. intros (? & _). congruence. }
  destruct (stamp_ok (length before) e) eqn:Hst; cbn [negb] in H.
  2: { right. eapply Hbr; [done..|]. intros (_ & ? & _). congruence. }
  apply result_bind_ok in H as (h & Hp & H). case_bool_decide as Ht.
  2: { right. eapply Hbr; [done..|]. intros (_ & _ & h' & Hp' & Ht'). congruence. }
  assert (link_ok before e) as Hl by (split_and!; [done..|]; by exists h).
  destruct (IH (before ++ [e])) as [H1|(good & x & bad & -> & H1)].
  - by apply chain_ok_snoc.
  - rewrite length_app. cbn. by rewrite Nat.add_1_r.
  - left. by rewrite <-app_assoc in H1.
  - right. exists (e :: good), x, bad. rewrite <-!app_assoc in H1. done.
Qed.

(** the verdict on a ledger is that every entry has the shape, the stamp of
    its place and the hash of the entry before it, or it names the first that
    has not, all before it being linked. *)
Theorem verify_chain_finds_first_break l es r : load l = Ok es → verify_chain l = Ok r →
  (valid r = true ∧ first_break_at r = None ∧ tail_valid_count r = length es ∧ chain_ok es) ∨
  ∃ good e bad, es = good ++ e :: bad ∧ valid r = false ∧ first_break_at r = Some (length good) ∧
    tail_valid_count r = length good ∧ chain_ok good ∧ ¬ link_ok good e.
Proof.
  intros Hl. unfold verify_chain. rewrite Hl. apply (verify_from_spec [] es r). intros i e Hx. done.
Qed.
Lemma verify_chain_ok l es : load l = Ok es → chain_ok es →
  verify_chain l = Ok {| valid := true; first_break_at := None; tail_valid_count := length es |}.
Proof. intros Hl Hc. unfold verify_chain. rewrite Hl. by apply (verify_from_ok [] es). Qed.

(** ** The last hash fixes the ledger *)
Context {RL : RuntimeLaws R}.

Definition collision : Prop := ∃ a b, a ≠ b ∧ sha256 a = sha256 b.
Definition same_bytes (a b : entry) : Prop := canonical a = canonical b.
Definition floatless (e : entry) : Prop := no_float (JObj e) = true.

Lemma hash_inv e h : _hash_entry e = Ok h → ∃ s, encode (JObj e) = Ok s ∧ canonical e = Ok s ∧ h = hex (sha256 s).
Proof.
  unfold _hash_entry, canonical. intros (s & H & [= <-])%result_bind_ok.
  destruct (encode (JObj e)) as [s'|] eqn:E; [|done]. injection H as ->. eauto.
Qed.
Lemma same_hash a b h : _hash_entry a = Ok h → _hash_entry b = Ok h →
  (∃ s, encode (JObj a) = Ok s ∧ encode (JObj b) = Ok s ∧ same_bytes a b) ∨ collision.
Proof.
  intros (s & Ea & Ca & ->)%hash_inv (t & Eb & Cb & Hh)%hash_inv. apply (inj hex) in Hh.
  destruct (decide (s = t)) as [->|Hne]; [left|right; by exists s, t].
  exists t. split_and!; [done..|]. unfold same_bytes. congruence.
Qed.
Lemma get_as_read e s k v : encode (JObj e) = Ok s → nfc k = k → Dict.get e k = Some v →
  Dict.get (as_read e) k = Some (canon v).
Proof.
  intros (Hn & _)%encode_obj_Ok Hk Hg. unfold as_read. rewrite canon_obj. apply Dict.elem_get.
  - unfold Dict.keys in *. by rewrite <-list_fmap_compose.
  - apply list_elem_of_fmap. exists (k, v). split; [done|]. unfold sorted_members.
    apply elem_of_py_sorted, list_elem_of_fmap. exists (k, v). cbn. rewrite Hk.
    split; [done|]. by apply Dict.get_Some_elem.
Qed.
Lemma text_member_get e k s : text_member e k = Some s ↔ Dict.get e k = Some (JStr s).
Proof. unfold text_member. destruct (Dict.get e k) as [[]|]; naive_solver. Qed.
(** The same bytes name the same text, up to the normal form. *)
Lemma same_bytes_text a b s k x y : encode (JObj a) = Ok s → encode (JObj b) = Ok s →
  floatless a → floatless b → nfc k = k → text_member a k = Some x → text_member b k = Some y → nfc x = nfc y.
Proof using RL.
  intros Ha Hb Fa Fb Hk Hx%text_member_get Hy%text_member_get.
  pose proof (loads_encode _ _ Ha Fa) as La. rewrite (loads_encode _ _ Hb Fb), !canon_as_read in La.
  injection La as La. pose proof (get_as_read _ _ _ _ Ha Hk Hx) as Gx.
  pose proof (get_as_read _ _ _ _ Hb Hk Hy) as Gy. rewrite La, Gx in Gy. by injection Gy.
Qed.

Lemma prev_ascii es h : prev_of es = Ok h → ascii_text h = true.
Proof.
  unfold prev_of. destruct (last es); [|by intros [= <-]]. intros (s & _ & _ & ->)%hash_inv. apply hex_ascii.
Qed.
Lemma genesis_is_no_hash e : _hash_entry e ≠ Ok GENESIS.
Proof.
  intros (s & _ & _ & H)%hash_inv. pose proof (hex_chars (sha256 s)) as Hc. rewrite <-H in Hc. by vm_compute in Hc.
Qed.
(** Two entries with the same hash have the same link. *)
Lemma same_hash_link a b h p q : _hash_entry a = Ok h → _hash_entry b = Ok h → floatless a → floatless b →
  text_member a "prev_ledger_hash" = Some p → text_member b "prev_ledger_hash" = Some q →
  ascii_text p = true → ascii_text q = true → (same_bytes a b ∧ p = q) ∨ collision.
Proof using RL.
  intros Ha Hb Fa Fb Hp Hq Ap Aq. destruct (same_hash _ _ _ Ha Hb) as [(s & Ea & Eb & Hs)|]; [left|by right].
  split; [done|]. rewrite <-(ascii_nfc p), <-(ascii_nfc q) by done.
  eapply (same_bytes_text a b s "prev_ledger_hash"); try done. by apply ascii_nfc.
Qed.

Lemma prev_snoc es e : prev_of (es ++ [e]) = _hash_entry e.
Proof. unfold prev_of. by rewrite last_snoc. Qed.

Lemma same_tail es1 es2 h : chain_ok es1 → chain_ok es2 → Forall floatless es1 → Forall floatless es2 →
  prev_of es1 = Ok h → prev_of es2 = Ok h → Forall2 same_bytes es1 es2 ∨ collision.
Proof using RL.
  revert es2 h. induction es1 as [|e1 es1 IH] using rev_ind; intros es2 h H1 H2 F1 F2 P1 P2.
  - destruct es2 as [|e2 es2 _] using rev_ind; [by left|]. injection P1 as <-.
    rewrite prev_snoc in P2. by apply genesis_is_no_hash in P2.
  - destruct es2 as [|e2 es2 _] using rev_ind.
    { injection P2 as <-. rewrite prev_snoc in P1. by apply genesis_is_no_hash in P1. }
    rewrite prev_snoc in P1, P2. apply chain_ok_snoc in H1 as [H1 (_ & _ & p & Pp & Tp)].
    apply chain_ok_snoc in H2 as [H2 (_ & _ & q & Pq & Tq)].
    apply Forall_app in F1 as [F1 [Fe1 _]%Forall_cons]. apply Forall_app in F2 as [F2 [Fe2 _]%Forall_cons].
    destruct (same_hash_link e1 e2 h p q) as [[Hs ->]|]; [done..|by eapply prev_ascii|by eapply prev_ascii| |by right].
    destruct (IH es2 q) as [Hf|]; [done..| |by right]. left. apply Forall2_app; [done|]. by constructor.
Qed.

(** C20: the hash of the last entry fixes a ledger: of two ledgers that verify
    and end in the same hash, every entry has the same bytes, unless SHA-256
    collides. *)
Theorem tail_hash_fixes_ledger l1 l2 es1 es2 r1 r2 h :
  load l1 = Ok es1 → load l2 = Ok es2 → verify_chain l1 = Ok r1 → verify_chain l2 = Ok r2 →
  valid r1 = true → valid r2 = true → Forall floatless es1 → Forall floatless es2 →
  prev_of es1 = Ok h → prev_of es2 = Ok h → Forall2 same_bytes es1 es2 ∨ collision.
Proof using RL.
  intros L1 L2 V1 V2 O1 O2 F1 F2 P1 P2.
  destruct (verify_chain_finds_first_break _ _ _ L1 V1) as [(_ & _ & _ & C1)|(? & ? & ? & _ & ? & _)]; [|congruence].
  destruct (verify_chain_finds_first_break _ _ _ L2 V2) as [(_ & _ & _ & C2)|(? & ? & ? & _ & ? & _)]; [|congruence].
  by apply (same_tail es1 es2 h).
Qed.

(** ** Proofs *)
Lemma walk_proof_snoc loader prev hs h : walk_proof loader prev (hs ++ [h]) = Ok true ↔
  walk_proof loader prev hs = Ok true ∧ ∃ next, loader h = Some (JObj next) ∧ _hash_entry next = Ok h ∧
  text_member next "prev_ledger_hash" = Some (default prev (last hs)).
Proof.
  revert prev. induction hs as [|g hs IH]; intros prev.
  - cbn [app walk_proof last default]. split.
    + destruct (loader h) as [[]|]; try done. intros (own & Ho & H)%result_bind_ok.
      destruct (String.eqb_spec own h) as [->|]; [|done]. cbn [negb] in H. case_bool_decide; [|done]. eauto.
    + intros (_ & next & -> & -> & ->). cbn. by rewrite String.eqb_refl, bool_decide_eq_true_2.
  - cbn [app walk_proof]. assert (default prev (last (g :: hs)) = default g (last hs)) as -> by (rewrite last_cons; by destruct (last hs)).
    destruct (loader g) as [[]|]; try (split; [done|by intros [? _]]).
    destruct (_hash_entry kvs) as [own|]; cbn [mbind result_bind]; [|split; [done|by intros [? _]]].
    destruct (negb (String.eqb own g)); [split; [done|by intros [? _]]|].
    destruct (negb (bool_decide _)); [split; [done|by intros [? _]]|]. apply IH.
Qed.
Lemma verify_proof_inv p loader : verify_proof p (Some loader) = Ok true →
  _hash_entry (target_entry p) = Ok (target_hash p) ∧
  walk_proof loader (target_hash p) (forward_hashes p) = Ok true ∧
  default (target_hash p) (last (forward_hashes p)) = tail_hash p.
Proof.
  cbn [verify_proof]. intros (own & Ho & H)%result_bind_ok. destruct (String.eqb_spec own (target_hash p)) as [->|]; [|done].
  cbn [negb] in H. apply result_bind_ok in H as (ok & Hw & [= H]). apply andb_true_iff in H as [-> H].
  split_and!; [done..|]. by apply String.eqb_eq in H.
Qed.

(** From the tail back to the target. *)
Lemma walk_back es loader (target : entry) th hs : chain_ok es → Forall floatless es → floatless target →
  (∀ h n, loader h = Some (JObj n) → floatless n) → _hash_entry target = Ok th →
  walk_proof loader th hs = Ok true → prev_of es = Ok (default th (last hs)) →
  (∃ e, es !! (length es - S (length hs)) = Some e ∧ same_bytes e target ∧ length hs < length es) ∨ collision.
Proof using RL.
  intros Hc Hf Ft Fl Hth. revert es Hc Hf. induction hs as [|h hs IH] using rev_ind; intros es Hc Hf Hw Hp.
  - destruct es as [|e es _] using rev_ind.
    { injection Hp as Hp. rewrite <-Hp in Hth. by apply genesis_is_no_hash in Hth. }
    rewrite prev_snoc in Hp. apply Forall_app in Hf as [_ [Fe _]%Forall_cons].
    destruct (same_hash _ _ _ Hp Hth) as [(_ & _ & _ & Hs)|]; [left|by right].
    exists e. rewrite length_app. cbn. rewrite lookup_app_r by lia.
    replace (length es + 1 - 1 - length es) with 0 by lia. split_and!; [done..|lia].
  - apply walk_proof_snoc in Hw as (Hw & next & Hl & Hn & Ht). rewrite last_snoc in Hp. cbn [default] in Hp.
    destruct es as [|e es _] using rev_ind.
    { injection Hp as <-. by apply genesis_is_no_hash in Hn. }
    rewrite prev_snoc in Hp. apply chain_ok_snoc in Hc as [Hc (_ & _ & p & Hpe & Hte)].
    apply Forall_app in Hf as [Hf [Fe _]%Forall_cons].
    assert (ascii_text (default th (last hs)) = true) as Ha.
    { destruct hs as [|g hs _] using rev_ind.
      - cbn. apply hash_inv in Hth as (s & _ & _ & ->). apply hex_ascii.
      - rewrite last_snoc. apply walk_proof_snoc in Hw as (_ & n & _ & Hg & _).
        apply hash_inv in Hg as (s & _ & _ & ->). apply hex_ascii. }
    destruct (same_hash_link e next h p (default th (last hs))) as [[_ ->]|]; try done; [by eapply Fl| | |by right].
    + by eapply prev_ascii.
    + destruct (IH es Hc Hf Hw Hpe) as [(x & Hx & Hs & Hlt)|]; [left|by right].
      exists x. rewrite !length_app. cbn. replace (length es + 1 - S (length hs + 1)) with (length es - S (length hs)) by lia.
      rewrite lookup_app_l by lia. split_and!; [done..|lia].
Qed.

(** C21: a proof that is accepted and ends in the ledger's last hash is of an
    entry of the ledger, the one as many places before the last as the proof
    has hashes, unless SHA-256 collides. *)
Theorem accepted_proof_is_of_an_entry l es r p loader :
  load l = Ok es → verify_chain l = Ok r → valid r = true → prev_of es = Ok (tail_hash p) →
  Forall floatless es → floatless (target_entry p) → (∀ h n, loader h = Some (JObj n) → floatless n) →
  verify_proof p (Some loader) = Ok true →
  (∃ e, es !! (length es - S (length (forward_hashes p))) = Some e ∧ same_bytes e (target_entry p) ∧
        length (forward_hashes p) < length es) ∨ collision.
Proof using RL.
  intros L V O P F Ft Fl (Hth & Hw & He)%verify_proof_inv.
  destruct (verify_chain_finds_first_break _ _ _ L V) as [(_ & _ & _ & C)|(? & ? & ? & _ & ? & _)]; [|congruence].
  eapply walk_back; try done. by rewrite He.
Qed.

(** Every entry of a ledger has a proof, and it is accepted by whoever can look
    the later entries up by their hash. *)
Lemma hashes_of es h : chain_ok es → prev_of es = Ok h → ∃ hs, mapM _hash_entry es = Ok hs ∧ last hs = match es with [] => None | _ => Some h end.
Proof.
  revert h. induction es as [|e es IH] using rev_ind; intros h Hc Hp; [by exists []|].
  apply chain_ok_snoc in Hc as [Hc (_ & _ & g & Hg & _)]. destruct (IH g Hc Hg) as (hs & Hhs & _).
  rewrite prev_snoc in Hp. exists (hs ++ [h]). rewrite last_snoc.
  apply mapM_Ok in Hhs. split; [|by destruct es].
  apply mapM_Ok, Forall2_app; [done|]. by constructor.
Qed.

Lemma walk_forward es e loader th hs : chain_ok (e :: es) ∨ (∃ before, chain_ok (before ++ e :: es)) →
  _hash_entry e = Ok th → mapM _hash_entry es = Ok hs →
  (∀ x h, x ∈ es → _hash_entry x = Ok h → loader h = Some (JObj x)) → walk_proof loader th hs = Ok true.
Proof.
  intros H. assert (∃ before, chain_ok (before ++ e :: es)) as [before Hc] by (destruct H; [by exists []|done]).
  clear H. revert before e th hs Hc. induction es as [|x es IH]; intros before e th hs Hc Hth Hm Hld.
  { injection Hm as <-. done. }
  cbn in Hm. apply result_bind_ok in Hm as (h & Hh & (hs' & Hm & [= <-])%result_bind_ok).
  assert (before ++ e :: x :: es = (before ++ [e]) ++ x :: es) as E by (by rewrite <-app_assoc).
  rewrite E in Hc. pose proof (Hc (length (before ++ [e])) x) as (_ & _ & g & Hg & Ht).
  { by rewrite lookup_app_r, Nat.sub_diag by lia. }
  rewrite take_app_length, prev_snoc, Hth in Hg. injection Hg as <-.
  cbn [walk_proof]. rewrite (Hld x h), Hh by (done || by left). cbn [mbind result_bind].
  rewrite String.eqb_refl, bool_decide_eq_true_2 by done. cbn [negb]. eapply IH; [exact Hc|done|done|]. intros y k Hy. apply Hld. by right.
Qed.

(** every entry of a ledger that verifies has a proof, and it is accepted
    by whoever can look up the entries after it by their hash. *)
Theorem every_entry_is_proved l es r h i loader :
  load l = Ok es → verify_chain l = Ok r → valid r = true → prev_of es = Ok h → i < length es →
  (∀ x k, x ∈ es → _hash_entry x = Ok k → loader k = Some (JObj x)) →
  ∃ p, proof_of l i = Ok p ∧ Some (target_entry p) = es !! i ∧ tail_hash p = h ∧
       S (i + length (forward_hashes p)) = length es ∧ verify_proof p (Some loader) = Ok true.
Proof.
  intros L V O P Hi Hld.
  destruct (verify_chain_finds_first_break _ _ _ L V) as [(_ & _ & _ & C)|(? & ? & ? & _ & ? & _)]; [|congruence].
  destruct (lookup_lt_is_Some_2 es i Hi) as [e He]. pose proof (take_drop_middle _ _ _ He) as Hsp.
  destruct (hashes_of _ _ C P) as (all & Hall & Hlast). rewrite <-Hsp in Hall. apply mapM_Ok in Hall.
  apply Forall2_app_inv_l in Hall as (h1 & h2 & _ & Hall & ->).
  apply Forall2_cons_inv_l in Hall as (th & hs & Hth & Hhs & ->). apply mapM_Ok in Hhs.
  assert (h = default th (last hs)) as Hh.
  { rewrite last_app in Hlast. destruct es; [done|]. rewrite last_cons in Hlast. by destruct (last hs); injection Hlast. }
  eexists. split; [unfold proof_of; rewrite L; cbn [mbind result_bind]; rewrite (drop_S _ _ _ He), Hth; cbn [mbind result_bind];
    rewrite Hhs; done|]. cbn [target_entry tail_hash forward_hashes]. split_and!; [done|done|..].
  - apply mapM_Ok, Forall2_length in Hhs. rewrite <-Hhs, length_drop. lia.
  - cbn [verify_proof target_entry target_hash forward_hashes]. rewrite Hth. cbn [mbind result_bind].
    rewrite String.eqb_refl. cbn [negb].
    rewrite (walk_forward (drop (S i) es) e loader th hs); [| |done|done|].
    + cbn [mbind result_bind]. unfold ends_in_tail. cbn [target_hash forward_hashes tail_hash]. by rewrite String.eqb_refl.
    + right. exists (take i es). by rewrite Hsp.
    + intros x k Hx. apply Hld. rewrite <-(take_drop (S i) es). apply elem_of_app. by right.
Qed.

(** ** The life of a ledger *)
Context {DL : DecimalSpaceLaws D}.

(** What the program gives: hexadecimal digests, normal text. *)
Definition plain_observation (w : surroundings) (o : observation) : bool :=
  plain_text (now w) && ascii_text (o_digest o) && plain_text (o_run_id o) &&
  match _normalise_tool_trace (summary_of o) with Ok s => text_json (JObj s) | Err _ => true end.

(** The ledger holds the entries [ps], which link, one for each run and
    manifest; every snapshot has the name of its bytes. *)
Record ledger_ok (l : ManifestLedger) (ps : list entry) : Prop := {
  lo_file : (ledger_file l = None ∧ ps = []) ∨ ∃ ls, ledger_file l = Some (join_lines ls) ∧ objects_of ps ls;
  lo_chain : chain_ok (as_read <$> ps);
  lo_keys : NoDup ((λ e, (text_member e "rootknot_run_id", text_member e "manifest_digest")) <$> (as_read <$> ps));
  lo_snapshots : ∀ d b, Dict.get (snapshots l) d = Some b → d = hex (sha256 b);
}.

Lemma new_ledger_ok : ledger_ok new_ledger [].
Proof. split; [by left|intros i e Hx; done|constructor|done]. Qed.
Lemma load_ok l ps : ledger_ok l ps → load l = Ok (as_read <$> ps).
Proof using RL.
  intros [[[Hf ->]|(ls & Hf & Hls)] _ _ _]; unfold load; rewrite Hf; [done|].
  by rewrite (read_objects_holds _ _ Hls).
Qed.
Lemma open_file_ok l ps : ledger_ok l ps → ledger_ok (open_file l) ps ∧
  ∃ ls, ledger_file (open_file l) = Some (join_lines ls) ∧ objects_of ps ls.
Proof.
  intros [Hf Hc Hk Hs]. assert (∃ ls, ledger_file (open_file l) = Some (join_lines ls) ∧ objects_of ps ls) as Hls.
  { unfold open_file, set_file. cbn. destruct Hf as [[-> ->]|(ls & -> & Hls)]; [by exists []; repeat constructor|eauto]. }
  split; [|done]. split; [by right|done..].
Qed.
Lemma write_line_ok l ps ls e body : ledger_ok l ps → ledger_file l = Some (join_lines ls) → objects_of ps ls →
  text_json (JObj e) = true → encode (JObj e) = Ok body → link_ok (as_read <$> ps) (as_read e) →
  (∀ x, x ∈ as_read <$> ps → text_member x "rootknot_run_id" = text_member (as_read e) "rootknot_run_id" →
        text_member x "manifest_digest" ≠ text_member (as_read e) "manifest_digest") →
  ledger_ok (write_line (body +:+ String newline "") l) (ps ++ [e]).
Proof.
  intros [Hf Hc Hk Hs] Hl Hls Hp He Hlink Hnew. split.
  - right. exists (ls ++ [body]). unfold write_line, set_file. cbn. rewrite Hl. cbn. split; [by rewrite join_lines_app|].
    apply Forall2_app; [done|]. by repeat constructor.
  - rewrite fmap_app. by apply chain_ok_snoc.
  - rewrite !fmap_app. apply NoDup_app. split_and!; [done| |apply NoDup_singleton].
    intros k (x & -> & Hx)%list_elem_of_fmap [= Hk1 Hk2]%list_elem_of_singleton. by apply (Hnew x).
  - done.
Qed.

(** *** The entry that is built *)
Lemma hex64_hash s : String.length (sha256 s) = 32 → hex64 (hex (sha256 s)) = true.
Proof using DL.
  intros Hlen. unfold hex64, int16_ok. pose proof (hex_ascii (sha256 s)) as Ha.
  rewrite utf8_decode_ascii, to_ascii_digits_ascii by done.
  assert (∀ t, String.length (hex t) = 2 * String.length t) as Hl.
  { induction t as [|c t IH]; cbn; [done|]. rewrite IH. lia. }
  rewrite Hl, Hlen. cbn [Nat.eqb Nat.mul Nat.add andb]. pose proof (hex_chars (sha256 s)) as Hc.
  destruct (sha256 s) as [|c t]; [done|].
  assert (lstrip_ascii (hex (String c t)) = hex (String c t) ∧ drop_sign (hex (String c t)) = hex (String c t) ∧
    drop_0x (hex (String c t)) = hex (String c t)) as (-> & -> & ->).
  { clear. destruct c as [[] [] [] [] [] [] [] []]; split_and!; try reflexivity; cbn; by destruct t. }
  by apply hex_run_digits.
Qed.

Lemma get_plain e k : text_json (JObj e) = true → Dict.get (as_read e) k = canon <$> Dict.get e k.
Proof using RL.
  intros (kvs & Hc & Hg)%get_canon. rewrite canon_as_read in Hc. injection Hc as ->. apply Hg.
Qed.
Lemma ascii_text_app a b : ascii_text (a +:+ b) = ascii_text a && ascii_text b.
Proof. apply str_forall_app. Qed.
Lemma startswith_app a b : startswith (a +:+ b) a = true.
Proof. apply startswith_spec. by exists b. Qed.
Lemma endswith_own a b : endswith (a +:+ b) b = true.
Proof.
  induction a as [|c a IH]; [rewrite str_app_nil_l; destruct b; [done|]; cbn [endswith]; by rewrite String.eqb_refl|].
  rewrite str_app_cons. cbn [endswith]. by rewrite IH, orb_true_r.
Qed.

Definition ref_of (o : observation) : string := SNAPSHOT_DIR_NAME +:+ "/" +:+ o_digest o +:+ ".json".
Lemma built_entry w o ref es prev e :
  plain_observation w o = true → hex64 (o_digest o) = true → o_run_id o ≠ "" → ref = None ∨ ref = Some (ref_of o) →
  prev = GENESIS ∨ (∃ s, prev = hex (sha256 s) ∧ hex64 prev = true) → prev_of es = Ok prev →
  _build_entry (now w) (o_digest o) ref (o_signature o) (o_run_id o) (summary_of o) (o_first o) (o_last o)
    prev (length es) = Ok e →
  text_json (JObj e) = true ∧ link_ok es (as_read e) ∧
  text_member (as_read e) "rootknot_run_id" = Some (o_run_id o) ∧
  text_member (as_read e) "manifest_digest" = Some (o_digest o).
Proof using RL.
  intros Hpo Hd Hrun Href Hprev Hpe (s & Hs & He)%result_bind_ok. injection He as He.
  unfold plain_observation in Hpo. rewrite Hs in Hpo. bool_prop.
  destruct (b64_encode_valid (o_signature o)) as [Hb Hba].
  assert (ascii_text prev = true) as Hap by (by eapply prev_ascii).
  assert (ascii_text (ref_of o) = true) as Har by (unfold ref_of; rewrite !ascii_text_app; by replace (ascii_text (o_digest o)) with true by done).
  assert (text_json (JObj e) = true) as Hp.
  { apply plain_obj.
    - apply bool_decide_eq_true. rewrite <-He. unfold opt_member, cross_link. destruct Href as [-> | ->], (o_first o), (o_last o); vm_compute;
        repeat (apply NoDup_cons; split; [rewrite ?elem_of_cons, elem_of_nil; naive_solver|]); apply NoDup_nil_2.
    - rewrite <-He. unfold opt_member, cross_link. do 7 (apply Forall_cons; split;
        [cbn [fst snd]; split; [done|]; try done; by apply ascii_plain|]).
      apply Forall_app. split; [destruct Href as [-> | ->]; cbn; repeat constructor; by apply ascii_plain|].
      destruct (o_first o), (o_last o); cbn; repeat constructor. }
  assert (∀ k, Dict.get (as_read e) k = canon <$> Dict.get e k) as Hget by (intros k; by apply get_plain).
  assert (∀ k v, Dict.get e k = Some (JStr v) → plain_text v = true → text_member (as_read e) k = Some v) as Htext.
  { intros k v Hk Hv. apply text_member_get. rewrite Hget, Hk. cbn. by rewrite (plain_text_nfc _ Hv). }
  split; [done|]. split; [|by split; (apply Htext; [by rewrite <-He|]; try done; apply ascii_plain)].
  assert (Dict.get (as_read e) "entry_index" = Some (JInt (Z.of_nat (length es)))) as Hidx by (by rewrite Hget, <-He).
  assert (_entry_schema_valid (as_read e) = true) as Hschema.
  2: { split_and!; [done| |exists prev; split; [done|apply Htext; [by rewrite <-He|by apply ascii_plain]]].
       unfold stamp_ok. rewrite Hidx. apply Z.eqb_refl. }
  unfold _entry_schema_valid.
  rewrite (Htext "manifest_digest" (o_digest o)), (Htext "rootknot_signature" (b64encode (o_signature o))),
    (Htext "rootknot_run_id" (o_run_id o)), (Htext "prev_ledger_hash" prev), Hd, Hb
    by (try (by rewrite <-He); try done; by apply ascii_plain).
  rewrite !Hget. apply String.eqb_neq in Hrun as ->.
  assert (match canon <$> Dict.get e "tool_trace_summary" with Some (JObj _) => true | _ => false end = true) as ->.
  { rewrite <-He. cbn [Dict.get fmap option_fmap option_map]. decide_keys. cbn [fmap option_fmap option_map].
    by rewrite canon_as_read. }
  assert ((prev =? GENESIS)%string || hex64 prev = true) as ->.
  { destruct Hprev as [->|(t & _ & ->)]; [done|apply orb_true_r]. }
  assert (optional (canon <$> Dict.get e "manifest_snapshot_ref") snapshot_ref_ok = true) as ->.
  { rewrite <-He. destruct Href as [-> | ->]; [by destruct (o_first o), (o_last o)|].
    cbn [Dict.get app opt_member fmap option_fmap option_map]. decide_keys. cbn [fmap option_fmap option_map canon optional snapshot_ref_ok].
    rewrite (ascii_nfc _ Har). unfold ref_of. rewrite <-!str_app_assoc, endswith_own. rewrite !str_app_assoc.
    rewrite <-str_app_assoc. by rewrite startswith_app. }
  assert (optional (canon <$> Dict.get e "wal_cross_link") (λ v, match v with JObj x => int_member x "first_wal_seq" &&
    int_member x "last_wal_seq" | _ => false end) = true) as ->.
  { assert (∀ f l, optional (Some (canon (JObj [("first_wal_seq", JInt f); ("last_wal_seq", JInt l)])))
      (λ v, match v with JObj x => int_member x "first_wal_seq" && int_member x "last_wal_seq" | _ => false end) = true) as Hx.
    { intros f l. rewrite canon_as_read. cbn [optional]. unfold int_member. by rewrite !get_plain. }
    rewrite <-He. destruct Href as [-> | ->], (o_first o), (o_last o); first [apply Hx|done]. }
  rewrite <-He. cbn [Dict.get]. decide_keys. cbn. by apply Z.leb_le, Zle_0_nat.
Qed.

(** *** One append *)
Context {SL : Sha256Laws Sh}.

Lemma prev_cases es prev : prev_of es = Ok prev → prev = GENESIS ∨ (∃ s, prev = hex (sha256 s) ∧ hex64 prev = true).
Proof using DL SL.
  unfold prev_of. destruct (last es) as [e|]; [|intros [= <-]; by left].
  intros (s & _ & _ & ->)%hash_inv. right. exists s. split; [done|]. apply hex64_hash, sha256_length.
Qed.
Lemma find_key_None o i es : find_key o i es = None → ∀ e, e ∈ es → same_key o e = false.
Proof.
  revert i. induction es as [|x es IH]; intros i; cbn; [by intros _ e ?%elem_of_nil|].
  destruct (same_key o x) eqn:E; [done|]. intros H e [->|He]%elem_of_cons; [done|]. by eapply IH.
Qed.
Lemma find_key_Some o i es j e : find_key o i es = Some (j, e) → ∃ k, j = i + k ∧ es !! k = Some e ∧ same_key o e = true.
Proof.
  revert i. induction es as [|x es IH]; intros i; cbn; [done|].
  destruct (same_key o x) eqn:E; [intros [= <- <-]; exists 0; by rewrite Nat.add_0_r|].
  intros (k & -> & Hk & He)%IH. exists (S k). split_and!; [lia|done..].
Qed.

(** What storing leaves: the same entries, the digest's name for the bytes. *)
Lemma snapshot_ref_ok w o l ps l1 r : ledger_ok l ps → snapshot_ref w o l = (l1, r) →
  ledger_ok l1 ps ∧ ledger_file l1 = ledger_file l ∧ sent l1 = sent l ∧
  ∀ ref, r = Ok ref → (ref = None ∨ ref = Some (ref_of o)) ∧
    ∀ m, o_manifest o = Some m → o_digest o = hex (sha256 m) ∧ is_Some (Dict.get (snapshots l1) (o_digest o)).
Proof.
  intros Hl. unfold snapshot_ref. destruct (o_manifest o) as [m|].
  2: { intros [= <- <-]. split_and!; [done..|]. intros ref [= <-]. split; [by left|done]. }
  unfold store_snapshot, get_state, ensure, modify, mret, action_ret, mbind, action_bind.
  set (d := hex (sha256 m)). destruct (Dict.mem (snapshots l) d) eqn:Hm; cbn.
  - destruct (String.eqb_spec d (o_digest o)) as [E|]; cbn; intros [= <- <-]; (split_and!; [done..|]); [|done].
    intros ref [= <-]. split; [by right|]. intros m' [= <-]. split; [done|]. rewrite <-E.
    by apply bool_decide_eq_true in Hm.
  - destruct (can_store w); cbn; [|intros [= <- <-]; by split_and!].
    assert (ledger_ok (set_snapshots (Dict.set (snapshots l) d m) l) ps) as Hl1.
    { destruct Hl as [Hf Hc Hk Hs]. split; [done..|]. cbn. intros d' b. destruct (decide (d' = d)) as [->|Hne].
      - rewrite Dict.get_set_eq. by intros [= <-].
      - rewrite Dict.get_set_ne by done. apply Hs. }
    destruct (String.eqb_spec d (o_digest o)) as [E|]; cbn; intros [= <- <-]; (split_and!; [done..|]); [|done].
    intros ref [= <-]. split; [by right|]. intros m' [= <-]. split; [done|]. rewrite <-E. cbn.
    rewrite Dict.get_set_eq. by eexists.
Qed.

Lemma announce_file o i p l : ∃ l', announce o i p l = (l', Ok ()) ∧ ledger_file l' = ledger_file l ∧ snapshots l' = snapshots l.
Proof. unfold announce. destruct (tool_count o); by eexists. Qed.
Lemma ledger_ok_same l l' ps : ledger_ok l ps → ledger_file l' = ledger_file l → snapshots l' = snapshots l → ledger_ok l' ps.
Proof. intros [Hf Hc Hk Hs] E1 E2. split; rewrite ?E1, ?E2; done. Qed.

Lemma hash_as_read e body : encode (JObj e) = Ok body → _hash_entry (as_read e) = _hash_entry e.
Proof using RL.
  intros H. pose proof (encode_canon _ _ H) as Hc. rewrite canon_as_read in Hc.
  unfold _hash_entry, canonical. by rewrite H, Hc.
Qed.
Lemma same_key_text o e : same_key o e = true ↔
  text_member e "rootknot_run_id" = Some (o_run_id o) ∧ text_member e "manifest_digest" = Some (o_digest o).
Proof. unfold same_key. by rewrite andb_true_iff, !bool_decide_eq_true. Qed.

(** The entry of an append that is not a duplicate. *)
Lemma next_entry_ok w o ref l ps prev e : ledger_ok l ps → plain_observation w o = true →
  hex64 (o_digest o) = true → o_run_id o ≠ "" → ref = None ∨ ref = Some (ref_of o) →
  next_entry w o ref (as_read <$> ps) = Ok (prev, e) →
  text_json (JObj e) = true ∧ link_ok (as_read <$> ps) (as_read e) ∧ same_key o (as_read e) = true.
Proof using RL DL SL.
  intros Hl Hpo Hd Hrun Href (prev' & Hp & (e' & He & [= <- <-])%result_bind_ok)%result_bind_ok.
  destruct (built_entry w o ref (as_read <$> ps) prev' e') as (H1 & H2 & H3 & H4); try done; [by eapply prev_cases|].
  split_and!; [done..|]. by apply same_key_text.
Qed.

(** What an append that returned [a] has done to a ledger of [ps]. *)
Definition appended (o : observation) (ps new : list entry) (a : LedgerAppendResult) : Prop :=
  (∃ e, (as_read <$> (ps ++ new)) !! entry_index a = Some e ∧ _hash_entry e = Ok (entry_hash a) ∧ same_key o e = true) ∧
  length new = (if duplicate a then 0 else 1).

Lemma append_locked_spec w o ref l ps l' r : ledger_ok l ps → is_Some (ledger_file l) → plain_observation w o = true →
  hex64 (o_digest o) = true → o_run_id o ≠ "" → ref = None ∨ ref = Some (ref_of o) →
  append_locked w o ref l = (l', r) →
  ∃ new, ledger_ok l' (ps ++ new) ∧ snapshots l' = snapshots l ∧
    match r with Ok (a, _) => appended o ps new a | Err _ => new = [] end.
Proof using RL DL SL.
  intros Hl Hsome Hpo Hd Hrun Href. unfold append_locked, get_state, lift_result, modify, mret, action_ret, mbind, action_bind.
  rewrite (load_ok _ _ Hl). destruct (find_key o 0 _) as [[i x]|] eqn:Hfind.
  - destruct (_hash_entry x) as [h|] eqn:Hh; intros [= <- <-]; exists []; rewrite ?app_nil_r; split_and!; try done.
    split; [|done]. rewrite app_nil_r. apply find_key_Some in Hfind as (k & -> & Hk & Hx). by exists x.
  - destruct (next_entry w o ref _) as [[prev e]|] eqn:Hnext; [|intros [= <- <-]; exists []; by rewrite app_nil_r].
    destruct (next_entry_ok _ _ _ _ _ _ _ Hl Hpo Hd Hrun Href Hnext) as (Hp & Hlink & Hkey).
    unfold _canonical_line, canonical. destruct (encode (JObj e)) as [body|] eqn:He; cbn [mbind result_bind];
      [|intros [= <- <-]; exists []; by rewrite app_nil_r].
    assert (_hash_entry e = Ok (hex (sha256 body))) as Hh by (unfold _hash_entry, canonical; by rewrite He).
    rewrite Hh. intros [= <- <-]. exists [e].
    destruct Hl as [Hf Hc Hk Hs]. destruct Hf as [[Hf _]|(ls & Hf & Hls)]; [destruct Hsome; congruence|].
    split_and!; [|done|].
    + apply (write_line_ok l ps ls e body); try done; [by split; [by right; exists ls|..]|].
      apply same_key_text in Hkey as [-> ->]. intros x Hx E1 E2. apply (find_key_None _ _ _ Hfind) in Hx.
      apply not_true_iff_false in Hx. by apply Hx, same_key_text.
    + split; [|done]. exists (as_read e). rewrite fmap_app, length_fmap, lookup_app_r, length_fmap, Nat.sub_diag by (by rewrite length_fmap).
      by rewrite (hash_as_read _ _ He), Hh.
Qed.

(** An append leaves the entries that were there, and adds one exactly when it
    returns and the run had not recorded the manifest; a manifest that was
    given can then be read under its digest. *)
Lemma ledger_append_spec w o l ps l' r : ledger_ok l ps → plain_observation w o = true → append w o l = (l', r) →
  ∃ new, ledger_ok l' (ps ++ new) ∧
    match r with
    | Err _ => new = []
    | Ok a => appended o ps new a ∧
              ∀ m, o_manifest o = Some m → ∃ b, read_snapshot l' (o_digest o) = Ok b ∧ sha256 b = sha256 m
    end.
Proof using RL DL SL.
  intros Hl Hpo. unfold append, _validate_digest_hex, guard_or. set (sr := snapshot_ref w o). set (al := append_locked w o).
  unfold ensure, guard_or, lift_result, modify, mret, action_ret, mbind, action_bind.
  destruct (hex64 (o_digest o)) eqn:Hd; [|intros [= <- <-]; exists []; by rewrite app_nil_r].
  destruct (String.eqb_spec (o_run_id o) "") as [|Hrun]; cbn [negb]; [intros [= <- <-]; exists []; by rewrite app_nil_r|].
  destruct (sr l) as [l1 r1] eqn:Hsr. destruct (snapshot_ref_ok _ _ _ _ _ _ Hl Hsr) as (Hl1 & _ & _ & Hr1).
  destruct r1 as [ref|e]; [|intros [= <- <-]; exists []; by rewrite app_nil_r].
  destruct (Hr1 ref eq_refl) as [Href Hsnap]. destruct (open_file_ok _ _ Hl1) as [Hl2 _].
  destruct (lock_free w); [|intros [= <- <-]; exists []; by rewrite app_nil_r].
  destruct (al ref (open_file l1)) as [l3 r3] eqn:Hal.
  edestruct append_locked_spec as (new & Hl3 & Hs3 & Hr3); [exact Hl2|by eexists|done..|exact Hal|].
  destruct r3 as [[a written]|e]; [|intros [= <- <-]; by exists new].
  assert (∃ l4, (match written with Some prev => announce o (entry_index a) prev | None => λ s, (s, Ok ()) end) l3 = (l4, Ok ()) ∧
    ledger_file l4 = ledger_file l3 ∧ snapshots l4 = snapshots l3) as (l4 & -> & Ef & Es).
  { destruct written; [apply announce_file|by eexists]. }
  intros [= <- <-]. exists new. split; [by eapply ledger_ok_same|]. split; [done|]. intros m Hm.
  destruct (Hsnap m Hm) as [Hdm [b Hb]]. exists b. unfold read_snapshot. rewrite Es, Hs3. cbn. rewrite Hb. split; [done|].
  apply (lo_snapshots _ _ Hl1) in Hb. rewrite Hb in Hdm. by apply (inj hex).
Qed.
End chain.
