(* ===== verification/ManifestLedgerClaims.v ===== *)
(** * A ledger at work

    What a ledger holds after any appends, what a kill inside one leaves, the
    guarantees on a concrete ledger, and where it falls short of what it says. *)

From S2P Require Import Prelude Canonical CanonicalRead CanonicalScan CanonicalPrefix CanonicalLines JsonText Text TextLines AssumptionsWal JsonLines Trace ManifestLedger ManifestLedgerLaws.

Section life.
Context {R : Runtime} {Sh : Sha256} {T : PyText} {D : DecimalSpace}.
Context {RL : RuntimeLaws R} {SL : Sha256Laws Sh} {DL : DecimalSpaceLaws D}.

(** Appends in order; each that returns, with what it returned. *)
Definition call : Type := surroundings * observation.
Fixpoint run_appends (calls : list call) (l : ManifestLedger) : ManifestLedger * list (observation * LedgerAppendResult) :=
  match calls with
  | [] => (l, [])
  | (w, o) :: calls =>
      let '(l1, r) := append w o l in
      let '(l2, rs) := run_appends calls l1 in
      (l2, match r with Ok a => (o, a) :: rs | Err _ => rs end)
  end.



(** A process killed while it appends leaves a ledger that reads as before the
    call or as after it, unless the line was cut inside a character. *)
Theorem ledger_survives_kill w o l ps e l' : ledger_ok l ps → plain_observation w o = true →
  append_killed w o l e l' → utf8_valid (default "" (ledger_file l')) = true →
  load l' = Ok (as_read <$> ps) ∨ load l' = Ok ((as_read <$> ps) ++ [as_read e]).
Proof using RL SL DL.
  intros Hl Hpo Hk Hu. destruct Hk as [l1 ref es prev e body cut rest Hd Hrun Hs Hload Hfind Hnext Hb E].
  destruct (snapshot_ref_ok _ _ _ _ _ _ Hl Hs) as (Hl1 & _ & _ & Hr). destruct (Hr ref eq_refl) as [Href _].
  destruct (open_file_ok _ _ Hl1) as [Hl2 (ls & Hf & Hls)]. rewrite (load_ok _ _ Hl2) in Hload. injection Hload as <-.
  destruct (next_entry_ok _ _ _ _ _ _ _ Hl2 Hpo Hd Hrun Href Hnext) as (Hp & _ & _).
  unfold canonical in Hb. destruct (encode (JObj e)) as [b|] eqn:He; [|done]. injection Hb as ->.
  unfold write_line, set_file in Hu |- *. unfold load. cbn [ledger_file] in Hu |- *.
  rewrite Hf in Hu |- *. change (utf8_valid (join_lines ls +:+ cut) = true) in Hu.
  change (default "" (Some (join_lines ls)) +:+ cut) with (join_lines ls +:+ cut).
  rewrite utf8_valid_app in Hu by (by eapply objects_utf8).
  by destruct (read_objects_cut _ _ _ _ _ _ Hls Hp He E Hu) as [-> | ->]; [left|right].
Qed.
End life.

(** ** A concrete ledger *)
Section sample.
#[local] Existing Instance plain_runtime.
#[local] Existing Instance plain_pytext.
#[local] Instance ascii_only : DecimalSpace := {| to_ascii_digits s := s |}.
#[local] Instance ascii_only_laws : DecimalSpaceLaws ascii_only.
Proof. by split. Qed.
(** A checksum of 24 bits, in 32 bytes, in the place of SHA-256. *)
Fixpoint mix (acc : Z) (s : string) : Z :=
  match s with
  | "" => acc
  | String c s => mix (Z.land (acc * 31 + Z.of_N (ord c) + 1) 16777215)%Z s
  end.
#[local] Instance mix_sha : Sha256 := λ s, to_bytes 32 (mix 7 s).
#[local] Instance mix_sha_laws : Sha256Laws mix_sha.
Proof. intros s. unfold sha256, mix_sha. generalize 32%nat as n. induction n; cbn; by f_equal. Qed.

Definition calm (t : string) : surroundings := {| now := t; can_store := true; lock_free := true |}.
Definition seen (run manifest : string) (tools : list string) : observation :=
  {| o_digest := hex (sha256 manifest); o_signature := "signed " +:+ run; o_run_id := run; o_manifest := Some manifest;
     o_summary := Some [("tool_ids_invoked", JArr (JStr <$> tools)); ("invocation_count", JInt (Z.of_nat (length tools)))];
     o_first := Some 0%Z; o_last := Some 3%Z |}.
(** Three that write, one repeated, one refused for its digest, one that finds
    the lock taken. *)
Definition calls : list call :=
  [(calm "t1", seen "run-1" "manifest A" ["shell"; "pytest"; "shell"]);
   (calm "t2", seen "run-1" "manifest B" []);
   (calm "t3", seen "run-1" "manifest A" ["git"]);
   (calm "t4", {| o_digest := "no digest"; o_signature := ""; o_run_id := "run-1"; o_manifest := None; o_summary := None;
                  o_first := None; o_last := None |});
   ({| now := "t5"; can_store := true; lock_free := false |}, seen "run-2" "manifest C" []);
   (calm "t6", seen "run-2" "manifest A" ["git"])].
Definition ran : ManifestLedger * list (observation * LedgerAppendResult) := run_appends calls new_ledger.
Definition the_ledger : ManifestLedger := ran.1.
Definition or_else {A} (r : result ledger_error A) (a : A) : A := match r with Ok a => a | Err _ => a end.
Definition entries_of (l : ManifestLedger) : list entry := or_else (load l) [].
Definition the_entries : list entry := entries_of the_ledger.
Definition three : LedgerVerifyResult := {| valid := true; first_break_at := None; tail_valid_count := 3 |}.
Definition last_hash : string := or_else (prev_of the_entries) "".


Lemma loaded (l : ManifestLedger) : is_ok (load l) = true → load l = Ok (entries_of l).
Proof. unfold entries_of. by destruct (load l). Qed.
Lemma the_ledger_reads : is_ok (load the_ledger) = true.
Proof. vm_compute. reflexivity. Qed.
Lemma the_ledger_loads : load the_ledger = Ok the_entries.
Proof. exact (loaded the_ledger the_ledger_reads). Qed.
Lemma the_ledger_verifies : verify_chain the_ledger = Ok three.
Proof. vm_compute. reflexivity. Qed.
Lemma the_last_hash : prev_of the_entries = Ok last_hash.
Proof. vm_compute. reflexivity. Qed.
Definition all_floatless (es : list entry) : bool := forallb (λ e, no_float (JObj e)) es.
Lemma all_floatless_spec es : all_floatless es = true → Forall floatless es.
Proof. unfold all_floatless. rewrite forallb_forall, Forall_forall. intros H e He. by apply H, list_elem_of_In. Qed.
Lemma the_entries_floatless : all_floatless the_entries = true.
Proof. vm_compute. reflexivity. Qed.

Lemma verify_chain_finds_first_break_witness :
  (valid three = true ∧ first_break_at three = None ∧ tail_valid_count three = length the_entries ∧ chain_ok the_entries) ∨
  ∃ good e bad, the_entries = good ++ e :: bad ∧ valid three = false ∧ first_break_at three = Some (length good) ∧
    tail_valid_count three = length good ∧ chain_ok good ∧ ¬ link_ok good e.
Proof. exact (verify_chain_finds_first_break the_ledger the_entries three the_ledger_loads the_ledger_verifies). Defined.

(** The same entries, each written with spaces. *)
Definition spaced : ManifestLedger :=
  set_file (Some (join_lines ((λ e, json_dumps None (JObj e)) <$> the_entries))) new_ledger.
Definition spaced_entries : list entry := entries_of spaced.
Lemma spaced_loads : load spaced = Ok spaced_entries.
Proof. apply loaded. vm_compute. reflexivity. Qed.
Lemma spaced_verifies : verify_chain spaced = Ok three.
Proof. vm_compute. reflexivity. Qed.
Lemma spaced_last_hash : prev_of spaced_entries = Ok last_hash.
Proof. vm_compute. reflexivity. Qed.
Lemma spaced_floatless : all_floatless spaced_entries = true.
Proof. vm_compute. reflexivity. Qed.
Lemma tail_hash_fixes_ledger_witness : Forall2 same_bytes the_entries spaced_entries ∨ collision.
Proof.
  exact (tail_hash_fixes_ledger the_ledger spaced the_entries spaced_entries three three last_hash
    the_ledger_loads spaced_loads the_ledger_verifies spaced_verifies eq_refl eq_refl
    (all_floatless_spec _ the_entries_floatless) (all_floatless_spec _ spaced_floatless)
    the_last_hash spaced_last_hash).
Defined.

(** Looking entries up by their hash. *)
Fixpoint find_hash (es : list entry) (h : string) : option json :=
  match es with
  | [] => None
  | e :: es => match _hash_entry e with
               | Ok k => if String.eqb k h then Some (JObj e) else find_hash es h
               | Err _ => find_hash es h
               end
  end.
Lemma find_hash_floatless es : Forall floatless es → ∀ h n, find_hash es h = Some (JObj n) → floatless n.
Proof.
  induction 1 as [|e es He _ IH]; intros h n; cbn; [done|].
  destruct (_hash_entry e) as [k|]; [|apply IH]. destruct (String.eqb k h); [by intros [= <-]|apply IH].
Qed.
Definition hashes_differ (es : list entry) : bool :=
  bool_decide (NoDup ((λ e, match _hash_entry e with Ok h => Some h | Err _ => None end) <$> es)).
Lemma find_hash_finds es x k : hashes_differ es = true → x ∈ es → _hash_entry x = Ok k → find_hash es k = Some (JObj x).
Proof.
  intros H%bool_decide_eq_true. induction es as [|e es IH]; intros Hx Hk; [by apply not_elem_of_nil in Hx|].
  rewrite fmap_cons in H. apply NoDup_cons in H as [Hn H]. cbn. apply elem_of_cons in Hx as [->|Hx].
  - by rewrite Hk, String.eqb_refl.
  - destruct (_hash_entry e) as [g|] eqn:Hg; [|by apply IH]. destruct (String.eqb_spec g k) as [->|]; [|by apply IH].
    exfalso. apply Hn, list_elem_of_fmap. exists x. by rewrite Hk.
Qed.
Lemma the_hashes_differ : hashes_differ the_entries = true.
Proof. vm_compute. reflexivity. Qed.
Lemma one_of_three : 1 < length the_entries.
Proof. apply Nat.ltb_lt. vm_compute. reflexivity. Qed.
Lemma every_entry_is_proved_witness : ∃ p, proof_of the_ledger 1 = Ok p ∧ Some (target_entry p) = the_entries !! 1 ∧
  tail_hash p = last_hash ∧ S (1 + length (forward_hashes p)) = length the_entries ∧
  verify_proof p (Some (find_hash the_entries)) = Ok true.
Proof.
  exact (every_entry_is_proved the_ledger the_entries three last_hash 1 (find_hash the_entries) the_ledger_loads
    the_ledger_verifies eq_refl the_last_hash one_of_three (λ x k Hx Hk, find_hash_finds _ x k the_hashes_differ Hx Hk)).
Defined.

Definition no_proof : MerkleProof :=
  {| target_index := 0; target_entry := []; target_hash := ""; forward_hashes := []; tail_hash := "" |}.
Definition a_proof : MerkleProof := or_else (proof_of the_ledger 1) no_proof.
Lemma a_proof_tail : prev_of the_entries = Ok (tail_hash a_proof).
Proof. vm_compute. reflexivity. Qed.
Lemma a_proof_floatless : floatless (target_entry a_proof).
Proof. vm_compute. reflexivity. Qed.
Lemma a_proof_accepted : verify_proof a_proof (Some (find_hash the_entries)) = Ok true.
Proof. vm_compute. reflexivity. Qed.
Lemma accepted_proof_is_of_an_entry_witness :
  (∃ e, the_entries !! (length the_entries - S (length (forward_hashes a_proof))) = Some e ∧
        same_bytes e (target_entry a_proof) ∧ length (forward_hashes a_proof) < length the_entries) ∨ collision.
Proof.
  exact (accepted_proof_is_of_an_entry the_ledger the_entries three a_proof (find_hash the_entries) the_ledger_loads
    the_ledger_verifies eq_refl a_proof_tail (all_floatless_spec _ the_entries_floatless) a_proof_floatless
    (find_hash_floatless _ (all_floatless_spec _ the_entries_floatless)) a_proof_accepted).
Defined.

(** *** Where the ledger falls short *)
Definition file_of (l : ManifestLedger) : string := default "" (ledger_file l).
Definition with_file (raw : string) : ManifestLedger := set_file (Some raw) the_ledger.
Definition next_call (t run : string) : call := (calm t, seen run "manifest D" []).
Definition break_of (r : result ledger_error LedgerVerifyResult) : option (option nat * nat) :=
  match r with Ok v => Some (first_break_at v, tail_valid_count v) | Err _ => None end.
Definition appends (cs : list call) (l : ManifestLedger) : ManifestLedger := (run_appends cs l).1.
Definition error_of {A} (r : result ledger_error A) : option ledger_error :=
  match r with Err e => Some e | Ok _ => None end.

(** An entry appended behind a torn line is on the same line: it is lost, and
    the one after it makes the ledger refuse to be read. *)
Theorem entry_after_torn_line_is_lost :
  let torn := with_file (file_of the_ledger +:+ "{") in
  is_ok (append (calm "t7") (seen "run-3" "manifest D" []) torn).2 = true ∧
  break_of (verify_chain (appends [next_call "t7" "run-3"] torn)) = Some (None, 3) ∧
  error_of (load (appends [next_call "t7" "run-3"; next_call "t8" "run-4"] torn)) = Some (LedgerMalformed 3).
Proof. vm_compute. done. Qed.

(** A line torn inside a character: nothing is read or written any more. *)
Theorem torn_character_refuses_ledger :
  let torn := with_file (file_of the_ledger +:+ "{" +:+ String "195" "") in
  error_of (load torn) = Some NotUtf8 ∧ error_of (append (calm "t7") (seen "run-3" "manifest D" []) torn).2 = Some NotUtf8.
Proof. vm_compute. done. Qed.

(** An entry in the middle is changed: the break is named at the entry after it. *)
Definition change (i : nat) (es : list entry) : string :=
  join_lines (imap (λ j e, match encode (JObj (if Nat.eqb i j then Dict.set e "timestamp" (JStr "t0") else e)) with
                           | Ok s => s | Err _ => "" end) es).
Theorem break_is_named_after_the_change :
  break_of (verify_chain (with_file (change 0 the_entries))) = Some (Some 1, 1) ∧
  break_of (verify_chain (with_file (change 2 the_entries))) = Some (None, 3).
Proof. vm_compute. done. Qed.

(** The index that a proof names is not part of what is checked. *)
Theorem proof_index_is_not_checked :
  verify_proof {| target_index := 2; target_entry := target_entry a_proof; target_hash := target_hash a_proof;
                  forward_hashes := forward_hashes a_proof; tail_hash := tail_hash a_proof |}
    (Some (find_hash the_entries)) = Ok true ∧ target_index a_proof = 1.
Proof. vm_compute. done. Qed.

(** A digest is any text of 64 characters that [int] reads in base 16. *)
Theorem digest_is_any_number :
  _validate_digest_hex ("0X_" +:+ hex (repeat_char 30 "z") +:+ "A") = Ok () ∧
  _validate_digest_hex (" -" +:+ hex (repeat_char 31 "z")) = Ok ().
Proof. vm_compute. done. Qed.

(** A snapshot that was changed on disk is returned as it is, and storing the
    manifest again does not mend it. *)
Definition digest_a : string := hex (sha256 "manifest A").
Definition spoiled : ManifestLedger := set_snapshots (Dict.set (snapshots the_ledger) digest_a "other bytes") the_ledger.
Theorem changed_snapshot_is_returned :
  read_snapshot spoiled digest_a = Ok "other bytes" ∧
  read_snapshot (store_snapshot true "manifest A" spoiled).1 digest_a = Ok "other bytes" ∧
  break_of (verify_chain spoiled) = Some (None, 3).
Proof. vm_compute. done. Qed.

(** A manifest that is refused for its digest has been stored. *)
Theorem refused_manifest_is_stored :
  let o := seen "run-5" "manifest E" [] in
  let o := {| o_digest := digest_a; o_signature := o_signature o; o_run_id := o_run_id o; o_manifest := o_manifest o;
              o_summary := o_summary o; o_first := o_first o; o_last := o_last o |} in
  is_ok (append (calm "t9") o the_ledger).2 = false ∧
  read_snapshot (append (calm "t9") o the_ledger).1 (hex (sha256 "manifest E")) = Ok "manifest E".
Proof. vm_compute. done. Qed.

(** The helper that never fails an attestation raises on a log it cannot read. *)
Definition a_knot : knot :=
  {| k_manifest_digest := Some (sha256 "manifest A"); k_environment_signature := Some "sig"; k_run_id := Some "run-6" |}.
Definition unreadable_wal : AssumptionWal := {| snapshot := Absent; wal := File ("x" +:+ String newline "y" +:+ String newline "") |}.
Theorem unreadable_wal_raises :
  let record w := (record_environment_attestation (calm "t9") (λ _, ("", "")) a_knot None None w None None (Some the_ledger)).2 in
  is_ok (record None) = true ∧ is_ok (record (Some unreadable_wal)) = false.
Proof. vm_compute. done. Qed.
End sample.
