(* ===== verification/DependencyGraph.v ===== *)
(** * The dependency graph of a plan

    Models [dependency_graph.py]: the two maps of [DependencyGraph], the edges
    [add_plan] infers, and the depth-first search of [has_cycle].  A Python set
    is the list of its elements in its iteration order, which no theorem
    depends on. *)

From S2P Require Import Prelude.

(** [Step] and [Plan] of [manager.py], as far as the graph reads them. *)
Record Step := { action_text : string; expected_artifact : string }.
Definition Plan := list Step.

Definition set_add (l : list string) (x : string) : list string :=
  if decide (x ∈ l) then l else l ++ [x].

Record DependencyGraph := {
  _graph : list (string * list string);
  _reverse : list (string * list string);
}.
Definition empty_graph : DependencyGraph := {| _graph := []; _reverse := [] |}.

Definition _ensure_node (g : DependencyGraph) (artifact : string) : DependencyGraph :=
  if Dict.mem (_graph g) artifact then g
  else {| _graph := Dict.set (_graph g) artifact []; _reverse := Dict.set (_reverse g) artifact [] |}.

(** [d[k].add(x)], of a key that is there. *)
Definition add_to (d : list (string * list string)) (k x : string) : list (string * list string) :=
  match Dict.get d k with Some l => Dict.set d k (set_add l x) | None => d end.

Definition _add_edge (g : DependencyGraph) (dependent dependency : string) : DependencyGraph :=
  let g := _ensure_node (_ensure_node g dependent) dependency in
  {| _graph := add_to (_graph g) dependent dependency;
     _reverse := add_to (_reverse g) dependency dependent |}.

Definition add_step (g : DependencyGraph) (s : Step) : DependencyGraph :=
  _ensure_node g (expected_artifact s).

Definition get_dependencies (g : DependencyGraph) (artifact : string) : list string :=
  default [] (Dict.get (_graph g) artifact).
Definition get_dependents (g : DependencyGraph) (artifact : string) : list string :=
  default [] (Dict.get (_reverse g) artifact).
Definition to_dict (g : DependencyGraph) : list (string * list string) := _graph g.

Section plan.
Context {L : Unicode}.

(** The inner loop of [add_plan], for one step. *)
Definition infer_edges (all_artifacts : list string) (g : DependencyGraph) (s : Step) : DependencyGraph :=
  foldl (λ g other,
           if String.eqb other (expected_artifact s) then g
           else if contains (lower (action_text s)) (lower other)
                then _add_edge g (expected_artifact s) other else g)
    g all_artifacts.

Definition add_plan (g : DependencyGraph) (plan : Plan) : DependencyGraph :=
  let g := foldl add_step g plan in
  let all_artifacts := foldl set_add [] (expected_artifact <$> plan) in
  foldl (infer_edges all_artifacts) g plan.
End plan.

(** ** [has_cycle] *)
Definition dfs_state := (list string * list string)%type.

(** [_dfs] with its loop over the neighbours; the state is the visited set and
    the nodes on the recursion stack.  [None] is fuel that ran out. *)
Fixpoint _dfs (graph : list (string * list string)) (fuel : nat) (node : string)
    (st : dfs_state) {struct fuel} : option (bool * dfs_state) :=
  match fuel with
  | O => None
  | S fuel =>
      match Dict.get graph node with
      | None => Some (false, st)
      | Some neighbors =>
          let fix loop (ns : list string) (st : dfs_state) : option (bool * dfs_state) :=
            match ns with
            | [] => Some (false, st)
            | neighbor :: ns =>
                if decide (neighbor ∉ st.1) then
                  match _dfs graph fuel neighbor st with
                  | None => None
                  | Some (true, st) => Some (true, st)
                  | Some (false, st) => loop ns st
                  end
                else if decide (neighbor ∈ st.2) then Some (true, st)
                else loop ns st
            end in
          match loop neighbors (set_add st.1 node, set_add st.2 node) with
          | None => None
          | Some (true, st) => Some (true, st)
          | Some (false, st) => Some (false, (st.1, filter (.≠ node) st.2))
          end
      end
  end.

(** [any(_dfs(node) for node in self._graph)] *)
Fixpoint any_dfs (graph : list (string * list string)) (fuel : nat) (nodes : list string)
    (st : dfs_state) : option bool :=
  match nodes with
  | [] => Some false
  | node :: nodes =>
      match _dfs graph fuel node st with
      | None => None
      | Some (true, _) => Some true
      | Some (false, st) => any_dfs graph fuel nodes st
      end
  end.

(** The search goes at most one node deeper than the graph has. *)
Definition has_cycle (g : DependencyGraph) : option bool :=
  any_dfs (_graph g) (S (S (length (_graph g)))) (Dict.keys (_graph g)) ([], []).

(** ** The search *)
Section search.
Context (graph : list (string * list string)).

Definition edge (x y : string) : Prop := ∃ ns, Dict.get graph x = Some ns ∧ y ∈ ns.
Definition cyclic : Prop := ∃ x, tc edge x x.

(** The loop over the neighbours, named. *)
Fixpoint dfs_loop (fuel : nat) (ns : list string) (st : dfs_state) : option (bool * dfs_state) :=
  match ns with
  | [] => Some (false, st)
  | neighbor :: ns =>
      if decide (neighbor ∉ st.1) then
        match _dfs graph fuel neighbor st with
        | None => None
        | Some (true, st) => Some (true, st)
        | Some (false, st) => dfs_loop fuel ns st
        end
      else if decide (neighbor ∈ st.2) then Some (true, st)
      else dfs_loop fuel ns st
  end.

Lemma dfs_unfold fuel node st :
  _dfs graph (S fuel) node st =
  match Dict.get graph node with
  | None => Some (false, st)
  | Some neighbors =>
      match dfs_loop fuel neighbors (set_add st.1 node, set_add st.2 node) with
      | None => None
      | Some (true, st) => Some (true, st)
      | Some (false, st) => Some (false, (st.1, filter (.≠ node) st.2))
      end
  end.
Proof.
  cbn. destruct (Dict.get graph node) as [ns|]; [|done].
  match goal with |- match ?f ns ?st0 with _ => _ end = _ =>
    assert (∀ ns st, f ns st = dfs_loop fuel ns st) as H end; [|by rewrite H].
  clear. induction ns as [|n ns IH]; intros st; [done|]. cbn.
  case_decide; [|by rewrite IH]. destruct (_dfs graph fuel n st) as [[[] st']|]; [done|apply IH|done].
Qed.

(** The finished nodes, each after what it points to: no cycle runs through
    them. *)
Inductive ordered : list string → Prop :=
| ordered_nil : ordered []
| ordered_snoc l x : ordered l → x ∉ l → x ∈ Dict.keys graph →
    (∀ y, edge x y → y ∈ Dict.keys graph → y ∈ l) → ordered (l ++ [x]).

(** Visited are the finished nodes and those on the stack; the stack is a path. *)
Definition dfs_ok (done_ : list string) (st : dfs_state) : Prop :=
  ordered done_ ∧ (∀ x, x ∈ st.1 ↔ x ∈ done_ ∨ x ∈ st.2) ∧ (∀ x, x ∈ st.2 → x ∉ done_) ∧
  (∀ x, x ∈ st.2 → x ∈ Dict.keys graph).

(** Every node on the stack reaches [x]. *)
Definition stack_reaches (st : dfs_state) (x : string) : Prop := ∀ y, y ∈ st.2 → rtc edge y x.

Definition unvisited (st : dfs_state) : nat := length (filter (.∉ st.1) (Dict.keys graph)).

Lemma elem_of_set_add l x y : y ∈ set_add l x ↔ y ∈ l ∨ y = x.
Proof. unfold set_add. case_decide; set_solver. Qed.

Lemma edge_keys x y : edge x y → x ∈ Dict.keys graph.
Proof. intros (ns & H & _). apply Dict.get_is_Some. by eexists. Qed.

Lemma tc_edge_keys x y : tc edge x y → x ∈ Dict.keys graph.
Proof. inversion 1; subst; by eapply edge_keys. Qed.

Lemma ordered_keys l x : ordered l → x ∈ l → x ∈ Dict.keys graph.
Proof. induction 1; set_solver. Qed.

Lemma ordered_tc l : ordered l → ∀ x y, x ∈ l → tc edge x y → y ∈ Dict.keys graph → y ∈ l ∧ x ≠ y.
Proof.
  induction 1 as [|l x0 Hl IH Hx0 Hk Hout]; intros x y Hx Hxy Hy; [by apply not_elem_of_nil in Hx|].
  apply elem_of_app in Hx as [Hx| ->%list_elem_of_singleton].
  { destruct (IH x y Hx Hxy Hy). split; [set_solver|done]. }
  assert (y ∈ l) as Hyl; [|split; [set_solver|by intros ->]].
  inversion Hxy as [? ? He|? z ? He Hzy]; subst; [by apply Hout|].
  apply (IH z y); [|done..]. apply Hout; [done|]. by eapply tc_edge_keys.
Qed.

Lemma ordered_acyclic l : ordered l → (∀ x, x ∈ Dict.keys graph → x ∈ l) → ¬ cyclic.
Proof.
  intros Hl Hall (x & Hx). pose proof (tc_edge_keys _ _ Hx) as Hk.
  by destruct (ordered_tc l Hl x x (Hall x Hk) Hx Hk).
Qed.

Lemma unvisited_add V S node : node ∉ V → node ∈ Dict.keys graph →
  unvisited (set_add V node, S) < unvisited (V, S).
Proof.
  intros HV Hk. unfold unvisited. cbn [fst]. induction (Dict.keys graph) as [|k ks IH];
    [by apply not_elem_of_nil in Hk|]. rewrite !filter_cons.
  assert (length (filter (.∉ set_add V node) ks) ≤ length (filter (.∉ V) ks)) as Hle.
  { clear. induction ks as [|k ks IH]; [done|]. rewrite !filter_cons.
    repeat case_decide; cbn; try lia. exfalso. rewrite elem_of_set_add in *. tauto. }
  apply elem_of_cons in Hk as [<-|Hk].
  - rewrite decide_False by (rewrite elem_of_set_add; tauto). rewrite decide_True by done. cbn. lia.
  - specialize (IH Hk). repeat case_decide; cbn; try lia. rewrite elem_of_set_add in *. tauto.
Qed.

Lemma unvisited_mono V V' S S' : (∀ x, x ∈ V → x ∈ V') → unvisited (V', S') ≤ unvisited (V, S).
Proof.
  intros HV. unfold unvisited. cbn [fst]. induction (Dict.keys graph) as [|k ks IH]; [done|].
  rewrite !filter_cons. repeat case_decide; cbn; try lia. exfalso. naive_solver.
Qed.

(** What a search from a node leaves when it finds no cycle. *)
Definition extends (D : list string) (st : dfs_state) (D' : list string) (st' : dfs_state) : Prop :=
  dfs_ok D' st' ∧ (∀ x, x ∈ st'.2 ↔ x ∈ st.2) ∧ (∀ x, x ∈ st.1 → x ∈ st'.1) ∧ (∀ x, x ∈ D → x ∈ D').

Lemma extends_refl D st : dfs_ok D st → extends D st D st.
Proof. intros. unfold extends. by split_and!. Qed.
Lemma extends_trans D st D1 st1 D2 st2 :
  extends D st D1 st1 → extends D1 st1 D2 st2 → extends D st D2 st2.
Proof. unfold extends. intros (_ & ? & ? & ?) (? & H2 & ? & ?). split_and!; naive_solver. Qed.

Definition dfs_spec (fuel : nat) : Prop := ∀ node D st,
  dfs_ok D st → node ∉ st.1 → stack_reaches st node → unvisited st < fuel →
  match _dfs graph fuel node st with
  | None => False
  | Some (true, _) => cyclic
  | Some (false, st') => ∃ D', extends D st D' st' ∧ (node ∈ Dict.keys graph → node ∈ D')
  end.

Lemma dfs_loop_spec fuel node : dfs_spec fuel → ∀ ns D st,
  (∀ y, y ∈ ns → edge node y) → dfs_ok D st → node ∈ st.2 → stack_reaches st node →
  unvisited st < fuel →
  match dfs_loop fuel ns st with
  | None => False
  | Some (true, _) => cyclic
  | Some (false, st') => ∃ D', extends D st D' st' ∧ ∀ y, y ∈ ns → y ∈ Dict.keys graph → y ∈ D'
  end.
Proof.
  intros Hdfs. induction ns as [|n ns IH]; intros D st Hns Hok Hnode Hreach Hf; cbn.
  { exists D. split; [by apply extends_refl|]. by intros y ?%not_elem_of_nil. }
  assert (∀ D' st', extends D st D' st' → (n ∈ Dict.keys graph → n ∈ D') →
    match dfs_loop fuel ns st' with
    | None => False | Some (true, _) => cyclic
    | Some (false, st'') =>
        ∃ D'', extends D st D'' st'' ∧ ∀ y, y ∈ n :: ns → y ∈ Dict.keys graph → y ∈ D''
    end) as Hgo.
  { intros D' st' He Hn. destruct He as (Hok' & HS & HV & HD) eqn:E. clear E.
    assert (unvisited st' < fuel) as Hf'.
    { destruct st as [V S], st' as [V' S']. pose proof (unvisited_mono V V' S S' HV). lia. }
    specialize (IH D' st' ltac:(set_solver) Hok' ltac:(naive_solver)).
    specialize (IH ltac:(intros y Hy; apply Hreach; naive_solver) Hf').
    destruct (dfs_loop fuel ns st') as [[[] st'']|]; [done| |done].
    destruct IH as (D'' & He' & Hall). exists D''. split; [by eapply extends_trans|].
    intros y [->|Hy]%elem_of_cons Hk; [|by apply Hall]. apply He', Hn, Hk. }
  case_decide as HnV.
  - assert (stack_reaches st n) as Hrn.
    { intros y Hy. eapply rtc_r; [by apply Hreach|]. apply Hns. set_solver. }
    specialize (Hdfs n D st Hok HnV Hrn Hf).
    destruct (_dfs graph fuel n st) as [[[] st']|]; [done| |done].
    destruct Hdfs as (D' & He & Hn). by apply (Hgo D' st').
  - case_decide as HnS.
    + exists n. eapply tc_rtc_l; [by apply Hreach|]. apply tc_once, Hns. set_solver.
    + apply (Hgo D st); [by apply extends_refl|]. intros _.
      destruct Hok as (_ & HV & _). apply HV in HnV. naive_solver.
Qed.

Lemma dfs_ok_push D V S node : dfs_ok D (V, S) → node ∉ V → node ∈ Dict.keys graph →
  dfs_ok D (set_add V node, set_add S node).
Proof.
  intros (Ho & HV & HS & HK) Hn Hk. cbn in *. unfold dfs_ok. cbn.
  split_and!; [done|..]; intros x; rewrite ?elem_of_set_add; [|intros [?| ->]|intros [?| ->]]; try naive_solver.
Qed.

Lemma dfs_ok_pop D V S node : dfs_ok D (V, S) → node ∈ S →
  (∀ y, edge node y → y ∈ Dict.keys graph → y ∈ D) →
  dfs_ok (D ++ [node]) (V, filter (.≠ node) S).
Proof.
  intros (Ho & HV & HS & HK) Hn Hout. cbn in *. unfold dfs_ok. cbn. split_and!.
  - constructor; auto.
  - intros x. rewrite HV, elem_of_app, list_elem_of_singleton, list_elem_of_filter.
    destruct (decide (x = node)); naive_solver.
  - intros x [? Hx]%list_elem_of_filter. rewrite elem_of_app, list_elem_of_singleton. naive_solver.
  - intros x [? Hx]%list_elem_of_filter. auto.
Qed.

Lemma dfs_correct fuel : dfs_spec fuel.
Proof.
  induction fuel as [|fuel IH]; intros node D [V S] Hok Hn Hreach Hf; [lia|].
  rewrite dfs_unfold. cbn [fst snd] in *. destruct (Dict.get graph node) as [ns|] eqn:Hg.
  2: { exists D. split; [by apply extends_refl|]. intros Hk. apply Dict.get_is_Some in Hk as [? ?].
       congruence. }
  assert (node ∈ Dict.keys graph) as Hk by (apply Dict.get_is_Some; by eexists).
  pose proof (dfs_ok_push D V S node Hok Hn Hk) as Hok1.
  pose proof (dfs_loop_spec fuel node IH ns D (set_add V node, set_add S node)) as Hloop.
  specialize (Hloop ltac:(intros y Hy; by exists ns) Hok1 ltac:(apply elem_of_set_add; by right)).
  specialize (Hloop ltac:(intros y [Hy| ->]%elem_of_set_add; [by apply Hreach|apply rtc_refl])).
  specialize (Hloop ltac:(pose proof (unvisited_add V S node Hn Hk);
    change (unvisited (set_add V node, set_add S node)) with (unvisited (set_add V node, S)); lia)).
  destruct (dfs_loop fuel ns _) as [[[] [V' S']]|]; [done| |done].
  destruct Hloop as (D' & (Hok' & HS' & HV' & HD') & Hall). cbn [fst snd] in *.
  exists (D' ++ [node]). split; [|intros _; set_solver]. split_and!.
  - apply dfs_ok_pop; [done| |].
    + apply HS', elem_of_set_add. by right.
    + intros y (ns' & Hg' & Hy) Hyk. assert (ns' = ns) as -> by congruence. by apply Hall.
  - intros x. cbn. rewrite list_elem_of_filter, HS', elem_of_set_add. split; [naive_solver|].
    intros Hx. split; [|by left]. intros ->. destruct Hok as (_ & HV & _). apply Hn, HV. by right.
  - intros x Hx. apply HV', elem_of_set_add. by left.
  - intros x Hx. apply elem_of_app. left. by apply HD'.
Qed.

(** A finished node, searched again from the top level, adds nothing. *)
Lemma dfs_loop_again fuel node D V ns : dfs_ok D (V, []) → node ∈ D → 0 < fuel →
  (∀ y, y ∈ ns → edge node y) → dfs_loop fuel ns (V, [node]) = Some (false, (V, [node])).
Proof.
  intros (Ho & HV & _ & _) Hn Hf Hns. cbn in HV.
  induction ns as [|n ns IH]; [done|]. cbn. assert (edge node n) as He by (apply Hns; set_solver).
  specialize (IH ltac:(set_solver)).
  case_decide as HnV.
  - destruct fuel as [|fuel]; [lia|]. rewrite dfs_unfold.
    destruct (Dict.get graph n) as [ns'|] eqn:Hg; [|done]. exfalso. apply HnV, HV. left.
    apply (ordered_tc D Ho node n Hn); [by apply tc_once|]. apply Dict.get_is_Some. by eexists.
  - rewrite decide_False; [done|]. intros ->%list_elem_of_singleton.
    destruct (ordered_tc D Ho node node Hn); [by apply tc_once|by eapply ordered_keys|done].
Qed.

Lemma dfs_again fuel node D V : dfs_ok D (V, []) → node ∈ D → 0 < fuel →
  _dfs graph (S fuel) node (V, []) = Some (false, (V, [])).
Proof.
  intros Hok Hn Hf. rewrite dfs_unfold. destruct (Dict.get graph node) as [ns|] eqn:Hg; [|done].
  cbn [fst snd]. assert (node ∈ V) as HV by (apply Hok; by left).
  assert (set_add V node = V) as -> by (unfold set_add; by rewrite decide_True).
  change (set_add [] node) with [node].
  rewrite (dfs_loop_again fuel node D V ns); [|done..|intros y Hy; by exists ns].
  cbn [fst snd]. by rewrite filter_cons_False by tauto.
Qed.

Lemma any_dfs_correct fuel nodes D V : length (Dict.keys graph) < fuel → dfs_ok D (V, []) →
  match any_dfs graph (S fuel) nodes (V, []) with
  | None => False
  | Some true => cyclic
  | Some false => ∃ D', ordered D' ∧ (∀ x, x ∈ D → x ∈ D') ∧
      ∀ x, x ∈ nodes → x ∈ Dict.keys graph → x ∈ D'
  end.
Proof.
  intros Hf. revert D V. induction nodes as [|n nodes IH]; intros D V Hok; cbn [any_dfs].
  { exists D. split_and!; [apply Hok|done|by intros x ?%not_elem_of_nil]. }
  destruct (decide (n ∈ V)) as [HnV|HnV].
  - assert (n ∈ D) as HnD by (apply Hok in HnV as [?|?%not_elem_of_nil]; done).
    rewrite (dfs_again fuel n D V) by (done || lia). specialize (IH D V Hok).
    destruct (any_dfs graph (S fuel) nodes (V, [])) as [[]|]; [done| |done].
    destruct IH as (D' & ? & HD & Hall). exists D'. split_and!; [done..|].
    intros x [->|?]%elem_of_cons ?; auto.
  - pose proof (dfs_correct (S fuel) n D (V, []) Hok HnV) as H.
    assert (stack_reaches (V, []) n) as Hr by (by intros y ?%not_elem_of_nil).
    assert (unvisited (V, []) < S fuel) as Hu.
    { unfold unvisited. pose proof (length_filter (.∉ V) (Dict.keys graph)). cbn. lia. }
    specialize (H Hr Hu). destruct (_dfs graph (S fuel) n (V, [])) as [[[] [V' S']]|]; [done| |done].
    destruct H as (D1 & (Hok1 & HS & _ & HD1) & Hn1). cbn in HS.
    assert (S' = []) as ->.
    { destruct S' as [|y S']; [done|]. exfalso. apply (not_elem_of_nil y), HS. set_solver. }
    specialize (IH D1 V' Hok1).
    destruct (any_dfs graph (S fuel) nodes (V', [])) as [[]|]; [done| |done].
    destruct IH as (D' & ? & HD & Hall). exists D'. split_and!; [done|auto|].
    intros x [->|?]%elem_of_cons ?; auto.
Qed.
End search.

(** C37: the search answers for every graph, whatever order its sets iterate
    in, and finds a cycle exactly when there is one. *)
Theorem has_cycle_correct g :
  ∃ b, has_cycle g = Some b ∧ (b = true ↔ cyclic (_graph g)).
Proof.
  unfold has_cycle. pose proof (any_dfs_correct (_graph g) (S (length (_graph g)))
    (Dict.keys (_graph g)) [] []) as H.
  rewrite Dict.length_keys in H. specialize (H ltac:(lia)).
  specialize (H ltac:(unfold dfs_ok; split_and!; [constructor|set_solver|set_solver|set_solver])).
  destruct (any_dfs _ _ _ _) as [[]|]; [by exists true| |done].
  destruct H as (D & HD & _ & Hall). exists false. split; [done|]. split; [done|].
  intros Hc. exfalso. by eapply ordered_acyclic; [exact HD|intros x Hx; by apply Hall|].
Qed.

(** ** The edges of a plan *)
Definition same_nodes (g : DependencyGraph) : Prop := Dict.keys (_graph g) = Dict.keys (_reverse g).
Definition converse (g : DependencyGraph) : Prop :=
  ∀ a b, b ∈ get_dependencies g a ↔ a ∈ get_dependents g b.

Lemma get_add_to d k x k' : k ∈ Dict.keys d →
  default [] (Dict.get (add_to d k x) k') =
  if decide (k = k') then set_add (default [] (Dict.get d k)) x else default [] (Dict.get d k').
Proof.
  intros [l Hl]%Dict.get_is_Some. unfold add_to. rewrite Hl, Dict.get_set. by case_decide.
Qed.
Lemma keys_add_to d k x : Dict.keys (add_to d k x) = Dict.keys d.
Proof.
  unfold add_to. destruct (Dict.get d k) eqn:E; [|done]. apply Dict.keys_set_in.
  apply Dict.get_is_Some. by eexists.
Qed.

Lemma ensure_node_ok g a : same_nodes g →
  same_nodes (_ensure_node g a) ∧ (∀ x, x ∈ Dict.keys (_graph (_ensure_node g a)) ↔ x ∈ Dict.keys (_graph g) ∨ x = a) ∧
  (∀ x, get_dependencies (_ensure_node g a) x = get_dependencies g x) ∧
  (∀ x, get_dependents (_ensure_node g a) x = get_dependents g x).
Proof.
  intros Hs. unfold _ensure_node, same_nodes in *. destruct (Dict.mem (_graph g) a) eqn:Hm.
  { apply Dict.mem_true in Hm. split_and!; try done. intros x. set_solver. }
  assert (a ∉ Dict.keys (_graph g)) as Hn by (rewrite <-Dict.mem_true; by rewrite Hm).
  assert (a ∉ Dict.keys (_reverse g)) as Hn' by (by rewrite <-Hs).
  unfold get_dependencies, get_dependents. cbn [_graph _reverse].
  rewrite !Dict.keys_set_notin by done. split_and!; [congruence|set_solver|..]; intros x; rewrite Dict.get_set; case_decide as Hx; try done;
    subst; symmetry.
  - apply Dict.get_None in Hn. by rewrite Hn.
  - rewrite Hs in Hn. apply Dict.get_None in Hn. by rewrite Hn.
Qed.

Lemma add_edge_ok g a b : same_nodes g →
  same_nodes (_add_edge g a b) ∧
  (∀ x y, y ∈ get_dependencies (_add_edge g a b) x ↔ y ∈ get_dependencies g x ∨ x = a ∧ y = b) ∧
  (∀ x y, x ∈ get_dependents (_add_edge g a b) y ↔ x ∈ get_dependents g y ∨ x = a ∧ y = b).
Proof.
  intros Hs. destruct (ensure_node_ok g a Hs) as (Hs1 & Hk1 & Hd1 & Hr1).
  destruct (ensure_node_ok _ b Hs1) as (Hs2 & Hk2 & Hd2 & Hr2).
  unfold _add_edge, get_dependencies, get_dependents, same_nodes in *. cbn [_graph _reverse].
  assert (a ∈ Dict.keys (_graph (_ensure_node (_ensure_node g a) b))) as Ha by (apply Hk2; left; apply Hk1; by right).
  assert (b ∈ Dict.keys (_reverse (_ensure_node (_ensure_node g a) b))) as Hb
    by (rewrite <-Hs2; apply Hk2; by right).
  split_and!.
  - by rewrite !keys_add_to.
  - intros x y. rewrite get_add_to by done. case_decide as Hx.
    + subst. rewrite elem_of_set_add, Hd2, Hd1. naive_solver.
    + rewrite Hd2, Hd1. naive_solver.
  - intros x y. rewrite get_add_to by done. case_decide as Hx.
    + subst. rewrite elem_of_set_add, Hr2, Hr1. naive_solver.
    + rewrite Hr2, Hr1. naive_solver.
Qed.

Section plan_laws.
Context {L : Unicode}.

(** The edge a step names: another artifact of the plan, in its action's text. *)
Definition names_edge (s : Step) (other a b : string) : Prop :=
  expected_artifact s = a ∧ other = b ∧ b ≠ a ∧ contains (lower (action_text s)) (lower b) = true.

(** Both maps, after edges were added: the old ones and those [E] describes. *)
Definition grows (g g' : DependencyGraph) (E : string → string → Prop) : Prop :=
  same_nodes g' ∧
  (∀ x y, y ∈ get_dependencies g' x ↔ y ∈ get_dependencies g x ∨ E x y) ∧
  (∀ x y, x ∈ get_dependents g' y ↔ x ∈ get_dependents g y ∨ E x y).

Lemma grows_foldl {A} (f : DependencyGraph → A → DependencyGraph) (E : A → string → string → Prop) l :
  (∀ g x, same_nodes g → grows g (f g x) (E x)) →
  ∀ g, same_nodes g → grows g (foldl f g l) (λ a b, ∃ x, x ∈ l ∧ E x a b).
Proof.
  intros Hf. induction l as [|x l IH]; intros g Hg; cbn.
  { split_and!; [done|..]; intros; split; [auto| |auto|]; intros [?|(z & Hz%not_elem_of_nil & _)]; done. }
  destruct (Hf g x Hg) as (Hs & Hd & Hr). destruct (IH _ Hs) as (Hs' & Hd' & Hr').
  split_and!; [done|..]; intros a b; [rewrite Hd', Hd|rewrite Hr', Hr];
    setoid_rewrite elem_of_cons; naive_solver.
Qed.

Lemma infer_edges_ok all g s : same_nodes g →
  grows g (infer_edges all g s) (λ a b, ∃ o, o ∈ all ∧ names_edge s o a b).
Proof.
  apply (grows_foldl _ (λ o, names_edge s o)). clear g. intros g o Hg. unfold names_edge.
  destruct (String.eqb_spec o (expected_artifact s)) as [->|Ho].
  { split_and!; [done|..]; intros; naive_solver. }
  destruct (contains _ (lower o)) eqn:Hc.
  - destruct (add_edge_ok g (expected_artifact s) o Hg) as (Hs & Hd & Hr).
    split_and!; [done|..]; intros a b; [rewrite Hd|rewrite Hr]; naive_solver.
  - split_and!; [done|..]; intros a b; naive_solver congruence.
Qed.

Lemma add_steps_ok g plan : same_nodes g → grows g (foldl add_step g plan) (λ _ _, False).
Proof.
  intros Hg. destruct (grows_foldl add_step (λ _ _ _, False) plan) with g as (Hs & Hd & Hr); [|done|].
  - clear. intros g s Hg. destruct (ensure_node_ok g (expected_artifact s) Hg) as (? & _ & Hd & Hr).
    unfold add_step. split_and!; [done|..]; intros a b; rewrite ?Hd, ?Hr; naive_solver.
  - split_and!; [done|..]; intros a b; [rewrite Hd|rewrite Hr]; naive_solver.
Qed.

Lemma elem_of_artifacts l acc x : x ∈ foldl set_add acc l ↔ x ∈ acc ∨ x ∈ l.
Proof.
  revert acc. induction l as [|y l IH]; intros acc; cbn; [set_solver|].
  rewrite IH, elem_of_set_add. set_solver.
Qed.

Lemma add_plan_grows g plan : same_nodes g →
  grows g (add_plan g plan) (λ a b, ∃ s, s ∈ plan ∧
    ∃ o, o ∈ foldl set_add [] (expected_artifact <$> plan) ∧ names_edge s o a b).
Proof.
  intros Hg. destruct (add_steps_ok g plan Hg) as (Hs & Hd & Hr).
  set (all := foldl set_add [] (expected_artifact <$> plan)).
  destruct (grows_foldl (infer_edges all) (λ s a b, ∃ o, o ∈ all ∧ names_edge s o a b) plan)
    with (foldl add_step g plan) as (Hs' & He & Hf); [|done|].
  { clear. intros g s Hg. by apply infer_edges_ok. }
  split_and!; [done|..]; intros a b.
  - change (b ∈ get_dependencies (foldl (infer_edges all) (foldl add_step g plan) plan) a ↔
      b ∈ get_dependencies g a ∨ ∃ s, s ∈ plan ∧ ∃ o, o ∈ all ∧ names_edge s o a b).
    rewrite He, Hd. tauto.
  - change (a ∈ get_dependents (foldl (infer_edges all) (foldl add_step g plan) plan) b ↔
      a ∈ get_dependents g b ∨ ∃ s, s ∈ plan ∧ ∃ o, o ∈ all ∧ names_edge s o a b).
    rewrite Hf, Hr. tauto.
Qed.

(** [add_plan] adds exactly the edges its rule names: an artifact of the
    plan depends on another one of the plan when the action of one of its
    steps, lowered, contains that one's lowered name; forward references count,
    and an artifact never depends on itself. *)
Theorem add_plan_edges g plan a b : same_nodes g →
  b ∈ get_dependencies (add_plan g plan) a ↔
  b ∈ get_dependencies g a ∨
  a ≠ b ∧ (∃ s, s ∈ plan ∧ expected_artifact s = a ∧ contains (lower (action_text s)) (lower b) = true) ∧
  b ∈ expected_artifact <$> plan.
Proof.
  intros Hg. destruct (add_plan_grows g plan Hg) as (_ & He & _).
  rewrite He. unfold names_edge. setoid_rewrite elem_of_artifacts. split.
  - intros [?|(s & Hsp & o & [Ho%not_elem_of_nil|Ho] & Ha & -> & Hne & Hc)]; [by left|done|].
    right. split_and!; [done|by exists s|done].
  - intros [?|(Hne & (s & Hsp & Ha & Hc) & Hb)]; [by left|]. right. exists s. split; [done|].
    exists b. by split_and!; [right|..].
Qed.

(** The two maps stay converse: [b] is a dependency of [a] exactly when
    [a] is a dependent of [b], whatever plans are added. *)
Theorem plans_keep_converse plans :
  converse (foldl add_plan empty_graph plans) ∧ same_nodes (foldl add_plan empty_graph plans).
Proof.
  assert (∀ g, converse g ∧ same_nodes g → converse (foldl add_plan g plans) ∧
    same_nodes (foldl add_plan g plans)) as H.
  { induction plans as [|plan plans IH]; intros g [Hc Hg]; [done|]. cbn. apply IH.
    destruct (add_plan_grows g plan Hg) as (Hs' & He & Hf).
    split; [|done]. intros a b. by rewrite He, Hf, (Hc a b). }
  apply H. split; [|done]. intros a b. cbn. by rewrite !elem_of_nil.
Qed.

End plan_laws.

Lemma add_plan_edges_witness :
  "b.py" ∈ get_dependencies (add_plan (L := plain_unicode) empty_graph
    [{| action_text := "write a.py from b.py"; expected_artifact := "a.py" |};
     {| action_text := "write b.py"; expected_artifact := "b.py" |}]) "a.py".
Proof.
  apply (add_plan_edges (L := plain_unicode)); [reflexivity|]. right. split_and!; [discriminate| |set_solver].
  eexists. split; [apply list_elem_of_here|]. split; reflexivity.
Defined.
