(* ===== verification/Matcher.v ===== *)
(** * Classifying a command

    Models [policy/matcher.py] on a POSIX host: names and wrappers, inline code,
    the hard floor, the search of PATH outside of the project, deny and allow
    rules.  Of [policy/grant.py] it takes the fields of the rules it reads.  A
    path is its text; [Path] normalises it as [pathlib] does. *)

From S2P Require Import Prelude Canonical.

(** ** The host *)
Record Host := {
  is_file : string → bool;
  can_execute : string → bool;
  realpath : string → string;
  digest : string → option string;
  environ_path : string;
}.

(** ** Text *)
Fixpoint replace_char (a b : ascii) (s : string) : string :=
  match s with
  | "" => ""
  | String c s => String (if Ascii.eqb c a then b else c) (replace_char a b s)
  end.
(** What comes before the suffix. *)
Fixpoint drop_suffix (suffix s : string) : option string :=
  if String.eqb s suffix then Some ""
  else match s with "" => None | String c s => String c <$> drop_suffix suffix s end.
Fixpoint lstrip_char (c : ascii) (s : string) : string :=
  match s with String d t => if Ascii.eqb d c then lstrip_char c t else s | "" => "" end.
Definition dashed (s : string) : bool := startswith s "-".
Definition isascii (s : string) : bool := str_forall (λ c, (ord c <? 128)%N) s.
(** [s.split(c, 1)[0]] *)
Definition before (c : ascii) (s : string) : string := (partition_at c s).1.

(** *** [pathlib] *)
Definition path_parts (s : string) : list string :=
  filter (λ p, negb (String.eqb p "") && negb (String.eqb p ".") = true) (split_char "/" s).
Definition path_root (s : string) : string :=
  if startswith s "///" then "/" else if startswith s "//" then "//"
  else if startswith s "/" then "/" else "".
Definition path_name (s : string) : string := default "" (last (path_parts s)).
Definition path_str (s : string) : string :=
  let t := path_root s +:+ str_join "/" (path_parts s) in if String.eqb t "" then "." else t.
Definition isabs (s : string) : bool := startswith s "/".
(** [str(Path(a) / b)] *)
Definition path_join (a b : string) : string :=
  if isabs b then path_str b else path_str (a +:+ "/" +:+ b).
(** [Path(s).suffix]: from the last dot of the name, if it is neither first nor last. *)
Fixpoint last_dot (s : string) : option string :=
  match s with
  | "" => None
  | String c t => match last_dot t with
                  | Some r => Some r
                  | None => if Ascii.eqb c "." then Some s else None
                  end
  end.
Definition path_suffix (s : string) : string :=
  let n := path_name s in
  match last_dot n with
  | Some r => if String.eqb r n || String.eqb r "." then "" else r
  | None => ""
  end.
(** [os.path.normpath] *)
Fixpoint norm_parts (absolute : bool) (acc parts : list string) : list string :=
  match parts with
  | [] => rev acc
  | p :: parts =>
      if String.eqb p "" || String.eqb p "." then norm_parts absolute acc parts
      else if String.eqb p ".." then
        match acc with
        | [] => if absolute then norm_parts absolute [] parts else norm_parts absolute [".."] parts
        | q :: acc' => if String.eqb q ".." then norm_parts absolute (".." :: acc) parts
                       else norm_parts absolute acc' parts
        end
      else norm_parts absolute (p :: acc) parts
  end.
Definition normpath (s : string) : string :=
  let t := path_root s +:+ str_join "/" (norm_parts (isabs s) [] (split_char "/" s)) in
  if String.eqb t "" then "." else t.
(** [relative_to], of two real paths. *)
Definition within (root p : string) : bool :=
  String.eqb p root || startswith p (root +:+ "/") || String.eqb root "/".

(** ** The tables *)
Definition _WRAPPERS : list string := ["env"; "nice"; "nohup"; "timeout"; "time"; "stdbuf"; "ionice"].
Definition _NEVER : list (string * string) :=
  [("xargs", "runs a command chosen at run time"); ("parallel", "runs a command chosen at run time");
   ("watch", "runs a command chosen at run time"); ("script", "runs a command chosen at run time");
   ("sudo", "changes privilege"); ("doas", "changes privilege"); ("su", "changes privilege");
   ("runas", "changes privilege"); ("pkexec", "changes privilege")].
Definition _SHELLS : list string :=
  ["sh"; "bash"; "zsh"; "fish"; "dash"; "ksh"; "cmd"; "powershell"; "pwsh"].

(** A pattern [^(-[A-Za-z]*<letters>|<long>...)]: the letters that may end the
    cluster, and the long options it starts with. *)
Record eval_pattern := { letters : list ascii; longs : list string }.
Definition _EVAL : list (string * eval_pattern) :=
  let python := {| letters := ["c"%char]; longs := ["--command"] |} in
  let e := {| letters := ["e"%char]; longs := [] |} in
  [("python", python); ("pypy", python); ("py", python);
   ("node", {| letters := ["e"; "E"; "p"]%char; longs := ["--eval"; "--print"] |});
   ("bun", {| letters := ["e"; "p"]%char; longs := ["--eval"; "--print"] |});
   ("perl", {| letters := ["e"; "E"]%char; longs := [] |});
   ("ruby", e); ("php", {| letters := ["r"%char]; longs := [] |}); ("lua", e);
   ("rscript", e); ("osascript", e)].
Definition _VALUE_OPTIONS : list (string * list string) :=
  [("python", ["-X"; "-W"; "-Q"]); ("pypy", ["-X"; "-W"; "-Q"]); ("py", ["-X"; "-W"; "-Q"]);
   ("node", ["-r"; "--require"; "--import"; "--loader"]); ("bun", ["-r"; "--preload"])].
Definition _ALWAYS_CODE : list string := ["awk"; "gawk"; "mawk"; "nawk"; "sed"].
Definition _GOVERNANCE : list string :=
  ["policy"; "handshakes"; "intent"; "operator-queue"; "config"; "provider"].
Definition _PUBLISH : list (string * string) :=
  [("twine", "upload"); ("npm", "publish"); ("cargo", "publish"); ("poetry", "publish");
   ("uv", "publish"); ("gh", "release")].
Definition _SUBCOMMAND_TOOLS : list string :=
  ["git"; "npm"; "pnpm"; "yarn"; "pip"; "uv"; "cargo"; "go"; "dotnet"; "docker"; "kubectl"].
Definition _REMOTE_GIT : list string :=
  ["push"; "pull"; "fetch"; "clone"; "ls-remote"; "remote"; "submodule"; "send-pack"; "fetch-pack";
   "http-push"; "http-fetch"; "upload-pack"; "receive-pack"].
Definition _DANGEROUS_FLAGS : list string :=
  ["--output"; "--upload-pack"; "--receive-pack"; "--ext-diff"; "--exec"].
Definition _FIND_EXEC : list string := ["-exec"; "-execdir"; "-ok"; "-okdir"; "-delete"].

Definition is_letter (c : ascii) : bool :=
  let n := ord c in ((65 <=? n)%N && (n <=? 90)%N) || ((97 <=? n)%N && (n <=? 122)%N).
Definition plain_char (c : ascii) : bool :=
  is_letter c || is_digit c || bool_decide (c ∈ ["_"; "."; "/"; ":"; "="; "@"; "+"; "-"]%char).
(** [_PLAIN_ARG]: [$] also matches before one newline at the end. *)
Definition _PLAIN_ARG (s : string) : bool :=
  let body := default s (drop_suffix (String newline "") s) in
  negb (String.eqb body "") && str_forall plain_char body.

Definition mem (x : string) (l : list string) : bool := bool_decide (x ∈ l).

(** ** The result *)
Inductive Outcome : Type := refused | asks | matches.

(** One constructor for each text [classify] writes. *)
Inductive reason : Type :=
| CommandEmpty | NulCharacter | EnvOptions | WrapperNamesNothing | NotAscii (name : string)
| NeverMatches (name why : string) | IsShell (name : string) | InlineCode (name : string)
| WrappedCode (name : string) | FindExec | Governance | Publishes (tool sub : string)
| OutsideProject (name : string) | NotInProject (name : string) | NotOnPath (name : string)
| CmdExeReparses (name : string) | DeniedBy (rule : list string)
| GitGlobalOptions | RemoteGit | GlobalOptions (name : string) | DangerousFlag | PytestPlugin
| WrittenFile (arg : string) | EnvNotNamed | NoRule | RuleMatches (id : string).

Record Match := {
  outcome : Outcome;
  why : reason;
  argv : list string;
  executable : option string;
  rule_id : option string;
  repository_code : bool;
  notes : list string;
  executable_sha256 : option string;
}.

(** The rules of a policy, each with a command of at least one word. *)
Record AllowRule := { id : string; allow_argv : list string; env_extra : list string }.
Record Policy := { allow : list AllowRule; deny : list (list string) }.

Section matcher.
Context {U : Unicode}.

(** ** Names *)

(** [re.sub] of [^(python|pypy)[0-9.]*w?$] by the family. *)
Fixpoint drop_version (s : string) : string :=
  match s with
  | String c t => if is_digit c || Ascii.eqb c "." then drop_version t else s
  | "" => ""
  end.
Definition family (base : string) : string :=
  let try_ (fam : string) : option string :=
    rest ← str_drop_prefix fam base;
    let rest := drop_version rest in
    let rest := match rest with String "w" t => t | _ => rest end in
    if String.eqb rest "" then Some fam
    else if String.eqb rest (String newline "") then Some (fam +:+ rest) else None in
  match try_ "python" with
  | Some b => b
  | None => default base (try_ "pypy")
  end.

Fixpoint drop_first_suffix (suffixes : list string) (base : string) : string :=
  match suffixes with
  | [] => base
  | suffix :: suffixes =>
      match drop_suffix suffix base with
      | Some b => b
      | None => drop_first_suffix suffixes base
      end
  end.
Definition _name (arg : string) : string :=
  let base := lower (path_name (replace_char "\" "/" arg)) in
  family (drop_first_suffix [".exe"; ".cmd"; ".bat"; ".com"] base).

(** ** Inline code *)
Fixpoint letters_run (s : string) : string :=
  match s with String c s => if is_letter c then String c (letters_run s) else "" | "" => "" end.
Definition pattern_match (p : eval_pattern) (token : string) : bool :=
  match token with
  | String "-" rest => str_exists (λ c, bool_decide (c ∈ letters p)) (letters_run rest)
  | _ => false
  end || existsb (startswith token) (longs p).

Fixpoint interpreter_code (name : string) (p : eval_pattern) (skip : bool) (args : list string) : bool :=
  match args with
  | [] => false
  | token :: args =>
      if skip then interpreter_code name p false args
      else if mem token ["-m"; "--"] || negb (dashed token) then false
      else if pattern_match p token then true
      else interpreter_code name p (mem token (default [] (Dict.get _VALUE_OPTIONS name))) args
  end.

Definition first_plain (args : list string) : string :=
  default "" (head (filter (λ a, dashed a = false) args)).

Definition inline_code (name : string) (args : list string) : bool :=
  if mem name _ALWAYS_CODE then true
  else if String.eqb name "deno" then String.eqb (first_plain args) "eval"
  else match Dict.get _EVAL name with
       | None => false
       | Some p => interpreter_code name p false args
       end.

Fixpoint wrapped_code (args : list string) : option string :=
  match args with
  | [] => None
  | token :: args =>
      if dashed token then wrapped_code args
      else
        let name := _name token in
        if mem name _SHELLS then Some name
        else if (Dict.mem _EVAL name || String.eqb name "deno" || mem name _ALWAYS_CODE)
                && inline_code name args then Some name
        else wrapped_code args
  end.

(** ** Wrappers *)

(** The [VAR=value] words of [env]: what follows them, and their names. *)
Fixpoint drop_assigns (names rest : list string) : list string * list string :=
  match rest with
  | w :: rest' =>
      if contains_char "=" w && negb (dashed w) then drop_assigns (names ++ [before "=" w]) rest'
      else (names, rest)
  | [] => (names, [])
  end.
Fixpoint drop_dashed (rest : list string) : list string :=
  match rest with w :: rest' => if dashed w then drop_dashed rest' else rest | [] => [] end.
(** The options of [nice] and [ionice] may have a number after them. *)
Fixpoint drop_options (numbered : bool) (rest : list string) : list string :=
  match rest with
  | w :: rest' =>
      if dashed w then
        match rest' with
        | n :: rest'' =>
            if numbered && isdigit (lstrip_char "-" n) then drop_options numbered rest''
            else drop_options numbered rest'
        | [] => []
        end
      else rest
  | [] => []
  end.

(** The inner command with the variables set, or the refusal of [env]'s
    options.  Each round drops the wrapper at least. *)
Fixpoint _strip_wrappers (fuel : nat) (names argv : list string)
    : option (list string * list string * option reason) :=
  match fuel with
  | O => None
  | S fuel =>
      match argv with
      | [] => Some ([], names, None)
      | w :: rest =>
          let wrapper := _name w in
          if negb (mem wrapper _WRAPPERS) then Some (argv, names, None)
          else if String.eqb wrapper "env" then
            let '(names, rest) := drop_assigns names rest in
            match rest with
            | o :: _ => if dashed o then Some ([], names, Some EnvOptions)
                        else _strip_wrappers fuel names rest
            | [] => _strip_wrappers fuel names []
            end
          else if String.eqb wrapper "timeout" then _strip_wrappers fuel names (tail (drop_dashed rest))
          else _strip_wrappers fuel names (drop_options (mem wrapper ["nice"; "ionice"]) rest)
      end
  end.

(** ** Rules *)
Definition is_path (arg : string) : bool := contains_char "/" arg || contains_char "\" arg.

Definition _prefix (rule inner : list string) : bool :=
  if (length inner <? length rule)%nat then false
  else match rule, inner with
  | r :: rs, a :: rest =>
      if negb (Bool.eqb (is_path r) (is_path a)) then false
      else if (if is_path a then negb (String.eqb (lower (normpath r)) (lower (normpath a)))
               else negb (String.eqb (_name r) (_name a))) then false
      else bool_decide (rs = take (length rs) rest)
  | _, _ => false
  end.

(** ** Executables *)
Context (H : Host).

Definition _inside (path : string) (roots : list string) : bool :=
  existsb (λ root, within (realpath H root) (realpath H path)) roots.

Definition usable (outside : list string) (full : string) : bool :=
  is_file H full && can_execute H full && negb (_inside full outside).
Definition resolve_executable (name path_env : string) (outside : list string) : option string :=
  head (filter (λ full, usable outside full = true)
    ((λ entry, path_join entry name) <$>
      filter (λ entry, negb (String.eqb entry "") && isabs entry = true) (split_char ":" path_env))).

Definition _scrubbed_path (project : string) (path_env : option string) : string :=
  let root := realpath H project in
  str_join ":" (filter (λ entry,
      negb (String.eqb entry "") &&
      negb (String.eqb (realpath H entry) root || startswith (realpath H entry) (root +:+ "/")) = true)
    (split_char ":" (default (environ_path H) path_env))).

(** ** [classify] *)
Definition refuse (original : list string) (r : reason) (exe : option string) : Match :=
  {| outcome := refused; why := r; argv := original; executable := exe; rule_id := None;
     repository_code := false; notes := []; executable_sha256 := None |}.

(** The hard floor: what no rule allows. *)
Definition publishes (name : string) (args : list string) : option (string * string) :=
  head (filter (λ ts, String.eqb name ts.1 && mem ts.2 (take 2 args) = true) _PUBLISH).
Definition governs (name : string) (args : list string) : bool :=
  let m := bool_decide (take 2 args = ["-m"; "ract"]) || bool_decide (take 2 args = ["-m"; "ract.cli"]) in
  let is_ract := String.eqb name "ract" || (mem name ["python"; "py"] && m) in
  let ract_args := if String.eqb name "ract" then args else drop 2 args in
  is_ract && match ract_args with a :: _ => mem a _GOVERNANCE | [] => false end.

Definition hard_floor (name : string) (args : list string) : option reason :=
  match Dict.get _NEVER name with
  | Some w => Some (NeverMatches name w)
  | None =>
      if mem name _SHELLS then Some (IsShell name)
      else if inline_code name args then Some (InlineCode name)
      else match wrapped_code args with
      | Some w => Some (WrappedCode w)
      | None =>
          if String.eqb name "find" && existsb (λ a, mem a args) _FIND_EXEC then Some FindExec
          else if governs name args then Some Governance
          else match publishes name args with
          | Some (tool, sub) => Some (Publishes tool sub)
          | None => None
          end
      end
  end.

(** The executable, or why there is none. *)
Definition resolve (project : string) (path_env : option string) (also_outside : list string)
    (cmd : string) : string + reason :=
  if is_path cmd then
    let candidate := realpath H (path_join project cmd) in
    if negb (within (realpath H project) candidate) then inr (OutsideProject cmd)
    else if negb (is_file H candidate) then inr (NotInProject cmd)
    else inl candidate
  else match resolve_executable cmd (_scrubbed_path project path_env) (project :: also_outside) with
       | None => inr (NotOnPath cmd)
       | Some found => inl found
       end.

(** The value after the first [-p] that has one. *)
Fixpoint plugin_of (args : list string) : option string :=
  match args with
  | a :: ((v :: _) as rest) => if String.eqb a "-p" then Some v else plugin_of rest
  | _ => None
  end.
Definition loads_plugin (project name : string) (args : list string) : bool :=
  (mem name ["pytest"; "py.test"] ||
   (mem name ["python"; "python3"; "py"] && bool_decide (take 2 args = ["-m"; "pytest"]))) &&
  match plugin_of args with
  | Some plugin => negb (String.eqb plugin "") &&
      is_file H (path_join project (replace_char "." "/" plugin +:+ ".py"))
  | None => false
  end.

Definition fold_path (s : string) : string := casefold (replace_char "\" "/" s).
Definition written_args (model_written args : list string) : list string :=
  filter (λ a, mem (fold_path a) (fold_path <$> model_written) = true) args.

(** Why the command asks whatever the allow rules say. *)
Definition git_asks (args : list string) : option reason :=
  match args with
  | [] => None
  | a :: _ =>
      let sub := first_plain args in
      if dashed a then Some GitGlobalOptions
      else if mem sub _REMOTE_GIT ||
              (String.eqb sub "archive" &&
               existsb (λ a, String.eqb a "--remote" || startswith a "--remote=") args)
           then Some RemoteGit else None
  end.
Definition asks_because (project : string) (model_written : list string) (name : string)
    (args : list string) : option reason :=
  let because :=
    if String.eqb name "git" && negb (bool_decide (args = [])) then git_asks args
    else if mem name _SUBCOMMAND_TOOLS && match args with a :: _ => dashed a | [] => false end
         then Some (GlobalOptions name) else None in
  let because := match because with
    | None => if existsb (λ a, mem (before "=" a) _DANGEROUS_FLAGS) args then Some DangerousFlag else None
    | b => b end in
  let because := match because with
    | None => if loads_plugin project name args then Some PytestPlugin else None
    | b => b end in
  match because, written_args model_written args with
  | None, w :: _ => Some (WrittenFile w)
  | b, _ => b
  end.

(** The loop over the allow rules: a rule that matches, or the reason to ask. *)
Fixpoint find_allow (rules : list AllowRule) (inner env_names : list string)
    : option (AllowRule + reason) :=
  match rules with
  | [] => None
  | rule :: rules =>
      if negb (_prefix (allow_argv rule) inner) then find_allow rules inner env_names
      else if existsb (λ n, negb (mem n (env_extra rule))) env_names then Some (inr EnvNotNamed)
      else Some (inl rule)
  end.

(** The part after the hard floor: deny rules, reasons to ask, allow rules. *)
Definition decide_rules (policy : option Policy) (project : string) (model_written original inner
    env_names : list string) (name exe : string) (in_repo : bool) : Match :=
  let args := tail inner in
  match policy ≫= λ p, head (filter (λ rule, _prefix rule inner = true) (deny p)) with
  | Some rule => refuse original (DeniedBy rule) (Some exe)
  | None =>
      let ns := if in_repo then ["it runs repository code"] else [] in
      let answer o r rid :=
        {| outcome := o; why := r; argv := original; executable := Some exe; rule_id := rid;
           repository_code := in_repo; notes := ns; executable_sha256 := digest H exe |} in
      match asks_because project model_written name args with
      | Some r => answer asks r None
      | None =>
          match policy ≫= λ p, find_allow (allow p) inner env_names with
          | Some (inl rule) => answer matches (RuleMatches (id rule)) (Some (id rule))
          | Some (inr r) => answer asks r None
          | None => answer asks NoRule None
          end
      end
  end.

Definition classify (original : list string) (policy : option Policy) (project : string)
    (model_written : list string) (path_env : option string) (also_outside : list string) : Match :=
  match original with
  | [] | "" :: _ => refuse original CommandEmpty None
  | _ =>
      if existsb (contains_char "000") original then refuse original NulCharacter None
      else match _strip_wrappers (S (length original)) [] original with
      | None | Some (_, _, Some _) => refuse original EnvOptions None
      | Some ([], _, None) => refuse original WrapperNamesNothing None
      | Some ((cmd :: args) as inner, env_names, None) =>
          if negb (isascii cmd) then refuse original (NotAscii cmd) None
          else
            let name := _name cmd in
            match hard_floor name args with
            | Some r => refuse original r None
            | None =>
                match resolve project path_env also_outside cmd with
                | inr r => refuse original r None
                | inl exe =>
                    if mem (lower (path_suffix exe)) [".bat"; ".cmd"] && negb (forallb _PLAIN_ARG args)
                    then refuse original (CmdExeReparses (path_name exe)) (Some exe)
                    else decide_rules policy project model_written original inner env_names name exe
                           (is_path cmd)
                end
            end
      end
  end.
End matcher.
