(* ===== verification/MatcherLaws.v ===== *)
(** * What the matcher guarantees

    The hard floor is beyond every policy, deny rules win, a match passed every
    check, and what may run was found outside of the project or named in it. *)

From S2P Require Import Prelude Canonical Matcher.

Section laws.
Context {U : Unicode} (H : Host).

(** ** Wrappers *)
Lemma drop_assigns_suffix names rest names' rest' :
  drop_assigns names rest = (names', rest') → rest' `suffix_of` rest.
Proof.
  revert names. induction rest as [|w rest IH]; intros names; cbn; [by intros [= _ <-]|].
  destruct (_ && _); [intros ?%IH; by apply suffix_cons_r|by intros [= _ <-]].
Qed.
Lemma drop_dashed_suffix rest : drop_dashed rest `suffix_of` rest.
Proof.
  induction rest as [|w rest IH]; cbn; [done|]. destruct (dashed w); [by apply suffix_cons_r|done].
Qed.
Lemma drop_options_suffix b rest : drop_options b rest `suffix_of` rest.
Proof.
  assert (∀ n rest, length rest ≤ n → drop_options b rest `suffix_of` rest) as Hn.
  { clear rest. induction n as [|n IH]; intros [|w [|v rest]] Hl; cbn in *; try done; try lia.
    - destruct (dashed w); [apply suffix_nil|done].
    - destruct (dashed w); [|done].
      destruct (b && isdigit (lstrip_char "-" v));
        [do 2 apply suffix_cons_r; apply IH; lia|].
      apply suffix_cons_r, (IH (v :: rest)). cbn. lia. }
  by apply (Hn (length rest)).
Qed.
Lemma tail_suffix {A} (l : list A) : tail l `suffix_of` l.
Proof. destruct l; [done|]. by apply suffix_cons_r. Qed.

(** The stripping ends; its command is a suffix of the words and no wrapper. *)
Lemma strip_wrappers_spec fuel names argv : length argv < fuel →
  ∃ inner names' r, _strip_wrappers fuel names argv = Some (inner, names', r) ∧
    (r = None → inner `suffix_of` argv ∧
     match inner with w :: _ => mem (_name w) _WRAPPERS = false | [] => True end) ∧
    (r = None ∨ r = Some EnvOptions).
Proof.
  revert names argv. induction fuel as [|fuel IH]; intros names argv Hl; [lia|].
  destruct argv as [|w rest]; cbn -[mem].
  { eexists _, _, _. split_and!; [done|done|by left]. }
  assert (∀ names rest', rest' `suffix_of` rest →
    ∃ inner names' r, _strip_wrappers fuel names rest' = Some (inner, names', r) ∧
      (r = None → inner `suffix_of` w :: rest ∧
       match inner with w :: _ => mem (_name w) _WRAPPERS = false | [] => True end) ∧
      (r = None ∨ r = Some EnvOptions)) as Hgo.
  { intros ns rest' Hs. apply suffix_length in Hs as Hsl. cbn in Hl.
    destruct (IH ns rest') as (inner & ns' & r & -> & Hr & He); [lia|].
    eexists _, _, _. split_and!; [done| |done]. intros ->. destruct (Hr eq_refl) as [Hi Hw].
    split; [|done]. apply suffix_cons_r. by etrans. }
  destruct (mem (_name w) _WRAPPERS) eqn:Hw; cbn.
  2: { eexists _, _, _. split_and!; [done|by intros _|by left]. }
  destruct (String.eqb (_name w) "env").
  - destruct (drop_assigns names rest) as [ns rest'] eqn:Hd. apply drop_assigns_suffix in Hd.
    destruct rest' as [|o rest']; [by apply Hgo|]. destruct (dashed o); [|by apply Hgo].
    eexists _, _, _. split_and!; [done|done|by right].
  - destruct (String.eqb (_name w) "timeout"); apply Hgo; [|apply drop_options_suffix].
    etrans; [apply tail_suffix|apply drop_dashed_suffix].
Qed.

(** ** What [classify] does, before the rules *)

(** The command [classify] gets to the rules with, if it does. *)
Inductive admitted (project : string) (path_env : option string) (also_outside original : list string)
    : list string → list string → string → Prop :=
| granted cmd args env_names exe :
    _strip_wrappers (S (length original)) [] original = Some (cmd :: args, env_names, None) →
    existsb (contains_char "000") original = false →
    isascii cmd = true → hard_floor (_name cmd) args = None →
    resolve H project path_env also_outside cmd = inl exe →
    mem (lower (path_suffix exe)) [".bat"; ".cmd"] && negb (forallb _PLAIN_ARG args) = false →
    admitted project path_env also_outside original (cmd :: args) env_names exe.

Lemma classify_cases original policy project written path_env outside :
  let C p := classify H original p project written path_env outside in
  (outcome (C policy) = refused ∧ ∀ p, C p = C policy) ∨
  ∃ cmd args env_names exe, admitted project path_env outside original (cmd :: args) env_names exe ∧
    ∀ p, C p = decide_rules H p project written original (cmd :: args) env_names (_name cmd) exe (is_path cmd).
Proof.
  cbn zeta. unfold classify. destruct original as [|[|c w] rest]; [by left|by left|].
  destruct (existsb (contains_char "000") (String c w :: rest)) eqn:Hn; [by left|].
  destruct (_strip_wrappers _ [] _) as [[[[|cmd args] ns] [r|]]|] eqn:Hs; [by left..| |by left].
  destruct (isascii cmd) eqn:Ha; [cbn [negb]|by left].
  destruct (hard_floor (_name cmd) args) eqn:Hf; [by left|].
  destruct (resolve H project path_env outside cmd) as [exe|r] eqn:Hr; [|by left].
  destruct (mem (lower (path_suffix exe)) [".bat"; ".cmd"] && negb (forallb _PLAIN_ARG args)) eqn:Hb;
    [by left|]. right. exists cmd, args, ns, exe. split; [|done]. by constructor.
Qed.

Lemma decide_rules_None project written original inner ns name exe in_repo :
  outcome (decide_rules H None project written original inner ns name exe in_repo) = asks.
Proof. unfold decide_rules. cbn. by destruct (asks_because _ _ _ _). Qed.

(** The first deny rule that fits. *)
Definition denied (policy : option Policy) (inner : list string) : option (list string) :=
  policy ≫= λ p, head (filter (λ rule, _prefix rule inner = true) (deny p)).

Lemma head_filter_None {A} (P : A → Prop) `{∀ x, Decision (P x)} l :
  head (filter P l) = None ↔ Forall (λ x, ¬ P x) l.
Proof.
  induction l as [|x l IH]; [done|]. rewrite filter_cons, Forall_cons.
  destruct (decide (P x)); cbn; naive_solver.
Qed.

Lemma denied_None p inner :
  denied (Some p) inner = None ↔ ∀ rule, rule ∈ deny p → _prefix rule inner = false.
Proof.
  unfold denied. cbn. rewrite head_filter_None, Forall_forall.
  split; intros Hr rule Hin; specialize (Hr rule Hin); destruct (_prefix rule inner); naive_solver.
Qed.

Lemma find_allow_inl rules inner ns rule : find_allow rules inner ns = Some (inl rule) →
  rule ∈ rules ∧ _prefix (allow_argv rule) inner = true ∧ ∀ n, n ∈ ns → n ∈ env_extra rule.
Proof.
  induction rules as [|r rules IH]; cbn; [done|].
  destruct (_prefix (allow_argv r) inner) eqn:Hp; cbn; [|intros ?%IH; set_solver by naive_solver].
  destruct (existsb _ ns) eqn:He; [done|]. intros [= <-]. split_and!; [by apply list_elem_of_here|done|].
  intros n Hn. apply dec_stable. intros Hne. rewrite <-not_true_iff_false, existsb_exists in He.
  apply He. exists n. split; [by apply list_elem_of_In|]. unfold mem. by rewrite bool_decide_false.
Qed.

(** ** The guarantees *)

(** A command refused without a policy is refused, in the same words, under
    every policy: no rule reaches below the hard floor, the unresolved command
    or the malformed one. *)
Theorem floor_beyond_every_policy original policy project written path_env outside :
  outcome (classify H original None project written path_env outside) = refused →
  classify H original policy project written path_env outside =
  classify H original None project written path_env outside.
Proof.
  intros Hr. destruct (classify_cases original None project written path_env outside)
    as [[_ Hall]|(cmd & args & ns & exe & _ & Hall)]; [by apply Hall|].
  rewrite Hall, decide_rules_None in Hr. done.
Qed.

(** A policy only decides last: what is not refused without one asks, and
    with one it is denied, asks, or matches. Adding deny rules leaves the
    answer as it is or refuses. *)
Theorem deny_rules_only_refuse original p p' project written path_env outside :
  allow p' = allow p → deny p ⊆ deny p' →
  outcome (classify H original (Some p') project written path_env outside) = refused ∨
  classify H original (Some p') project written path_env outside =
  classify H original (Some p) project written path_env outside.
Proof.
  intros Ha Hd. destruct (classify_cases original (Some p) project written path_env outside)
    as [[_ Hall]|(cmd & args & ns & exe & _ & Hall)]; [right; by rewrite Hall|].
  rewrite !Hall. unfold decide_rules. fold (denied (Some p') (cmd :: args)).
  fold (denied (Some p) (cmd :: args)).
  destruct (denied (Some p') (cmd :: args)) as [rule|] eqn:Hp'; [by left|]. right.
  assert (denied (Some p) (cmd :: args) = None) as ->.
  { rewrite denied_None in Hp' |- *. intros rule Hin. apply Hp', Hd, Hin. }
  cbn. by rewrite Ha.
Qed.

(** C29: a match passed every check: no hard floor, an executable found, no deny
    rule that fits, no reason to ask, and an allow rule of the policy that fits
    the inner command and names every variable set before it. *)
Theorem match_passed_every_check original policy project written path_env outside :
  outcome (classify H original policy project written path_env outside) = matches →
  ∃ p cmd args env_names exe rule, policy = Some p ∧
    admitted project path_env outside original (cmd :: args) env_names exe ∧
    (∀ r, r ∈ deny p → _prefix r (cmd :: args) = false) ∧
    asks_because H project written (_name cmd) args = None ∧
    rule ∈ allow p ∧ _prefix (allow_argv rule) (cmd :: args) = true ∧
    (∀ n, n ∈ env_names → n ∈ env_extra rule) ∧
    executable (classify H original policy project written path_env outside) = Some exe ∧
    executable_sha256 (classify H original policy project written path_env outside) = digest H exe ∧
    rule_id (classify H original policy project written path_env outside) = Some (id rule).
Proof.
  intros Hm. destruct (classify_cases original policy project written path_env outside)
    as [[Hr _]|(cmd & args & ns & exe & Hadm & Hall)]; [congruence|].
  rewrite !Hall in *. unfold decide_rules in *. fold (denied policy (cmd :: args)) in *.
  destruct (denied policy (cmd :: args)) eqn:Hd; [done|]. cbn [tail] in *.
  destruct (asks_because H project written (_name cmd) args) eqn:Ha; [done|].
  destruct policy as [p|]; [|done]. cbn [mbind option_bind] in *.
  destruct (find_allow (allow p) (cmd :: args) ns) as [[rule|]|] eqn:Hf; [|done..].
  apply find_allow_inl in Hf as (Hin & Hp & Hn).
  exists p, cmd, args, ns, exe, rule. rewrite denied_None in Hd. by split_and!.
Qed.

(** *** Shells *)
Lemma wrapped_code_shell args t : t ∈ args → dashed t = false → mem (_name t) _SHELLS = true →
  is_Some (wrapped_code args).
Proof.
  induction args as [|a args IH]; [by intros ?%not_elem_of_nil|].
  intros [->|Hin]%elem_of_cons Hd Hs; cbn -[mem].
  - rewrite Hd, Hs. by eexists.
  - specialize (IH Hin Hd Hs). destruct (dashed a); [done|].
    destruct (mem (_name a) _SHELLS); [by eexists|]. destruct (_ && _); [by eexists|done].
Qed.

Lemma hard_floor_shell name args : mem name _SHELLS = true → is_Some (hard_floor name args).
Proof. intros Hs. unfold hard_floor. rewrite Hs. destruct (Dict.get _NEVER name); by eexists. Qed.
Lemma hard_floor_wrapped name args : is_Some (wrapped_code args) → is_Some (hard_floor name args).
Proof.
  intros [w Hw]. unfold hard_floor. rewrite Hw. destruct (Dict.get _NEVER name); [by eexists|].
  destruct (mem name _SHELLS); [by eexists|]. destruct (inline_code name args); by eexists.
Qed.

(** no shell runs in argv mode: when the command behind the wrappers, or any
    of its words that is not an option, names a shell (by path, in any case, with
    a Windows suffix), the command is refused under every policy. *)
Theorem shells_refused original policy project written path_env outside inner env_names t :
  _strip_wrappers (S (length original)) [] original = Some (inner, env_names, None) →
  head inner = Some t ∨ (t ∈ inner ∧ dashed t = false) → mem (_name t) _SHELLS = true →
  outcome (classify H original policy project written path_env outside) = refused.
Proof.
  intros Hs Ht Hsh. destruct (classify_cases original policy project written path_env outside)
    as [[Hr _]|(cmd & args & ns & exe & Hadm & _)]; [done|]. exfalso.
  inversion Hadm as [? ? ? ? Hs' _ _ Hf _ _]; subst. rewrite Hs in Hs'. injection Hs' as -> ->.
  assert (is_Some (hard_floor (_name cmd) args)) as [? ?]; [|congruence].
  destruct Ht as [[= ->]|[[->|Hin]%elem_of_cons Hd]]; [by apply hard_floor_shell..|].
  apply hard_floor_wrapped. by eapply wrapped_code_shell.
Qed.

(** *** Where the executable is *)
Lemma resolve_executable_spec name path_env outside exe :
  resolve_executable H name path_env outside = Some exe →
  ∃ entry, entry ∈ split_char ":" path_env ∧ isabs entry = true ∧ exe = path_join entry name ∧
    is_file H exe = true ∧ can_execute H exe = true ∧ _inside H exe outside = false.
Proof.
  unfold resolve_executable. intros Hh.
  assert (exe ∈ filter (λ full, usable H outside full = true)
    ((λ entry, path_join entry name) <$>
      filter (λ entry, negb (String.eqb entry "") && isabs entry = true) (split_char ":" path_env)))
    as [Hu Hin]%list_elem_of_filter.
  { destruct (filter _ _) as [|x l]; [done|]. injection Hh as ->. apply list_elem_of_here. }
  apply list_elem_of_fmap in Hin as (entry & -> & [[_ Ha]%andb_true_iff He]%list_elem_of_filter).
  unfold usable in Hu. bool_prop. eauto 10.
Qed.

(** What a command that is not refused would run: for a bare name, an
    executable file in an absolute folder of the scrubbed PATH, with no link
    into the project or the other folders kept out; for a path, a file of the
    project itself, and then the answer says it runs repository code. *)
Theorem executable_is_outside_or_named original policy project written path_env outside :
  let m := classify H original policy project written path_env outside in
  outcome m ≠ refused →
  ∃ cmd args env_names exe, admitted project path_env outside original (cmd :: args) env_names exe ∧
    executable m = Some exe ∧ is_file H exe = true ∧ repository_code m = is_path cmd ∧
    if is_path cmd
    then exe = realpath H (path_join project cmd) ∧ within (realpath H project) exe = true
    else can_execute H exe = true ∧ _inside H exe (project :: outside) = false ∧
         ∃ entry, entry ∈ split_char ":" (_scrubbed_path H project path_env) ∧
                  isabs entry = true ∧ exe = path_join entry cmd.
Proof.
  cbn zeta. intros Hm. destruct (classify_cases original policy project written path_env outside)
    as [[Hr _]|(cmd & args & ns & exe & Hadm & Hall)]; [congruence|].
  rewrite Hall in *. exists cmd, args, ns, exe. split; [done|].
  assert (executable (decide_rules H policy project written original (cmd :: args) ns (_name cmd) exe
            (is_path cmd)) = Some exe ∧
          repository_code (decide_rules H policy project written original (cmd :: args) ns (_name cmd) exe
            (is_path cmd)) = is_path cmd) as [He Hc].
  { unfold decide_rules in *. destruct (_ ≫= _); [done|].
    destruct (asks_because _ _ _ _ _); [done|]. by destruct (_ ≫= _) as [[]|]. }
  inversion Hadm as [? ? ? ? _ _ _ _ Hres _]; subst. unfold resolve in Hres.
  destruct (is_path cmd).
  - destruct (within _ _) eqn:Hw; [|done]. destruct (is_file H _) eqn:Hf; [|done].
    injection Hres as <-. by split_and!.
  - destruct (resolve_executable _ _ _ _) as [found|] eqn:Hr; [|done]. injection Hres as ->.
    apply resolve_executable_spec in Hr as (entry & ? & ? & -> & ? & ? & ?). split_and!; eauto.
Qed.

(** *** Plain arguments *)
Lemma drop_suffix_cons suffix c s : drop_suffix suffix (String c s) =
  if String.eqb (String c s) suffix then Some "" else String c <$> drop_suffix suffix s.
Proof. done. Qed.

Lemma drop_suffix_Some suffix s b : drop_suffix suffix s = Some b → s = b +:+ suffix.
Proof.
  revert b. induction s as [|c s IH]; intros b.
  - destruct suffix; [by intros [= <-]|done].
  - rewrite drop_suffix_cons. destruct (String.eqb_spec (String c s) suffix) as [<-|];
      [by intros [= <-]|].
    destruct (drop_suffix suffix s) as [b'|]; [|done]. intros [= <-]. by rewrite (IH b').
Qed.

Lemma drop_suffix_app b suffix : suffix ≠ "" → drop_suffix suffix (b +:+ suffix) = Some b.
Proof.
  intros Hne. induction b as [|c b IH].
  - rewrite str_app_nil_l. destruct suffix; [done|]. by rewrite drop_suffix_cons, String.eqb_refl.
  - rewrite str_app_cons, drop_suffix_cons.
    destruct (String.eqb_spec (String c (b +:+ suffix)) suffix) as [E|]; [|by rewrite IH].
    apply (f_equal String.length) in E. cbn in E. rewrite str_length_app in E. lia.
Qed.

(** An argument passes as plain for a batch file exactly when it is plain
    characters, at least one; a single newline may follow them, which the
    pattern's end allows and [cmd.exe] does not take as plain. *)
Theorem plain_arg_spec s :
  _PLAIN_ARG s = true ↔
  ∃ body, body ≠ "" ∧ str_forall plain_char body = true ∧
          (s = body ∨ s = body +:+ String newline "").
Proof.
  unfold _PLAIN_ARG. rewrite andb_true_iff, negb_true_iff, String.eqb_neq. split.
  - destruct (drop_suffix _ s) as [b|] eqn:E; cbn; intros [? ?]; [|exists s; eauto].
    apply drop_suffix_Some in E. exists b. eauto.
  - intros (body & Hne & Hp & [-> | ->]); [|rewrite drop_suffix_app by done; by split].
    destruct (drop_suffix (String newline "") body) as [b|] eqn:E; cbn; [|done].
    apply drop_suffix_Some in E. subst. rewrite str_forall_app in Hp. by apply andb_true_iff in Hp as [_ ?].
Qed.

(** *** Wrappers change nothing *)
Context {UL : UnicodeLaws U}.

(** The answer to another spelling of the command. *)
Definition with_argv (l : list string) (m : Match) : Match :=
  {| outcome := outcome m; why := why m; argv := l; executable := executable m; rule_id := rule_id m;
     repository_code := repository_code m; notes := notes m; executable_sha256 := executable_sha256 m |}.

Lemma decide_rules_argv policy project written o o' inner ns name exe in_repo :
  decide_rules H policy project written o' inner ns name exe in_repo =
  with_argv o' (decide_rules H policy project written o inner ns name exe in_repo).
Proof.
  unfold decide_rules. destruct (policy ≫= _) as [rule|]; [done|].
  destruct (asks_because _ _ _ _ _); [done|]. by destruct (policy ≫= _) as [[]|].
Qed.

(** [nohup] and [time] hide nothing: the command behind one is answered, in
    every respect but the words shown, as it is without it. *)
Theorem wrapper_transparent w cmd args policy project written path_env outside :
  w = "nohup" ∨ w = "time" → cmd ≠ "" → dashed cmd = false →
  classify H (w :: cmd :: args) policy project written path_env outside =
  with_argv (w :: cmd :: args) (classify H (cmd :: args) policy project written path_env outside).
Proof using UL.
  intros Hw Hc Hd.
  assert (∀ n, _strip_wrappers (S n) [] (w :: cmd :: args) = _strip_wrappers n [] (cmd :: args)) as Hs.
  { intros n. cbn [_strip_wrappers].
    assert (_name w = w) as ->.
    { unfold _name. destruct Hw as [-> | ->]; rewrite lower_ascii by done; done. }
    assert (drop_options (mem w ["nice"; "ionice"]) (cmd :: args) = cmd :: args) as Hdo.
    { cbn. by rewrite Hd. }
    destruct Hw as [-> | ->]; cbn in Hdo |- *; by rewrite Hdo. }
  unfold classify. destruct cmd as [|c cmd]; [done|].
  assert (existsb (contains_char "000") (w :: String c cmd :: args) =
          existsb (contains_char "000") (String c cmd :: args)) as ->.
  { destruct Hw as [-> | ->]; reflexivity. }
  cbn [length]. rewrite Hs. cbn [length].
  assert (∀ A (x y : A), match w with "" => x | _ => y end = y) as Hmw.
  { intros. by destruct Hw as [-> | ->]. }
  rewrite Hmw.
  destruct (existsb _ _); [done|].
  destruct (_strip_wrappers _ [] _) as [[[[|cmd' args'] ns] [r|]]|]; [done..| |done].
  destruct (isascii cmd'); [|done]. destruct (hard_floor (_name cmd') args'); [done|].
  destruct (resolve H project path_env outside cmd') as [exe|r]; [|done].
  cbn [negb]. destruct (mem _ _ && _); [done|]. apply decide_rules_argv.
Qed.
End laws.

(** ** The guarantees at work *)
Section sample.
#[local] Existing Instance plain_unicode.
Definition sample_host : Host := {|
  is_file := λ p, mem p ["/usr/bin/pytest"; "/work/pytest"; "/usr/bin/git"];
  can_execute := λ _, true; realpath := path_str; digest := λ _, Some "d"; environ_path := "/work:/usr/bin" |}.
Definition sample_policy : Policy :=
  {| allow := [{| id := "tests"; allow_argv := ["pytest"]; env_extra := ["CI"] |}];
     deny := [["git"; "push"]] |}.

Lemma match_passed_every_check_witness :
  ∃ p cmd args env_names exe rule, Some sample_policy = Some p ∧
    admitted sample_host "/work" None [] ["env"; "CI=1"; "pytest"; "-q"] (cmd :: args) env_names exe ∧
    (∀ r, r ∈ deny p → _prefix r (cmd :: args) = false) ∧
    asks_because sample_host "/work" [] (_name cmd) args = None ∧
    rule ∈ allow p ∧ _prefix (allow_argv rule) (cmd :: args) = true ∧
    (∀ n, n ∈ env_names → n ∈ env_extra rule) ∧
    executable (classify sample_host ["env"; "CI=1"; "pytest"; "-q"] (Some sample_policy) "/work" [] None []) = Some exe ∧
    executable_sha256 (classify sample_host ["env"; "CI=1"; "pytest"; "-q"] (Some sample_policy) "/work" [] None [])
      = Some "d" ∧
    rule_id (classify sample_host ["env"; "CI=1"; "pytest"; "-q"] (Some sample_policy) "/work" [] None [])
      = Some (id rule).
Proof.
  apply (match_passed_every_check sample_host ["env"; "CI=1"; "pytest"; "-q"]).
  vm_compute. reflexivity.
Defined.

Lemma floor_beyond_every_policy_witness :
  classify sample_host ["timeout"; "5"; "sudo"; "pytest"] (Some sample_policy) "/work" [] None [] =
  classify sample_host ["timeout"; "5"; "sudo"; "pytest"] None "/work" [] None [].
Proof. apply floor_beyond_every_policy. vm_compute. reflexivity. Defined.

Lemma deny_rules_only_refuse_witness :
  let p' := {| allow := allow sample_policy; deny := [["git"; "push"]; ["pytest"]] |} in
  outcome (classify sample_host ["pytest"] (Some p') "/work" [] None []) = refused ∨
  classify sample_host ["pytest"] (Some p') "/work" [] None [] =
  classify sample_host ["pytest"] (Some sample_policy) "/work" [] None [].
Proof. intros p'. apply deny_rules_only_refuse; [reflexivity|set_solver]. Defined.

Lemma shells_refused_witness :
  outcome (classify sample_host ["nice"; "-n"; "5"; "/bin/BASH.exe"; "-lc"; "x"] (Some sample_policy)
    "/work" [] None []) = refused.
Proof.
  apply (shells_refused sample_host _ _ _ _ _ _ ["/bin/BASH.exe"; "-lc"; "x"] [] "/bin/BASH.exe");
    [vm_compute; reflexivity|by left|vm_compute; reflexivity].
Defined.

Lemma executable_is_outside_or_named_witness :
  let m := classify sample_host ["pytest"] None "/work" [] None [] in
  ∃ cmd args env_names exe, admitted sample_host "/work" None [] ["pytest"] (cmd :: args) env_names exe ∧
    executable m = Some exe ∧ is_file sample_host exe = true ∧ repository_code m = is_path cmd ∧
    if is_path cmd
    then exe = realpath sample_host (path_join "/work" cmd) ∧ within (realpath sample_host "/work") exe = true
    else can_execute sample_host exe = true ∧ _inside sample_host exe ["/work"] = false ∧
         ∃ entry, entry ∈ split_char ":" (_scrubbed_path sample_host "/work" None) ∧
                  isabs entry = true ∧ exe = path_join entry cmd.
Proof.
  intros m. apply (executable_is_outside_or_named sample_host ["pytest"] None "/work" [] None []).
  vm_compute. discriminate.
Defined.

Lemma wrapper_transparent_witness :
  classify sample_host ["nohup"; "pytest"] None "/work" [] None [] =
  with_argv ["nohup"; "pytest"] (classify sample_host ["pytest"] None "/work" [] None []).
Proof. apply (wrapper_transparent (UL := plain_unicode_laws) sample_host "nohup" "pytest" []); [by left|discriminate|reflexivity]. Defined.
End sample.
