(* ===== verification/Difflib.v ===== *)
(** * [difflib.SequenceMatcher]

    The part of the standard library's matcher that [diff_render.py] uses: the
    index of the second sequence with its heuristic of popular elements, the
    longest match of two ranges, the blocks, the opcodes and their groups.
    [script] says what a list of opcodes promises, [gapped] what is left of it
    when ranges without changes are dropped. *)

From S2P Require Import Prelude.

Inductive tag : Type := Equal | Replace | Delete | Insert.
#[export] Instance tag_eq_dec : EqDecision tag.
Proof. solve_decision. Defined.
(** [(tag, i1, i2, j1, j2)]: [a[i1:i2]] against [b[j1:j2]]. *)
Record opcode := Op { op_tag : tag; i1 : nat; i2 : nat; j1 : nat; j2 : nat }.
#[export] Instance opcode_eq_dec : EqDecision opcode.
Proof. solve_decision. Defined.

(** [l[i:j]] of indices that are not negative. *)
Definition sub {A} (l : list A) (i j : nat) : list A := drop i (take j l).

Lemma length_sub {A} (l : list A) i j : j ≤ length l → length (sub l i j) = j - i.
Proof. intros H. unfold sub. rewrite length_drop, length_take. lia. Qed.
Lemma sub_nil {A} (l : list A) i : sub l i i = [].
Proof. unfold sub. apply drop_ge. rewrite length_take. lia. Qed.
Lemma sub_all {A} (l : list A) : sub l 0 (length l) = l.
Proof. unfold sub. by rewrite firstn_all. Qed.
Lemma sub_app {A} (l : list A) i j k : i ≤ j → j ≤ k → sub l i k = sub l i j ++ sub l j k.
Proof.
  intros Hi Hj. unfold sub.
  rewrite <-(take_drop (j - i) (drop i (take k l))), drop_drop.
  rewrite take_drop_commute, take_take. do 2 f_equal; [f_equal; lia|lia].
Qed.
Lemma sub_lookup {A} (l : list A) i j n : n < j - i → sub l i j !! n = l !! (i + n).
Proof. intros Hn. unfold sub. rewrite lookup_drop, lookup_take_lt; [done|lia]. Qed.
Lemma sub_lookup_ge {A} (l : list A) i j n : j - i ≤ n → sub l i j !! n = None.
Proof. intros Hn. unfold sub. rewrite lookup_drop, lookup_take_ge; [done|lia]. Qed.
Lemma drop_sub {A} (l : list A) i : drop i l = sub l i (length l).
Proof. unfold sub. by rewrite firstn_all. Qed.

Section difflib.
Context {A : Type} `{EqDecision A}.
Implicit Types (a b : list A).

(** ** The index of the second sequence: [__chain_b] *)
Definition indices (b : list A) (x : A) : list nat :=
  (filter (λ p, p.2 = x) (imap pair b)).*1.
Definition popular (autojunk : bool) (b : list A) (x : A) : bool :=
  autojunk && Nat.leb 200 (length b) && Nat.ltb (length b / 100 + 1) (length (indices b x)).
Definition b2j (autojunk : bool) (b : list A) (x : A) : list nat :=
  if popular autojunk b x then [] else indices b x.

(** ** The longest match of two ranges *)
Record region := Region { alo : nat; ahi : nat; blo : nat; bhi : nat }.
Record block := Block { ai : nat; bj : nat; bsize : nat }.

Section ranges.
Context (autojunk : bool) (a b : list A).

(** The lengths of the matches that end at the last element of [a] and [j]. *)
Notation lengths := (gmap nat nat).
Definition len_before (j2len : lengths) (j : nat) : nat :=
  match j with O => 0 | S j => default 0 (j2len !! j) end.
Fixpoint scan_row (r : region) (i : nat) (j2len : lengths) (js : list nat)
    (newj2len : lengths) (best : block) : lengths * block :=
  match js with
  | [] => (newj2len, best)
  | j :: js =>
      if Nat.ltb j (blo r) then scan_row r i j2len js newj2len best
      else if Nat.leb (bhi r) j then (newj2len, best)
      else
        let k := len_before j2len j + 1 in
        scan_row r i j2len js (<[j := k]> newj2len)
          (if Nat.ltb (bsize best) k then Block (i + 1 - k) (j + 1 - k) k else best)
  end.
Definition scan_rows (r : region) : lengths * block :=
  foldl (λ '(j2len, best) i,
      match a !! i with
      | Some x => scan_row r i j2len (b2j autojunk b x) ∅ best
      | None => (j2len, best)
      end)
    (∅, Block (alo r) (blo r) 0) (seq (alo r) (ahi r - alo r)).

(** The two loops that extend the best match; those for junk elements do
    nothing, since no element is junk. *)
Fixpoint extend_left (r : region) (i j k : nat) : block :=
  match i, j with
  | S i', S j' =>
      if Nat.ltb (alo r) i && Nat.ltb (blo r) j && bool_decide (a !! i' = b !! j')
      then extend_left r i' j' (S k) else Block i j k
  | _, _ => Block i j k
  end.
Fixpoint extend_right (r : region) (fuel : nat) (m : block) : block :=
  match fuel with
  | O => m
  | S fuel =>
      let i := ai m + bsize m in let j := bj m + bsize m in
      if Nat.ltb i (ahi r) && Nat.ltb j (bhi r) && bool_decide (a !! i = b !! j)
      then extend_right r fuel (Block (ai m) (bj m) (S (bsize m))) else m
  end.
Definition find_longest_match (r : region) : block :=
  let best := (scan_rows r).2 in
  extend_right r (ahi r) (extend_left r (ai best) (bj best) (bsize best)).

(** ** The matching blocks *)
Definition left_of (r : region) (m : block) : region := Region (alo r) (ai m) (blo r) (bj m).
Definition right_of (r : region) (m : block) : region :=
  Region (ai m + bsize m) (ahi r) (bj m + bsize m) (bhi r).
Definition nonempty (r : region) : bool := Nat.ltb (alo r) (ahi r) && Nat.ltb (blo r) (bhi r).
(** The end of Python's queue is the head of the list. *)
Fixpoint all_matches (fuel : nat) (queue : list region) (found : list block) : option (list block) :=
  match queue, fuel with
  | [], _ => Some found
  | _, O => None
  | r :: queue, S fuel =>
      let m := find_longest_match r in
      if Nat.eqb (bsize m) 0 then all_matches fuel queue found
      else
        all_matches fuel
          ((if nonempty (right_of r m) then [right_of r m] else []) ++
           (if nonempty (left_of r m) then [left_of r m] else []) ++ queue)
          (found ++ [m])
  end.
(** The order of tuples. *)
Definition block_leb (x y : block) : bool :=
  if Nat.eqb (ai x) (ai y) then
    if Nat.eqb (bj x) (bj y) then Nat.leb (bsize x) (bsize y) else Nat.ltb (bj x) (bj y)
  else Nat.ltb (ai x) (ai y).
Fixpoint collapse (cur : block) (l : list block) : list block :=
  match l with
  | [] => if Nat.eqb (bsize cur) 0 then [] else [cur]
  | m :: l =>
      if Nat.eqb (ai cur + bsize cur) (ai m) && Nat.eqb (bj cur + bsize cur) (bj m)
      then collapse (Block (ai cur) (bj cur) (bsize cur + bsize m)) l
      else (if Nat.eqb (bsize cur) 0 then [] else [cur]) ++ collapse m l
  end.
Definition whole : region := Region 0 (length a) 0 (length b).
(** A range of [a] of width [w] is taken from the queue at most [2w + 1] times. *)
Definition get_matching_blocks : option (list block) :=
  found ← all_matches (2 * length a + 1) [whole] [];
  Some (collapse (Block 0 0 0) (py_sorted block_leb found) ++ [Block (length a) (length b) 0]).

(** ** Opcodes *)
Definition change (i i' j j' : nat) : list opcode :=
  if Nat.ltb i i' && Nat.ltb j j' then [Op Replace i i' j j']
  else if Nat.ltb i i' then [Op Delete i i' j j']
  else if Nat.ltb j j' then [Op Insert i i' j j'] else [].
Fixpoint opcodes_from (i j : nat) (blocks : list block) : list opcode :=
  match blocks with
  | [] => []
  | m :: blocks =>
      change i (ai m) j (bj m) ++
      (if Nat.eqb (bsize m) 0 then [] else [Op Equal (ai m) (ai m + bsize m) (bj m) (bj m + bsize m)]) ++
      opcodes_from (ai m + bsize m) (bj m + bsize m) blocks
  end.
Definition get_opcodes : option (list opcode) := opcodes_from 0 0 <$> get_matching_blocks.
End ranges.
End difflib.

(** ** Groups with [n] elements of context *)
Definition is_equal (o : opcode) : bool := bool_decide (op_tag o = Equal).
Definition keep_end (n : nat) (o : opcode) : opcode :=
  Op (op_tag o) (Nat.max (i1 o) (i2 o - n)) (i2 o) (Nat.max (j1 o) (j2 o - n)) (j2 o).
Definition keep_start (n : nat) (o : opcode) : opcode :=
  Op (op_tag o) (i1 o) (Nat.min (i2 o) (i1 o + n)) (j1 o) (Nat.min (j2 o) (j1 o + n)).
Definition fix_first (n : nat) (codes : list opcode) : list opcode :=
  match codes with o :: l => (if is_equal o then keep_end n o else o) :: l | [] => [] end.
Fixpoint fix_last (n : nat) (codes : list opcode) : list opcode :=
  match codes with
  | [] => []
  | [o] => [if is_equal o then keep_start n o else o]
  | o :: l => o :: fix_last n l
  end.
Fixpoint group_codes (n : nat) (group codes : list opcode) : list (list opcode) :=
  match codes with
  | [] =>
      match group with
      | [] => []
      | [o] => if is_equal o then [] else [group]
      | _ => [group]
      end
  | o :: codes =>
      if is_equal o && Nat.ltb (n + n) (i2 o - i1 o)
      then (group ++ [keep_start n o]) :: group_codes n [keep_end n o] codes
      else group_codes n (group ++ [o]) codes
  end.
Definition get_grouped_opcodes (n : nat) (codes : list opcode) : list (list opcode) :=
  let codes := match codes with [] => [Op Equal 0 1 0 1] | _ => codes end in
  group_codes n [] (fix_last n (fix_first n codes)).

(** ** Ranges that hold the same elements *)
Section laws.
Context {A : Type} `{EqDecision A} (a b : list A).

Definition common (i j k : nat) : Prop := ∀ n, n < k → a !! (i + n) = b !! (j + n).
Definition same (i i' j j' : nat) : Prop :=
  i ≤ i' ∧ j ≤ j' ∧ i' - i = j' - j ∧ common i j (i' - i).

Lemma common_shift i j k d : common i j (d + k) → common (i + d) (j + d) k.
Proof. intros H n Hn. rewrite <-!Nat.add_assoc. apply H. lia. Qed.
Lemma common_le i j k k' : common i j k → k' ≤ k → common i j k'.
Proof. intros H Hk n Hn. apply H. lia. Qed.
Lemma common_app i j k k' : common i j k → common (i + k) (j + k) k' → common i j (k + k').
Proof.
  intros H H' n Hn. destruct (decide (n < k)); [by apply H|].
  specialize (H' (n - k) ltac:(lia)).
  by replace (i + n) with (i + k + (n - k)) by lia; replace (j + n) with (j + k + (n - k)) by lia.
Qed.
Lemma common_one i j : a !! i = b !! j → common i j 1.
Proof. intros H n Hn. replace n with 0 by lia. by rewrite !Nat.add_0_r. Qed.
Lemma common_none i j : common i j 0.
Proof. intros n Hn. lia. Qed.
Lemma common_snoc i j k : common i j k → a !! (i + k) = b !! (j + k) → common i j (S k).
Proof. intros H Hk. rewrite <-Nat.add_1_r. by apply common_app, common_one. Qed.

Lemma same_refl i j : same i i j j.
Proof. repeat split; try lia. rewrite Nat.sub_diag. apply common_none. Qed.
Lemma same_trans i i' i'' j j' j'' : same i i' j j' → same i' i'' j' j'' → same i i'' j j''.
Proof.
  intros (? & ? & Hk & Hc) (? & ? & Hk' & Hc'). repeat split; try lia.
  replace (i'' - i) with ((i' - i) + (i'' - i')) by lia. apply common_app; [done|].
  by replace (i + (i' - i)) with i' by lia; replace (j + (i' - i)) with j' by lia.
Qed.
Lemma same_cut i i' j j' d : same i i' j j' → d ≤ i' - i →
  same i (i + d) j (j + d) ∧ same (i + d) i' (j + d) j'.
Proof.
  intros (? & ? & Hk & Hc) Hd. split; repeat split; try lia.
  - eapply common_le; [exact Hc|lia].
  - apply common_shift. eapply common_le; [exact Hc|lia].
Qed.
Lemma same_sub i i' j j' : same i i' j j' → i' ≤ length a → j' ≤ length b → sub a i i' = sub b j j'.
Proof.
  intros (? & ? & Hk & Hc) Ha Hb. apply list_eq. intros n.
  destruct (decide (n < i' - i)).
  - rewrite !sub_lookup by lia. by apply Hc.
  - by rewrite !sub_lookup_ge by lia.
Qed.

(** ** What a list of opcodes promises *)
Definition op_ok (o : opcode) : Prop :=
  match op_tag o with
  | Equal => i1 o < i2 o ∧ same (i1 o) (i2 o) (j1 o) (j2 o)
  | Replace => i1 o < i2 o ∧ j1 o < j2 o
  | Delete => i1 o < i2 o ∧ j1 o = j2 o
  | Insert => i1 o = i2 o ∧ j1 o < j2 o
  end.
(** The opcodes lead from [i], [j] to [i'], [j'], one where the other ends. *)
Fixpoint script (i j : nat) (ops : list opcode) (i' j' : nat) : Prop :=
  match ops with
  | [] => i = i' ∧ j = j'
  | o :: ops => i1 o = i ∧ j1 o = j ∧ op_ok o ∧ script (i2 o) (j2 o) ops i' j'
  end.
(** Ranges with the same elements may be left out between them. *)
Definition op_weak (o : opcode) : Prop :=
  i1 o ≤ i2 o ∧ j1 o ≤ j2 o ∧ (op_tag o = Equal → same (i1 o) (i2 o) (j1 o) (j2 o)).
Fixpoint gapped (i j : nat) (ops : list opcode) (i' j' : nat) : Prop :=
  match ops with
  | [] => same i i' j j'
  | o :: ops => same i (i1 o) j (j1 o) ∧ op_weak o ∧ gapped (i2 o) (j2 o) ops i' j'
  end.

Lemma op_ok_weak o : op_ok o → op_weak o.
Proof.
  unfold op_ok, op_weak. destruct (op_tag o) eqn:E; intros H; split_and!; try done; try lia.
  - destruct H as [_ (? & ? & _)]. lia.
  - by destruct H.
Qed.
Lemma script_app i j l1 l2 i' j' : script i j (l1 ++ l2) i' j' ↔
  ∃ m n, script i j l1 m n ∧ script m n l2 i' j'.
Proof.
  revert i j. induction l1 as [|o l1 IH]; intros i j; cbn.
  - split; [by exists i, j|]. by intros (m & n & [-> ->] & ?).
  - rewrite IH. naive_solver.
Qed.
Lemma script_gapped i j ops i' j' : script i j ops i' j' → gapped i j ops i' j'.
Proof.
  revert i j. induction ops as [|o ops IH]; intros i j; cbn.
  - intros [-> ->]. apply same_refl.
  - intros (<- & <- & Ho & ?). eauto using same_refl, op_ok_weak.
Qed.
Lemma gapped_app i j l1 l2 i' j' : gapped i j (l1 ++ l2) i' j' ↔
  ∃ m n, gapped i j l1 m n ∧ gapped m n l2 i' j'.
Proof.
  revert i j. induction l1 as [|o l1 IH]; intros i j; cbn.
  - split; [exists i, j; eauto using same_refl|]. intros (m & n & Hs & Hg).
    destruct l2 as [|o l2]; cbn in *; [by eapply same_trans|].
    destruct Hg as (? & ? & ?). eauto using same_trans.
  - rewrite IH. naive_solver.
Qed.
Lemma gapped_same i j o l i' j' : op_tag o = Equal → gapped i j (o :: l) i' j' → gapped i j l i' j'.
Proof.
  intros Ho (Hs & (_ & _ & He) & Hg). specialize (He Ho).
  assert (same i (i2 o) j (j2 o)) by eauto using same_trans.
  destruct l as [|o' l]; cbn in *; [by eapply same_trans|].
  destruct Hg as (? & ? & ?). eauto using same_trans.
Qed.
Lemma gapped_le i j l i' j' : gapped i j l i' j' → i ≤ i' ∧ j ≤ j'.
Proof.
  revert i j. induction l as [|o l IH]; intros i j; cbn; [intros (? & ? & _); lia|].
  intros ((? & ? & _) & (? & ? & _) & [? ?]%IH). lia.
Qed.
End laws.
Arguments same_trans {A a b i i' i'' j j' j''}.

(** ** The longest match is a match *)
Section matching.
Context {A : Type} `{EqDecision A} (autojunk : bool) (a b : list A).
Notation common := (common a b).

Definition matched (r : region) (m : block) : Prop :=
  alo r ≤ ai m ∧ ai m + bsize m ≤ ahi r ∧ blo r ≤ bj m ∧ bj m + bsize m ≤ bhi r ∧
  common (ai m) (bj m) (bsize m).
Definition row_ok (r : region) (i : nat) (lengths : gmap nat nat) : Prop :=
  ∀ j k, lengths !! j = Some k → alo r + k ≤ i ∧ blo r + k ≤ S j ∧ common (i - k) (S j - k) k.

Lemma elem_of_indices x j : j ∈ indices b x → b !! j = Some x.
Proof.
  unfold indices. intros ([j' y] & -> & [Hy Hj]%list_elem_of_filter)%list_elem_of_fmap.
  cbn in *. subst y. apply elem_of_lookup_imap in Hj as (n & z & [= -> ->] & Hz). done.
Qed.
Lemma elem_of_b2j x j : j ∈ b2j autojunk b x → b !! j = Some x.
Proof. unfold b2j. destruct (popular _ _ _); [set_solver|]. apply elem_of_indices. Qed.

Lemma len_before_ok r i lengths j : row_ok r i lengths → blo r ≤ j → alo r ≤ i →
  let k := len_before lengths j in
  alo r + k ≤ i ∧ blo r + k ≤ j ∧ common (i - k) (j - k) k.
Proof.
  intros Hrow Hj Hi. cbn zeta.
  destruct j as [|j]; cbn; [split_and!; [lia..|apply common_none]|].
  destruct (lengths !! j) as [k|] eqn:E; cbn; [|split_and!; [lia..|apply common_none]].
  destruct (Hrow j k E) as (? & ? & Hc). done.
Qed.

Lemma scan_row_ok r i x lengths js new best : row_ok r i lengths → row_ok r (S i) new →
  matched r best → alo r ≤ i → i < ahi r → a !! i = Some x → (∀ j, j ∈ js → b !! j = Some x) →
  let '(new, best) := scan_row r i lengths js new best in row_ok r (S i) new ∧ matched r best.
Proof.
  intros Hrow Hnew Hbest Hi Hhi Hx Hjs. revert new best Hnew Hbest.
  induction js as [|j js IH]; intros new best Hnew Hbest; cbn [scan_row]; [done|].
  destruct (Nat.ltb_spec j (blo r)); [apply IH; try done; set_solver|].
  destruct (Nat.leb_spec (bhi r) j); [done|].
  destruct (len_before_ok r i lengths j) as (Ha & Hb & Hc); [done..|].
  set (k := len_before lengths j) in *.
  assert (common (i - k) (j - k) (k + 1)) as Hk.
  { rewrite Nat.add_1_r. apply common_snoc; [done|].
    replace (i - k + k) with i by lia. replace (j - k + k) with j by lia.
    rewrite Hx. symmetry. apply Hjs. set_solver. }
  apply IH; [set_solver|..].
  - intros j' k'. rewrite lookup_insert_Some. intros [[<- <-]|[_ Hj']]; [|by apply Hnew].
    split_and!; [lia..|].
    by replace (S i - (k + 1)) with (i - k) by lia; replace (S j - (k + 1)) with (j - k) by lia.
  - destruct (Nat.ltb _ _); [|done]. split_and!; cbn; [lia..|].
    by replace (i + 1 - (k + 1)) with (i - k) by lia; replace (j + 1 - (k + 1)) with (j - k) by lia.
Qed.

Definition in_bounds (r : region) : Prop :=
  alo r ≤ ahi r ∧ ahi r ≤ length a ∧ blo r ≤ bhi r ∧ bhi r ≤ length b.

Lemma scan_rows_ok r : in_bounds r → matched r (scan_rows autojunk a b r).2.
Proof.
  intros (Ha & Hla & Hb & _). unfold scan_rows.
  set (f := λ '(_, _) _, _).
  assert (∀ n i lengths best, i + n = ahi r → alo r ≤ i → row_ok r i lengths → matched r best →
    matched r (foldl f (lengths, best) (seq i n)).2) as H.
  { induction n as [|n IH]; intros i lengths best Hn Hi Hrow Hbest; [done|]. cbn.
    destruct (lookup_lt_is_Some_2 a i) as [x Hx]; [lia|]. rewrite Hx.
    pose proof (scan_row_ok r i x lengths (b2j autojunk b x) ∅ best Hrow) as Hr.
    destruct (scan_row _ _ _ _ _ _) as [new best'].
    destruct Hr as [Hr Hb']; [by intros ?? ?%lookup_empty_Some|done..|lia|done|by apply elem_of_b2j|].
    apply IH; [lia..|done|done]. }
  apply H; [lia|done|by intros ?? ?%lookup_empty_Some|].
  split_and!; cbn; [lia..|apply common_none].
Qed.

Lemma extend_left_ok r i j k : matched r (Block i j k) → matched r (extend_left a b r i j k).
Proof.
  revert j k. induction i as [|i IH]; intros j k Hm; [done|]. destruct j as [|j]; [done|].
  cbn [extend_left]. destruct (_ && _) eqn:E; [|done]. bool_prop. apply IH.
  destruct Hm as (Hal & Hah & Hbl & Hbh & Hc). cbn -[matched] in *. split_and!; cbn; [lia..|].
  change (S k) with (1 + k). apply common_app; [by apply common_one|].
  by rewrite !Nat.add_1_r.
Qed.
Lemma extend_right_ok r fuel m : matched r m → matched r (extend_right a b r fuel m).
Proof.
  revert m. induction fuel as [|fuel IH]; intros m Hm; [done|]. cbn [extend_right].
  destruct (_ && _) eqn:E; [|done]. bool_prop. apply IH.
  destruct Hm as (? & ? & ? & ? & Hc). split_and!; cbn; [lia..|]. by apply common_snoc.
Qed.
Lemma longest_match_ok r : in_bounds r → matched r (find_longest_match autojunk a b r).
Proof.
  intros Hr. apply extend_right_ok, extend_left_ok.
  pose proof (scan_rows_ok r Hr) as H. by destruct (scan_rows _ _ _ _).2.
Qed.

(** ** The blocks, in order and apart *)
Definition before (r s : region) : Prop := ahi r ≤ alo s ∧ bhi r ≤ blo s.
Definition apart (r s : region) : Prop := before r s ∨ before s r.
Definition inside (r s : region) : Prop :=
  alo s ≤ alo r ∧ ahi r ≤ ahi s ∧ blo s ≤ blo r ∧ bhi r ≤ bhi s.
Definition region_of (m : block) : region :=
  Region (ai m) (ai m + bsize m) (bj m) (bj m + bsize m).

Lemma apart_inside r s t : apart s t → inside r s → apart r t.
Proof. unfold apart, before, inside. intros; lia. Qed.
Lemma apart_sym r s : apart r s → apart s r.
Proof. unfold apart. tauto. Qed.

(** What is cut from a range at its longest match. *)
Definition pieces (r : region) (m : block) : list region :=
  (if nonempty (right_of r m) then [right_of r m] else []) ++
  (if nonempty (left_of r m) then [left_of r m] else []).
Lemma pieces_spec r m s : matched r m → s ∈ pieces r m →
  inside s r ∧ (in_bounds r → in_bounds s) ∧ apart s (region_of m) ∧ alo s < ahi s.
Proof.
  unfold pieces, nonempty, matched. intros (? & ? & ? & ? & _).
  rewrite elem_of_app. intros [Hs|Hs]; case_match; bool_prop; try set_solver;
    apply list_elem_of_singleton in Hs as ->; cbn in *;
    unfold inside, in_bounds, apart, before; cbn; lia.
Qed.
Lemma pieces_apart r m : matched r m → ForallOrdPairs apart (pieces r m).
Proof.
  unfold matched, pieces. intros (? & ? & ? & ? & _).
  do 2 case_match; cbn; repeat first [apply FOP_nil | apply FOP_cons | apply Forall_cons; split | apply Forall_nil_2].
  unfold apart, before; cbn; lia.
Qed.
Lemma pairs_app {B} (R : B → B → Prop) l1 l2 : ForallOrdPairs R l1 → ForallOrdPairs R l2 →
  (∀ x y, x ∈ l1 → y ∈ l2 → R x y) → ForallOrdPairs R (l1 ++ l2).
Proof.
  induction 1 as [|x l1 Hx _ IH]; intros H2 HR; cbn; [done|]. constructor.
  - apply Forall_app. split; [done|]. apply Forall_forall. set_solver.
  - apply IH; [done|]. set_solver.
Qed.
Lemma pairs_perm {B} (R : B → B → Prop) l1 l2 : (∀ x y, R x y → R y x) →
  l1 ≡ₚ l2 → ForallOrdPairs R l1 → ForallOrdPairs R l2.
Proof.
  intros Hsym. induction 1 as [|x l1 l2 Hp IH|x y l|l1 l2 l3 _ IH1 _ IH2]; intros H; [done|..].
  - inversion_clear H. constructor; [by rewrite <-Hp|auto].
  - inversion_clear H as [|?? Hy Hl]. inversion_clear Hl as [|?? Hx Hl'].
    apply Forall_cons in Hy as [Hyx Hy]. repeat constructor; auto.
  - auto.
Qed.

(** What holds of the blocks found and the ranges still in the queue. *)
Record search_ok (queue : list region) (found : list block) : Prop := {
  queue_bounds : Forall in_bounds queue;
  found_matched : Forall (λ m, matched (whole a b) m ∧ 0 < bsize m) found;
  all_apart : ForallOrdPairs apart (queue ++ (region_of <$> found));
}.
Fixpoint measure (queue : list region) : nat :=
  match queue with [] => 0 | r :: queue => 2 * (ahi r - alo r) + 1 + measure queue end.

Lemma measure_app l1 l2 : measure (l1 ++ l2) = measure l1 + measure l2.
Proof. induction l1 as [|r l1 IH]; cbn; [done|]. rewrite IH. lia. Qed.
Lemma measure_pieces r m : matched r m → bsize m ≠ 0 → measure (pieces r m) < 2 * (ahi r - alo r) + 1.
Proof.
  unfold matched, pieces. intros (? & ? & ? & ? & _) Hk.
  do 2 case_match; cbn [app measure alo ahi left_of right_of]; lia.
Qed.

Lemma search_step r queue found : search_ok (r :: queue) found →
  let m := find_longest_match autojunk a b r in
  matched r m ∧
  (bsize m ≠ 0 → search_ok (pieces r m ++ queue) (found ++ [m])) ∧
  search_ok queue found.
Proof.
  intros [Hq Hf Hp] m. apply Forall_cons in Hq as [Hr Hq].
  pose proof (longest_match_ok r Hr) as Hm. fold m in Hm.
  cbn in Hp. inversion_clear Hp as [|?? Hrest Hp']. rewrite Forall_forall in Hrest.
  split_and!; [done| |by constructor].
  assert (∀ s, s ∈ region_of m :: pieces r m → inside s r) as Hin.
  { intros s [->|Hs]%elem_of_cons; [|by apply (pieces_spec r m)].
    destruct Hm as (? & ? & ? & ? & _). unfold inside; cbn; lia. }
  intros Hk. constructor.
  - apply Forall_app. split; [|done]. apply Forall_forall. intros s Hs. by apply (pieces_spec r m).
  - apply Forall_app. split; [done|]. constructor; [|done]. split; [|lia].
    destruct Hm as (? & ? & ? & ? & ?), Hr as (? & ? & ? & ?). unfold matched; cbn.
    split_and!; [lia..|done].
  - apply (pairs_perm _ ((region_of m :: pieces r m) ++ (queue ++ (region_of <$> found)))); [apply apart_sym|..].
    { rewrite fmap_app. cbn [app fmap list_fmap]. rewrite <-!app_assoc, !(app_assoc (pieces r m)).
      rewrite !app_assoc. apply Permutation_cons_append. }
    apply pairs_app; [constructor; [|by apply pieces_apart]|done|].
    + apply Forall_forall. intros s Hs. apply apart_sym. by apply (pieces_spec r m).
    + intros x y Hx Hy. eapply apart_inside; [by apply Hrest|]. by apply Hin.
Qed.

Lemma all_matches_total fuel queue found : search_ok queue found → measure queue ≤ fuel →
  ∃ l, all_matches autojunk a b fuel queue found = Some l ∧ search_ok [] l.
Proof.
  revert queue found. induction fuel as [|fuel IH]; intros queue found Hs Hf.
  { destruct queue; [by exists found|cbn in Hf; lia]. }
  destruct queue as [|r queue]; [by exists found|]. cbn [all_matches]. cbn [measure] in Hf.
  destruct (search_step r queue found Hs) as (Hm & Hk & H0).
  destruct (Nat.eqb_spec (bsize (find_longest_match autojunk a b r)) 0) as [|Hne].
  - apply IH; [done|lia].
  - rewrite app_assoc. apply IH; [by apply Hk|].
    fold (pieces r (find_longest_match autojunk a b r)). rewrite measure_app.
    pose proof (measure_pieces _ _ Hm Hne). lia.
Qed.
Lemma search_start : search_ok [whole a b] [].
Proof. constructor; repeat constructor; cbn; lia. Qed.

Lemma block_leb_total x y : block_leb x y = true ∨ block_leb y x = true.
Proof.
  unfold block_leb. repeat case_match; bool_prop;
    rewrite ?Nat.eqb_neq, ?Nat.leb_le, ?Nat.ltb_lt, ?Nat.eqb_eq in *; lia.
Qed.
Lemma block_leb_trans x y z : block_leb x y = true → block_leb y z = true → block_leb x z = true.
Proof.
  unfold block_leb. repeat case_match; bool_prop;
    rewrite ?Nat.eqb_neq, ?Nat.leb_le, ?Nat.ltb_lt, ?Nat.eqb_eq in *; try lia; done.
Qed.

(** Blocks one after the other, from [i] and [j] on. *)
Fixpoint blocks_from (i j : nat) (l : list block) (i' j' : nat) : Prop :=
  match l with
  | [] => i ≤ i' ∧ j ≤ j'
  | m :: l => i ≤ ai m ∧ j ≤ bj m ∧ common (ai m) (bj m) (bsize m) ∧
              blocks_from (ai m + bsize m) (bj m + bsize m) l i' j'
  end.
Lemma blocks_from_start i j l i' j' k n : blocks_from i j l i' j' → k ≤ i → n ≤ j → blocks_from k n l i' j'.
Proof. destruct l as [|m l]; cbn; [lia|]. intros (? & ? & ?) ? ?. split_and!; [lia..|tauto|tauto]. Qed.

Lemma sorted_blocks i j l : StronglySorted block_leb l → ForallOrdPairs apart (region_of <$> l) →
  Forall (λ m, matched (whole a b) m ∧ 0 < bsize m) l → i ≤ length a → j ≤ length b →
  Forall (λ m, i ≤ ai m ∧ j ≤ bj m) l → blocks_from i j l (length a) (length b).
Proof.
  intros Hsort. revert i j. induction Hsort as [|m l _ IH Hm]; intros i j Hp Hf Hi Hj Hs; cbn; [done|].
  apply Forall_cons in Hs as [[? ?] Hs]. apply Forall_cons in Hf as [[(? & ? & ? & ? & Hc) ?] Hf].
  cbn in *. inversion_clear Hp as [|?? Hap Hp']. split_and!; [done..|].
  apply IH; try done; try lia. apply Forall_forall. intros y Hy.
  rewrite Forall_forall in Hap. rewrite Forall_forall in Hm. rewrite Forall_forall in Hf.
  specialize (Hm y Hy). apply Is_true_true in Hm.
  destruct (Hf y Hy) as [_ ?].
  destruct (Hap (region_of y)) as [Hb|Hb]; [by apply list_elem_of_fmap_2|..]; unfold before in Hb; cbn in Hb.
  - done.
  - exfalso. unfold block_leb in Hm. repeat case_match; bool_prop;
      rewrite ?Nat.eqb_neq, ?Nat.leb_le, ?Nat.ltb_lt, ?Nat.eqb_eq in *; lia.
Qed.

Lemma collapse_ok i j cur l i' j' : blocks_from i j (cur :: l) i' j' → blocks_from i j (collapse cur l) i' j'.
Proof.
  revert i j cur. induction l as [|m l IH]; intros i j cur (Hi & Hj & Hc & Hl); cbn [collapse].
  - destruct (Nat.eqb_spec (bsize cur) 0) as [E|]; cbn in *; [|done]. rewrite E in Hl. lia.
  - destruct (_ && _) eqn:E; bool_prop.
    + apply IH. cbn in *. destruct Hl as (? & ? & Hm & Hl). split_and!; [done..| |].
      * apply common_app; [done|].
        by replace (ai cur + bsize cur) with (ai m); replace (bj cur + bsize cur) with (bj m).
      * eapply blocks_from_start; [exact Hl|lia..].
    + destruct (Nat.eqb_spec (bsize cur) 0) as [Ez|]; cbn [app].
      * apply IH. eapply blocks_from_start; [exact Hl|lia..].
      * cbn. split_and!; [done..|]. by apply IH.
Qed.

Lemma matching_blocks_ok : ∃ l, get_matching_blocks autojunk a b = Some (l ++ [Block (length a) (length b) 0]) ∧
  blocks_from 0 0 l (length a) (length b).
Proof.
  destruct (all_matches_total (2 * length a + 1) [whole a b] [] search_start) as (l & Hl & Hs).
  { cbn. lia. }
  unfold get_matching_blocks. rewrite Hl. cbn [mbind option_bind]. eexists. split; [done|].
  apply collapse_ok. cbn. split_and!; [lia..|apply common_none|].
  destruct Hs as [_ Hf Hp]. apply sorted_blocks; try lia.
  - apply py_sorted_ssorted; [apply block_leb_total|apply block_leb_trans].
  - eapply pairs_perm; [apply apart_sym| |exact Hp]. cbn. by rewrite py_sorted_perm.
  - by rewrite py_sorted_perm.
  - apply Forall_forall. lia.
Qed.

(** ** The opcodes lead from one sequence to the other *)
Lemma change_ok i i' j j' : i ≤ i' → j ≤ j' → script a b i j (change i i' j j') i' j'.
Proof.
  intros. unfold change, op_ok.
  destruct (Nat.ltb_spec i i'), (Nat.ltb_spec j j'); cbn; split_and!; (done || lia).
Qed.
Lemma opcodes_ok i j l i' j' : blocks_from i j l i' j' →
  script a b i j (opcodes_from i j (l ++ [Block i' j' 0])) i' j'.
Proof.
  revert i j. induction l as [|m l IH]; intros i j; cbn [app opcodes_from].
  - intros [? ?]. cbn. rewrite app_nil_r. by apply change_ok.
  - intros (? & ? & Hc & Hl). apply script_app. exists (ai m), (bj m). split; [by apply change_ok|].
    specialize (IH _ _ Hl). destruct (Nat.eqb_spec (bsize m) 0) as [E|]; cbn [app].
    { rewrite E, !Nat.add_0_r in IH |- *. exact IH. }
    split; [done|]. split; [done|]. split; [|done]. unfold op_ok, same. cbn.
    split_and!; [lia..|]. by replace (ai m + bsize m - ai m) with (bsize m) by lia.
Qed.

(** The matcher answers, and its opcodes turn [a] into [b]. *)
Lemma get_opcodes_script : ∃ ops, get_opcodes autojunk a b = Some ops ∧
  script a b 0 0 ops (length a) (length b).
Proof.
  destruct matching_blocks_ok as (l & Hl & Hb). unfold get_opcodes. rewrite Hl.
  eexists. split; [done|]. by apply opcodes_ok.
Qed.
End matching.

(** ** Groups leave out only elements that are the same *)
Definition changes (ops : list opcode) : list opcode := filter (λ o, is_equal o = false) ops.
Lemma changes_app l1 l2 : changes (l1 ++ l2) = changes l1 ++ changes l2.
Proof. apply filter_app. Qed.
Lemma changes_equal o l : is_equal o = true → changes (o :: l) = changes l.
Proof. intros H. unfold changes. rewrite filter_cons, decide_False; [done|]. by rewrite H. Qed.

Section groups.
Context {A : Type} `{EqDecision A} (a b : list A) (n : nat).
Notation same := (same a b).
Notation gapped := (gapped a b).

Lemma keep_end_spec o : op_weak a b o → is_equal o = true →
  same (i1 o) (i1 (keep_end n o)) (j1 o) (j1 (keep_end n o)) ∧ op_weak a b (keep_end n o).
Proof.
  intros (Hi & Hj & Hs) He%bool_decide_eq_true. specialize (Hs He).
  destruct (same_cut a b _ _ _ _ (i2 o - i1 o - n) Hs) as [Hl Hr]; [lia|].
  destruct Hs as (_ & _ & Heq & _). unfold keep_end, op_weak. cbn.
  replace (Nat.max (i1 o) (i2 o - n)) with (i1 o + (i2 o - i1 o - n)) by lia.
  replace (Nat.max (j1 o) (j2 o - n)) with (j1 o + (i2 o - i1 o - n)) by lia.
  split_and!; [done|lia|lia|done].
Qed.
Lemma keep_start_spec o : op_weak a b o → is_equal o = true →
  same (i2 (keep_start n o)) (i2 o) (j2 (keep_start n o)) (j2 o) ∧ op_weak a b (keep_start n o).
Proof.
  intros (Hi & Hj & Hs) He%bool_decide_eq_true. specialize (Hs He).
  destruct (same_cut a b _ _ _ _ (Nat.min (i2 o - i1 o) n) Hs) as [Hl Hr]; [lia|].
  destruct Hs as (_ & _ & Heq & _). unfold keep_start, op_weak. cbn.
  replace (Nat.min (i2 o) (i1 o + n)) with (i1 o + Nat.min (i2 o - i1 o) n) by lia.
  replace (Nat.min (j2 o) (j1 o + n)) with (j1 o + Nat.min (i2 o - i1 o) n) by lia.
  split_and!; [done|lia|lia|done].
Qed.
Lemma gapped_keep_end i j o l i' j' : is_equal o = true →
  gapped i j (o :: l) i' j' → gapped i j (keep_end n o :: l) i' j'.
Proof.
  intros He (Hs & Ho & Hl). destruct (keep_end_spec o Ho He).
  split; [by eapply same_trans|]. done.
Qed.
Lemma gapped_keep_start i j o l i' j' : is_equal o = true →
  gapped i j (o :: l) i' j' → gapped i j (keep_start n o :: l) i' j'.
Proof.
  intros He (Hs & Ho & Hl). destruct (keep_start_spec o Ho He) as [Hk ?].
  split; [done|]. split; [done|].
  destruct l as [|o' l]; cbn [gapped] in Hl |- *; [by eapply same_trans|].
  destruct Hl as (? & ? & ?). eauto using same_trans.
Qed.
Lemma gapped_fix_first i j l i' j' : gapped i j l i' j' → gapped i j (fix_first n l) i' j'.
Proof.
  destruct l as [|o l]; [done|]. cbn [fix_first]. destruct (is_equal o) eqn:E; [|done].
  by apply gapped_keep_end.
Qed.
Lemma gapped_fix_last i j l i' j' : gapped i j l i' j' → gapped i j (fix_last n l) i' j'.
Proof.
  revert i j. induction l as [|o l IH]; intros i j Hg; [done|].
  destruct l as [|o' l].
  - cbn [fix_last]. destruct (is_equal o) eqn:E; [|done]. by apply gapped_keep_start.
  - destruct Hg as (? & ? & Hg). change (fix_last n (o :: o' :: l)) with (o :: fix_last n (o' :: l)).
    split; [done|]. split; [done|]. by apply IH.
Qed.

Lemma gapped_groups i j group codes i' j' : gapped i j (group ++ codes) i' j' →
  gapped i j (concat (group_codes n group codes)) i' j'.
Proof.
  revert i j group. induction codes as [|o codes IH]; intros i j group Hg; cbn [group_codes].
  - rewrite app_nil_r in Hg. destruct group as [|o group]; [done|].
    destruct group; [|by cbn [concat]; rewrite app_nil_r].
    destruct (is_equal o) eqn:E; [|done]. cbn [concat]. eapply gapped_same; [|exact Hg].
    by apply bool_decide_eq_true in E.
  - destruct (is_equal o && _) eqn:E.
    2: { apply IH. by rewrite <-app_assoc. }
    apply andb_true_iff in E as [He Hn%Nat.ltb_lt]. cbn [concat]. rewrite <-app_assoc.
    apply gapped_app in Hg as (m & k & H1 & Hs & Ho & H2). apply gapped_app.
    exists m, k. split; [done|].
    destruct (keep_start_spec o Ho He) as [_ Hw], (keep_end_spec o Ho He) as [_ Hw'].
    split; [done|]. split; [done|]. apply IH. split; [|done].
    apply bool_decide_eq_true in He. pose proof (proj2 (proj2 Ho) He) as Hso.
    destruct (same_cut a b _ _ _ _ n Hso) as [_ Hr]; [lia|].
    destruct (same_cut a b _ _ _ _ (i2 o - i1 o - n - n) Hr) as [Hc _]; [lia|].
    destruct Hso as (_ & _ & Heq & _). cbn.
    replace (Nat.min (i2 o) (i1 o + n)) with (i1 o + n) by lia.
    replace (Nat.min (j2 o) (j1 o + n)) with (j1 o + n) by lia.
    replace (Nat.max (i1 o) (i2 o - n)) with (i1 o + n + (i2 o - i1 o - n - n)) by lia.
    by replace (Nat.max (j1 o) (j2 o - n)) with (j1 o + n + (i2 o - i1 o - n - n)) by lia.
Qed.

Lemma gapped_grouped ops : gapped 0 0 ops (length a) (length b) →
  gapped 0 0 (concat (get_grouped_opcodes n ops)) (length a) (length b).
Proof.
  intros Hg. unfold get_grouped_opcodes. destruct ops as [|o ops]; [by destruct n as [|[|?]]|].
  by apply gapped_groups, gapped_fix_last, gapped_fix_first.
Qed.
End groups.

(** The groups hold every change, in order. *)
Lemma is_equal_keep n o : is_equal (keep_start n o) = is_equal o ∧ is_equal (keep_end n o) = is_equal o.
Proof. done. Qed.
Lemma changes_groups n group codes :
  changes (concat (group_codes n group codes)) = changes (group ++ codes).
Proof.
  revert group. induction codes as [|o codes IH]; intros group; cbn [group_codes].
  - rewrite app_nil_r. destruct group as [|o [|o' group]]; [done| |by cbn [concat]; rewrite app_nil_r].
    destruct (is_equal o) eqn:E; [|done]. by rewrite changes_equal.
  - destruct (is_equal o && _) eqn:E.
    + apply andb_true_iff in E as [He _]. cbn [concat].
      rewrite <-app_assoc, changes_app. cbn [app].
      rewrite changes_equal, IH by done. cbn [app]. rewrite changes_equal by done.
      rewrite changes_app. by rewrite (changes_equal o).
    + rewrite IH. by rewrite <-app_assoc.
Qed.
Lemma changes_fix_first n l : changes (fix_first n l) = changes l.
Proof.
  destruct l as [|o l]; [done|]. cbn [fix_first]. destruct (is_equal o) eqn:E; [|done].
  by rewrite (changes_equal o), (changes_equal (keep_end n o)).
Qed.
Lemma changes_fix_last n l : changes (fix_last n l) = changes l.
Proof.
  induction l as [|o l IH]; [done|]. destruct l as [|o' l].
  - cbn [fix_last]. destruct (is_equal o) eqn:E; [|done].
    by rewrite (changes_equal o), (changes_equal (keep_start n o)).
  - change (fix_last n (o :: o' :: l)) with (o :: fix_last n (o' :: l)).
    change (changes ([o] ++ fix_last n (o' :: l)) = changes ([o] ++ o' :: l)).
    by rewrite !changes_app, IH.
Qed.
Lemma changes_grouped n ops : changes (concat (get_grouped_opcodes n ops)) = changes ops.
Proof.
  unfold get_grouped_opcodes. rewrite changes_groups, app_nil_l, changes_fix_last, changes_fix_first.
  by destruct ops.
Qed.
