(* ===== verification/DiffRender.v ===== *)
(** * Drawing a change as hunks

    Models [diff_render.py] and [safe_text] of [session_events.py]: the opcodes
    of a change after its common head and tail are set aside, their groups, the
    lines drawn for a file and for a turn, and the counts of the summary.  The
    width of text in columns is [rich]'s. *)

From stdpp Require Import pretty.
From S2P Require Import Prelude Canonical CanonicalLines JsonText Text TextLines Difflib.

(** [rich.cells.cell_len] *)
Class CellLen := cell_len : string → nat.
Definition plain_cells : CellLen := str_len.

(** ** Text that is safe to print *)
Definition unsafe_point (c : N) : bool :=
  (c <=? 8)%N || ((11 <=? c) && (c <=? 0x1F))%N || ((0x7F <=? c) && (c <=? 0x9F))%N.
Definition direction_mark (c : N) : bool :=
  (c =? 0x061C)%N || (c =? 0x200E)%N || (c =? 0x200F)%N ||
  ((0x202A <=? c) && (c <=? 0x202E))%N || ((0x2066 <=? c) && (c <=? 0x2069))%N.
Definition safe_points (cps : list N) : list N :=
  (λ c, if unsafe_point c || direction_mark c then 0xFFFD%N else c) <$>
  filter (λ c, c ≠ 13%N) cps.
Definition safe_text (text : string) : string := utf8_text (safe_points (utf8_decode text)).

(** ** Lines and rows *)
Fixpoint crlf_to_lf (s : string) : string :=
  match s with
  | String c (String d t as u) =>
      if Ascii.eqb c "013" && Ascii.eqb d newline then String newline (crlf_to_lf t)
      else String c (crlf_to_lf u)
  | _ => s
  end.
(** [text[:-1] if text.endswith("\n") else text] *)
Fixpoint without_last_newline (s : string) : string :=
  match s with
  | "" => ""
  | String c "" => if Ascii.eqb c newline then "" else s
  | String c t => String c (without_last_newline t)
  end.
Definition _lines (text : string) : list string :=
  match text with "" => [] | _ => split_char newline (without_last_newline text) end.
Definition _NUL_WINDOW : nat := Z.to_nat 8192.
Definition _is_binary (text : string) : bool :=
  str_exists (Ascii.eqb "000") (str_take _NUL_WINDOW text).
Definition _span (first last : nat) : string := pretty (first + 1) +:+ "-" +:+ pretty last.
Definition rjust (w : nat) (s : string) : string :=
  str_concat (replicate (w - String.length s) " ") +:+ s.
Definition _row (gutter number : nat) (marker text : string) : string :=
  rjust gutter (pretty number) +:+ " " +:+ marker +:+ " " +:+ safe_text text.
Definition _noun (count : nat) (word : string) : string :=
  pretty count +:+ " " +:+ word +:+ (if Nat.eqb count 1 then "" else "s").

(** ** The change as groups of opcodes *)
Fixpoint head_len (limit : nat) (old new : list string) : nat :=
  match limit, old, new with
  | S limit, x :: old, y :: new => if String.eqb x y then S (head_len limit old new) else 0
  | _, _, _ => 0
  end.
Definition shift (d : nat) (o : opcode) : opcode :=
  Op (op_tag o) (i1 o + d) (i2 o + d) (j1 o + d) (j2 o + d).
(** The matcher always answers: [get_opcodes_script]. *)
Definition _opcodes (old new : list string) (autojunk : bool) : list opcode :=
  let limit := Nat.min (length old) (length new) in
  let head := head_len limit old new in
  let tail := head_len (limit - head) (rev old) (rev new) in
  let middle := default [] (get_opcodes autojunk
    (sub old head (length old - tail)) (sub new head (length new - tail))) in
  (if Nat.eqb head 0 then [] else [Op Equal 0 head 0 head]) ++
  (shift head <$> middle) ++
  (if Nat.eqb tail 0 then []
   else [Op Equal (length old - tail) (length old) (length new - tail) (length new)]).

Definition _EXACT_DIFF_LINES : nat := Z.to_nat 1000.
Definition _MAX_DIFF_LINES : nat := Z.to_nat 2000.
Definition group_hunks (old_lines new_lines : list string) (context : nat) : option (list (list opcode)) :=
  let longest := Nat.max (length old_lines) (length new_lines) in
  if Nat.ltb _MAX_DIFF_LINES longest then None
  else Some (get_grouped_opcodes context
               (_opcodes old_lines new_lines (Nat.ltb _EXACT_DIFF_LINES longest))).

Definition adds (o : opcode) : bool := match op_tag o with Insert | Replace => true | _ => false end.
Definition removes (o : opcode) : bool := match op_tag o with Delete | Replace => true | _ => false end.
Fixpoint sum_of (f : opcode → nat) (ops : list opcode) : nat :=
  match ops with [] => 0 | o :: ops => f o + sum_of f ops end.
Definition hunk_counts (group : list opcode) : nat * nat :=
  (sum_of (λ o, if adds o then j2 o - j1 o else 0) group,
   sum_of (λ o, if removes o then i2 o - i1 o else 0) group).

(** Rows of the lines [k1] to [k2]. *)
Definition rows (gutter : nat) (marker : string) (ls : list string) (k1 k2 : nat) : list string :=
  imap (λ n line, _row gutter (k1 + n + 1) marker line) (sub ls k1 k2).
Definition _hunk_rows (path : string) (old_lines new_lines : list string) (group : list opcode)
    : list string :=
  let first := default (Op Equal 0 0 0 0) (head group) in
  let last := default (Op Equal 0 0 0 0) (last group) in
  let '(added, removed) := hunk_counts group in
  let gutter := String.length (pretty (Nat.max (Nat.max (i2 last) (j2 last)) 1)) in
  (path +:+ ": lines " +:+ _span (i1 first) (i2 last) +:+ " -> " +:+ _span (j1 first) (j2 last)
     +:+ ", +" +:+ pretty added +:+ " -" +:+ pretty removed)
  :: concat ((λ o,
       (if is_equal o then rows gutter " " old_lines (i1 o) (i2 o) else []) ++
       (if removes o then rows gutter "-" old_lines (i1 o) (i2 o) else []) ++
       (if adds o then rows gutter "+" new_lines (j1 o) (j2 o) else [])) <$> group).

Section render.
Context {W : CellLen}.

(** The characters that fit in [budget] columns. *)
Fixpoint fitting (budget used : nat) (cps : list N) : list N :=
  match cps with
  | [] => []
  | c :: cps =>
      let step := cell_len (utf8_encode c) in
      if Nat.ltb budget (used + step) then [] else c :: fitting budget (used + step) cps
  end.
Definition _fit (line : string) (width : nat) : string :=
  if Nat.leb (cell_len line) width then line
  else utf8_text (fitting (width - 3) 0 (utf8_decode line)) +:+ "...".
Definition _finish (ls : list string) (width : nat) (max_lines : N) : list string :=
  let fitted := (λ l, _fit l width) <$> ls in
  if (max_lines <? N.of_nat (length fitted))%N
  then take (N.to_nat max_lines) fitted
       ++ ["... " +:+ _noun (length fitted - N.to_nat max_lines) "more line"]
  else fitted.

Definition draw_hunk (path : string) (old_lines new_lines : list string) (group : list opcode)
    (width : nat) (max_lines : N) : list string :=
  _finish (_hunk_rows (safe_text path) old_lines new_lines group) width max_lines.

(** ** One file *)
Definition _NEW_FILE_PREVIEW : nat := 20.
Definition _file_level (path : string) (old new : option string) : list string :=
  let text := default "" (match old with None => new | Some _ => old end) in
  let marker := match old with None => "+" | Some _ => "-" end in
  let kind := match old with None => "new file" | Some _ => "deleted file" end in
  let ls := _lines text in
  let gutter := String.length (pretty (Nat.max (length ls) 1)) in
  (path +:+ ": " +:+ kind +:+ ", " +:+ _noun (length ls) "line")
  :: imap (λ n line, _row gutter (n + 1) marker line) (take _NEW_FILE_PREVIEW ls)
  ++ (if Nat.ltb _NEW_FILE_PREVIEW (length ls)
      then ["... " +:+ _noun (length ls - _NEW_FILE_PREVIEW) "more line"] else []).

Definition _line_ending_change (old new : string) : option string :=
  if negb (String.eqb (crlf_to_lf old) (crlf_to_lf new)) then None
  else if String.eqb old new then None
  else if has_crlf old && negb (has_crlf new) then Some "CRLF to LF"
  else if has_crlf new && negb (has_crlf old) then Some "LF to CRLF"
  else Some "mixed".

(** Two texts that are there and are no binary files. *)
Definition diff_texts (path old new : string) (width context : nat) (max_lines : N)
    : list string * nat * nat :=
  if String.eqb old new then ([], 0, 0)
  else match _line_ending_change old new with
  | Some ending => ([_fit (path +:+ ": line endings changed (" +:+ ending +:+ ")") width], 0, 0)
  | None =>
      let old_lines := _lines (crlf_to_lf old) in
      let new_lines := _lines (crlf_to_lf new) in
      let grown := length new_lines - length old_lines in
      let shrunk := length old_lines - length new_lines in
      match group_hunks old_lines new_lines context with
      | None =>
          (_finish [path +:+ ": file too large to draw a diff: " +:+ pretty (length old_lines)
             +:+ " -> " +:+ pretty (length new_lines) +:+ " lines; +" +:+ pretty grown
             +:+ " -" +:+ pretty shrunk +:+ " by line count"] width max_lines, grown, shrunk)
      | Some groups =>
          let out := concat (_hunk_rows path old_lines new_lines <$> groups) in
          let no_newline side text :=
            if negb (String.eqb text "") && negb (endswith text LF)
            then [path +:+ ": " +:+ side +:+ " text has no newline at end of file"] else [] in
          (_finish (out ++ no_newline "old" old ++ no_newline "new" new) width max_lines,
           foldr (λ g n, (hunk_counts g).1 + n) 0 groups,
           foldr (λ g n, (hunk_counts g).2 + n) 0 groups)
      end
  end.
Definition _diff (path : string) (old new : option string) (width context : nat) (max_lines : N)
    : list string * nat * nat :=
  let path := safe_text path in
  if bool_decide (Exists (λ t, _is_binary t = true) (omap id [old; new])) then
    let shown := match new with Some t => t | None => default "" old end in
    ([_fit (path +:+ ": binary file, " +:+ pretty (String.length shown) +:+ " bytes") width], 0, 0)
  else match old, new with
  | Some old, Some new => diff_texts path old new width context max_lines
  | None, _ => (_finish (_file_level path old new) width max_lines, length (_lines (default "" new)), 0)
  | Some text, None => (_finish (_file_level path old new) width max_lines, 0, length (_lines text))
  end.
Definition render_hunks (path : string) (old new : option string) (width context : nat) (max_lines : N)
    : list string := (_diff path old new width context max_lines).1.1.

(** ** A turn *)
Definition summarize (changes : list (string * nat * nat)) : string :=
  let added := foldr (λ c n, c.1.2 + n) 0 changes in
  let removed := foldr (λ c n, c.2 + n) 0 changes in
  if Nat.eqb added 0 && Nat.eqb removed 0 then "no changes"
  else _noun (length changes) "file" +:+ ", +" +:+ pretty added +:+ " -" +:+ pretty removed.

(** The lines of the files until one does not fit in what is left of [max_lines]. *)
Fixpoint turn_body (max_lines : nat) (body : list string) (rendered : list (list string)) : list string :=
  match rendered with
  | [] => body
  | ls :: rest =>
      if Nat.leb (length body + length ls) max_lines then turn_body max_lines (body ++ ls) rest
      else
        let left_after := length rest in
        let room := max_lines - length body - 1 - (if Nat.eqb left_after 0 then 0 else 1) in
        body
        ++ (if Nat.eqb room 0 then []
            else take room ls ++ ["... " +:+ _noun (length ls - room) "more line"])
        ++ (if Nat.eqb left_after 0 then []
            else ["... and " +:+ _noun (if Nat.eqb room 0 then S left_after else left_after) "more file"])
  end.
Definition NO_LIMIT : N := 1000000000.
Definition draw_turn_diff (changes : list (string * option string * option string))
    (width max_lines : nat) : list string :=
  let rendered := filter (λ r, r.1.1 ≠ [])
    ((λ '(path, before, after), _diff path before after width 3 NO_LIMIT) <$> changes) in
  match rendered with
  | [] => []
  | _ =>
      turn_body max_lines [] (rendered.*1.*1) ++
      [_noun (length rendered) "file" +:+ ", +" +:+ pretty (foldr (λ r n, r.1.2 + n) 0 rendered)
       +:+ " -" +:+ pretty (foldr (λ r n, r.2 + n) 0 rendered)]
  end.
End render.
