(* ===== verification/DiffRenderLaws.v ===== *)
(** * What the drawn hunks promise

    The opcodes of a change lead from the old lines to the new ones, the groups
    leave out only lines that are the same, the counts balance, and what is
    printed holds no character that could move the cursor or reorder a line. *)

From stdpp Require Import pretty.
From S2P Require Import Prelude Canonical CanonicalRead CanonicalScan CanonicalLines JsonText Text TextLines Difflib DiffRender.

(** ** The common head and tail *)
Lemma head_len_spec limit old new : let h := head_len limit old new in
  h ≤ limit ∧ h ≤ length old ∧ h ≤ length new ∧ common old new 0 0 h.
Proof.
  cbn zeta. revert old new.
  induction limit as [|limit IH]; intros old new; cbn [head_len]; [split_and!; [lia..|apply common_none]|].
  destruct old as [|x old], new as [|y new]; cbn [head_len]; try (split_and!; [lia..|apply common_none]).
  destruct (String.eqb_spec x y) as [->|]; [|split_and!; [lia..|apply common_none]].
  destruct (IH old new) as (? & ? & ? & Hc). split_and!; cbn; [lia..|].
  intros [|n] Hn; [done|]. apply (Hc n). lia.
Qed.
Lemma lookup_rev {A} (l : list A) n : n < length l → rev l !! n = l !! (length l - 1 - n).
Proof.
  intros Hn. rewrite rev_alt. change (rev_append l []) with (reverse l).
  rewrite reverse_lookup by done. f_equal. lia.
Qed.
Lemma tail_same old new limit : let t := head_len limit (rev old) (rev new) in
  t ≤ limit ∧ same old new (length old - t) (length old) (length new - t) (length new) ∧
  t ≤ length old ∧ t ≤ length new.
Proof.
  cbn zeta. destruct (head_len_spec limit (rev old) (rev new)) as (? & Ho & Hn & Hc).
  set (t := head_len _ _ _) in *. rewrite !length_rev in *.
  split_and!; [done| |done|done]. split_and!; [lia..|].
  intros n Hlt. specialize (Hc (t - 1 - n) ltac:(lia)). rewrite !Nat.add_0_l, !lookup_rev in Hc by lia.
  replace (length old - t + n) with (length old - 1 - (t - 1 - n)) by lia.
  by replace (length new - t + n) with (length new - 1 - (t - 1 - n)) by lia.
Qed.
Lemma head_same old new limit : let h := head_len limit old new in same old new 0 h 0 h.
Proof.
  cbn zeta. destruct (head_len_spec limit old new) as (_ & _ & _ & Hc).
  split_and!; [lia..|]. by rewrite Nat.sub_0_r.
Qed.

(** A script of the middles, seen from the whole sequences. *)
Lemma same_shift {A} (old new : list A) h k l i i' j j' : i' ≤ k - h → j' ≤ l - h →
  same (sub old h k) (sub new h l) i i' j j' → same old new (i + h) (i' + h) (j + h) (j' + h).
Proof.
  intros Hi' Hj' (? & ? & Heq & Hc). split_and!; [lia..|]. intros n Hn.
  specialize (Hc n ltac:(lia)). rewrite !sub_lookup in Hc by lia.
  by replace (i + h + n) with (h + (i + n)) by lia; replace (j + h + n) with (h + (j + n)) by lia.
Qed.
Lemma script_shift (old new : list string) h k l i j ops i' j' : i' ≤ k - h → j' ≤ l - h →
  script (sub old h k) (sub new h l) i j ops i' j' →
  script old new (i + h) (j + h) (shift h <$> ops) (i' + h) (j' + h).
Proof.
  intros Hi' Hj'. revert i j. induction ops as [|o ops IH]; intros i j; cbn [script fmap list_fmap].
  { intros [-> ->]. done. }
  intros (<- & <- & Ho & Hs). pose proof (gapped_le _ _ _ _ _ _ _ (script_gapped _ _ _ _ _ _ _ Hs)).
  split; [done|]. split; [done|]. split; [|by apply IH].
  unfold op_ok in *. cbn. destruct (op_tag o); [|lia..].
  destruct Ho as [? Ho]. split; [lia|]. eapply same_shift; [| |exact Ho]; lia.
Qed.

Section script.
Context (old new : list string).

Lemma opcodes_script autojunk :
  script old new 0 0 (_opcodes old new autojunk) (length old) (length new).
Proof.
  unfold _opcodes. set (limit := Nat.min _ _). set (h := head_len _ _ _). set (t := head_len _ _ _).
  destruct (head_len_spec limit old new) as (Hh & _ & _ & _). fold h in Hh.
  pose proof (head_same old new limit) as Hhead. cbn zeta in Hhead. fold h in Hhead.
  destruct (tail_same old new (limit - h)) as (Ht & Htail & Hto & Htn). fold t in Ht, Htail, Hto, Htn.
  assert (h + t ≤ length old ∧ h + t ≤ length new) as [Ho Hn] by lia.
  destruct (get_opcodes_script autojunk (sub old h (length old - t)) (sub new h (length new - t)))
    as (ops & -> & Hs). cbn [default]. rewrite !length_sub in Hs by lia.
  apply script_app. exists h, h. split.
  { destruct (Nat.eqb_spec h 0) as [->|]; [done|]. cbn. unfold op_ok. cbn. split_and!; (done || lia). }
  apply script_app. exists (length old - t), (length new - t). split.
  { apply (script_shift old new h (length old - t) (length new - t)) in Hs; [|lia..].
    by replace (length old - t) with (length old - t - h + h) by lia;
       replace (length new - t) with (length new - t - h + h) by lia. }
  destruct (Nat.eqb_spec t 0) as [->|]; cbn; [lia|].
  unfold op_ok. cbn. split_and!; (done || lia).
Qed.

(** The lines between the changes of the groups are the same on both sides. *)
Lemma group_hunks_gapped n groups : group_hunks old new n = Some groups →
  gapped old new 0 0 (concat groups) (length old) (length new).
Proof.
  unfold group_hunks. destruct (Nat.ltb _ _); [done|]. intros [= <-].
  apply gapped_grouped, script_gapped, opcodes_script.
Qed.

(** ** The counts *)
Lemma script_counts i j ops i' j' : script old new i j ops i' j' →
  (hunk_counts ops).1 + i' + j = (hunk_counts ops).2 + j' + i.
Proof.
  revert i j. induction ops as [|o ops IH]; intros i j; cbn; [lia|].
  intros (<- & <- & Ho & Hs). specialize (IH _ _ Hs). cbn in IH.
  pose proof (op_ok_weak _ _ _ Ho) as (? & ? & _).
  unfold op_ok, adds, removes in *. destruct (op_tag o); cbn in *; [destruct Ho as [? (? & ? & ? & _)]|..]; lia.
Qed.
End script.

Lemma counts_app l1 l2 : hunk_counts (l1 ++ l2) =
  ((hunk_counts l1).1 + (hunk_counts l2).1, (hunk_counts l1).2 + (hunk_counts l2).2).
Proof.
  unfold hunk_counts. cbn. induction l1 as [|o l1 IH]; [done|]. cbn in *.
  injection IH as -> ->. f_equal; lia.
Qed.
Lemma sum_changes f ops : (∀ o, is_equal o = true → f o = 0) → sum_of f (changes ops) = sum_of f ops.
Proof.
  intros Hf. induction ops as [|o ops IH]; [done|].
  change (o :: ops) with ([o] ++ ops). rewrite changes_app.
  destruct (is_equal o) eqn:E.
  - rewrite changes_equal by done. cbn [app changes filter sum_of]. by rewrite (Hf o E).
  - assert (changes [o] = [o]) as -> by (unfold changes; by rewrite filter_cons, decide_True).
    cbn. by rewrite IH.
Qed.
Lemma counts_changes ops : hunk_counts (changes ops) = hunk_counts ops.
Proof.
  unfold hunk_counts. rewrite !sum_changes; [done|..];
    intros o Ho%bool_decide_eq_true; unfold adds, removes; by rewrite Ho.
Qed.
Lemma counts_concat groups :
  hunk_counts (concat groups) =
  (foldr (λ g n, (hunk_counts g).1 + n) 0 groups, foldr (λ g n, (hunk_counts g).2 + n) 0 groups).
Proof.
  induction groups as [|g groups IH]; [done|]. cbn [concat]. rewrite counts_app, IH. done.
Qed.

(** What the groups add and remove is the difference in length. *)
Lemma group_counts old new n groups : group_hunks old new n = Some groups →
  foldr (λ g n, (hunk_counts g).1 + n) 0 groups + length old =
  foldr (λ g n, (hunk_counts g).2 + n) 0 groups + length new.
Proof.
  unfold group_hunks. destruct (Nat.ltb _ _); [done|]. intros [= <-].
  set (ops := _opcodes _ _ _). pose proof (counts_concat (get_grouped_opcodes n ops)) as Hc.
  rewrite <-counts_changes, changes_grouped, counts_changes in Hc.
  pose proof (script_counts _ _ _ _ _ _ _ (opcodes_script old new (Nat.ltb _EXACT_DIFF_LINES
    (Nat.max (length old) (length new))))) as Hs.
  fold ops in Hs. rewrite Hc in Hs. cbn [fst snd] in Hs. lia.
Qed.

(** ** What is printed is safe *)
Lemma ord_byte n : (n < 256)%N → ord (ascii_of_N n) = n.
Proof. apply N_ascii_embedding. Qed.
Lemma byte_in_of lo hi n : (n < 256)%N → byte_in lo hi (ascii_of_N n) = ((lo <=? n) && (n <=? hi))%N.
Proof. intros H. unfold byte_in. by rewrite ord_byte. Qed.
Lemma between lo hi n : (lo ≤ n ∧ n ≤ hi)%N → ((lo <=? n) && (n <=? hi))%N = true.
Proof. rewrite andb_true_iff, !N.leb_le. done. Qed.
Lemma above lo hi n : (hi < n)%N → ((lo <=? n) && (n <=? hi))%N = false.
Proof. rewrite andb_false_iff, !N.leb_gt. lia. Qed.
Ltac quotients := zify; Z.to_euclidean_division_equations; lia.

(** The first byte of an encoding decides its length. *)
Lemma decode_encode cp r : scalar cp = true → utf8_decode (utf8_encode cp +:+ r) = cp :: utf8_decode r.
Proof.
  intros [Hs _]%scalar_iff. unfold utf8_encode. rewrite !N.shiftr_div_pow2.
  change (2 ^ 18)%N with 262144%N; change (2 ^ 12)%N with 4096%N;
  change (2 ^ 6)%N with 64%N; change (2 ^ 0)%N with 1%N.
  destruct (N.ltb_spec cp 0x80); [|destruct (N.ltb_spec cp 0x800); [|destruct (N.ltb_spec cp 0x10000)]];
    rewrite ?str_app_cons, str_app_nil_l; cbn [utf8_decode]; unfold low6.
  - rewrite byte_in_of, between, ord_byte by lia. done.
  - rewrite !byte_in_of by quotients. rewrite (above 0), (between 0xC2) by quotients.
    rewrite !ord_byte by quotients. f_equal. quotients.
  - rewrite !byte_in_of by quotients. rewrite (above 0), (above 0xC2), (between 0xE0) by quotients.
    rewrite !ord_byte by quotients. f_equal. quotients.
  - rewrite !byte_in_of by quotients. rewrite (above 0), (above 0xC2), (above 0xE0) by quotients.
    rewrite !ord_byte by quotients. f_equal. quotients.
Qed.
Lemma encode_valid cp r : scalar cp = true → utf8_valid (utf8_encode cp +:+ r) = utf8_valid r.
Proof.
  intros [Hs Hr]%scalar_iff. unfold utf8_encode. rewrite !N.shiftr_div_pow2.
  change (2 ^ 18)%N with 262144%N; change (2 ^ 12)%N with 4096%N;
  change (2 ^ 6)%N with 64%N; change (2 ^ 0)%N with 1%N.
  destruct (N.ltb_spec cp 0x80); [|destruct (N.ltb_spec cp 0x800); [|destruct (N.ltb_spec cp 0x10000)]];
    rewrite ?str_app_cons, str_app_nil_l; cbn [utf8_valid]; unfold continuation.
  - rewrite byte_in_of, between by lia. done.
  - rewrite !byte_in_of by quotients. rewrite (above 0), (between 0xC2), between by quotients. done.
  - rewrite !byte_in_of by quotients. rewrite (above 0), (above 0xC2), (between 0xE0), (between 0x80 0xBF (0x80 + cp / 1 mod 64)) by quotients.
    rewrite !ord_byte by quotients.
    destruct (N.eqb_spec (0xE0 + cp / 4096) 0xE0); [|destruct (N.eqb_spec (0xE0 + cp / 4096) 0xED)];
      rewrite between by quotients; done.
  - rewrite !byte_in_of by quotients. rewrite (above 0), (above 0xC2), (above 0xE0), (between 0xF0 0xF4) by quotients.
    rewrite !ord_byte by quotients.
    rewrite (between 0x80 0xBF (0x80 + cp / 1 mod 64)), (between 0x80 0xBF (0x80 + cp / 64 mod 64)) by quotients.
    destruct (N.eqb_spec (0xF0 + cp / 262144) 0xF0); [|destruct (N.eqb_spec (0xF0 + cp / 262144) 0xF4)];
      rewrite between by quotients; done.
Qed.

Lemma utf8_text_spec cps : forallb scalar cps = true →
  utf8_decode (utf8_text cps) = cps ∧ utf8_valid (utf8_text cps) = true.
Proof.
  induction cps as [|cp cps IH]; [done|]. cbn [forallb]. intros [Hc Hs]%andb_true_iff.
  rewrite utf8_text_cons, decode_encode, encode_valid by done. destruct (IH Hs) as [-> ->]. done.
Qed.
Lemma decode_app a b : utf8_valid a = true → utf8_decode (a +:+ b) = utf8_decode a ++ utf8_decode b.
Proof.
  intros [Ht Hs]%utf8_decode_valid. revert Ht Hs. generalize (utf8_decode a). intros cps <- Hs.
  induction cps as [|cp cps IH]; [done|]. cbn [forallb] in Hs. apply andb_true_iff in Hs as [Hc Hs].
  by rewrite utf8_text_cons, str_app_assoc, decode_encode, IH.
Qed.

(** Text that stays where it is printed: it decodes, and holds no control
    character but tab and newline, no carriage return and no direction mark. *)
Definition safe_point (c : N) : bool := negb (unsafe_point c || direction_mark c).
Definition printable (s : string) : bool := utf8_valid s && forallb safe_point (utf8_decode s).

Lemma printable_app a b : printable a = true → printable b = true → printable (a +:+ b) = true.
Proof.
  unfold printable. intros [Ha Ha']%andb_true_iff [Hb Hb']%andb_true_iff.
  by rewrite utf8_valid_app, decode_app, forallb_app, Hb, Ha', Hb'.
Qed.
Lemma printable_text cps : forallb scalar cps = true → forallb safe_point cps = true →
  printable (utf8_text cps) = true.
Proof. intros Hs Hp. unfold printable. destruct (utf8_text_spec cps Hs) as [-> ->]. done. Qed.
Lemma printable_ascii s : str_forall (λ c, (32 <=? ord c) && (ord c <=? 126))%N s = true → printable s = true.
Proof.
  induction s as [|c s IH]; [done|]. cbn [str_forall]. intros [Hc Hs]%andb_true_iff.
  specialize (IH Hs). unfold printable in *. cbn [utf8_valid utf8_decode].
  apply andb_true_iff in Hc as [?%N.leb_le ?%N.leb_le]. apply andb_true_iff in IH as [-> IH].
  unfold byte_in. rewrite between by lia. cbn [forallb]. rewrite IH.
  unfold safe_point, unsafe_point, direction_mark.
  rewrite andb_true_r. apply negb_true_iff. rewrite !orb_false_iff, !andb_false_iff.
  rewrite !N.leb_gt, !N.eqb_neq. lia.
Qed.
Lemma replacement_safe : safe_point 0xFFFD = true ∧ scalar 0xFFFD = true.
Proof. done. Qed.
Lemma printable_safe_text s : utf8_valid s = true → printable (safe_text s) = true.
Proof.
  intros [_ Hs]%utf8_decode_valid. unfold safe_text.
  assert (∀ c, c ∈ safe_points (utf8_decode s) → scalar c = true ∧ safe_point c = true) as H.
  { unfold safe_points. intros c (d & -> & [_ Hd]%list_elem_of_filter)%list_elem_of_fmap.
    destruct (_ || _) eqn:E; [done|]. unfold safe_point. rewrite E. split; [|done].
    rewrite forallb_forall in Hs. by apply Hs, list_elem_of_In. }
  apply printable_text; apply forallb_forall; intros c Hc%list_elem_of_In; by apply H.
Qed.
Lemma printable_pretty (n : nat) : printable (pretty n) = true.
Proof.
  apply printable_ascii. change (pretty n) with (pretty (N.of_nat n)).
  replace (pretty (N.of_nat n)) with (pretty (Z.of_nat n)) by (by destruct n).
  destruct (pretty_Z_text (Z.of_nat n)) as (ds & -> & Hd & _).
  destruct (Z.ltb_spec (Z.of_nat n) 0); [lia|]. rewrite str_app_nil_l.
  induction ds as [|c ds IH]; [done|]. cbn in Hd |- *. apply andb_true_iff in Hd as [Hc Hd].
  rewrite IH by done. rewrite andb_true_r. apply is_digit_inv in Hc. set_unfold in Hc. naive_solver.
Qed.

Ltac printable_parts :=
  repeat match goal with
  | |- printable (_ +:+ _) = true => apply printable_app
  | |- printable (pretty _) = true => apply printable_pretty
  | |- _ => assumption
  | |- printable (String _ _) = true => reflexivity
  | |- printable "" = true => reflexivity
  end.

Lemma printable_noun count word : printable word = true → printable (_noun count word) = true.
Proof. intros. unfold _noun. destruct (Nat.eqb count 1); printable_parts. Qed.
Lemma printable_span i j : printable (_span i j) = true.
Proof. unfold _span. printable_parts. Qed.
Lemma printable_rjust w s : printable s = true → printable (rjust w s) = true.
Proof.
  intros Hs. unfold rjust. apply printable_app; [|done].
  induction (w - String.length s) as [|k IH]; [done|]. cbn [replicate str_concat foldr].
  by apply (printable_app " ").
Qed.
Lemma printable_row gutter number marker text : printable marker = true → utf8_valid text = true →
  printable (_row gutter number marker text) = true.
Proof.
  intros Hm Ht. unfold _row. apply printable_app; [apply printable_rjust, printable_pretty|].
  repeat (apply printable_app; [done|]). by apply printable_safe_text.
Qed.

Definition all_printable (ls : list string) : Prop := Forall (λ l, printable l = true) ls.
Definition all_valid (ls : list string) : Prop := Forall (λ l, utf8_valid l = true) ls.

Lemma Forall_sub {A} (P : A → Prop) l i j : Forall P l → Forall P (sub l i j).
Proof. intros. unfold sub. by apply Forall_drop, Forall_take. Qed.
Lemma printable_numbered gutter marker ls (f : nat → nat) : printable marker = true → all_valid ls →
  all_printable (imap (λ n line, _row gutter (f n) marker line) ls).
Proof.
  intros Hm Hls. revert f. induction Hls as [|l ls Hl _ IH]; intros f; [constructor|]. cbn [imap].
  constructor; [by apply printable_row|]. apply (IH (λ n, f (S n))).
Qed.
Lemma printable_rows gutter marker ls k1 k2 : printable marker = true → all_valid ls →
  all_printable (rows gutter marker ls k1 k2).
Proof. intros. by apply (printable_numbered _ _ _ (λ n, k1 + n + 1)), Forall_sub. Qed.
Lemma all_printable_if (b : bool) ls : all_printable ls → all_printable (if b then ls else []).
Proof. destruct b; [done|]. intros _. constructor. Qed.
Lemma printable_hunk_rows path old new group : printable path = true → all_valid old → all_valid new →
  all_printable (_hunk_rows path old new group).
Proof.
  intros Hp Ho Hn. unfold _hunk_rows. destruct (hunk_counts group) as [added removed]. constructor.
  - printable_parts; apply printable_span.
  - apply Forall_concat, Forall_fmap, Forall_true. intros o.
    repeat apply Forall_app_2; apply all_printable_if; by apply printable_rows.
Qed.

Section fit.
Context {W : CellLen}.

Lemma fitting_forall (P : N → bool) budget used cps :
  forallb P cps = true → forallb P (fitting budget used cps) = true.
Proof.
  revert used. induction cps as [|c cps IH]; intros used; [done|]. cbn [forallb fitting].
  intros [Hc Hs]%andb_true_iff. destruct (Nat.ltb _ _); [done|]. cbn [forallb]. rewrite Hc. by apply IH.
Qed.
Lemma printable_fit line width : printable line = true → printable (_fit line width) = true.
Proof.
  intros Hl. unfold _fit. destruct (Nat.leb _ _); [done|].
  unfold printable in Hl. apply andb_true_iff in Hl as [[_ Hs]%utf8_decode_valid Hp].
  apply printable_app; [|done]. by apply printable_text; apply fitting_forall.
Qed.
Lemma printable_finish ls width limit : all_printable ls → all_printable (_finish ls width limit).
Proof.
  intros Hls. unfold _finish.
  assert (all_printable ((λ l, _fit l width) <$> ls)) as Hf.
  { apply Forall_fmap. eapply Forall_impl; [exact Hls|]. intros l. apply printable_fit. }
  case_match; [|done]. apply Forall_app_2; [by apply Forall_take|].
  constructor; [|done]. apply printable_app; [done|]. by apply printable_noun.
Qed.
Lemma length_finish ls width limit : length (_finish ls width limit) ≤ S (N.to_nat limit).
Proof.
  unfold _finish. destruct (N.ltb_spec limit (N.of_nat (length ((λ l, _fit l width) <$> ls)))).
  - rewrite length_app, length_take. cbn. lia.
  - lia.
Qed.

(** A hunk as it is drawn: printable, and cut to its limit. *)
Lemma printable_draw_hunk path old new group width limit :
  utf8_valid path = true → all_valid old → all_valid new →
  all_printable (draw_hunk path old new group width limit).
Proof. intros Hp Ho Hn. by apply printable_finish, printable_hunk_rows; [apply printable_safe_text|..]. Qed.
End fit.

(** ** The lines of valid text are valid *)
Lemma encode_chars sep cp : (ord sep < 128)%N → scalar cp = true → cp ≠ ord sep →
  no_char sep (utf8_encode cp) = true.
Proof.
  intros Hsep [Hs _]%scalar_iff Hc.
  assert (∀ n, (n < 256 → n ≠ ord sep → Ascii.eqb (ascii_of_N n) sep = false)%N) as H.
  { intros n Hn Hne. apply Ascii.eqb_neq. intros E%(f_equal ord). by rewrite ord_byte in E. }
  unfold utf8_encode, no_char. rewrite !N.shiftr_div_pow2.
  change (2 ^ 18)%N with 262144%N; change (2 ^ 12)%N with 4096%N;
  change (2 ^ 6)%N with 64%N; change (2 ^ 0)%N with 1%N.
  destruct (N.ltb_spec cp 0x80); [|destruct (N.ltb_spec cp 0x800); [|destruct (N.ltb_spec cp 0x10000)]];
    cbn [str_forall]; rewrite !H by quotients; done.
Qed.
Lemma split_char_prefix sep a s : no_char sep a = true →
  split_char sep (a +:+ s) = match split_char sep s with l :: ls => (a +:+ l) :: ls | [] => [a] end.
Proof.
  unfold no_char. induction a as [|c a IH]; intros Ha.
  - rewrite str_app_nil_l. destruct (split_char sep s) as [|l ls] eqn:E; [by apply split_char_nonempty in E|].
    by rewrite str_app_nil_l.
  - cbn [str_forall] in Ha. apply andb_true_iff in Ha as [Hc%negb_true_iff Ha].
    rewrite str_app_cons. cbn [split_char]. rewrite Hc, IH by done.
    by destruct (split_char sep s).
Qed.
Lemma valid_ind (P : string → Prop) : P "" →
  (∀ cp s, scalar cp = true → utf8_valid s = true → P s → P (utf8_encode cp +:+ s)) →
  ∀ s, utf8_valid s = true → P s.
Proof.
  intros H0 H1 s [Ht Hs]%utf8_decode_valid. revert Ht Hs. generalize (utf8_decode s). intros cps <- Hs.
  induction cps as [|cp cps IH]; [done|].
  cbn [forallb] in Hs. apply andb_true_iff in Hs as [Hc Hs]. rewrite utf8_text_cons.
  apply H1; [done| |by apply IH]. by apply utf8_text_spec.
Qed.
Lemma valid_split s : utf8_valid s = true → all_valid (split_char newline s).
Proof.
  revert s. apply valid_ind; [by repeat constructor|]. intros cp s Hc Hs IH.
  destruct (decide (cp = ord newline)) as [->|Hne].
  { change (utf8_encode (ord newline)) with (String newline ""). rewrite str_app_cons, str_app_nil_l.
    cbn [split_char]. rewrite Ascii.eqb_refl. by constructor. }
  rewrite split_char_prefix by by apply encode_chars.
  destruct (split_char newline s) as [|l ls] eqn:E; [by apply split_char_nonempty in E|].
  apply Forall_cons in IH as [Hl Hls]. constructor; [|done]. by rewrite encode_valid.
Qed.

Lemma split_without_last s : without_last_newline s = s ∨
  split_char newline s = split_char newline (without_last_newline s) ++ [""].
Proof.
  induction s as [|c t IH]; [by left|]. destruct t as [|d t].
  - cbn [without_last_newline]. destruct (Ascii.eqb_spec c newline) as [->|]; [by right|by left].
  - change (without_last_newline (String c (String d t))) with (String c (without_last_newline (String d t))).
    destruct IH as [->|IH]; [by left|]. right. cbn [split_char] in IH |- *.
    set (u := without_last_newline (String d t)) in *. rewrite IH. destruct (Ascii.eqb c newline); [done|].
    by destruct (split_char newline u) eqn:E; [apply split_char_nonempty in E|].
Qed.
Lemma valid_lines s : utf8_valid s = true → all_valid (_lines s).
Proof.
  intros Hs. unfold _lines. destruct s as [|c s]; [constructor|]. set (t := String c s) in *.
  destruct (split_without_last t) as [->|H]; [by apply valid_split|].
  apply valid_split in Hs. rewrite H in Hs. by apply Forall_app in Hs as [? _].
Qed.

Lemma crlf_prefix a s : no_char "013" a = true → crlf_to_lf (a +:+ s) = a +:+ crlf_to_lf s.
Proof.
  unfold no_char. induction a as [|c a IH]; [done|]. cbn [str_forall].
  intros [Hc%negb_true_iff Ha]%andb_true_iff. rewrite str_app_cons, (str_app_cons c a).
  rewrite <-IH by done. cbn [crlf_to_lf]. rewrite Hc. cbn [andb]. by destruct (a +:+ s).
Qed.
Lemma crlf_cr s : crlf_to_lf (String "013" s) =
  match s with
  | String d t => if Ascii.eqb d newline then String newline (crlf_to_lf t) else String "013" (crlf_to_lf s)
  | "" => String "013" ""
  end.
Proof. by destruct s. Qed.
Lemma valid_crlf s : utf8_valid s = true → utf8_valid (crlf_to_lf s) = true.
Proof.
  intros Hs. cut (utf8_valid (crlf_to_lf s) = true ∧
    ∀ t, s = String newline t → utf8_valid (crlf_to_lf t) = true); [by intros []|].
  revert s Hs. apply valid_ind; [by split|]. intros cp s Hc Hs [IH IHn]. split.
  - destruct (decide (cp = ord "013")) as [->|Hne].
    + change (utf8_encode (ord "013")) with (String "013" ""). rewrite str_app_cons, str_app_nil_l, crlf_cr.
      destruct s as [|d t]; [done|]. destruct (Ascii.eqb_spec d newline) as [->|]; [by apply IHn|done].
    + rewrite crlf_prefix by by apply encode_chars. by rewrite encode_valid.
  - intros t Ht. destruct (decide (cp = ord newline)) as [->|Hne].
    + change (utf8_encode (ord newline)) with (String newline "") in Ht.
      rewrite str_app_cons, str_app_nil_l in Ht. by injection Ht as ->.
    + pose proof (encode_chars newline cp ltac:(done) Hc Hne) as Hn.
      destruct (utf8_encode cp) as [|c u] eqn:E.
      { exfalso. apply (f_equal String.length) in E. unfold utf8_encode in E. by repeat case_match. }
      rewrite str_app_cons in Ht. injection Ht as -> _. done.
Qed.

(** ** The lines of a file and of a turn *)
Section printed.
Context {W : CellLen}.

Definition valid_text (t : option string) : Prop := ∀ s, t = Some s → utf8_valid s = true.

Lemma printable_file_level path old new : printable path = true → valid_text old → valid_text new →
  all_printable (_file_level path old new).
Proof.
  intros Hp Ho Hn. unfold _file_level. set (text := default "" _).
  assert (utf8_valid text = true) as Ht.
  { unfold text. destruct old as [s|]; [by apply (Ho s)|]. destruct new as [s|]; [by apply (Hn s)|done]. }
  set (marker := match old with None => "+" | _ => _ end).
  assert (printable marker = true) as Hm by (unfold marker; by destruct old).
  constructor.
  - do 2 (apply printable_app; [done|]). apply printable_app; [by destruct old|].
    apply printable_app; [done|]. by apply printable_noun.
  - apply Forall_app_2.
    + apply (printable_numbered _ _ _ (λ n, n + 1)); [done|]. by apply Forall_take, valid_lines.
    + apply all_printable_if. constructor; [|constructor]. apply printable_app; [done|]. by apply printable_noun.
Qed.

Lemma printable_diff path old new width context limit :
  utf8_valid path = true → valid_text old → valid_text new →
  all_printable (_diff path old new width context limit).1.1.
Proof.
  intros Hp%printable_safe_text Ho Hn. unfold _diff. set (name := safe_text path) in *.
  case_bool_decide.
  { constructor; [|constructor]. apply printable_fit. printable_parts. }
  destruct old as [old|], new as [new|]; cbn [fst];
    try by apply printable_finish, printable_file_level.
  specialize (Ho old eq_refl). specialize (Hn new eq_refl). unfold diff_texts.
  destruct (String.eqb old new); [constructor|]. destruct (_line_ending_change old new) as [e|] eqn:E.
  { constructor; [|constructor]. apply printable_fit. unfold _line_ending_change in E.
    printable_parts. by repeat case_match; simplify_eq. }
  destruct (group_hunks _ _ _) as [groups|]; cbn [fst]; apply printable_finish.
  - apply Forall_app_2.
    + apply Forall_concat, Forall_fmap, Forall_true. intros g.
      by apply printable_hunk_rows; [|apply valid_lines, valid_crlf..].
    + apply Forall_app_2; apply all_printable_if; (apply Forall_cons_2; [|apply Forall_nil_2]); printable_parts.
  - constructor; [|constructor]. printable_parts.
Qed.

Lemma printable_turn_body limit body rendered : all_printable body → Forall all_printable rendered →
  all_printable (turn_body limit body rendered).
Proof.
  intros Hb Hr. revert body Hb. induction Hr as [|ls rest Hls Hr IH]; intros body Hb; [done|].
  cbn [turn_body]. destruct (Nat.leb _ _); [apply IH; by apply Forall_app_2|].
  apply Forall_app_2; [done|]. apply Forall_app_2; destruct (Nat.eqb _ 0); try constructor.
  - apply Forall_app_2; [by apply Forall_take|]. constructor; [|constructor].
    apply printable_app; [done|]. by apply printable_noun.
  - apply printable_app; [done|]. by apply printable_noun.
  - constructor.
Qed.
End printed.

(** ** The number of lines *)
Definition ends_line (s : string) : nat := if endswith s LF then 0 else 1.
Lemma endswith_cons2 c d t : endswith (String c (String d t)) LF = endswith (String d t) LF.
Proof.
  change (String.eqb (String c (String d t)) LF || endswith (String d t) LF = endswith (String d t) LF).
  assert (String.eqb (String c (String d t)) LF = false) as -> by (apply String.eqb_neq; by intros [= ]).
  done.
Qed.
Lemma length_split_char sep s : length (split_char sep s) = S (count_char sep s).
Proof.
  induction s as [|c s IH]; [done|]. cbn [split_char count_char]. destruct (Ascii.eqb c sep).
  - cbn. by rewrite IH.
  - destruct (split_char sep s) eqn:E; [by apply split_char_nonempty in E|]. cbn in *. lia.
Qed.
Lemma count_without_last s : s ≠ "" →
  S (count_char newline (without_last_newline s)) = count_char newline s + ends_line s.
Proof.
  unfold ends_line. induction s as [|c t IH]; [done|]. intros _. destruct t as [|d t].
  - destruct (Ascii.eqb_spec c newline) as [->|Hc]; [done|].
    cbn [without_last_newline]. apply Ascii.eqb_neq in Hc. rewrite Hc. unfold LF. cbn. by rewrite !Hc.
  - rewrite endswith_cons2.
    change (without_last_newline (String c (String d t))) with (String c (without_last_newline (String d t))).
    specialize (IH ltac:(done)). cbn [count_char] in IH |- *. lia.
Qed.
Lemma length_lines s : length (_lines s) = match s with "" => 0 | _ => count_char newline s + ends_line s end.
Proof.
  unfold _lines. destruct s as [|c t]; [done|].
  rewrite length_split_char. by apply count_without_last.
Qed.
Lemma crlf_cons c s : c ≠ "013"%char → crlf_to_lf (String c s) = String c (crlf_to_lf s).
Proof. intros Hc%Ascii.eqb_neq. cbn [crlf_to_lf]. destruct s; [done|]. by rewrite Hc. Qed.
Lemma crlf_counts s : count_char newline (crlf_to_lf s) = count_char newline s ∧
  endswith (crlf_to_lf s) LF = endswith s LF ∧ (crlf_to_lf s = "" ↔ s = "").
Proof.
  induction s as [s IH] using str_length_ind. destruct s as [|c s]; [done|].
  assert (∀ c u, String.length u < String.length (String c s) →
    count_char newline (String c (crlf_to_lf u)) = count_char newline (String c u) ∧
    endswith (String c (crlf_to_lf u)) LF = endswith (String c u) LF ∧
    (String c (crlf_to_lf u) = "" ↔ String c u = "")) as Hstep.
  { intros c' u Hu. destruct (IH u Hu) as (H1 & H2 & H3). cbn [count_char]. rewrite H1.
    split; [done|]. split; [|done].
    destruct u as [|d u]; [done|]. rewrite endswith_cons2, <-H2.
    destruct (crlf_to_lf (String d u)); [naive_solver|]. by rewrite endswith_cons2. }
  destruct (Ascii.eqb_spec c "013") as [->|Hc]; [|rewrite crlf_cons by done; apply Hstep; cbn; lia].
  rewrite crlf_cr. destruct s as [|d t]; [done|].
  destruct (Ascii.eqb_spec d newline) as [->|]; [|apply Hstep; cbn; lia].
  destruct (Hstep newline t) as (H1 & H2 & H3); [cbn; lia|]. rewrite H1, H2, endswith_cons2.
  split; [done|]. split; [done|]. split; [|done]. by intros ?.
Qed.
Lemma length_crlf_lines s : length (_lines (crlf_to_lf s)) = length (_lines s).
Proof.
  destruct (crlf_counts s) as (H1 & H2 & H3). rewrite !length_lines. unfold ends_line. rewrite H1, H2.
  destruct s; [done|]. destruct (crlf_to_lf (String a s)); [naive_solver|done].
Qed.

Section counts.
Context {W : CellLen}.
Definition line_count (t : option string) : nat := length (_lines (default "" t)).

(** the counts of a file that is no binary: what is there before and what is
    added is what is there after and what is removed. *)
Theorem diff_counts_balance path old new width context limit ls added removed :
  _diff path old new width context limit = (ls, added, removed) →
  (∀ t, old = Some t ∨ new = Some t → _is_binary t = false) →
  line_count old + added = line_count new + removed.
Proof.
  intros Hd Hb. unfold _diff in Hd. case_bool_decide as He.
  { exfalso. apply Exists_exists in He as (t & Ht & Hbin). rewrite Hb in Hbin; [done|].
    destruct old, new; cbn in Ht; set_solver. }
  clear He Hb. unfold line_count. destruct old as [old|], new as [new|]; cbn [from_option id] in *;
    try (injection Hd as <- <- <-; change (_lines "") with ([] : list string); cbn; lia).
  unfold diff_texts in Hd. destruct (String.eqb_spec old new) as [->|].
  { injection Hd as <- <- <-. lia. }
  destruct (_line_ending_change old new) eqn:E.
  { injection Hd as <- <- <-. unfold _line_ending_change in E.
    destruct (String.eqb_spec (crlf_to_lf old) (crlf_to_lf new)) as [Hc|]; [|done].
    by rewrite <-(length_crlf_lines old), Hc, length_crlf_lines. }
  rewrite <-(length_crlf_lines old), <-(length_crlf_lines new).
  destruct (group_hunks _ _ _) eqn:Eg; injection Hd as <- <- <-; [|lia].
  apply group_counts in Eg. unfold hunk_counts in Eg. cbn [fst snd] in Eg. lia.
Qed.

(** ** A turn *)
Lemma turn_body_length limit body rendered : length body ≤ limit →
  length (turn_body limit body rendered) ≤ S limit.
Proof.
  revert body. induction rendered as [|ls rest IH]; intros body Hb; cbn [turn_body]; [lia|].
  destruct (Nat.leb_spec (length body + length ls) limit); [apply IH; rewrite length_app; lia|].
  destruct (Nat.eqb_spec (length rest) 0), (Nat.eqb_spec (limit - length body - 1 - 0) 0),
    (Nat.eqb_spec (limit - length body - 1 - 1) 0); rewrite ?app_nil_l, ?length_app, ?length_take; cbn; lia.
Qed.

(** whatever the files hold, a turn is shown in printable lines, two more than
    the limit at most. *)
Theorem turn_is_printable changes width limit :
  Forall (λ '(path, before, after), utf8_valid path = true ∧ valid_text before ∧ valid_text after) changes →
  all_printable (draw_turn_diff changes width limit) ∧
  length (draw_turn_diff changes width limit) ≤ limit + 2.
Proof.
  intros Hc. unfold draw_turn_diff. set (rendered := filter _ _).
  assert (Forall (λ r, all_printable r.1.1) rendered) as Hr.
  { apply Forall_forall. intros r [_ ([[path before] after] & -> & Hin)%list_elem_of_fmap]%list_elem_of_filter.
    rewrite Forall_forall in Hc. apply Hc in Hin as (? & ? & ?). by apply printable_diff. }
  destruct rendered as [|r rest] eqn:E; [split; [constructor|cbn; lia]|]. rewrite <-E in *. clear E. split.
  - apply Forall_app_2.
    + apply printable_turn_body; [constructor|]. by rewrite !Forall_fmap.
    + apply Forall_cons_2; [|constructor]. apply printable_app; [by apply printable_noun|]. printable_parts.
  - rewrite length_app. cbn [length].
    pose proof (turn_body_length limit [] (rendered.*1.*1) ltac:(cbn; lia)). lia.
Qed.

(** The last file is left out without a word when one line or none is left. *)
Theorem last_file_left_out_silently limit body ls :
  limit < length body + length ls → limit ≤ S (length body) → turn_body limit body [ls] = body.
Proof.
  intros H1 H2. cbn [turn_body]. destruct (Nat.leb_spec (length body + length ls) limit); [lia|].
  cbn [length Nat.eqb]. destruct (Nat.eqb_spec (limit - length body - 1 - 0) 0); [|lia].
  by rewrite !app_nil_r.
Qed.
End counts.

(** ** Examples *)
#[local] Existing Instance plain_cells.
Definition sample_change : string * option string * option string :=
  ("a.py", Some (join_lines ["one"; "two"; "three"]), Some (join_lines ["one"; "2"; "three"; "four"])).
Example sample_turn : draw_turn_diff [sample_change; ("b", None, Some (join_lines ["x"]))] 80 60 =
  ["a.py: lines 1-3 -> 1-4, +2 -1"; "1   one"; "2 - two"; "2 + 2"; "3   three"; "4 + four";
   "b: new file, 1 line"; "1 + x"; "2 files, +3 -1"].
Proof. vm_compute. reflexivity. Qed.
Example silent_cut : draw_turn_diff [sample_change; ("b", None, Some (join_lines ["x"]))] 80 7 =
  ["a.py: lines 1-3 -> 1-4, +2 -1"; "1   one"; "2 - two"; "2 + 2"; "3   three"; "4 + four";
   "2 files, +3 -1"].
Proof. vm_compute. reflexivity. Qed.
(** A direction mark is replaced, not shown as an escape. *)
Example direction_mark_replaced :
  safe_text (utf8_text [0x202E; 97]%N) = utf8_text [0xFFFD; 97]%N.
Proof. vm_compute. reflexivity. Qed.
Lemma diff_counts_balance_witness : ∃ ls added removed,
  _diff "a.py" sample_change.1.2 sample_change.2 80 3 60 = (ls, added, removed) ∧
  line_count sample_change.1.2 + added = line_count sample_change.2 + removed.
Proof.
  eexists _, _, _. split; [vm_compute; reflexivity|].
  eapply (diff_counts_balance "a.py" _ _ 80 3 60); [vm_compute; reflexivity|].
  intros t [[= <-]|[= <-]]; vm_compute; reflexivity.
Defined.
Lemma turn_is_printable_witness :
  all_printable (draw_turn_diff [sample_change] 80 60) ∧ length (draw_turn_diff [sample_change] 80 60) ≤ 60 + 2.
Proof.
  apply turn_is_printable. constructor; [|constructor].
  split_and!; [vm_compute; reflexivity|intros s [= <-]; vm_compute; reflexivity..].
Defined.
