(* ===== verification/Undo.v ===== *)
(** * The journal of a turn, and undo

    Models [undo_backup.py]: before a turn replaces a file its bytes are copied
    to a folder of the turn, outside the workspace; the manifest of that folder
    lists what was saved, what was created and the digest of each file as the
    turn left it.  [undo], [redo], [restore] and [restore_preview] read these
    folders back; [previous_version], [note_reviewed], [checkpoints] and
    [last_turn_changes] serve the review and the screens.  The workspace and
    the state directory are one file system. *)

From stdpp Require Import pretty.
From S2P Require Import Prelude Canonical CanonicalLines JsonText Text Gates FileSystem FileOps WorkspacePath.

Definition KEEP_TURNS : nat := 20.
Definition MANIFEST : string := "manifest.json".
Definition MAX_PREVIOUS_VERSION_BYTES : nat := Z.to_nat (8 * 1024 * 1024).
Definition _PROTECTED : list string := [".git"; ".ract"].

Record TurnBackup := {
  tb_root : path;
  tb_request : string;
  turn_id : string;
  tb_kind : string;
  saved : list string;
  created : list string;
  bases : list string;
}.
Definition with_saved (b : TurnBackup) (key : string) : TurnBackup :=
  {| tb_root := tb_root b; tb_request := tb_request b; turn_id := turn_id b; tb_kind := tb_kind b;
     saved := saved b ++ [key]; created := created b; bases := bases b |}.
Definition with_created (b : TurnBackup) (key : string) : TurnBackup :=
  {| tb_root := tb_root b; tb_request := tb_request b; turn_id := turn_id b; tb_kind := tb_kind b;
     saved := saved b; created := created b ++ [key]; bases := bases b |}.
Definition with_base (b : TurnBackup) (commit : string) : TurnBackup :=
  {| tb_root := tb_root b; tb_request := tb_request b; turn_id := turn_id b; tb_kind := tb_kind b;
     saved := saved b; created := created b; bases := bases b ++ [commit] |}.
Definition changed (b : TurnBackup) : bool := bool_decide (saved b ≠ [] ∨ created b ≠ []).
Definition describe (b : TurnBackup) : string :=
  let n := length (saved b) in
  let s := if Nat.eqb n 1 then "" else "s" in
  "previous version" +:+ s +:+ " of " +:+ pretty n +:+ " file" +:+ s +:+ " saved; /undo restores them".

(** The files, the backup bound to the context, and what others were told:
    [run_checkpoint.note_saving], the checkpoint refs dropped, the summary. *)
Record undo_world := {
  files : fs;
  current : option TurnBackup;
  saving : list (string * path);
  dropped_refs : list string;
  announced : list string;
}.
Inductive undo_error : Type :=
| StateDirRefused (link : path)
| OsError
| BadValue (what : string)
| Raised (e : py_error)
| NoMoreIds.
Notation journal := (action undo_world undo_error).

Definition set_files (F : fs) : journal unit :=
  modify (λ s, {| files := F; current := current s; saving := saving s;
                  dropped_refs := dropped_refs s; announced := announced s |}).
Definition bind_backup (b : option TurnBackup) (s : undo_world) : undo_world :=
  {| files := files s; current := b; saving := saving s;
     dropped_refs := dropped_refs s; announced := announced s |}.
Definition set_backup (b : option TurnBackup) : journal unit := modify (bind_backup b).
Definition note_saving (key : string) (full : path) : journal unit :=
  modify (λ s, {| files := files s; current := current s; saving := saving s ++ [(key, full)];
                  dropped_refs := dropped_refs s; announced := announced s |}).
Definition drop_checkpoint_refs (name : string) : journal unit :=
  modify (λ s, {| files := files s; current := current s; saving := saving s;
                  dropped_refs := dropped_refs s ++ [name]; announced := announced s |}).
Definition announce (line : string) : journal unit :=
  modify (λ s, {| files := files s; current := current s; saving := saving s;
                  dropped_refs := dropped_refs s; announced := announced s ++ [line] |}).
Definition or_os {A} (o : option A) : journal A := match o with Some a => mret a | None => raise OsError end.

Definition name_char (c : ascii) : bool :=
  let n := ord c in
  ((97 <=? n) && (n <=? 122) || (65 <=? n) && (n <=? 90) || (48 <=? n) && (n <=? 57)
   || (n =? 46) || (n =? 95) || (n =? 45))%N.
(** A value that may be no text: what an event or a manifest holds. *)
Definition require_name (value : json) : result undo_error string :=
  match value with
  | JStr s =>
      if negb (String.eqb s "") && negb (startswith s ".") && str_forall name_char s then Ok s
      else Err (BadValue s)
  | _ => Err (BadValue "")
  end.

Section undo.
Context {R : Runtime} {U : Unicode} {T : PyText} {Sh : Sha256}.

(** ** Entries of a manifest *)
Definition second_is_colon (text : string) : bool :=
  match utf8_decode text with _ :: 58%N :: _ => true | _ => false end.
Definition real (F : fs) (p : path) : path := realpath_from F [] p.
Definition check_entry (F : fs) (base : path) (entry : json) : option string :=
  match entry with
  | JStr e =>
      if String.eqb (strip e) "" then Some "not a path"
      else if contains_char "000" e then Some "a path with a NUL character"
      else
        let text := replace_char backslash "/" e in
        if startswith text "/" || second_is_colon text then Some "an absolute path"
        else
          let parts := split_char "/" text in
          if existsb (λ part, bool_decide (part ∈ [""; "."; ".."])) parts
          then Some "a path with an empty, '.' or '..' part"
          else if bool_decide (default "" (head parts) ∈ _PROTECTED)
          then Some ("a path under " +:+ default "" (head parts) +:+ "/")
          else
            let real_base := real F base in
            match relative_to real_base (real F (join_root base text)) with
            | None => Some "a path that leaves the workspace through a link"
            | Some rel =>
                if bool_decide (default "" (head rel) ∈ _PROTECTED)
                then Some "a path under .git/ or .ract/" else None
            end
  | _ => Some "not a path"
  end.

Definition _sha256 (F : fs) (p : path) : result undo_error (option string) :=
  if existsb (contains_char "000") p then Err (BadValue "embedded null byte")
  else match open_read F p with
  | Ok (Some data) => Ok (Some (hex (sha256 data)))
  | Ok None => Ok None
  | Err _ => Err OsError
  end.

(** [_default_state_dir] *)
Context (state_dir : path).
Definition repository_key (F : fs) (root : path) : string := path_str (real F root).
Definition turns_dir (F : fs) (root : path) : path :=
  state_dir ++ ["undo"; String.substring 0 16 (hex (sha256 (repository_key F root)))].
Definition folder (F : fs) (b : TurnBackup) : path := turns_dir F (tb_root b) ++ [turn_id b].

(** ** Saving *)
Definition refuse_link (p : path) : journal unit :=
  s ← get_state;
  match check_state_path (files s) p with
  | Some link => raise (StateDirRefused link)
  | None => mret ()
  end.
Definition make_dirs (p : path) : journal unit :=
  s ← get_state; F ← or_os (make_dirs_at (files s) p); set_files F.
(** [shutil.copyfile]: not onto itself. *)
Definition same_file (F : fs) (a b : path) : bool :=
  match walk F MAXSYMLINKS [] a, walk F MAXSYMLINKS [] b with
  | Some (x, _), Some (y, _) => bool_decide (x = y)
  | _, _ => false
  end.
Definition copyfile (src dst : path) : journal unit :=
  s ← get_state;
  _ ← ensure (negb (same_file (files s) src dst)) OsError;
  data ← or_os (read_bytes (files s) src);
  F ← or_os (put (files s) dst data);
  set_files F.
Definition write_text (p : path) (text : string) : journal unit :=
  s ← get_state; F ← or_os (put (files s) p text); set_files F.

Definition save_path (b : TurnBackup) (p : path) : journal TurnBackup :=
  s ← get_state;
  let full := real (files s) p in
  match relative_to (tb_root b) full with
  | None => mret b
  | Some rel =>
      let key := as_posix rel in
      if bool_decide (default "." (head rel) ∈ _PROTECTED) then mret b
      else
        _ ← note_saving key full;
        if bool_decide (key ∈ saved b ∨ key ∈ created b) then mret b
        else if negb (is_file (files s) full) then
          _ ← set_backup (Some (with_created b key)); mret (with_created b key)
        else
          let target := folder (files s) b ++ rel in
          _ ← refuse_link target;
          _ ← make_dirs (parent target);
          _ ← copyfile full target;
          _ ← set_backup (Some (with_saved b key));
          mret (with_saved b key)
  end.
Fixpoint save (b : TurnBackup) (paths : list path) : journal TurnBackup :=
  match paths with
  | [] => mret b
  | p :: paths => b ← save_path b p; save b paths
  end.
Definition save_before_replace (root : path) (paths : list string) : journal unit :=
  s ← get_state;
  match current s with
  | None => mret ()
  | Some b => void (save b (join_root (real (files s) root) <$> paths))
  end.
Definition current_backup_id (s : undo_world) : option string := turn_id <$> current s.
(** [kept] is what [keep_checkpoint_ref] answered. *)
Definition keep_base (commit : string) (kept : bool) : journal unit :=
  s ← get_state;
  match current s with
  | Some b => if negb (String.eqb commit "") && kept then set_backup (Some (with_base b commit)) else mret ()
  | None => mret ()
  end.

(** ** The manifest *)
Definition digest_json (d : option string) : json := match d with Some h => JStr h | None => JNull end.
Definition digests (F : fs) (root : path) (keys : list string) : result undo_error (list (string * json)) :=
  mapM (λ key, d ← _sha256 F (join_root root key); mret (key, digest_json d)) keys.
Definition strings (l : list string) : json := JArr (JStr <$> l).
Definition manifest_of (F : fs) (b : TurnBackup) (after : list (string * json)) : json :=
  JObj [("kind", JStr (tb_kind b)); ("turn", JStr (turn_id b)); ("root", JStr (repository_key F (tb_root b)));
        ("saved", strings (saved b)); ("created", strings (created b)); ("after", JObj (Dict.of_pairs after));
        ("bases", strings (bases b)); ("request", JStr (tb_request b)); ("done", JBool false)].
Definition manifest_text (m : json) : string := json_dumps (Some 2) m.
Definition finish (b : TurnBackup) : journal unit :=
  if negb (changed b) then mret ()
  else
    s ← get_state;
    let at_ := folder (files s) b in
    _ ← refuse_link (at_ ++ [MANIFEST]);
    _ ← make_dirs at_;
    s ← get_state;
    after ← lift_result (digests (files s) (tb_root b) (saved b ++ created b));
    write_text (at_ ++ [MANIFEST]) (manifest_text (manifest_of (files s) b after)).

(** [json.loads(path.read_text())]; [None] for what raises [OSError] or
    [ValueError]. *)
Definition read_json (F : fs) (p : path) : option json :=
  match read_bytes F p with
  | Some data => if utf8_valid data then json_loads data else None
  | None => None
  end.
(** [sorted] over [iterdir], folders only, no links. *)
Definition plain_folders (F : fs) (undo : path) : list string :=
  match walk F MAXSYMLINKS [] undo with
  | Some (q, _) => filter (λ name, F !! (q ++ [name]) = Some Dir) (py_sorted String.leb (children F q))
  | None => []
  end.
(** A folder that cannot be reached is not there for [rmtree]. *)
Definition remove_folder (undo : path) (name : string) : journal unit :=
  modify (λ s, {| files := match walk (files s) MAXSYMLINKS [] undo with
                           | Some (q, _) => rmtree (files s) (q ++ [name])
                           | None => files s
                           end;
                  current := current s; saving := saving s;
                  dropped_refs := dropped_refs s; announced := announced s |}).
Definition has_bases (m : option json) : bool :=
  match m with Some (JObj kvs) => py_bool (get_or kvs "bases" JNull) | _ => false end.
Fixpoint prune_folders (undo : path) (names : list string) : journal unit :=
  match names with
  | [] => mret ()
  | name :: names =>
      s ← get_state;
      _ ← (if has_bases (read_json (files s) (undo ++ [name; MANIFEST])) then drop_checkpoint_refs name else mret ());
      _ ← remove_folder undo name;
      prune_folders undo names
  end.
Definition prune (root : path) : journal unit :=
  s ← get_state;
  let undo := turns_dir (files s) root in
  if negb (is_folder (files s) undo) then mret ()
  else
    let folders := plain_folders (files s) undo in
    prune_folders undo (take (length folders - KEEP_TURNS) folders).

(** [turn]: a nested one shares the outer; the outermost ends with the manifest,
    also when the body raised. *)
Definition new_backup (F : fs) (root : path) (id kind request : string) : TurnBackup :=
  {| tb_root := real F root; tb_request := request; turn_id := id; tb_kind := kind;
     saved := []; created := []; bases := [] |}.
Definition end_turn (b : TurnBackup) : journal unit :=
  _ ← set_backup None;
  if changed b then
    _ ← finish b;
    _ ← prune (tb_root b);
    if bool_decide (saved b ≠ []) then announce (describe b) else mret ()
  else mret ().
Definition turn {A} (root : path) (id kind request : string) (body : TurnBackup → journal A) : journal A := λ s,
  match current s with
  | Some outer => body outer s
  | None =>
      let b := new_backup (files s) root id kind request in
      let '(s1, r) := body b (bind_backup (Some b) s) in
      match end_turn (default b (current s1)) s1 with
      | (s2, Ok _) => (s2, r)
      | (s2, Err e) => (s2, Err e)
      end
  end.

(** ** Undo *)
Record UndoResult := {
  restored : list string;
  removed : list string;
  left_alone : list string;
  refused : list (string * string);
  res_folder : option path;
}.
Definition no_result : UndoResult :=
  {| restored := []; removed := []; left_alone := []; refused := []; res_folder := None |}.
Definition add_restored (p : string) (r : UndoResult) : UndoResult :=
  {| restored := restored r ++ [p]; removed := removed r; left_alone := left_alone r;
     refused := refused r; res_folder := res_folder r |}.
Definition add_removed (p : string) (r : UndoResult) : UndoResult :=
  {| restored := restored r; removed := removed r ++ [p]; left_alone := left_alone r;
     refused := refused r; res_folder := res_folder r |}.
Definition add_left (p : string) (r : UndoResult) : UndoResult :=
  {| restored := restored r; removed := removed r; left_alone := left_alone r ++ [p];
     refused := refused r; res_folder := res_folder r |}.
Definition add_refused (p why : string) (r : UndoResult) : UndoResult :=
  {| restored := restored r; removed := removed r; left_alone := left_alone r;
     refused := refused r ++ [(p, why)]; res_folder := res_folder r |}.
Definition result_lines (verb : string) (r : UndoResult) : list string :=
  match res_folder r with
  | None => ["nothing to " +:+ verb +:+ ": no turn RACT can reverse is recorded here"]
  | Some _ =>
      let out := ((λ p, "restored " +:+ p) <$> restored r)
        ++ ((λ p, "removed " +:+ p +:+ " (the turn created it)") <$> removed r)
        ++ ((λ p, "skipped " +:+ p +:+ ": it changed after RACT wrote it; /" +:+ verb +:+ " --force overwrites it")
              <$> left_alone r)
        ++ ((λ x, "refused " +:+ str_repr x.1 +:+ ": " +:+ x.2) <$> refused r) in
      match out with
      | [] => ["nothing to " +:+ verb +:+ ": the files are already as they were"]
      | _ => out
      end
  end.

Definition is_text (v : json) (s : string) : bool := match v with JStr t => String.eqb t s | _ => false end.
(** [_names] *)
Definition _names (v : json) : list string :=
  match v with JArr l => omap (λ x, match x with JStr s => Some s | _ => None end) l | _ => [] end.
Definition entries (m : list (string * json)) (key : string) : list string := _names (get_or m key JNull).
Definition _manifests (F : fs) (root : path) : list (string * list (string * json)) :=
  let undo := turns_dir F root in
  if negb (is_folder F undo) then []
  else omap (λ name,
         match read_json F (undo ++ [name; MANIFEST]) with
         | Some (JObj m) =>
             if is_text (get_or m "root" JNull) (repository_key F root) then Some (name, m) else None
         | _ => None
         end) (plain_folders F undo).

(** [m.get("kind") in kinds]: a list or a dict has no hash. *)
Definition kind_in (kinds : list string) (m : list (string * json)) : result undo_error bool :=
  match Dict.get m "kind" with
  | Some (JStr k) => Ok (bool_decide (k ∈ kinds))
  | Some (JArr _) | Some (JObj _) => Err (Raised TypeError)
  | _ => Ok false
  end.
Definition is_done (m : list (string * json)) : bool := py_bool (get_or m "done" JNull).
Fixpoint pending (kinds : list string) (l : list (string * list (string * json)))
    : result undo_error (list (string * list (string * json))) :=
  match l with
  | [] => Ok []
  | x :: l =>
      k ← kind_in kinds x.2;
      rest ← pending kinds l;
      Ok (if k && negb (is_done x.2) then x :: rest else rest)
  end.

Definition after_of (m : list (string * json)) : list (string * json) :=
  match Dict.get m "after" with Some (JObj kvs) => kvs | _ => [] end.
(** The digest of a file is what the manifest says the turn left. *)
Definition as_left (m : list (string * json)) (key : string) (d : option string) : bool :=
  match d, get_or (after_of m) key JNull with
  | Some h, v => is_text v h
  | None, JNull => true
  | None, _ => false
  end.
(** Entries that are no text are refused, by their [repr]. *)
Definition not_paths (v : json) : list (string * string) :=
  match v with
  | JArr l => omap (λ x, match x with JStr _ => None | x => Some (py_str x, "not a path") end) l
  | _ => []
  end.
Definition why_refused (F : fs) (root at_ : path) (saved_ : list string) (key : string) : option string :=
  match check_entry F root (JStr key) with
  | Some why => Some why
  | None => if bool_decide (key ∈ saved_) then check_entry F at_ (JStr key) else None
  end.

Definition reverse_entry (root at_ : path) (m : list (string * json)) (force : bool)
    (st : TurnBackup * UndoResult) (key : string) : journal (TurnBackup * UndoResult) :=
  let '(b, res) := st in
  s ← get_state;
  match why_refused (files s) root at_ (entries m "saved") key with
  | Some why => mret (b, add_refused key why res)
  | None =>
      let full := join_root root key in
      same ← (if force then mret true
              else d ← lift_result (_sha256 (files s) full); mret (as_left m key d));
      if negb same then mret (b, add_left key res)
      else
        b ← save b [full];
        if bool_decide (key ∈ entries m "saved") then
          _ ← make_dirs (parent full);
          _ ← copyfile (join_root at_ key) full;
          mret (b, add_restored key res)
        else
          s ← get_state;
          if exists_at (files s) full then
            F ← or_os (unlink (files s) full);
            _ ← set_files F;
            mret (b, add_removed key res)
          else mret (b, res)
  end.
Fixpoint reverse_entries (root at_ : path) (m : list (string * json)) (force : bool)
    (st : TurnBackup * UndoResult) (keys : list string) : journal (TurnBackup * UndoResult) :=
  match keys with
  | [] => mret st
  | key :: keys => st ← reverse_entry root at_ m force st key; reverse_entries root at_ m force st keys
  end.

Definition _reverse (id : string) (root : path) (kinds : list string) (new_kind : string) (force : bool)
    : journal UndoResult :=
  s ← get_state;
  let root := real (files s) root in
  candidates ← lift_result (pending kinds (_manifests (files s) root));
  match last candidates with
  | None => mret no_result
  | Some (name, m) =>
      let at_ := turns_dir (files s) root ++ [name] in
      let start := {| restored := []; removed := []; left_alone := [];
                      refused := not_paths (get_or m "saved" JNull) ++ not_paths (get_or m "created" JNull);
                      res_folder := Some at_ |} in
      res ← turn root id new_kind "" (λ b,
        st ← reverse_entries root at_ m force (b, start) (entries m "saved" ++ entries m "created");
        mret st.2);
      if bool_decide (left_alone res = [] ∧ refused res = []) then
        _ ← write_text (at_ ++ [MANIFEST]) (manifest_text (JObj (Dict.set m "done" (JBool true))));
        mret res
      else mret res
  end.
Definition undo (id : string) (root : path) (force : bool) : journal UndoResult :=
  _reverse id root ["turn"; "redo"] "undo" force.
Definition redo (id : string) (root : path) (force : bool) : journal UndoResult :=
  _reverse id root ["undo"] "redo" force.

(** ** What the review and the screens read *)
Definition find_manifest (F : fs) (base : path) (name : string) : option (list (string * json)) :=
  match read_json F (turns_dir F base ++ [name; MANIFEST]) with
  | Some (JObj m) => Some m
  | _ => None
  end.
(** [key in (v or [])] *)
Definition json_contains (v : json) (key : string) : result undo_error bool :=
  if negb (py_bool v) then Ok false
  else match v with
       | JArr l => Ok (existsb (λ x, is_text x key) l)
       | JObj kvs => Ok (Dict.mem kvs key)
       | JStr s => Ok (contains s key)
       | _ => Err (Raised TypeError)
       end.
Definition previous_version (F : fs) (root : path) (backup_id relative_path : json)
    : result undo_error (option string) :=
  name ← require_name backup_id;
  let base := real F root in
  let at_ := turns_dir F base ++ [name] in
  match relative_path, check_entry F at_ relative_path with
  | JStr p, Some _ => if islink F (join_root at_ p) then Ok None else Err (BadValue p)
  | JStr p, None =>
      match find_manifest F base name with
      | None => Ok None
      | Some m =>
          if negb (is_text (get_or m "root" JNull) (repository_key F base)) then Ok None
          else
            let key := replace_char backslash "/" p in
            there ← json_contains (get_or m "saved" JNull) key;
            let copy := join_root at_ key in
            if negb there || islink F copy || negb (is_file F copy) then Ok None
            else match read_bytes F copy with
                 | Some data => Ok (if Nat.ltb MAX_PREVIOUS_VERSION_BYTES (String.length data) then None else Some data)
                 | None => Ok None
                 end
      end
  | _, _ => Err (BadValue "")
  end.

Definition note_reviewed (root : path) (turn_id relative_path : json) : journal unit :=
  s ← get_state;
  name ← lift_result (require_name turn_id);
  let base := real (files s) root in
  match relative_path, check_entry (files s) base relative_path with
  | JStr p, None =>
      match find_manifest (files s) base name with
      | None => raise (BadValue name)
      | Some m =>
          if negb (is_text (get_or m "root" JNull) (repository_key (files s) base)) then raise (BadValue name)
          else
            let key := replace_char backslash "/" p in
            if negb (bool_decide (key ∈ entries m "saved" ++ entries m "created")) then raise (BadValue key)
            else
              d ← lift_result (_sha256 (files s) (join_root base key));
              let m := Dict.set m "after" (JObj (Dict.set (after_of m) key (digest_json d))) in
              write_text (turns_dir (files s) base ++ [name; MANIFEST]) (manifest_text (JObj m))
      end
  | JStr p, Some _ => raise (BadValue p)
  | _, _ => raise (BadValue "")
  end.

(** A row of [checkpoints]; the time shown is read from the turn's id. *)
Record checkpoint_row := {
  row_turn : string;
  row_kind : string;
  row_saved : list string;
  row_created : list string;
  row_request : string;
  row_done : bool;
}.
Definition text_or (v : json) (d : string) : string := match v with JStr s => s | _ => d end.
Definition row_of (x : string * list (string * json)) : checkpoint_row :=
  let kind := get_or x.2 "kind" JNull in
  {| row_turn := x.1; row_kind := if py_bool kind then py_str kind else "turn";
     row_saved := entries x.2 "saved"; row_created := entries x.2 "created";
     row_request := text_or (get_or x.2 "request" JNull) ""; row_done := is_done x.2 |}.
Definition checkpoints (F : fs) (root : path) : list checkpoint_row :=
  rev (row_of <$> _manifests F (real F root)).
Definition last_turn (F : fs) (root : path) : option checkpoint_row :=
  head (filter (λ r, row_kind r = "turn" ∧ row_done r = false) (checkpoints F root)).

(** [decode_replace] is [bytes.decode("utf-8", errors="replace")]. *)
Definition bytes_now (F : fs) (p : path) : option string :=
  if islink F p || negb (is_file F p) then None else read_bytes F p.
Definition turn_change (decode_replace : string → string) (F : fs) (base : path) (row : checkpoint_row)
    (key : string) : string + (string * option string * option string) :=
  let not_shown := "diff not available for " +:+ key in
  let now := decode_replace <$> bytes_now F (join_root base key) in
  match check_entry F base (JStr key) with
  | Some _ => inl not_shown
  | None =>
      if bool_decide (key ∈ row_saved row) then
        match previous_version F base (JStr (row_turn row)) (JStr key) with
        | Ok (Some before) => inr (key, Some (decode_replace before), now)
        | _ => inl not_shown
        end
      else inr (key, None, now)
  end.
Definition last_turn_changes (decode_replace : string → string) (F : fs) (root : path)
    : option string * list (string * option string * option string) * list string :=
  let base := real F root in
  match last_turn F base with
  | None => (None, [], [])
  | Some row =>
      let out := turn_change decode_replace F base row <$> (row_saved row ++ row_created row) in
      (Some (row_turn row), omap (λ x, match x with inr c => Some c | inl _ => None end) out,
       omap (λ x, match x with inl n => Some n | inr _ => None end) out)
  end.

(** ** Going back to a checkpoint *)
Definition known_checkpoint (F : fs) (base : path) (turn_id : json) : result undo_error string :=
  target ← require_name turn_id;
  if bool_decide (target ∈ (_manifests F base).*1) then Ok target else Err (BadValue target).
Definition later (target : string) (l : list (string * list (string * json))) : list (string * list (string * json)) :=
  filter (λ x, String.ltb target x.1 = true) l.

(** The walk of [restore_preview] over the paths of one turn. *)
Record preview := {
  back : list string;
  left : list string;
  simulated : list (string * option string);
  stopped : bool;
}.
Definition snoc_new (l : list string) (x : string) : list string := if bool_decide (x ∈ l) then l else l ++ [x].
(** [[p for p in (data.get("saved") or []) if isinstance(p, str)]] *)
Definition saved_of (m : list (string * json)) : result undo_error (list string) :=
  let v := get_or m "saved" JNull in
  if negb (py_bool v) then Ok []
  else match py_iter v with
       | Ok l => Ok (_names (JArr l))
       | Err e => Err (Raised e)
       end.
Definition preview_path (F : fs) (base at_ : path) (m : list (string * json)) (saved_ : list string) (force : bool)
    (v : preview) (key : string) : result undo_error preview :=
  let why := why_refused F base at_ saved_ key in
  now ← match Dict.get (simulated v) key with
        | Some d => Ok d
        | None => _sha256 F (join_root base key)
        end;
  if bool_decide (why ≠ None) || negb force && negb (as_left m key now) then
    Ok {| back := back v; left := snoc_new (left v) key; simulated := simulated v; stopped := true |}
  else
    d ← (if bool_decide (key ∈ saved_) then _sha256 F (join_root at_ key) else Ok None);
    Ok {| back := if bool_decide (key ∈ back v ∨ key ∈ left v) then back v else back v ++ [key];
          left := left v; simulated := Dict.set (simulated v) key d; stopped := stopped v |}.
Fixpoint preview_turns (F : fs) (base : path) (force : bool) (v : preview)
    (l : list (string * list (string * json))) : result undo_error preview :=
  match l with
  | [] => Ok v
  | (name, m) :: l =>
      saved_ ← saved_of m;
      v ← foldlM (preview_path F base (turns_dir F base ++ [name]) m saved_ force) v
            (entries m "saved" ++ entries m "created");
      if stopped v then Ok v else preview_turns F base force v l
  end.
Definition restore_preview (F : fs) (root : path) (turn_id : json) (force : bool)
    : result undo_error (list string * list string) :=
  let base := real F root in
  target ← known_checkpoint F base turn_id;
  l ← pending ["turn"; "redo"] (_manifests F base);
  v ← preview_turns F base force {| back := []; left := []; simulated := []; stopped := false |}
        (rev (later target l));
  Ok (back v, left v).

(** [ids] are the ids the clock gives to the undos, one for each turn reversed. *)
Fixpoint restore_turns (ids : list string) (base : path) (target : string) (force : bool)
    : journal (list UndoResult) :=
  s ← get_state;
  l ← lift_result (pending ["turn"; "redo"] (_manifests (files s) base));
  match last l with
  | None => mret []
  | Some (name, _) =>
      if String.leb name target then mret []
      else match ids with
           | [] => raise NoMoreIds
           | id :: ids =>
               res ← _reverse id base ["turn"; "redo"] "undo" force;
               if bool_decide (left_alone res ≠ [] ∨ refused res ≠ []) then mret [res]
               else rest ← restore_turns ids base target force; mret (res :: rest)
           end
  end.
Definition restore (ids : list string) (root : path) (turn_id : json) (force : bool) : journal (list UndoResult) :=
  s ← get_state;
  let base := real (files s) root in
  target ← lift_result (known_checkpoint (files s) base turn_id);
  restore_turns ids base target force.
End undo.
