(* ===== verification/ReviewHunks.v ===== *)
(** * Reviewing a change hunk by hunk

    Models [review_hunks.py]: the hunks of a change, the answers the operator
    types (read from a list of inputs that may end), the text built from the
    answers, the review of a file a turn changed and of one a step proposes.
    A file that was written is recorded by [note_reviewed] of [Undo], which
    raises where the turn's manifest cannot be used. *)

From stdpp Require Import pretty.
From S2P Require Import Prelude Canonical CanonicalLines JsonText Text Gates FileSystem FileOps WorkspacePath TextLines Difflib DiffRender DiffApplier Undo.

(** [True] keeps the turn's text, [False] puts the saved text back. *)
Inductive answer : Type := Turn | Saved | Typed (ls : list string).
#[export] Instance answer_eq_dec : EqDecision answer.
Proof. solve_decision. Defined.
Definition of_bool (b : bool) : answer := if b then Turn else Saved.

Record Hunk := {
  n : nat;
  group : list opcode;
  old_start : nat;
  old_end : nat;
  new_start : nat;
  new_end : nat;
}.
Record FileReview := {
  fr_path : string;
  fr_hunks : nat;
  fr_rejected : nat;
  fr_edited : nat;
  fr_rewritten : bool;
  fr_removed : bool;
  fr_restored : bool;
  fr_note : string;
}.
Record ProposedDecision := {
  pd_path : string;
  pd_content : option string;
  pd_hunks : nat;
  pd_rejected : nat;
  pd_edited : nat;
  pd_answers : list (nat * string);
}.

(** What ends a review with an exception. *)
Inductive review_error : Type :=
| ReviewStopped
| Refused (why : Refusal)
| OsError
| NotRecorded (e : undo_error).

(** ** Lines, hunks and the text of the answers *)
Definition lines (text : string) : list string := _lines (crlf_to_lf text).
Definition hunk_of (k : nat) (g : list opcode) (first last : opcode) : Hunk :=
  {| n := k; group := g; old_start := i1 first; old_end := i2 last;
     new_start := j1 first; new_end := j2 last |}.
Fixpoint hunks_from (k : nat) (groups : list (list opcode)) : list Hunk :=
  match groups with
  | [] => []
  | g :: groups =>
      match head (changes g), last (changes g) with
      | Some first, Some last => hunk_of k g first last :: hunks_from (S k) groups
      | _, _ => hunks_from k groups
      end
  end.
Definition hunks (old new : string) : option (list Hunk) :=
  hunks_from 1 <$> group_hunks (lines old) (lines new) 3.

Definition answer_to (answers : list (nat * answer)) (h : Hunk) : answer :=
  default Turn (Dict.get answers (n h)).
Definition answer_lines (old_lines new_lines : list string) (h : Hunk) (a : answer) : list string :=
  match a with
  | Turn => sub new_lines (new_start h) (new_end h)
  | Saved => sub old_lines (old_start h) (old_end h)
  | Typed ls => ls
  end.
(** The lines built so far, where the old lines are, and whose end the last ones have. *)
Fixpoint combine_from (old_lines new_lines : list string) (answers : list (nat * answer))
    (pos : nat) (last_from_new : bool) (found : list Hunk) : list string * bool :=
  match found with
  | [] => (drop pos old_lines, last_from_new)
  | h :: found =>
      let a := answer_to answers h in
      let last_from_new :=
        if Nat.eqb (old_end h) (length old_lines) then negb (bool_decide (a = Saved)) else last_from_new in
      let '(out, from_new) := combine_from old_lines new_lines answers (old_end h) last_from_new found in
      (sub old_lines pos (old_start h) ++ answer_lines old_lines new_lines h a ++ out, from_new)
  end.
Definition combine (old new : string) (found : list Hunk) (answers : list (nat * answer))
    (ending : string) : string :=
  let '(out, last_from_new) := combine_from (lines old) (lines new) answers 0 true found in
  match out with
  | [] => ""
  | _ => str_join ending out +:+
         (if endswith (if last_from_new then new else old) LF then ending else "")
  end.

Definition _text (data : string) : option string :=
  if utf8_valid data then Some (without_bom data) else None.
Definition ending_of (new : string) : string := if has_crlf new then CRLF else LF.

(** ** The menu *)
Definition choice_items (applied : bool) : list string :=
  ["a accept"; "r reject"; "e edit";
   if applied then "s skip (leave it as it is)" else "s skip (do not apply it)";
   "A accept the rest of the file"; "R reject the rest of the file"].
Definition ACCEPT_WORDS : list string := ["a"; "y"; "yes"].
Definition REJECT_WORDS : list string := ["r"; "n"; "no"].
Definition SKIP_WORDS : list string := ["s"; "skip"].

Fixpoint fold_choices (width : nat) (current : string) (out : list string) (items : list string) : list string :=
  match items with
  | [] => out ++ [current]
  | item :: items =>
      let piece := item +:+ (match items with [] => "" | _ => "," end) in
      let candidate := if String.eqb current "" then piece else current +:+ " " +:+ piece in
      if negb (String.eqb current "") && Nat.ltb width (str_len candidate)
      then fold_choices width piece (out ++ [current]) items
      else fold_choices width candidate out items
  end.
Definition choice_lines (width : nat) (applied : bool) : list string :=
  fold_choices width "" [] (choice_items applied).

(** ** What the review reads, shows and writes

    An input that is [None], or no input at all, is the end of the input. *)
Record review_state := {
  inputs : list (option string);
  shown : list string;
  rdisk : fs;
}.
Notation reviewing := (action review_state review_error).

Definition show (line : string) : reviewing unit :=
  modify (λ s, {| inputs := inputs s; shown := shown s ++ [line]; rdisk := rdisk s |}).
Definition show_all (ls : list string) : reviewing unit :=
  modify (λ s, {| inputs := inputs s; shown := shown s ++ ls; rdisk := rdisk s |}).
Definition set_disk (F : fs) : reviewing unit :=
  modify (λ s, {| inputs := inputs s; shown := shown s; rdisk := F |}).
(** A call of [undo_backup] on the files, outside of any turn. *)
Definition undo_world_of (F : fs) : undo_world :=
  {| files := F; current := None; saving := []; dropped_refs := []; announced := [] |}.
Definition calling_undo (m : journal unit) : reviewing unit := λ s,
  let '(w, r) := m (undo_world_of (rdisk s)) in
  ({| inputs := inputs s; shown := shown s; rdisk := files w |},
   match r with Ok () => Ok () | Err e => Err (NotRecorded e) end).
(** The callback [ask], as the loops call it. *)
Definition after_input (ins : list (option string)) (s : review_state) : review_state :=
  {| inputs := ins; shown := shown s; rdisk := rdisk s |}.
(** A loop that asks once per round; [body] decides, or says what to show
    before it asks again. *)
Fixpoint ask_loop {A} (ins : list (option string))
    (body : string → list (option string) → review_state → (review_state * result review_error A) + list string)
    (s : review_state) : review_state * result review_error A :=
  match ins with
  | [] | None :: _ => (after_input (tail ins) s, Err ReviewStopped)
  | Some line :: ins =>
      match body line ins (after_input ins s) with
      | inl r => r
      | inr again => ask_loop ins body (show_all again (after_input ins s)).1
      end
  end.

Section review.
Context {U : Unicode} {T : PyText} {W : CellLen}.

Fixpoint typed_from (ins : list (option string)) (typed : list string) (s : review_state)
    : review_state * result review_error (list string) :=
  match ins with
  | [] | None :: _ => (after_input (tail ins) s, Err ReviewStopped)
  | Some line :: ins =>
      if String.eqb (strip line) "." then (after_input ins s, Ok typed)
      else typed_from ins (typed ++ [line]) s
  end.
Definition read_typed : reviewing (list string) := λ s, typed_from (inputs s) [] s.
Definition _typed_lines : reviewing (list string) :=
  _ ← show "Type the new lines for this hunk. End with a line holding only a dot (.).";
  read_typed.

Definition not_understood (answer what : string) (more : list string) : list string :=
  ("Not understood: " +:+ str_repr (safe_text answer) +:+ what) :: more.

(** One answer to one hunk, and what it says of the rest of the file. *)
Definition choose (applied : bool) (width : nat) (line : string) (ins : list (option string))
    (s : review_state) : (review_state * result review_error (answer * option bool)) + list string :=
  let answer := strip line in
  if String.eqb answer "A" then inl (s, Ok (Turn, Some true))
  else if String.eqb answer "R" then inl (s, Ok (Saved, Some false))
  else
    let choice := lower answer in
    if bool_decide (choice ∈ ACCEPT_WORDS) then inl (s, Ok (Turn, None))
    else if bool_decide (choice ∈ REJECT_WORDS) then inl (s, Ok (Saved, None))
    else if bool_decide (choice ∈ SKIP_WORDS) then inl (s, Ok (of_bool applied, None))
    else if String.eqb choice "e" then inl ((ls ← _typed_lines; mret (Typed ls, None)) s)
    else inr (not_understood answer ". Answer with one of:" (choice_lines (Nat.max (width - 3) 20) applied)).
Definition answer_hunk (applied : bool) (width : nat) : reviewing (answer * option bool) :=
  λ s, ask_loop (inputs s) (choose applied width) s.

Fixpoint answer_from (p : string) (old_lines new_lines : list string) (total width : nat) (applied : bool)
    (rest : option bool) (answers : list (nat * answer)) (found : list Hunk)
    : reviewing (list (nat * answer)) :=
  match found with
  | [] => mret answers
  | h :: found =>
      match rest with
      | Some b =>
          answer_from p old_lines new_lines total width applied rest
            (Dict.set answers (n h) (of_bool b)) found
      | None =>
          _ ← show ("Hunk " +:+ pretty (n h) +:+ " of " +:+ pretty total +:+ " in " +:+ safe_text p +:+ ":");
          _ ← show_all (draw_hunk p old_lines new_lines (group h) width 200);
          _ ← show_all (choice_lines (Nat.max (width - 3) 20) applied);
          '(a, rest) ← answer_hunk applied width;
          answer_from p old_lines new_lines total width applied rest
            (Dict.set answers (n h) a) found
      end
  end.
Definition _answer_hunks (p old new : string) (found : list Hunk) (width : nat) (applied : bool)
    : reviewing (list (nat * answer)) :=
  answer_from p (lines old) (lines new) (length found) width applied None [] found.

(** A yes or no about a change that is not split into hunks. *)
Definition decide_whole (yes no : list string) (what line : string) (ins : list (option string))
    (s : review_state) : (review_state * result review_error bool) + list string :=
  let answer := lower (strip line) in
  if bool_decide (answer ∈ yes) then inl (s, Ok true)
  else if bool_decide (answer ∈ no) then inl (s, Ok false)
  else inr (not_understood answer what []).
Definition _whole_file : reviewing bool := λ s,
  ask_loop (inputs s)
    (decide_whole (["k"; "keep"] ++ ACCEPT_WORDS ++ SKIP_WORDS) ("restore" :: REJECT_WORDS)
       ". Answer k to keep or r to restore.") s.
Definition _apply_whole : reviewing bool := λ s,
  ask_loop (inputs s)
    (decide_whole (["apply"; "k"; "keep"] ++ ACCEPT_WORDS) (REJECT_WORDS ++ SKIP_WORDS)
       ". Answer a to apply or r to leave it out.") s.

Definition rejected (answers : list (nat * answer)) : nat :=
  length (filter (λ a, a = Saved) (Dict.values answers)).
Definition is_typed (a : answer) : bool := match a with Typed _ => true | _ => false end.
Definition edited (answers : list (nat * answer)) : nat :=
  length (filter (λ a, is_typed a = true) (Dict.values answers)).

(** ** A proposed file: nothing is written *)
Definition answer_word (a : answer) : string :=
  match a with Typed _ => "edited" | Turn => "accepted" | Saved => "rejected" end.
Definition decision (key : string) (content : option string) (hunks rejected edited : nat)
    (answers : list (nat * string)) : ProposedDecision :=
  {| pd_path := key; pd_content := content; pd_hunks := hunks; pd_rejected := rejected;
     pd_edited := edited; pd_answers := answers |}.
Definition whole_decision (key : string) (keep : bool) (kept left : option string) : ProposedDecision :=
  decision key (if keep then kept else left) 1 (if keep then 0 else 1) 0
    [(1, if keep then "accepted" else "rejected")].
(** The text of the side before: "" for a file that was not there. *)
Definition text_before (before : option string) : option string :=
  match before with None => Some "" | Some data => _text data end.
Definition found_hunks (before : option string) (after : string) : option (string * string * list Hunk) :=
  match text_before before, _text after with
  | Some old, Some new =>
      match hunks old new with
      | Some (h :: hs) => Some (old, new, h :: hs)
      | _ => None
      end
  | _, _ => None
  end.
Definition show_whole (key : string) (before : option string) (after : string) (width : nat) : reviewing unit :=
  show_all (render_hunks key
    (match before with None => None | Some data => Some (default "" (_text data)) end)
    (Some (default "" (_text after))) width 3 40).
Definition review_proposed_file (key : string) (before after : option string) (width : nat)
    : reviewing ProposedDecision :=
  match after with
  | None =>
      _ ← show (safe_text key +:+ ": the step removes this file.");
      keep ← _apply_whole;
      mret (whole_decision key keep None before)
  | Some data =>
      match found_hunks before data with
      | None =>
          _ ← show_whole key before data width;
          keep ← _apply_whole;
          mret (whole_decision key keep after before)
      | Some (old, new, found) =>
          answers ← _answer_hunks key old new found width false;
          let content :=
            if Nat.eqb (rejected answers) 0 && Nat.eqb (edited answers) 0 then after
            else if Nat.eqb (rejected answers) (length found) then before
            else Some (bom_of data +:+ combine old new found answers (ending_of new)) in
          mret (decision key content (length found) (rejected answers) (edited answers)
                  ((λ h, (n h, answer_word (answer_to answers h))) <$> found))
      end
  end.

(** ** A file of the last turn *)
(** [mkdir(parents=True, exist_ok=True)] below a path that was accepted for a
    write, so that no part of it is a link. *)
Fixpoint make_dirs (F : fs) (seen rest : path) : option fs :=
  match rest with
  | [] => Some F
  | part :: rest =>
      let p := seen ++ [part] in
      match F !! p with
      | Some Dir => make_dirs F p rest
      | Some _ => None
      | None => make_dirs (<[p := Dir]> F) p rest
      end
  end.
(** [write_atomic]: a new file takes the name; a directory keeps it. *)
Definition write_atomic (F : fs) (p : path) (data : string) : option fs :=
  match F !! p with
  | Some Dir => None
  | _ => Some (<[p := Regular data 1]> F)
  end.

Context (cwd : path) (fold_case : bool).
Definition _write (root : path) (key : string) (data : option string) : reviewing unit :=
  s ← get_state;
  target ← lift_result (match resolve_workspace_path (rdisk s) cwd fold_case (path_str root) key Write with
                        | Ok p => Ok p
                        | Err why => Err (Refused why)
                        end);
  match data with
  | None => if is_file (rdisk s) target then set_disk (delete target (rdisk s)) else mret ()
  | Some data =>
      match (F ← make_dirs (rdisk s) [] (parent target); write_atomic F target data) with
      | Some F => set_disk F
      | None => raise OsError
      end
  end.

Definition file_review (key : string) (hunks rejected edited : nat) (rewritten removed restored : bool)
    (note : string) : FileReview :=
  {| fr_path := key; fr_hunks := hunks; fr_rejected := rejected; fr_edited := edited;
     fr_rewritten := rewritten; fr_removed := removed; fr_restored := restored; fr_note := note |}.
Context {R : Runtime} {Sh : Sha256} (state_dir : path).
Definition _recorded (root : path) (turn : string) (res : FileReview) : reviewing FileReview :=
  _ ← (if fr_rewritten res || fr_removed res || fr_restored res
       then calling_undo (note_reviewed state_dir root (JStr turn) (JStr (fr_path res))) else mret ());
  mret res.
Definition is_none {A} (o : option A) : bool := match o with None => true | Some _ => false end.
Definition whole_review (key : string) (before : option string) (keep : bool) : FileReview :=
  if keep then file_review key 1 0 0 false false false ""
  else file_review key 1 1 0 false (is_none before) (negb (is_none before)) "".

(** What is there now: the bytes of a regular file that is no link. *)
Definition bytes_now (F : fs) (p : path) : option string :=
  if islink F p then None else read_bytes F p.
Definition review_file (root : path) (turn key : string) (before : option string) (width : nat)
    : reviewing FileReview :=
  s ← get_state;
  match bytes_now (rdisk s) (join_root root key), before with
  | None, None =>
      mret (file_review key 0 0 0 false false false
              (safe_text key +:+ ": the turn created it and it is gone now"))
  | None, Some _ =>
      _ ← show (safe_text key +:+ ": removed since the turn's copy was saved.");
      keep ← _whole_file;
      _ ← (if keep then mret () else _write root key before);
      _recorded root turn (file_review key 1 0 0 false false (negb keep) "")
  | Some data, _ =>
      match found_hunks before data with
      | None =>
          _ ← show_whole key before data width;
          keep ← _whole_file;
          _ ← (if keep then mret () else _write root key before);
          _recorded root turn (whole_review key before keep)
      | Some (old, new, found) =>
          answers ← _answer_hunks key old new found width true;
          let k := length found in
          let r := rejected answers in
          let e := edited answers in
          if Nat.eqb r 0 && Nat.eqb e 0 then mret (file_review key k r e false false false "")
          else if Nat.eqb r k then
            _ ← _write root key before;
            _recorded root turn (file_review key k r e false (is_none before) (negb (is_none before)) "")
          else
            _ ← _write root key
                  (Some (bom_of data +:+ combine old new found answers (ending_of new)));
            _recorded root turn (file_review key k r e true false false "")
      end
  end.
End review.
