(* ===== verification/ReviewHunksLaws.v ===== *)
(** * What a review promises

    Each hunk decides its own lines and no others; an input that ends writes
    nothing; skipping leaves the disk, or the proposal, as it is; and what a
    review writes is one file, which the turn's record then names. *)

From S2P Require Import Prelude Canonical CanonicalLines JsonText Text Gates FileSystem FileOps WorkspacePath TextLines Difflib DiffRender DiffRenderLaws DiffApplier Undo ReviewHunks.

(** ** The hunks cover the change *)
Section cover.
Context {A : Type} (a b : list A).

Lemma gapped_changes i j ops i' j' : gapped a b i j ops i' j' → gapped a b i j (changes ops) i' j'.
Proof.
  revert i j. induction ops as [|o ops IH]; intros i j Hg; [done|].
  destruct (is_equal o) eqn:E.
  - rewrite changes_equal by done. apply IH. eapply gapped_same; [|exact Hg].
    by apply bool_decide_eq_true in E.
  - change (o :: ops) with ([o] ++ ops). rewrite changes_app.
    replace (changes [o]) with [o] by (unfold changes; by rewrite filter_cons, decide_True).
    destruct Hg as (? & ? & Hg). split; [done|]. split; [done|]. by apply IH.
Qed.

Definition span (h : Hunk) : opcode := Op Replace (old_start h) (old_end h) (new_start h) (new_end h).
Lemma gapped_span i j c cs i' j' k g : gapped a b i j (c :: cs) i' j' →
  gapped a b i j [span (hunk_of k g c (default c (last cs)))] i' j'.
Proof.
  intros (Hs & Hw & Hg).
  assert (∀ c cs, op_weak a b c → gapped a b (i2 c) (j2 c) cs i' j' →
    i2 c ≤ i2 (default c (last cs)) ∧ j2 c ≤ j2 (default c (last cs)) ∧
    same a b (i2 (default c (last cs))) i' (j2 (default c (last cs))) j') as H.
  { clear. intros c cs. revert c. induction cs as [|d cs IH]; intros c Hc Hg; [by split_and!|].
    destruct Hg as ((? & ? & _) & Hd & Hg). destruct (IH d Hd Hg) as (? & ? & ?).
    assert (default c (last (d :: cs)) = default d (last cs)) as ->.
    { rewrite last_cons. by destruct (last cs). }
    destruct Hd as (? & ? & _). split_and!; [lia|lia|done]. }
  destruct (H c cs Hw Hg) as (? & ? & ?). destruct Hw as (? & ? & _).
  cbn. split; [done|]. split; [|done]. unfold op_weak. cbn. split_and!; [lia|lia|done].
Qed.
Lemma hunks_gapped k groups i j i' j' : gapped a b i j (concat groups) i' j' →
  gapped a b i j (span <$> hunks_from k groups) i' j'.
Proof.
  revert k i j. induction groups as [|g groups IH]; intros k i j; [done|]. cbn [concat hunks_from].
  intros (m & l & Hg%gapped_changes & Hr)%gapped_app.
  destruct (changes g) as [|c cs].
  - cbn [head last]. apply IH. apply (gapped_app a b i j [] _). by exists m, l.
  - rewrite last_cons. cbn [head].
    assert ((match last cs with Some y => Some y | None => Some c end) = Some (default c (last cs))) as ->
      by by destruct (last cs).
    apply (gapped_app a b i j [_] _). exists m, l. split; [by apply gapped_span|by apply IH].
Qed.
End cover.

(** The common parts and what stands between them. *)
Definition weave (common parts : list (list string)) (tail : list string) : list string :=
  concat (zip_with app common parts) ++ tail.
Lemma weave_cons c common p parts tail :
  weave (c :: common) (p :: parts) tail = c ++ p ++ weave common parts tail.
Proof. unfold weave. cbn. by rewrite <-!app_assoc. Qed.

Section combined.
Context (old_lines new_lines : list string) (answers : list (nat * answer)).
Notation parts a found := ((λ h, answer_lines old_lines new_lines h (a h)) <$> found).

Lemma combine_from_spec pos j found b :
  gapped old_lines new_lines pos j (span <$> found) (length old_lines) (length new_lines) →
  pos ≤ length old_lines → j ≤ length new_lines →
  ∃ common tail, length common = length found ∧
    drop pos old_lines = weave common (parts (λ _, Saved) found) tail ∧
    drop j new_lines = weave common (parts (λ _, Turn) found) tail ∧
    (combine_from old_lines new_lines answers pos b found).1 = weave common (parts (answer_to answers) found) tail.
Proof.
  revert pos j b. induction found as [|h found IH]; intros pos j b Hg Hp Hj.
  - cbn in Hg. exists [], (drop pos old_lines). split_and!; [done|done| |done].
    rewrite !drop_sub. symmetry. by eapply same_sub.
  - destruct Hg as (Hs & (Hi & Hj' & _) & Hg). pose proof (gapped_le _ _ _ _ _ _ _ Hg) as [Hio Hjo].
    cbn in Hs, Hi, Hj', Hg, Hio, Hjo. pose proof Hs as (? & ? & _).
    destruct (IH (old_end h) (new_end h) (if Nat.eqb (old_end h) (length old_lines)
      then negb (bool_decide (answer_to answers h = Saved)) else b) Hg) as (common & tail & Hl & Ho & Hn & Hc);
      [lia..|].
    assert (sub old_lines pos (old_start h) = sub new_lines j (new_start h)) as Hsub.
    { eapply same_sub; [exact Hs|lia..]. }
    exists (sub old_lines pos (old_start h) :: common), tail. rewrite !fmap_cons, !weave_cons. split_and!.
    + cbn. by rewrite Hl.
    + rewrite <-Ho, drop_sub, (sub_app _ _ (old_start h)) by lia. f_equal. cbn.
      rewrite (sub_app _ _ (old_end h)) by lia. by rewrite <-drop_sub.
    + rewrite <-Hn, Hsub, drop_sub, (sub_app _ _ (new_start h)) by lia. f_equal. cbn.
      rewrite (sub_app _ _ (new_end h)) by lia. by rewrite <-drop_sub.
    + rewrite <-Hc. cbn [combine_from]. by destruct (combine_from _ _ _ _ _ _) as [out fn].
Qed.
End combined.

Lemma combine_from_ends old_lines new_lines answers pos b found :
  (combine_from old_lines new_lines answers pos b found).2 =
  foldl (λ b h, if Nat.eqb (old_end h) (length old_lines)
                then negb (bool_decide (answer_to answers h = Saved)) else b) b found.
Proof.
  revert pos b. induction found as [|h found IH]; intros pos b; [done|]. cbn [combine_from foldl].
  rewrite <-(IH (old_end h)). by destruct (combine_from _ _ _ _ _ _).
Qed.

(** ** Reading and showing change nothing *)
Section review.
Context {U : Unicode} {T : PyText} {W : CellLen}.

Definition same_world (s s' : review_state) : Prop := rdisk s' = rdisk s.
#[export] Instance same_world_preorder : PreOrder same_world.
Proof. split; [by intros s|]. intros s1 s2 s3. unfold same_world. congruence. Qed.
Definition quiet {A} (m : reviewing A) : Prop := ∀ s, same_world s (m s).1.

Lemma quiet_ret {A} (a : A) : quiet (mret a).
Proof. by intros s. Qed.
Lemma quiet_bind {A B} (m : reviewing A) (f : A → reviewing B) : quiet m → (∀ a, quiet (f a)) → quiet (m ≫= f).
Proof.
  intros Hm Hf s. specialize (Hm s). unfold mbind, action_bind.
  destruct (m s) as [s' [a|e]]; [|done]. etrans; [exact Hm|apply Hf].
Qed.
Lemma quiet_show l : quiet (show l).
Proof. by intros s. Qed.
Lemma quiet_show_all ls : quiet (show_all ls).
Proof. by intros s. Qed.
Lemma quiet_typed : quiet _typed_lines.
Proof.
  apply quiet_bind; [apply quiet_show|]. intros _ s. unfold read_typed.
  generalize ([] : list string). induction (inputs s) as [|[l|] ins IH]; intros typed; cbn [typed_from]; [done| |done].
  destruct (String.eqb _ _); [done|apply IH].
Qed.
Lemma quiet_ask_loop {A} ins (body : string → _ → review_state → (review_state * result review_error A) + _) s :
  (∀ line ins s r, body line ins s = inl r → same_world s r.1) → same_world s (ask_loop ins body s).1.
Proof.
  intros Hb. revert s. induction ins as [|[line|] ins IH]; intros s; cbn [ask_loop]; [done| |done].
  destruct (body line ins (after_input ins s)) as [r|again] eqn:E.
  - by apply Hb in E.
  - etrans; [|apply IH]. done.
Qed.
Lemma quiet_answer applied width : quiet (answer_hunk applied width).
Proof.
  intros s. apply quiet_ask_loop. clear. intros line ins s r. unfold choose.
  repeat case_match; intros [= <-]; try done.
  apply (quiet_bind _typed_lines); [apply quiet_typed|]. intros ls. apply quiet_ret.
Qed.
Lemma quiet_whole yes no what : quiet (λ s, ask_loop (inputs s) (decide_whole yes no what) s).
Proof.
  intros s. apply quiet_ask_loop. clear. intros line ins s r. unfold decide_whole.
  repeat case_match; by intros [= <-].
Qed.
Lemma quiet_answers p old new found width applied : quiet (_answer_hunks p old new found width applied).
Proof.
  unfold _answer_hunks. generalize (None : option bool), ([] : list (nat * answer)).
  generalize (length found) as total. intros total.
  induction found as [|h found IH]; intros rest answers; cbn [answer_from]; [apply quiet_ret|].
  destruct rest; [apply IH|].
  apply quiet_bind; [apply quiet_show|intros _]. apply quiet_bind; [apply quiet_show_all|intros _].
  apply quiet_bind; [apply quiet_show_all|intros _].
  apply quiet_bind; [apply quiet_answer|]. intros [a rest]. apply IH.
Qed.
Lemma quiet_proposed key before after width : quiet (review_proposed_file key before after width).
Proof.
  unfold review_proposed_file. destruct after as [data|]; [destruct (found_hunks _ _) as [[[old new] found]|]|];
    (apply quiet_bind; [first [apply quiet_answers|apply quiet_show_all|apply quiet_show]|]; intros;
     try (apply quiet_bind; [apply quiet_whole|]; intros); apply quiet_ret).
Qed.

(** ** What the inputs say

    Which answer a line gives, apart from the code's own tables: [A] and [R]
    answer for the rest of the file, and a typed hunk ends at a dot. *)
Inductive word := AcceptWord | RejectWord | SkipWord | EditWord | AcceptRest | RejectRest.
Definition word_of (line : string) : option word :=
  let w := strip line in
  if bool_decide (w = "A") then Some AcceptRest
  else if bool_decide (w = "R") then Some RejectRest
  else if bool_decide (lower w ∈ ["a"; "y"; "yes"]) then Some AcceptWord
  else if bool_decide (lower w ∈ ["r"; "n"; "no"]) then Some RejectWord
  else if bool_decide (lower w ∈ ["s"; "skip"]) then Some SkipWord
  else if bool_decide (lower w = "e") then Some EditWord
  else None.

(** The inputs answer one hunk: [a], and for the rest of the file too where
    the last one is given. *)
Inductive said (applied : bool) : list (option string) → answer → option bool → list (option string) → Prop :=
| said_again line ins a rest ins' :
    word_of line = None → said applied ins a rest ins' → said applied (Some line :: ins) a rest ins'
| said_accept line ins : word_of line = Some AcceptWord → said applied (Some line :: ins) Turn None ins
| said_reject line ins : word_of line = Some RejectWord → said applied (Some line :: ins) Saved None ins
| said_skip line ins :
    word_of line = Some SkipWord → said applied (Some line :: ins) (if applied then Turn else Saved) None ins
| said_edit line typed dot ins :
    word_of line = Some EditWord → Forall (λ l, strip l ≠ ".") typed → strip dot = "." →
    said applied (Some line :: (Some <$> typed) ++ Some dot :: ins) (Typed typed) None ins
| said_accept_rest line ins : word_of line = Some AcceptRest → said applied (Some line :: ins) Turn (Some true) ins
| said_reject_rest line ins : word_of line = Some RejectRest → said applied (Some line :: ins) Saved (Some false) ins.
(** The inputs answer [k] hunks. *)
Inductive hunks_say (applied : bool) : list (option string) → nat → list answer → list (option string) → Prop :=
| say_all ins : hunks_say applied ins 0 [] ins
| say_one ins a ins1 k l ins' :
    said applied ins a None ins1 → hunks_say applied ins1 k l ins' → hunks_say applied ins (S k) (a :: l) ins'
| say_rest ins a b ins' k :
    said applied ins a (Some b) ins' → hunks_say applied ins (S k) (replicate (S k) a) ins'.
(** The inputs answer a yes or no with one of these words. *)
Inductive whole_says (yes no : list string) : list (option string) → bool → list (option string) → Prop :=
| whole_again line ins keep ins' :
    lower (strip line) ∉ yes ++ no → whole_says yes no ins keep ins' → whole_says yes no (Some line :: ins) keep ins'
| whole_yes line ins : lower (strip line) ∈ yes → whole_says yes no (Some line :: ins) true ins
| whole_no line ins : lower (strip line) ∈ no → whole_says yes no (Some line :: ins) false ins.
Notation keep_says := (whole_says ["k"; "keep"; "a"; "y"; "yes"; "s"; "skip"] ["restore"; "r"; "n"; "no"]).
Notation apply_says := (whole_says ["apply"; "k"; "keep"; "a"; "y"; "yes"] ["r"; "n"; "no"; "s"; "skip"]).

Lemma choose_word_of applied width line ins s : choose applied width line ins s =
  match word_of line with
  | Some AcceptWord => inl (s, Ok (Turn, None))
  | Some RejectWord => inl (s, Ok (Saved, None))
  | Some SkipWord => inl (s, Ok (if applied then Turn else Saved, None))
  | Some EditWord => inl ((ls ← _typed_lines; mret (Typed ls, None)) s)
  | Some AcceptRest => inl (s, Ok (Turn, Some true))
  | Some RejectRest => inl (s, Ok (Saved, Some false))
  | None => inr (not_understood (strip line) ". Answer with one of:" (choice_lines (Nat.max (width - 3) 20) applied))
  end.
Proof.
  unfold choose, word_of, ACCEPT_WORDS, REJECT_WORDS, SKIP_WORDS, of_bool.
  destruct (String.eqb_spec (strip line) "A");
    [by rewrite (bool_decide_true (strip line = "A"))|rewrite (bool_decide_false (strip line = "A")) by done].
  destruct (String.eqb_spec (strip line) "R");
    [by rewrite (bool_decide_true (strip line = "R"))|rewrite (bool_decide_false (strip line = "R")) by done].
  repeat (case_bool_decide; [done|]).
  destruct (String.eqb_spec (lower (strip line)) "e"); by case_bool_decide.
Qed.
Lemma typed_said ins acc s s' ls : typed_from ins acc s = (s', Ok ls) → ∃ typed dot,
  ins = (Some <$> typed) ++ Some dot :: inputs s' ∧ ls = acc ++ typed ∧
  Forall (λ l, strip l ≠ ".") typed ∧ strip dot = ".".
Proof.
  revert acc. induction ins as [|[line|] ins IH]; intros acc; cbn [typed_from]; [done| |done].
  destruct (String.eqb_spec (strip line) ".") as [E|E].
  - intros [= <- <-]. exists [], line. by rewrite app_nil_r.
  - intros (typed & dot & -> & -> & Ht & Hd)%IH. exists (line :: typed), dot.
    rewrite <-app_assoc. split_and!; [done..|by constructor|done].
Qed.
Lemma answer_said applied width s s' a rest : answer_hunk applied width s = (s', Ok (a, rest)) →
  said applied (inputs s) a rest (inputs s').
Proof.
  unfold answer_hunk. generalize (inputs s) as ins. intros ins. revert s.
  induction ins as [|[line|] ins IH]; intros s; cbn [ask_loop]; [done| |done].
  rewrite choose_word_of. destruct (word_of line) as [w|] eqn:E.
  - destruct w.
    4: { intros (s1 & ls & Ht & [= <- <- <-])%action_bind_ok.
         apply action_bind_ok in Ht as (s2 & u & [= <- <-] & Ht). unfold read_typed in Ht. cbn [inputs after_input] in Ht.
         apply typed_said in Ht as (typed & dot & -> & -> & Hf & Hd). by constructor. }
    all: intros [= <- <- <-]; by constructor.
  - intros H. constructor; [done|]. by eapply IH.
Qed.
Lemma whole_said yes no what s s' keep :
  ask_loop (inputs s) (decide_whole yes no what) s = (s', Ok keep) → whole_says yes no (inputs s) keep (inputs s').
Proof.
  generalize (inputs s) as ins. intros ins. revert s.
  induction ins as [|[line|] ins IH]; intros s; cbn [ask_loop]; [done| |done]. unfold decide_whole.
  case_bool_decide as H1; [intros [= <- <-]; by constructor|].
  case_bool_decide as H2; [intros [= <- <-]; by constructor|].
  intros H. constructor; [rewrite elem_of_app; tauto|]. by eapply IH.
Qed.
Lemma zip_set {A} (answers : list (nat * A)) h (x : A) ks l : h ∉ Dict.keys answers →
  Dict.set answers h x ++ zip ks l = answers ++ zip (h :: ks) (x :: l).
Proof. intros Hn. rewrite Dict.set_notin by done. by rewrite <-app_assoc. Qed.
Lemma answers_said p old new total width applied rest answers found s s' res :
  answer_from p old new total width applied rest answers found s = (s', Ok res) →
  NoDup (n <$> found) → (∀ h, h ∈ found → n h ∉ Dict.keys answers) →
  ∃ l, res = answers ++ zip (n <$> found) l ∧ length l = length found ∧
    match rest with
    | Some b => l = replicate (length found) (of_bool b) ∧ inputs s' = inputs s
    | None => hunks_say applied (inputs s) (length found) l (inputs s')
    end.
Proof.
  revert rest answers s. induction found as [|h found IH]; intros rest answers s; cbn [answer_from].
  { intros [= <- <-] _ _. exists []. rewrite app_nil_r. split_and!; [done..|]. destruct rest; [done|constructor]. }
  intros Hr [Hh Hn]%NoDup_cons Hk. assert (n h ∉ Dict.keys answers) as Hkh by (apply Hk; left).
  assert (∀ x h', h' ∈ found → n h' ∉ Dict.keys (Dict.set answers (n h) x)) as Hk'.
  { intros x h' Hin. rewrite Dict.set_notin, Dict.keys_app by done. intros [?|E%list_elem_of_singleton]%elem_of_app.
    - by apply (Hk h'); [right|].
    - cbn in E. apply Hh. rewrite <-E. by apply list_elem_of_fmap_2. }
  destruct rest as [b|].
  - destruct (IH _ _ _ Hr Hn (Hk' _)) as (l & -> & Hl & -> & ->). exists (replicate (S (length found)) (of_bool b)).
    rewrite zip_set by done. split_and!; [done| |done..]. cbn. by rewrite length_replicate.
  - apply action_bind_ok in Hr as (s1 & u1 & [= <- <-] & Hr). apply action_bind_ok in Hr as (s2 & u2 & [= <- <-] & Hr).
    apply action_bind_ok in Hr as (s3 & u3 & [= <- <-] & Hr). apply action_bind_ok in Hr as (s4 & [a rest] & Ha & Hr).
    apply answer_said in Ha. cbn [inputs] in Ha.
    destruct (IH _ _ _ Hr Hn (Hk' _)) as (l & -> & Hl & Hs). exists (a :: l).
    rewrite zip_set by done. split_and!; [done|by cbn; rewrite Hl|]. destruct rest as [b|].
    + destruct Hs as [-> ->]. assert (of_bool b = a) as ->; [|by eapply (say_rest _ _ _ b _ (length found))].
      clear -Ha. remember (Some b) as r eqn:E. induction Ha; simplify_eq; by auto.
    + by econstructor.
Qed.

(** The bytes that answers ask for: the parts common to both sides, and between
    them, for each hunk, the part its answer takes.  The text ends in a newline
    where the side of its last lines does. *)
Definition part (old new : string) (h : Hunk) (a : answer) : list string :=
  match a with
  | Turn => sub (lines new) (new_start h) (new_end h)
  | Saved => sub (lines old) (old_start h) (old_end h)
  | Typed ls => ls
  end.
Definition ends_as_new (old : string) (found : list Hunk) (l : list answer) : bool :=
  foldl (λ b ha, if Nat.eqb (old_end ha.1) (length (lines old)) then negb (bool_decide (ha.2 = Saved)) else b)
    true (zip found l).
Definition built (old new ending : string) (found : list Hunk) (l : list answer) (text : string) : Prop :=
  ∃ common tail, length common = length found ∧
    lines old = weave common ((λ h, part old new h Saved) <$> found) tail ∧
    lines new = weave common ((λ h, part old new h Turn) <$> found) tail ∧
    text = let out := weave common (zip_with (part old new) found l) tail in
           if bool_decide (out = []) then "" else
             str_join ending out +:+ (if endswith (if ends_as_new old found l then new else old) LF then ending else "").

Lemma answers_zip (found : list Hunk) (l : list answer) : NoDup (n <$> found) → length l = length found →
  answer_to (zip (n <$> found) l) <$> found = l.
Proof.
  revert l. induction found as [|h found IH]; intros [|a l]; try done. rewrite !fmap_cons.
  intros [Hh Hn]%NoDup_cons [= Hl]. cbn [zip zip_with]. f_equal.
  - unfold answer_to. cbn. by rewrite decide_True.
  - rewrite <-(IH l) at 2 by done. apply list_fmap_ext. intros i h' Hi. unfold answer_to. cbn.
    rewrite decide_False; [done|]. intros E. apply Hh. rewrite <-E. by apply list_elem_of_fmap_2, (list_elem_of_lookup_2 _ i).
Qed.
Lemma zip_fmap_r {A B} (f : A → B) (l : list A) : zip l (f <$> l) = (λ x, (x, f x)) <$> l.
Proof. induction l as [|x l IH]; [done|]. cbn. by rewrite IH. Qed.
Lemma zip_with_fmap_r {A B C} (g : A → B → C) (f : A → B) (l : list A) : zip_with g l (f <$> l) = (λ x, g x (f x)) <$> l.
Proof. induction l as [|x l IH]; [done|]. cbn. by rewrite IH. Qed.
Lemma foldl_fmap {A B C} (g : C → B → C) (f : A → B) c l : foldl g c (f <$> l) = foldl (λ c x, g c (f x)) c l.
Proof. revert c. induction l as [|x l IH]; intros c; [done|apply IH]. Qed.
Lemma combine_built old new ending found l : hunks old new = Some found → NoDup (n <$> found) →
  length l = length found → built old new ending found l (combine old new found (zip (n <$> found) l) ending).
Proof.
  unfold hunks. destruct (group_hunks _ _ _) as [groups|] eqn:E; [|done]. intros [= <-] Hn Hl.
  set (found := hunks_from 1 groups) in *. pose proof (answers_zip found l Hn Hl) as Ha.
  set (answers := zip (n <$> found) l) in *.
  apply group_hunks_gapped, (hunks_gapped _ _ 1) in E. fold found in E.
  destruct (combine_from_spec _ _ answers 0 0 _ true E) as (common & tail & Hc & Ho & Hw & Hr); [lia..|].
  rewrite !drop_0 in Ho, Hw. exists common, tail. split_and!; [done..|].
  pose proof (combine_from_ends (lines old) (lines new) answers 0 true found) as He.
  unfold combine. destruct (combine_from _ _ _ _ _ _) as [out fn]. cbn [fst snd] in Hr, He. subst out fn.
  unfold ends_as_new. rewrite <-Ha, zip_fmap_r, zip_with_fmap_r, foldl_fmap. cbn zeta.
  change ((λ h, part old new h (answer_to answers h)) <$> found)
    with ((λ h, answer_lines (lines old) (lines new) h (answer_to answers h)) <$> found).
  case_bool_decide as Hnil; [by rewrite Hnil|].
  match goal with |- match ?w with _ => _ end = _ => by destruct w end.
Qed.

Lemma numbers_from k groups : n <$> hunks_from k groups = seq k (length (hunks_from k groups)).
Proof.
  revert k. induction groups as [|g groups IH]; intros k; [done|]. cbn [hunks_from].
  destruct (head (changes g)), (last (changes g)); try apply IH. cbn. by rewrite IH.
Qed.
Lemma hunks_numbers old new found : hunks old new = Some found → NoDup (n <$> found).
Proof.
  unfold hunks. destruct (group_hunks _ _ _); [|done]. intros [= <-]. rewrite numbers_from.
  apply NoDup_seq.
Qed.

Lemma filter_all_length {A} (P : A → Prop) `{∀ x, Decision (P x)} (l : list A) :
  length (filter P l) = length l ↔ Forall P l.
Proof.
  induction l as [|x l IH]; [by split|]. rewrite filter_cons, Forall_cons. pose proof (length_filter P l).
  case_decide; cbn; [rewrite <-IH; intuition lia|]. split; [lia|tauto].
Qed.
Lemma filter_none_length {A} (P : A → Prop) `{∀ x, Decision (P x)} (l : list A) :
  length (filter P l) = 0 ↔ Forall (λ x, ¬ P x) l.
Proof.
  induction l as [|x l IH]; [by split|]. rewrite filter_cons, Forall_cons. case_decide; cbn; [|rewrite IH; tauto].
  split; [done|tauto].
Qed.
Lemma counts ks (l : list answer) : length ks = length l →
  Nat.eqb (rejected (zip ks l)) 0 && Nat.eqb (edited (zip ks l)) 0 = bool_decide (Forall (λ a, a = Turn) l) ∧
  Nat.eqb (rejected (zip ks l)) (length l) = bool_decide (Forall (λ a, a = Saved) l).
Proof.
  intros Hl. unfold rejected, edited, Dict.values.
  assert ((zip ks l).*2 = l) as -> by (by apply snd_zip; lia). split; apply eq_true_iff_eq.
  - rewrite andb_true_iff, !Nat.eqb_eq, bool_decide_eq_true, !filter_none_length, !Forall_forall.
    split; [intros [H1 H2] a Ha; specialize (H1 a Ha); specialize (H2 a Ha); by destruct a|].
    intros H. split; intros a Ha; by rewrite (H a Ha).
  - by rewrite Nat.eqb_eq, bool_decide_eq_true, filter_all_length.
Qed.
Lemma found_hunks_facts before now old new found : found_hunks before now = Some (old, new, found) →
  hunks old new = Some found ∧ found ≠ [].
Proof.
  unfold found_hunks. destruct (text_before before), (_text now); try done.
  destruct (hunks _ _) as [[]|] eqn:E; try done. by intros [= <- <- <-].
Qed.

(** ** What a write changes *)
Section writes.
Context (cwd : path) (fold_case : bool) (root : path).
Notation _write := (_write cwd fold_case root).

(** One file got the bytes, or is gone; what else is new are directories. *)
Record one_file (F F' : fs) (full : path) (data : option string) : Prop := {
  the_file : match data with
             | Some d => F' !! full = Some (Regular d 1)
             | None => F' !! full = None ∨ (F' = F ∧ is_file F full = false)
             end;
  the_rest : ∀ p, p ≠ full → F' !! p = F !! p ∨ (F !! p = None ∧ F' !! p = Some Dir);
}.
Lemma make_dirs_rest F seen rest F' : make_dirs F seen rest = Some F' →
  ∀ p, F' !! p = F !! p ∨ (F !! p = None ∧ F' !! p = Some Dir).
Proof.
  revert F seen. induction rest as [|part rest IH]; intros F seen; cbn [make_dirs]; [intros [= <-]; by left|].
  destruct (F !! (seen ++ [part])) as [[]|] eqn:E; try done; intros Hm p; [by eapply IH|].
  specialize (IH _ _ Hm p). destruct (decide (p = seen ++ [part])) as [->|].
  - rewrite lookup_insert_eq in IH. destruct IH as [IH|[? ?]]; [|done]. right. done.
  - by rewrite lookup_insert_ne in IH.
Qed.

Definition resolved (F : fs) (key : string) (full : path) : Prop :=
  resolve_workspace_path F cwd fold_case (path_str root) key Write = Ok full.
Lemma write_ok key data s s' : _write key data s = (s', Ok ()) → ∃ full,
  resolved (rdisk s) key full ∧ one_file (rdisk s) (rdisk s') full data ∧ inputs s' = inputs s.
Proof.
  unfold ReviewHunks._write. intros (s1 & ? & [= <- <-] & H)%action_bind_ok.
  apply action_bind_ok in H as (s1 & full & Hr & H). unfold lift_result in Hr.
  destruct (resolve_workspace_path _ _ _ _ _ _) as [p|why] eqn:E; simplify_eq/=. exists full.
  split; [done|]. destruct data as [d|].
  - destruct (make_dirs _ _ _) as [F|] eqn:Em; cbn in H; [|done].
    destruct (write_atomic F full d) as [F'|] eqn:Ew; [|done]. injection H as <-. cbn.
    assert (F' = <[full := Regular d 1]> F) as ->.
    { unfold write_atomic in Ew. by destruct (F !! full) as [[]|]; simplify_eq. }
    split; [|done]. constructor; [apply lookup_insert_eq|]. intros p Hp.
    rewrite lookup_insert_ne by done. by eapply make_dirs_rest.
  - destruct (is_file (rdisk s1) full) eqn:Ef; injection H as <-; cbn; (split; [|done]).
    + constructor; [left; apply lookup_delete_eq|]. intros p Hp. left. by rewrite lookup_delete_ne.
    + constructor; [by right|]. by left.
Qed.
Lemma write_err key data s s' e : _write key data s = (s', Err e) →
  s' = s ∧ match e with Refused _ | OsError => True | _ => False end.
Proof.
  unfold ReviewHunks._write, mbind, action_bind, get_state, lift_result.
  destruct (resolve_workspace_path _ _ _ _ _ _); [|by intros [= <- <-]].
  destruct data; repeat case_match; unfold set_disk, modify, raise, mret, action_ret;
    intros E; by simplify_eq.
Qed.

(** *** The record of a review in the turn's manifest *)
Context {R : Runtime} {Sh : Sha256} (state_dir : path).
Notation review_file := (review_file cwd fold_case state_dir root).
Notation recording := (_recorded state_dir root).
(** The manifest of the turn names the file, and now has its digest too. *)
Definition recorded_in_turn (turn key : string) (F F' : fs) : Prop :=
  let base := real F root in
  let key := replace_char backslash "/" key in
  ∃ m d, find_manifest state_dir F base turn = Some m ∧ key ∈ entries m "saved" ++ entries m "created" ∧
    _sha256 F (join_root base key) = Ok d ∧
    put F (turns_dir state_dir F base ++ [turn; MANIFEST])
      (manifest_text (JObj (Dict.set m "after" (JObj (Dict.set (after_of m) key (digest_json d)))))) = Some F'.
Lemma note_reviewed_spec turn key w w' r :
  note_reviewed state_dir root (JStr turn) (JStr key) w = (w', r) →
  match r with Ok () => recorded_in_turn turn key (files w) (files w') | Err _ => files w' = files w end.
Proof.
  unfold note_reviewed, get_state, lift_result, raise, mret, action_ret, mbind, action_bind.
  destruct (require_name (JStr turn)) as [name|] eqn:En; [|by intros [= <- <-]].
  assert (name = turn) as ->. { unfold require_name in En. by case_match; simplify_eq. }
  destruct (check_entry _ _ _); [by intros [= <- <-]|].
  destruct (find_manifest _ _ _ _) as [m|] eqn:Em; [|by intros [= <- <-]].
  destruct (negb (is_text _ _)); [by intros [= <- <-]|].
  destruct (bool_decide (_ ∈ _ ++ _)) eqn:Ek; [|by intros [= <- <-]]. cbn [negb].
  destruct (_sha256 _ _) as [d|] eqn:Ed; [|by intros [= <- <-]].
  unfold write_text, or_os, set_files, modify, get_state, raise, mret, action_ret, mbind, action_bind.
  destruct (put _ _ _) as [F'|] eqn:Ep; intros [= <- <-]; [|done]. cbn [files].
  apply bool_decide_eq_true in Ek. by exists m, d.
Qed.

(** The flags of a review say whether it wrote the file. *)
Definition touched (r : FileReview) : bool := fr_rewritten r || fr_removed r || fr_restored r.
Lemma recorded_untouched turn r s : touched r = false → recording turn r s = (s, Ok r).
Proof. unfold touched, ReviewHunks._recorded. by intros ->. Qed.
Lemma recorded_spec turn r s s' x : touched r = true → recording turn r s = (s', x) →
  inputs s' = inputs s ∧
  match x with
  | Ok r' => r' = r ∧ recorded_in_turn turn (fr_path r) (rdisk s) (rdisk s')
  | Err (NotRecorded _) => rdisk s' = rdisk s
  | Err _ => False
  end.
Proof.
  unfold touched, ReviewHunks._recorded, calling_undo, mret, action_ret, mbind, action_bind. intros ->.
  destruct (note_reviewed _ _ _ _ _) as [w r1] eqn:E. apply note_reviewed_spec in E. cbn [files undo_world_of] in E.
  destruct r1 as [[]|e]; intros [= <- <-]; done.
Qed.

(** ** A review of one file *)
(** What the inputs ask for: no write, or these bytes ([None] removes the
    file); and the inputs left. *)
Inductive asked (F : fs) (key : string) (before : option string) (ins : list (option string))
    : option (option string) → list (option string) → Prop :=
| asked_gone : bytes_now F (join_root root key) = None → before = None → asked F key before ins None ins
| asked_whole keep ins' :
    match bytes_now F (join_root root key) with
    | None => is_Some before | Some now => found_hunks before now = None
    end → keep_says ins keep ins' → asked F key before ins (if keep then None else Some before) ins'
| asked_hunks now old new found l ins' data :
    bytes_now F (join_root root key) = Some now → found_hunks before now = Some (old, new, found) →
    hunks_say true ins (length found) l ins' → length l = length found →
    (if decide (Forall (λ a, a = Turn) l) then data = None
     else if decide (Forall (λ a, a = Saved) l) then data = Some before
     else ∃ text, built old new (ending_of new) found l text ∧ data = Some (Some (bom_of now +:+ text))) →
    asked F key before ins data ins'.
(** The disk has what was asked for, and the turn's manifest knows it. *)
Definition reviewed_as (turn key : string) (before : option string) (s s' : review_state) (touched : bool) : Prop :=
  ∃ w, asked (rdisk s) key before (inputs s) w (inputs s') ∧
    match w with
    | None => touched = false ∧ rdisk s' = rdisk s
    | Some data => touched = true ∧ ∃ full F1, resolved (rdisk s) key full ∧
                     one_file (rdisk s) F1 full data ∧ recorded_in_turn turn key F1 (rdisk s')
    end.
Definition outcome (turn key : string) (before : option string) (s : review_state)
    (x : review_state * result review_error FileReview) : Prop :=
  match x.2 with
  | Ok r => reviewed_as turn key before s x.1 (touched r)
  | Err (NotRecorded _) =>
      ∃ data full, asked (rdisk s) key before (inputs s) (Some data) (inputs x.1) ∧
        resolved (rdisk s) key full ∧ one_file (rdisk s) (rdisk x.1) full data
  | Err _ => rdisk x.1 = rdisk s
  end.

Lemma outcome_unread turn key before s0 s {A} (m : reviewing A) f : rdisk s = rdisk s0 → quiet m →
  (∀ e, (m s).2 = Err e → e = ReviewStopped) →
  (∀ a s1, m s = (s1, Ok a) → rdisk s1 = rdisk s0 → outcome turn key before s0 (f a s1)) →
  outcome turn key before s0 ((m ≫= f) s).
Proof.
  intros Hd Hm He Hf. specialize (Hm s). unfold same_world in Hm. rewrite Hd in Hm. unfold mbind, action_bind.
  destruct (m s) as [s1 [a|e]]; [by apply Hf|]. rewrite (He e eq_refl). exact Hm.
Qed.
Lemma outcome_none turn key before s s1 r : asked (rdisk s) key before (inputs s) None (inputs s1) →
  rdisk s1 = rdisk s → touched r = false → outcome turn key before s (recording turn r s1).
Proof. intros Ha Hd Ht. rewrite recorded_untouched by done. unfold outcome. cbn [snd fst]. rewrite Ht. by exists None. Qed.
Lemma outcome_write turn key before s s1 data r : asked (rdisk s) key before (inputs s) (Some data) (inputs s1) →
  rdisk s1 = rdisk s → fr_path r = key → touched r = true →
  outcome turn key before s ((_ ← _write key data; recording turn r) s1).
Proof.
  intros Ha Hd Hp Ht. unfold mbind, action_bind. destruct (_write key data s1) as [s2 [[]|e]] eqn:E.
  - apply write_ok in E as (full & Hr & Hf & Hi). rewrite Hd in Hr, Hf. rewrite <-Hi in Ha.
    destruct (recording turn r s2) as [s3 x] eqn:Er. apply recorded_spec in Er as [Hi3 Hx]; [|done].
    rewrite Hp in Hx. rewrite <-Hi3 in Ha. unfold outcome. cbn [fst snd]. destruct x as [r'|e].
    + destruct Hx as [-> Hx]. rewrite Ht. exists (Some data). split; [done|]. split; [done|]. by exists full, (rdisk s2).
    + destruct e; try done. exists data, full. by rewrite Hx.
  - apply write_err in E as [-> He]. unfold outcome. cbn [fst snd]. by destruct e.
Qed.

(** An input that ends is the only way a question fails. *)
Lemma ask_loop_stops {A} ins (body : string → _ → review_state → (review_state * result review_error A) + _) s :
  (∀ line ins s r e, body line ins s = inl r → r.2 = Err e → e = ReviewStopped) →
  ∀ e, (ask_loop ins body s).2 = Err e → e = ReviewStopped.
Proof.
  intros Hb. revert s. induction ins as [|[line|] ins IH]; intros s e; cbn [ask_loop snd]; [by intros [= <-]| |by intros [= <-]].
  destruct (body line ins (after_input ins s)) as [r|again] eqn:E; [by eapply Hb|apply IH].
Qed.
Lemma whole_stops s e : (_whole_file s).2 = Err e → e = ReviewStopped.
Proof. apply ask_loop_stops. clear. intros line ins s r e. unfold decide_whole. repeat case_match; by intros [= <-]. Qed.
Lemma typed_stops ins acc s e : (typed_from ins acc s).2 = Err e → e = ReviewStopped.
Proof.
  revert acc. induction ins as [|[l|] ins IH]; intros acc; cbn [typed_from]; [by intros [= <-]| |by intros [= <-]].
  destruct (String.eqb _ _); [done|apply IH].
Qed.
Lemma answer_stops applied width s e : (answer_hunk applied width s).2 = Err e → e = ReviewStopped.
Proof.
  apply ask_loop_stops. clear. intros line ins s r e. rewrite choose_word_of. destruct (word_of line) as [[]|];
    try by intros [= <-]. intros [= <-]. unfold _typed_lines, read_typed, show, modify, mbind, action_bind.
  match goal with |- context [typed_from ?i ?a ?s] => pose proof (typed_stops i a s) as H; destruct (typed_from i a s) as [s2 [ls|e']] end;
    cbn [snd]; [done|]. intros [= ->]. by apply H.
Qed.
Lemma answers_stop p old new total width applied rest answers found s e :
  (answer_from p old new total width applied rest answers found s).2 = Err e → e = ReviewStopped.
Proof.
  revert rest answers s. induction found as [|h found IH]; intros rest answers s; cbn [answer_from]; [done|].
  destruct rest; [apply IH|]. unfold show, show_all, modify, mbind, action_bind.
  match goal with |- context [answer_hunk applied width ?s] =>
    pose proof (answer_stops applied width s) as H; destruct (answer_hunk applied width s) as [s2 [[a rest]|e']] end; [apply IH|].
  intros [= ->]. by apply H.
Qed.

Lemma hunks_outcome turn key before now old new found width s :
  bytes_now (rdisk s) (join_root root key) = Some now → found_hunks before now = Some (old, new, found) →
  outcome turn key before s ((answers ← _answer_hunks key old new found width true;
    let k := length found in
    let r := rejected answers in
    let e := edited answers in
    if Nat.eqb r 0 && Nat.eqb e 0 then mret (file_review key k r e false false false "")
    else if Nat.eqb r k then
      _ ← _write key before;
      recording turn (file_review key k r e false (is_none before) (negb (is_none before)) "")
    else
      _ ← _write key (Some (bom_of now +:+ combine old new found answers (ending_of new)));
      recording turn (file_review key k r e true false false "")) s).
Proof.
  intros Hnow Hf. destruct (found_hunks_facts _ _ _ _ _ Hf) as [Hh Hne]. pose proof (hunks_numbers _ _ _ Hh) as Hnd.
  apply outcome_unread; [done|apply quiet_answers|intros e; apply answers_stop|]. intros answers s1 Ha Hd.
  apply answers_said in Ha as (l & -> & Hl & Hs); [|done|intros h _; apply not_elem_of_nil]. cbn [app].
  pose proof (combine_built old new (ending_of new) found l Hh Hnd Hl) as Hb.
  destruct (counts (n <$> found) l) as [Hc0 Hck]; [by rewrite length_fmap|]. cbn zeta. rewrite Hc0, <-Hl, Hck.
  pose proof (asked_hunks (rdisk s) key before (inputs s) now old new found l (inputs s1)) as Hask.
  destruct (bool_decide (Forall _ l)) eqn:Ht; [apply bool_decide_eq_true in Ht|apply bool_decide_eq_false in Ht].
  { unfold mret, action_ret. rewrite <-(recorded_untouched turn _ s1) by done. apply outcome_none; [|done..]. apply Hask; [done..|].
    by rewrite decide_True. }
  destruct (bool_decide (Forall (λ a, a = Saved) l)) eqn:Hv; [apply bool_decide_eq_true in Hv|apply bool_decide_eq_false in Hv].
  - apply outcome_write; [|done..|by destruct before]. apply Hask; [done..|]. by rewrite decide_False, decide_True.
  - apply outcome_write; [|done..]. apply Hask; [done..|]. rewrite !decide_False by done. eauto.
Qed.

(** C31: a review of a file leaves the disk as it is, or writes the file it was
    asked about with the bytes that the inputs' answers ask for, and records its
    digest in the turn's manifest for an undo; where the manifest cannot be
    used it raises after the file was written.  An input that ends, a refused
    path and a failed write leave the disk as it is. *)
Theorem review_file_outcome turn key before width s :
  outcome turn key before s (review_file turn key before width s).
Proof.
  unfold ReviewHunks.review_file. unfold mbind at 1, action_bind at 1. cbn [get_state].
  destruct (bytes_now (rdisk s) (join_root root key)) as [now|] eqn:Hn.
  - destruct (found_hunks before now) as [[[old new] found]|] eqn:Ef; [by apply hunks_outcome|].
    apply outcome_unread; [done|apply quiet_show_all|done|]. intros [] s1 [= <-] _.
    apply outcome_unread; [done|apply quiet_whole|intros e; apply whole_stops|]. intros keep s2 Hk Hd.
    apply whole_said in Hk. change (keep_says (inputs s) keep (inputs s2)) in Hk.
    assert (asked (rdisk s) key before (inputs s) (if keep then None else Some before) (inputs s2)) as Ha.
    { apply asked_whole; [by rewrite Hn|done]. }
    destruct keep; [by apply outcome_none|]. apply outcome_write; [done..|by destruct before].
  - destruct before as [b|]; [|unfold outcome; cbn; exists None; split; [by apply asked_gone|done]].
    apply outcome_unread; [done|apply quiet_show|done|]. intros [] s1 [= <-] _.
    apply outcome_unread; [done|apply quiet_whole|intros e; apply whole_stops|]. intros keep s2 Hk Hd.
    apply whole_said in Hk. change (keep_says (inputs s) keep (inputs s2)) in Hk.
    assert (asked (rdisk s) key (Some b) (inputs s) (if keep then None else Some (Some b)) (inputs s2)) as Ha.
    { apply asked_whole; [by rewrite Hn|done]. }
    destruct keep; [by apply outcome_none|by apply outcome_write].
Qed.

End writes.

(** ** A review of what a step proposes *)
(** The content the inputs ask for, and the inputs left. *)
Inductive proposed (before after : option string) (ins : list (option string))
    : option string → list (option string) → Prop :=
| proposed_removal keep ins' : after = None → apply_says ins keep ins' →
    proposed before after ins (if keep then None else before) ins'
| proposed_whole data keep ins' : after = Some data → found_hunks before data = None → apply_says ins keep ins' →
    proposed before after ins (if keep then after else before) ins'
| proposed_hunks data old new found l ins' content :
    after = Some data → found_hunks before data = Some (old, new, found) →
    hunks_say false ins (length found) l ins' → length l = length found →
    (if decide (Forall (λ a, a = Turn) l) then content = after
     else if decide (Forall (λ a, a = Saved) l) then content = before
     else ∃ text, built old new (ending_of new) found l text ∧ content = Some (bom_of data +:+ text)) →
    proposed before after ins content ins'.

(** Nothing is written, and the content to apply is the one the inputs ask for. *)
Theorem proposal_outcome key before after width s s' d :
  review_proposed_file key before after width s = (s', Ok d) →
  rdisk s' = rdisk s ∧ proposed before after (inputs s) (pd_content d) (inputs s').
Proof.
  intros Hr. split; [by pose proof (quiet_proposed key before after width s) as H; rewrite Hr in H|].
  revert Hr. unfold review_proposed_file. destruct after as [data|].
  2: { intros (s1 & u & [= <- <-] & Hr)%action_bind_ok. apply action_bind_ok in Hr as (s2 & keep & Hk & [= <- <-]).
       apply whole_said in Hk. replace (pd_content _) with (if keep then None else before) by done.
       by constructor. }
  destruct (found_hunks before data) as [[[old new] found]|] eqn:Ef.
  2: { intros (s1 & u & [= <- <-] & Hr)%action_bind_ok. apply action_bind_ok in Hr as (s2 & keep & Hk & [= <- <-]).
       apply whole_said in Hk. replace (pd_content _) with (if keep then Some data else before) by done.
       by apply (proposed_whole _ _ _ data). }
  intros (s1 & answers & Ha & [= <- <-])%action_bind_ok. cbn [pd_content decision].
  destruct (found_hunks_facts _ _ _ _ _ Ef) as [Hh Hne]. pose proof (hunks_numbers _ _ _ Hh) as Hnd.
  apply answers_said in Ha as (l & -> & Hl & Hs); [|done|intros h _; apply not_elem_of_nil]. cbn [app].
  pose proof (combine_built old new (ending_of new) found l Hh Hnd Hl) as Hb.
  destruct (counts (n <$> found) l) as [Hc0 Hck]; [by rewrite length_fmap|]. rewrite Hc0, <-Hl, Hck.
  eapply (proposed_hunks _ _ _ data old new found l); [done..|].
  case_decide as Ht; [by rewrite bool_decide_true|]. rewrite bool_decide_false by done.
  case_decide as Hv; [by rewrite bool_decide_true|]. rewrite bool_decide_false by done. eauto.
Qed.
End review.

(** ** Examples *)
#[local] Existing Instances plain_runtime plain_unicode plain_pytext plain_cells.
#[local] Instance sample_sha : Sha256 := λ s, s.
Definition review_root : path := ["home"; "p"].
Definition state_root : path := ["s"].
Definition review_fs (now : string) : fs := list_to_map [
  (["home"], Dir); (review_root, Dir); (review_root ++ ["a.txt"], Regular now 1); (state_root, Dir)].
(** The folder of the turn, with a manifest that names the file. *)
Definition turn_folder : path := turns_dir state_root (review_fs "") review_root ++ ["turn"].
Definition turn_manifest : string := manifest_text (JObj [
  ("root", JStr (repository_key (review_fs "") review_root)); ("saved", strings ["a.txt"]);
  ("created", strings []); ("after", JObj [])]).
Definition with_turn (now : string) : fs :=
  default ∅ (put_file (review_fs now) (turn_folder ++ [MANIFEST]) turn_manifest).
Definition typed (answers : list string) (F : fs) : review_state :=
  {| inputs := Some <$> answers; shown := []; rdisk := F |}.
Definition before_lines : list string := ["1"; "2"; "3"; "4"; "5"; "6"; "7"; "8"; "9"; "10"; "11"; "12"].
Definition now_lines : list string := ["1"; "two"; "3"; "4"; "5"; "6"; "7"; "8"; "9"; "10"; "11"; "12"; "13"].
(** What the file is then, whether the review returned, and the digest the
    manifest has for the file. *)
Definition reviewed_file (F : string → fs) (answers : list string) (before now : string)
    : option fnode * bool * option json :=
  let x := review_file [] false state_root review_root "turn" "a.txt" (Some before) 80 (typed answers (F now)) in
  (rdisk x.1 !! (review_root ++ ["a.txt"]), is_ok x.2,
   find_manifest state_root (rdisk x.1) review_root "turn" ≫= λ m, Dict.get (after_of m) "a.txt").
Definition sample_review (answers : list string) :=
  reviewed_file with_turn answers (join_lines before_lines) (join_lines now_lines).
Definition written (ls : list string) : option fnode * bool * option json :=
  (Some (Regular (join_lines ls) 1), true, Some (JStr (hex (sha256 (join_lines ls))))).
Example two_hunks : length <$> hunks (join_lines before_lines) (join_lines now_lines) = Some 2.
Proof. vm_compute. reflexivity. Qed.
Example reject_second : sample_review ["a"; "what?"; "r"] =
  written ["1"; "two"; "3"; "4"; "5"; "6"; "7"; "8"; "9"; "10"; "11"; "12"].
Proof. vm_compute. reflexivity. Qed.
Example edit_first : sample_review ["e"; "zwei"; "."; "A"] = written ("1" :: "zwei" :: drop 2 now_lines).
Proof. vm_compute. reflexivity. Qed.
Example reject_rest : sample_review ["R"] = written before_lines.
Proof. vm_compute. reflexivity. Qed.
Example skip_and_end : sample_review ["s"] = (Some (Regular (join_lines now_lines) 1), false, None).
Proof. vm_compute. reflexivity. Qed.
(** Without the turn's manifest the review raises, and the file was written. *)
Example unrecorded_review_has_written :
  reviewed_file review_fs ["R"] (join_lines before_lines) (join_lines now_lines) =
    (Some (Regular (join_lines before_lines) 1), false, None).
Proof. vm_compute. reflexivity. Qed.

(** Where a file has both line ends, taking the hunks one by one gives every
    line the same end, those of no hunk and of kept hunks too. *)
Definition mixed (ls : list string) : string := join_lines ls +:+ "end" +:+ CRLF.
Theorem review_rewrites_other_line_ends :
  (reviewed_file with_turn ["a"; "r"] (mixed before_lines) (mixed (now_lines ++ ["14"]))).1 =
    (Some (Regular (str_join CRLF ("1" :: "two" :: drop 2 before_lines) +:+ CRLF +:+ "end" +:+ CRLF) 1), true).
Proof. vm_compute. reflexivity. Qed.
