(* ===== verification/PlanGate.v ===== *)
(** * The approval of a plan

    Models [plan_gate.py] and the answers and edits of
    [ui/plan_approval_view.py]: whether a plan is asked about, what one line of
    the operator does to it, the check of an edit's paths, the memory of
    approved plans and the payloads of the events. *)

From stdpp Require Import pretty.
From S2P Require Import Prelude Canonical CanonicalLines JsonText Text DependencyGraph DiffRender.

(** A step as the checklist shows it. *)
Record Step := {
  n : Z;
  action : string;
  target : option string;
  state : string;
  agent : bool;
}.
#[export] Instance step_eq_dec : EqDecision Step.
Proof. solve_decision. Defined.

Inductive Answer : Type :=
| Approve
| SkipStep (n : Z)
| EditStep (n : Z)
| Cancel
| NoAnswer (error : string).

Inductive resolution_kind : Type := Approved | RefusedPlan | AskAgain | EditPlan.
#[export] Instance resolution_kind_eq_dec : EqDecision resolution_kind.
Proof. solve_decision. Defined.
Record Resolution := {
  res_kind : resolution_kind;
  kept : list Step;
  skipped : list Step;
  res_error : option string;
  res_n : option Z;
  shown : list Step;
}.
Definition resolution (k : resolution_kind) (kept skipped : list Step) (error : option string) (n : option Z)
    : Resolution :=
  {| res_kind := k; kept := kept; skipped := skipped; res_error := error; res_n := n; shown := [] |}.

Inductive gate_error : Type := StopIteration | Unencodable (e : jcs_error).

(** ** Words of a line: [str.split()] *)
Definition word_end (cur : string) : list string := if String.eqb cur "" then [] else [cur].
Fixpoint split_words (fuel : nat) (cur s : string) : list string :=
  match fuel, s with
  | O, _ | _, "" => word_end cur
  | S fuel, String c t =>
      match first_space s with
      | Some rest => word_end cur ++ split_words fuel "" rest
      | None => split_words fuel (cur +:+ String c "") t
      end
  end.
Definition py_split (s : string) : list string := split_words (String.length s) "" s.

(** [bool(text)] of a target. *)
Definition truthy (t : option string) : option string :=
  match t with Some "" | None => None | Some t => Some t end.

Section gate.
Context {R : Runtime} {Sh : Sha256} {U : Unicode} {T : PyText}.

(** ** One line of the operator: [parse_answer] *)
Definition CHOICES : string := "type a, s <n>, e <n> or c".
Definition _APPROVE : list string := ["a"; "approve"; "run"; "yes"].
Definition _CANCEL : list string := ["c"; "cancel"; "stop"; "no"].
Definition _SKIP : list string := ["s"; "skip"].
Definition _EDIT : list string := ["e"; "edit"].
Definition numbered (word : string) (rest : list string) (step_count : nat) : Answer :=
  match rest with
  | [text] =>
      match int_of_str text with
      | None => NoAnswer ("'" +:+ text +:+ "' is not a step number; " +:+ CHOICES)
      | Some k =>
          if (1 <=? k)%Z && (k <=? Z.of_nat step_count)%Z
          then if bool_decide (word ∈ _SKIP) then SkipStep k else EditStep k
          else NoAnswer ("no step " +:+ pretty k +:+ "; the plan has " +:+ pretty step_count +:+ " steps")
      end
  | _ => NoAnswer (word +:+ " needs a step number, as in '" +:+ word +:+ " 2'")
  end.
Definition parse_answer (line : string) (step_count : nat) : Answer :=
  match py_split (lower (strip line)) with
  | [] => NoAnswer ("no answer; " +:+ CHOICES)
  | word :: rest =>
      if bool_decide (word ∈ _APPROVE) && bool_decide (rest = []) then Approve
      else if bool_decide (word ∈ _CANCEL) && bool_decide (rest = []) then Cancel
      else if bool_decide (word ∈ _SKIP ++ _EDIT) then numbered word rest step_count
      else NoAnswer ("'" +:+ strip line +:+ "' is not an answer; " +:+ CHOICES)
  end.

(** ** Whether a plan is asked about *)
Definition ASK_MODES : list string := ["default"].
Definition _changes_files (steps : list Step) : bool :=
  existsb (λ s, match truthy (target s) with Some _ => true | None => false end) steps.
Definition approval_needed (steps : list Step) (mode : string) : bool :=
  let asks := bool_decide (mode ∈ ASK_MODES) in
  if asks && existsb agent steps then true
  else asks && Nat.leb 2 (length steps) && _changes_files steps.
Definition headless_refusal (steps : list Step) (mode : string) : option string :=
  if negb (approval_needed steps mode) then None
  else Some ("the plan changes files and needs approval, and headless runs cannot ask; " +:+
             "re-run with --accept-edits to run it without asking").

(** ** What an answer does to the plan *)
Definition depends_on (skip_n : Z) (t : option string) (s : Step) : bool :=
  negb (n s <=? skip_n)%Z &&
  match truthy t with
  | None => false
  | Some t => bool_decide (target s = Some t) || contains (action s) t
  end.
Definition dropped (skip_n : Z) (t : option string) (steps : list Step) : list Z :=
  skip_n :: (n <$> filter (λ s, depends_on skip_n t s = true) steps).
Definition resolve_answer (steps : list Step) (line : string) : result gate_error Resolution :=
  match parse_answer line (length steps) with
  | NoAnswer e => Ok (resolution AskAgain [] [] (Some e) None)
  | Approve => Ok (resolution Approved steps [] None None)
  | Cancel => Ok (resolution RefusedPlan [] [] None None)
  | SkipStep skip_n =>
      match list_find (λ s, n s = skip_n) steps with
      | None => Err StopIteration
      | Some (_, s) =>
          let d := dropped skip_n (target s) steps in
          Ok (resolution Approved (filter (λ s, n s ∉ d) steps) (filter (λ s, n s ∈ d) steps) None None)
      end
  | EditStep k => Ok (resolution EditPlan [] [] None (Some k))
  end.

(** ** Edits *)
Definition _EDIT_LIMIT : nat := Z.to_nat 2000.
Definition ascii_letter (c : ascii) : bool :=
  let k := ord c in ((65 <=? k) && (k <=? 90))%N || ((97 <=? k) && (k <=? 122))%N.
Definition ascii_alnum (c : ascii) : bool := ascii_letter c || is_digit c.
(** [\.[A-Za-z][A-Za-z0-9]{0,7}$], after its dot; a token holds no newline. *)
Definition extension (s : string) : bool :=
  match s with
  | String c t => ascii_letter c && str_forall ascii_alnum t && Nat.leb (String.length t) 7
  | "" => false
  end.
Fixpoint to_extension (s : string) : bool :=
  match s with
  | "" => false
  | String c t => if Ascii.eqb c "." then extension t else to_extension t
  end.
Fixpoint _PATH_SHAPE (s : string) : bool :=
  match s with
  | "" => false
  | String c t => (ascii_letter c || Ascii.eqb c "_") && to_extension t || _PATH_SHAPE t
  end.
Fixpoint lstrip_set (cs : list ascii) (s : string) : string :=
  match s with String c t => if bool_decide (c ∈ cs) then lstrip_set cs t else s | "" => "" end.
Fixpoint rstrip_set (cs : list ascii) (s : string) : string :=
  match s with
  | "" => ""
  | String c t =>
      match rstrip_set cs t with
      | "" => if bool_decide (c ∈ cs) then "" else String c ""
      | t => String c t
      end
  end.
Definition quotes : list ascii := ["`"; "'"; "034"; "("; ")"]%char.
Definition stops : list ascii := ["."; ";"; ":"; "!"; "?"]%char.
Definition path_like (token : string) : bool :=
  contains token "/" || contains token "\" || _PATH_SHAPE token.
Definition _path_candidates (text : string) : list string :=
  omap (λ token,
      let token := rstrip_set stops (lstrip_set quotes (rstrip_set quotes token)) in
      if startswith token "-" || String.eqb token "" then None
      else if path_like token then Some token else None)
    (py_split (replace_char "," " " text)).

Definition with_action (text : string) (s : Step) : Step :=
  {| n := n s; action := text; target := target s; state := state s; agent := agent s |}.
(** The first path that neither the plan named nor the check accepts. *)
Fixpoint refused_path (original : list string) (check_path : string → option string)
    (tokens : list string) : option string :=
  match tokens with
  | [] => None
  | token :: tokens =>
      if bool_decide (token ∈ original) then refused_path original check_path tokens
      else match check_path token with
           | Some refusal =>
               Some ("the edit names " +:+ token +:+
                     ", which the plan did not list and the path check refuses: " +:+ refusal)
           | None => refused_path original check_path tokens
           end
  end.
Definition apply_edit (steps : list Step) (k : Z) (new_action : string) (check_path : string → option string)
    : list Step + string :=
  let text := str_join " " (py_split new_action) in
  if String.eqb text "" then inr "an edit needs one line of new text"
  else if Nat.ltb _EDIT_LIMIT (str_len text) then
    inr ("an edit is limited to " +:+ pretty _EDIT_LIMIT +:+ " characters")
  else match refused_path (omap (λ s, truthy (target s)) steps) check_path (_path_candidates text) with
       | Some e => inr e
       | None => inl ((λ s, if bool_decide (n s = k) then with_action text s else s) <$> steps)
       end.

(** ** The hash of a plan and the memory of approved ones *)
Definition json_text (t : option string) : json := match t with Some t => JStr t | None => JNull end.
Definition plan_json (steps : list Step) : json :=
  JArr ((λ s, JObj [("action", JStr (action s)); ("n", JInt (n s)); ("target", json_text (target s))]) <$> steps).
Definition plan_hash (steps : list Step) : result gate_error string :=
  match encode (plan_json steps) with
  | Ok bytes => Ok (hex (sha256 bytes))
  | Err e => Err (Unencodable e)
  end.

(** [ApprovalMemory]: the set of hashes. *)
Definition ApprovalMemory : Type := list string.
Definition needs_approval (m : ApprovalMemory) (steps : list Step) (mode : string) : result gate_error bool :=
  if negb (approval_needed steps mode) then Ok false
  else h ← plan_hash steps; Ok (negb (bool_decide (h ∈ m))).
Definition record (m : ApprovalMemory) (steps : list Step) : result gate_error ApprovalMemory :=
  h ← plan_hash steps; Ok (set_add m h).
Definition hashes (m : ApprovalMemory) : list string := py_sorted String.leb m.

(** ** The payloads of the events *)
Definition shown_step (s : Step) : json :=
  JObj [("n", JInt (n s)); ("action", JStr (safe_text (action s)));
        ("target", json_text (safe_text <$> truthy (target s)))].
Definition approval_requested_payload (steps : list Step) : result gate_error json :=
  h ← plan_hash steps;
  Ok (JObj [("plan_hash", JStr h); ("steps", JArr (shown_step <$> steps))]).
Definition _skip_target (outcome : Resolution) : option Z := n <$> head (skipped outcome).
Definition skip_reason (answer : string) (typed : option Z) (k : Z) : string :=
  if String.eqb answer "skip" && bool_decide (Some k = typed) then "user"
  else "depends on step " +:+ match typed with Some t => pretty t | None => "None" end.
Definition answered_payload (steps : list Step) (answer : string) (outcome : Resolution) (edited : option Z)
    : result gate_error json :=
  let typed := if String.eqb answer "skip" then _skip_target outcome else None in
  h ← plan_hash steps;
  Ok (JObj [("plan_hash", JStr h); ("answer", JStr answer);
            ("kept", JArr (JInt ∘ n <$> kept outcome));
            ("skipped", JArr ((λ s, JObj [("n", JInt (n s)); ("reason", JStr (skip_reason answer typed (n s)))])
                                <$> skipped outcome));
            ("edited", match edited with Some k => JInt k | None => JNull end)]).

(** ** The steps a run leaves out *)
Record skip_context := { _skipped : list Z; _skip_typed : option Z }.
Definition is_skipped (c : skip_context) (k : Z) : bool := bool_decide (k ∈ _skipped c).
Definition SKIPPED_BY_YOU : string := "skipped by you".
Definition skipped_hint (c : skip_context) (k : Z) : string :=
  match _skip_typed c with
  | Some t => if (k =? t)%Z then SKIPPED_BY_YOU else "skipped: depends on step " +:+ pretty t
  | None => SKIPPED_BY_YOU
  end.
End gate.
