(* ===== verification/PlanGateLaws.v ===== *)
(** * The files an edit names

    What the filter of [apply_edit] takes for a path, as a property of the
    text: every word that holds a separator, or ends in a name with an
    extension, once the quotes and stops around it are off. *)

From S2P Require Import Prelude Canonical CanonicalLines JsonText Text DependencyGraph DiffRender PlanGate.

(** ** The files a text names

    Its words between white space and commas, without the quotes and stops
    around them, that hold a separator or end in a name and an extension. *)
Definition first_in (cs : list ascii) (s : string) : Prop := ∃ c t, s = String c t ∧ c ∈ cs.
Definition last_in (cs : list ascii) (s : string) : Prop := ∃ t c, s = t +:+ String c "" ∧ c ∈ cs.
Definition all_in (cs : list ascii) (s : string) : Prop := str_forall (λ c, bool_decide (c ∈ cs)) s = true.
Definition core (word t : string) : Prop := ∃ a p q, word = a +:+ t +:+ p +:+ q ∧
  all_in quotes a ∧ all_in stops p ∧ all_in quotes q ∧
  ¬ first_in quotes t ∧ ¬ last_in quotes (t +:+ p) ∧ ¬ last_in stops t.
Definition file_like (t : string) : Prop :=
  (∃ a b, t = a +:+ "/" +:+ b) ∨ (∃ a b, t = a +:+ "\" +:+ b) ∨
  ∃ a c stem d ext, t = a +:+ String c stem +:+ "." +:+ String d ext ∧
    (ascii_letter c = true ∨ c = "_"%char) ∧ no_char "." stem = true ∧
    ascii_letter d = true ∧ str_forall ascii_alnum ext = true ∧ String.length ext ≤ 7.
Definition names_file (text t : string) : Prop :=
  ∃ word, word ∈ py_split (replace_char "," " " text) ∧ core word t ∧ t ≠ "" ∧ startswith t "-" = false ∧ file_like t.

Lemma last_in_app cs a b : b ≠ "" → last_in cs (a +:+ b) ↔ last_in cs b.
Proof.
  intros Hb. split.
  - revert b Hb. induction a as [|x a IH]; intros b Hb; [done|]. rewrite str_app_cons. intros (t & c & E & Hc).
    apply IH; [done|]. destruct t as [|y t].
    + rewrite str_app_nil_l in E. injection E as -> E. apply str_app_eq_nil in E as [_ ->]. done.
    + rewrite str_app_cons in E. injection E as -> E. by exists t, c.
  - intros (t & c & -> & Hc). exists (a +:+ t), c. by rewrite str_app_assoc.
Qed.
Lemma lstrip_set_spec cs s : ∃ a, s = a +:+ lstrip_set cs s ∧ all_in cs a ∧ ¬ first_in cs (lstrip_set cs s).
Proof.
  induction s as [|c s (a & E & Ha & Hn)]; [exists ""; split_and!; [done..|]; by intros (? & ? & ? & _)|]. cbn [lstrip_set].
  case_bool_decide as Hc.
  - exists (String c a). rewrite str_app_cons, <-E. split_and!; [done| |done]. unfold all_in. cbn. by rewrite bool_decide_true.
  - exists "". split_and!; [done..|]. by intros (? & ? & [= <- <-] & ?).
Qed.
Lemma lstrip_set_eq cs a t : all_in cs a → ¬ first_in cs t → lstrip_set cs (a +:+ t) = t.
Proof.
  unfold all_in. induction a as [|c a IH]; cbn.
  - rewrite str_app_nil_l. intros _ Hn. destruct t as [|c t]; [done|]. cbn. rewrite bool_decide_false; [done|].
    intros Hc. apply Hn. by exists c, t.
  - intros [Hc Ha]%andb_true_iff Hn. rewrite str_app_cons. cbn. rewrite Hc. by apply IH.
Qed.
Lemma rstrip_set_eq cs t q : all_in cs q → ¬ last_in cs t → rstrip_set cs (t +:+ q) = t.
Proof.
  intros Hq. assert (rstrip_set cs q = "") as Hq0.
  { unfold all_in in Hq. induction q as [|c q IH]; [done|]. cbn in *. apply andb_true_iff in Hq as [Hc Hq]. by rewrite IH, Hc. }
  induction t as [|c t IH]; intros Hn; [by rewrite str_app_nil_l|]. rewrite str_app_cons. cbn.
  destruct (decide (t = "")) as [->|Ht].
  - rewrite str_app_nil_l, Hq0, bool_decide_false; [done|]. intros Hc. apply Hn. by exists "", c.
  - rewrite IH; [by destruct t|]. intros Hl. apply Hn. change (String c t) with (String c "" +:+ t). by apply last_in_app.
Qed.
Lemma rstrip_set_spec cs s : ∃ q, s = rstrip_set cs s +:+ q ∧ all_in cs q ∧ ¬ last_in cs (rstrip_set cs s).
Proof.
  induction s as [|c s (q & E & Hq & Hn)].
  { exists "". split_and!; [done..|]. intros (t & c & E & _). by destruct t. }
  cbn [rstrip_set]. destruct (rstrip_set cs s) as [|x r].
  - rewrite str_app_nil_l in E. subst q. case_bool_decide as Hc.
    + exists (String c s). split_and!; [done| |]. { unfold all_in in *. cbn. by rewrite bool_decide_true. }
      intros (t & d & E & _). by destruct t.
    + exists s. split_and!; [done..|]. intros (t & d & E & Hd). destruct t as [|y t]; [by injection E as <-|].
      rewrite str_app_cons in E. injection E as <- E. by destruct t.
  - exists q. rewrite E. split_and!; [done..|]. change (String c (String x r)) with (String c "" +:+ String x r).
    by rewrite last_in_app.
Qed.
Lemma strip_core word t : t ≠ "" →
  rstrip_set stops (lstrip_set quotes (rstrip_set quotes word)) = t ↔ core word t.
Proof.
  intros Ht. split.
  - intros <-. destruct (rstrip_set_spec quotes word) as (q & Eq & Hq & Hnq). set (w1 := rstrip_set quotes word) in *.
    destruct (lstrip_set_spec quotes w1) as (a & Ea & Ha & Hna). set (w2 := lstrip_set quotes w1) in *.
    destruct (rstrip_set_spec stops w2) as (p & Ep & Hp & Hnp). set (t := rstrip_set stops w2) in *.
    exists a, p, q. assert (w2 ≠ "") as Hw2 by (rewrite Ep; intros [E _]%str_app_eq_nil; done).
    rewrite Eq, Ea, Ep, !str_app_assoc at 1. split_and!; [done..| | |done].
    + intros (c & u & E & Hc). apply Hna. exists c, (u +:+ p). by rewrite Ep, E, str_app_cons.
    + rewrite <-Ep. intros Hl. apply Hnq. rewrite Ea. by apply last_in_app.
  - intros (a & p & q & -> & Ha & Hp & Hq & Hf & Hl & Hs).
    assert (t +:+ p ≠ "") as Htp by (intros [E _]%str_app_eq_nil; done).
    replace (a +:+ t +:+ p +:+ q) with ((a +:+ t +:+ p) +:+ q) by by rewrite !str_app_assoc.
    rewrite rstrip_set_eq; [|done|by rewrite last_in_app]. rewrite lstrip_set_eq; [|done|].
    + by apply rstrip_set_eq.
    + intros (c & u & E & Hc). destruct t as [|x t]; [done|]. rewrite str_app_cons in E. injection E as -> _.
      apply Hf. by exists c, t.
Qed.

Lemma to_extension_spec s : to_extension s = true ↔ ∃ stem d ext, s = stem +:+ "." +:+ String d ext ∧
  no_char "." stem = true ∧ ascii_letter d = true ∧ str_forall ascii_alnum ext = true ∧ String.length ext ≤ 7.
Proof.
  split.
  - induction s as [|c s IH]; cbn [to_extension]; [done|]. destruct (Ascii.eqb_spec c ".") as [->|Hc].
    + unfold extension. destruct s as [|d ext]; [done|]. rewrite !andb_true_iff, Nat.leb_le. intros [[? ?] ?].
      by exists "", d, ext.
    + intros (stem & d & ext & -> & Hs & H)%IH. exists (String c stem), d, ext. split; [done|]. split; [|done].
      unfold no_char in *. cbn. rewrite Hs. by apply Ascii.eqb_neq in Hc as ->.
  - intros (stem & d & ext & -> & Hs & Hd & He & Hl). unfold no_char in Hs. induction stem as [|c stem IH].
    + rewrite str_app_nil_l, str_app_cons, str_app_nil_l. cbn. rewrite Hd, He. by apply Nat.leb_le in Hl as ->.
    + cbn in Hs. apply andb_true_iff in Hs as [Hc Hs]. rewrite str_app_cons. cbn [to_extension].
      apply negb_true_iff in Hc. rewrite Hc. by apply IH.
Qed.
Lemma path_shape_spec s : _PATH_SHAPE s = true ↔ ∃ a c u, s = a +:+ String c u ∧
  (ascii_letter c = true ∨ c = "_"%char) ∧ to_extension u = true.
Proof.
  split.
  - induction s as [|c s IH]; cbn [_PATH_SHAPE]; [done|].
    intros [[Hc Hs]%andb_true_iff|(a & d & u & -> & H)%IH]%orb_true_iff.
    + exists "", c, s. split_and!; [done| |done]. by apply orb_true_iff in Hc as [?|?%Ascii.eqb_eq]; [left|right].
    + by exists (String c a), d, u.
  - intros (a & c & u & -> & Hc & Hu). induction a as [|x a IH]; [rewrite str_app_nil_l|rewrite str_app_cons]; cbn [_PATH_SHAPE].
    + rewrite Hu. destruct Hc as [-> | ->]; [done|]. by rewrite orb_true_r.
    + by rewrite IH, orb_true_r.
Qed.
Lemma contains_spec s x : contains s x = true ↔ ∃ a b, s = a +:+ x +:+ b.
Proof.
  split.
  - induction s as [|c s IH]; cbn [contains]; rewrite orb_true_iff; intros [H|H].
    + apply startswith_spec in H as [b E]. by exists "", b.
    + done.
    + apply startswith_spec in H as [b E]. by exists "", b.
    + destruct (IH H) as (a & b & ->). by exists (String c a), b.
  - intros (a & b & ->). induction a as [|c a IH].
    + rewrite str_app_nil_l. destruct (x +:+ b) as [|c s] eqn:E; cbn [contains]; apply orb_true_iff; left;
        apply startswith_spec; by exists b.
    + rewrite str_app_cons. cbn [contains]. apply orb_true_iff. by right.
Qed.
Lemma path_like_spec t : path_like t = true ↔ file_like t.
Proof.
  unfold path_like, file_like. rewrite !orb_true_iff, !contains_spec, path_shape_spec.
  setoid_rewrite to_extension_spec. naive_solver.
Qed.

(** The filter finds exactly the files that the text names. *)
Lemma path_candidates_spec text t : t ∈ _path_candidates text ↔ names_file text t.
Proof.
  unfold _path_candidates, names_file. rewrite list_elem_of_omap. split.
  - intros (w & Hw & Ht). destruct (startswith _ "-") eqn:Es; cbn [orb] in Ht; [done|].
    destruct (String.eqb_spec (rstrip_set stops (lstrip_set quotes (rstrip_set quotes w))) "") as [|Hne]; [done|].
    destruct (path_like _) eqn:Ep; [|done]. injection Ht as <-. exists w. apply path_like_spec in Ep.
    split_and!; [done| |done..]. by apply strip_core.
  - intros (w & Hw & Hc & Ht & Hs & Hp). exists w. split; [done|]. apply strip_core in Hc as ->; [|done].
    apply String.eqb_neq in Ht as ->. rewrite Hs. by apply path_like_spec in Hp as ->.
Qed.
