(* ===== verification/PlanRun.v ===== *)
(** * From a plan to the steps that run

    Models [console_plan_approval] of [approval_callback.py] (the question, its
    answers and edits, until a decision), [_plan_with_shown_actions] of
    [harness.py], [strong_path.py], and which steps the two step loops
    ([executor/steps.py], [executor/substrate_adapter.py]) take.  The operator's
    input is a list of lines that may end. *)

From Stdlib Require Import Floats.SpecFloat.
From stdpp Require Import pretty.
From S2P Require Import Prelude Canonical CanonicalLines JsonText Text DependencyGraph DiffRender PlanGate.

(** [Step] and [Plan] of [manager.py]. *)
Record PlanStep := {
  ps_action : string;
  provider_hint : string;
  expected_artifact : string;
  tool_call : option json;
  ps_agent : bool;
  opening : option json;
}.
Record Plan := {
  assumption : string;
  confidence : spec_float;
  steps : list PlanStep;
  planned : bool;
}.
Definition with_steps (p : Plan) (l : list PlanStep) : Plan :=
  {| assumption := assumption p; confidence := confidence p; steps := l; planned := planned p |}.

(** What the session is told and the operator is shown. *)
Inductive report : Type :=
| Requested (payload : json)
| Proposed (steps : json)
| Printed (line : string)
| Answered (payload : json).

Section run.
Context {R : Runtime} {Sh : Sha256} {U : Unicode} {T : PyText}.

(** [enumerate(l, start=1)] *)
Definition enumerate {A} (l : list A) : list (Z * A) := imap (λ i x, (Z.of_nat i + 1, x)%Z) l.

Definition plan_step (kx : Z * PlanStep) : Step :=
  let '(k, s) := kx in
  {| n := k; action := ps_action s;
     target := if ps_agent s then None else truthy (Some (expected_artifact s));
     state := "pending"; agent := ps_agent s |}.
Definition _plan_steps (p : Plan) : list Step := plan_step <$> enumerate (steps p).

(** ** The question on the console *)
Definition console_check (p : string) : option string :=
  Some (p +:+ " is not in the plan and the console cannot check it").
(** The new text, if there is one, and what it does. *)
Definition _edit_step (steps : list Step) (k : Z) (input : option string) : list Step * option string :=
  match input with
  | None => (steps, Some "no new text was given; the step is unchanged")
  | Some text =>
      match apply_edit steps k text console_check with
      | inr e => (steps, Some e)
      | inl edited => (edited, None)
      end
  end.
Definition decided (steps : list Step) (edited : option Z) (outcome : Resolution)
    : result gate_error (list report * Resolution) :=
  let outcome := {| res_kind := res_kind outcome; kept := kept outcome; skipped := skipped outcome;
                    res_error := res_error outcome; res_n := res_n outcome; shown := steps |} in
  let answer := if bool_decide (res_kind outcome = RefusedPlan) then "cancel"
                else if bool_decide (skipped outcome = []) then "approve" else "skip" in
  p ← answered_payload steps answer outcome edited;
  Ok ([Answered p], outcome).
Definition then_reports (rs : list report) (r : result gate_error (list report * Resolution))
    : result gate_error (list report * Resolution) :=
  match r with Ok (rs', o) => Ok (rs ++ rs', o) | Err e => Err e end.
Definition announce (steps : list Step) : result gate_error (list report) :=
  p ← approval_requested_payload steps;
  Ok [Proposed (JArr (shown_step <$> steps)); Requested p].
(** One round per line; the end of the input reads as ["cancel"]. *)
Fixpoint ask_plan (steps : list Step) (edited : option Z) (ins : list (option string))
    : result gate_error (list report * Resolution) :=
  match ins with
  | [] => o ← resolve_answer steps "cancel"; decided steps edited o
  | line :: ins =>
      o ← resolve_answer steps (default "cancel" line);
      match res_kind o, res_n o with
      | EditPlan, Some k =>
          let round input rest :=
            match _edit_step steps k input with
            | (steps', None) => rs ← announce steps'; then_reports rs (rest steps' (Some k))
            | (steps', Some e) => then_reports [Printed e] (rest steps' edited)
            end in
          match ins with
          | [] => round None (λ s e, o ← resolve_answer s "cancel"; decided s e o)
          | text :: ins => round text (λ s e, ask_plan s e ins)
          end
      | AskAgain, _ => then_reports [Printed (default "" (res_error o))] (ask_plan steps edited ins)
      | _, _ => decided steps edited o
      end
  end.
(** [None]: the plan needs no question. *)
Definition console_plan_approval (p : Plan) (ins : list (option string))
    : result gate_error (option (list report * Resolution)) :=
  let steps := _plan_steps p in
  if negb (approval_needed steps "default") then Ok None
  else payload ← approval_requested_payload steps;
       r ← then_reports [Requested payload] (ask_plan steps None ins);
       Ok (Some r).

(** ** The plan that runs *)
Definition with_text (text : string) (s : PlanStep) : PlanStep :=
  {| ps_action := text; provider_hint := provider_hint s; expected_artifact := expected_artifact s;
     tool_call := tool_call s; ps_agent := ps_agent s; opening := opening s |}.
Definition _plan_with_shown_actions (p : Plan) (shown : list Step) : Plan :=
  match shown with
  | [] => p
  | _ =>
      let approved := Dict.of_pairs ((λ s, (n s, action s)) <$> shown) in
      with_steps p ((λ '(k, s), match Dict.get approved k with
                                | Some text => with_text text s
                                | None => s
                                end) <$> enumerate (steps p))
  end.

(** [strong_path.py] *)
Definition WEAK : string := "weak".
Definition STRONG : string := "strong".
Definition MERGED_ROLE : string := "planner+editor".
Fixpoint merge_roles (roles : list string) : list string :=
  match roles with
  | a :: (b :: rest as tail) =>
      if String.eqb a "planner" && String.eqb b "editor" then MERGED_ROLE :: merge_roles rest
      else a :: merge_roles tail
  | _ => roles
  end.
Definition select_variant (roles : list string) (strength : string) : list string :=
  if String.eqb strength STRONG then merge_roles roles else roles.
Definition merged_instruction (l : list PlanStep) : string :=
  "Do every step of the approved plan, in order." +:+
  str_concat ((λ '(k, s), " Step " +:+ pretty (k : Z) +:+ ": " +:+ ps_action s) <$> enumerate l).
Definition merge_last (l : list PlanStep) (s : PlanStep) : PlanStep :=
  {| ps_action := merged_instruction l; provider_hint := provider_hint s; expected_artifact := "";
     tool_call := tool_call s; ps_agent := true; opening := None |}.
Definition apply_strong_path (p : Plan) (strength : string) (agent_loop : bool) : Plan :=
  if negb (String.eqb strength STRONG) || Nat.ltb (length (steps p)) 2 || negb agent_loop then p
  else if negb (existsb (λ s, negb (String.eqb (expected_artifact s) "")) (steps p)) then p
  else match last (steps p) with
       | Some s => with_steps p [merge_last (steps p) s]
       | None => p
       end.

(** The steps a loop takes, by their numbers: the skipped ones are passed over. *)
Definition steps_taken (p : Plan) (c : skip_context) : list (Z * PlanStep) :=
  filter (λ ks, is_skipped c ks.1 = false) (enumerate (steps p)).

(** [Harness.run], from the approval to the steps. *)
Definition approved_context (o : Resolution) : skip_context :=
  {| _skipped := n <$> skipped o; _skip_typed := n <$> head (skipped o) |}.
Definition run_approved (p : Plan) (o : option Resolution) (strength : string) (agent_loop : bool)
    : option (list (Z * PlanStep)) :=
  match o with
  | None => Some (steps_taken (apply_strong_path p strength agent_loop)
                    {| _skipped := []; _skip_typed := None |})
  | Some o =>
      if bool_decide (res_kind o = RefusedPlan) then None
      else Some (steps_taken (apply_strong_path (_plan_with_shown_actions p (shown o)) strength agent_loop)
                   (approved_context o))
  end.
(** [_approved_plan_callback]: the question of a step that writes an approved
    file is answered yes. *)
Definition _approved_plan_callback (base : PlanStep → bool) (targets : list string) (s : PlanStep) : bool :=
  match tool_call s with
  | None => if bool_decide (expected_artifact s ∈ targets) then true else base s
  | Some _ => base s
  end.
End run.
