(* ===== verification/PlanRunLaws.v ===== *)
(** * What an approval allows

    Only an answer approves a plan, an edit names no new file, and on the weak
    path the steps that run are the kept ones with the text that was shown.  On
    the strong path a skipped step is merged with the others. *)

From Stdlib Require Import Floats.SpecFloat.
From stdpp Require Import pretty.
From S2P Require Import Prelude Canonical CanonicalLines JsonText Text DependencyGraph DiffRender PlanGate PlanGateLaws PlanRun.

Section laws.
Context {R : Runtime} {Sh : Sha256} {U : Unicode} {T : PyText}.

(** ** What one line does *)
(** The line is one word that approves, or a word that skips and a step's number. *)
Definition approves (line : string) (count : nat) : Prop :=
  (∃ word, py_split (lower (strip line)) = [word] ∧ word ∈ _APPROVE) ∨
  (∃ word text k, py_split (lower (strip line)) = [word; text] ∧ word ∈ _SKIP ∧
     int_of_str text = Some k ∧ (1 ≤ k ≤ Z.of_nat count)%Z).
Lemma parse_approves line count :
  parse_answer line count = Approve ∨ (∃ k, parse_answer line count = SkipStep k) → approves line count.
Proof.
  set (other := λ a, match a with Approve | SkipStep _ => false | _ => true end).
  assert (∀ a, other a = true → a = Approve ∨ (∃ k, a = SkipStep k) → approves line count) as Hno
    by (intros a Ha [->|[k ->]]; done).
  unfold parse_answer. destruct (py_split (lower (strip line))) as [|word rest] eqn:E; [by apply Hno|].
  destruct (bool_decide (word ∈ _APPROVE) && bool_decide (rest = [])) eqn:Ea.
  { intros _. bool_prop. subst. left. eauto. }
  destruct (bool_decide (word ∈ _CANCEL) && _); [by apply Hno|].
  destruct (bool_decide (word ∈ _SKIP ++ _EDIT)); [|by apply Hno].
  unfold numbered. destruct rest as [|text [|]]; [by apply Hno| |by apply Hno].
  destruct (int_of_str text) as [k|] eqn:Ei; [|by apply Hno].
  destruct ((1 <=? k)%Z && _) eqn:Ek; [|by apply Hno].
  destruct (bool_decide (word ∈ _SKIP)) eqn:Es; [|by apply Hno].
  intros _. bool_prop. right. exists word, text, k. split_and!; done || lia.
Qed.
Definition left_over (o : Resolution) (l : list Step) : Prop :=
  kept o = filter (λ s, n s ∉ n <$> skipped o) l ∧ skipped o ⊆ l.

Lemma filter_ext {A} (P Q : A → Prop) `{∀ x, Decision (P x), ∀ x, Decision (Q x)} (l : list A) :
  (∀ x, x ∈ l → P x ↔ Q x) → filter P l = filter Q l.
Proof.
  induction l as [|x l IH]; [done|]. intros H'. rewrite !filter_cons, IH by set_solver.
  specialize (H' x ltac:(left)). do 2 case_decide; tauto.
Qed.
Lemma resolve_spec l line o : resolve_answer l line = Ok o →
  match res_kind o with
  | Approved => left_over o l ∧ approves line (length l)
  | _ => kept o = [] ∧ skipped o = []
  end ∧ (if bool_decide (res_kind o = EditPlan) then is_Some (res_n o) else res_n o = None).
Proof.
  pose proof (parse_approves line (length l)) as Ha.
  unfold resolve_answer, left_over. destruct (parse_answer line (length l)) as [|k|k| |e] eqn:E.
  - intros [= <-]. cbn. split; [|done]. split; [split|by apply Ha; left].
    + symmetry. apply filter_all, Forall_forall. intros s _ H. by apply elem_of_nil in H.
    + set_solver.
  - destruct (list_find _ l) as [[i s]|]; [|done]. intros [= <-]. cbn. split; [|done].
    set (d := dropped k (target s) l). split; [split|apply Ha; right; eauto].
    + apply filter_ext. intros x Hx. rewrite list_elem_of_fmap. split.
      * intros Hd (y & Hy & [Hyd _]%list_elem_of_filter). by rewrite Hy in Hd.
      * intros Hn Hd. apply Hn. exists x. split; [done|]. by apply list_elem_of_filter.
    + intros x [_ ?]%list_elem_of_filter. done.
  - intros [= <-]. cbn. split; [done|by eexists].
  - by intros [= <-].
  - by intros [= <-].
Qed.

(** ** Edits *)
Definition targets_of (l : list Step) : list string := omap (λ s, truthy (target s)) l.
Lemma targets_cons s l : targets_of (s :: l) =
  match truthy (target s) with Some t => t :: targets_of l | None => targets_of l end.
Proof. done. Qed.
Lemma refused_none original check tokens : refused_path original check tokens = None ↔
  Forall (λ t, t ∈ original ∨ check t = None) tokens.
Proof.
  induction tokens as [|t tokens IH]; cbn [refused_path]; [by split|].
  rewrite Forall_cons. case_bool_decide; [rewrite IH; tauto|].
  destruct (check t) eqn:E; rewrite ?IH; split; try done; try tauto. intros [[?|?] _]; congruence.
Qed.
Lemma apply_edit_spec l k text check l' : apply_edit l k text check = inl l' →
  let new := str_join " " (py_split text) in
  l' = (λ s, if bool_decide (n s = k) then with_action new s else s) <$> l ∧
    ∀ t, names_file new t → t ∈ targets_of l ∨ check t = None.
Proof.
  unfold apply_edit. destruct (String.eqb _ _); [done|]. destruct (Nat.ltb _ _); [done|].
  destruct (refused_path _ _ _) eqn:E; [done|]. intros [= <-]. split; [done|].
  intros t Ht%path_candidates_spec. apply refused_none in E. rewrite Forall_forall in E. by apply E.
Qed.

(** ** The steps while the operator is asked *)
Section plan.
Context (p : Plan).

(** A step as the plan has it, or with a line of the input, its white space
    single, for its text, which names only files of the plan. *)
Definition edit_of (ins : list (option string)) (s0 s : Step) : Prop :=
  n s = n s0 ∧ target s = target s0 ∧ agent s = agent s0 ∧
  (action s = action s0 ∨
   (∃ line, Some line ∈ ins ∧ action s = str_join " " (py_split line)) ∧
   ∀ t, names_file (action s) t → t ∈ targets_of (_plan_steps p)).
Definition edited_plan (ins : list (option string)) (l : list Step) : Prop := Forall2 (edit_of ins) (_plan_steps p) l.

Lemma edited_start ins : edited_plan ins (_plan_steps p).
Proof. apply Forall_Forall2_diag, Forall_true. intros s. split_and!; try done. by left. Qed.
Lemma edited_targets ins l : edited_plan ins l → targets_of l = targets_of (_plan_steps p).
Proof. induction 1 as [|s0 s l0 l (_ & Ht & _) _ IH]; [done|]. by rewrite !targets_cons, Ht, IH. Qed.
Lemma edited_numbers ins l : edited_plan ins l → n <$> l = n <$> _plan_steps p.
Proof. induction 1 as [|s0 s l0 l (Hn & _) _ IH]; [done|]. by rewrite !fmap_cons, Hn, IH. Qed.
Lemma edited_again ins l k text l' : edited_plan ins l → Some text ∈ ins →
  apply_edit l k text console_check = inl l' → edited_plan ins l'.
Proof.
  intros Hl Hin [-> Hnew]%apply_edit_spec. rewrite (edited_targets _ l Hl) in Hnew.
  apply Forall2_fmap_r. eapply Forall2_impl; [exact Hl|].
  intros s0 s (? & ? & ? & ?). cbn. case_bool_decide; [|done]. split_and!; try done. right.
  split; [by exists text|]. intros t Ht. by destruct (Hnew t Ht) as [?|?].
Qed.
Lemma edit_step_spec ins l k input l' e : edited_plan ins l → (∀ text, input = Some text → Some text ∈ ins) →
  _edit_step l k input = (l', e) → edited_plan ins l'.
Proof.
  intros Hl Hin. unfold _edit_step. destruct input as [text|]; [|by intros [= <- _]].
  destruct (apply_edit l k text console_check) eqn:E; intros [= <- _]; [by eapply edited_again; [|apply Hin|]|done].
Qed.

(** What a decision of the console says. *)
Definition decision_ok (ins : list (option string)) (o : Resolution) : Prop :=
  edited_plan ins (shown o) ∧
  match res_kind o with
  | Approved => left_over o (shown o) ∧ ∃ line, Some line ∈ ins ∧ approves line (length (steps p))
  | RefusedPlan => kept o = []
  | _ => False
  end.

Context {UL : UnicodeLaws U}.
Lemma cancel_refuses l o : resolve_answer l "cancel" = Ok o → res_kind o = RefusedPlan.
Proof using UL.
  unfold resolve_answer, parse_answer. rewrite lower_ascii by done.
  change (py_split (str_lower (strip "cancel"))) with ["cancel"].
  intros H. cbn in H. by simplify_eq/=.
Qed.
Lemma edited_length ins l : edited_plan ins l → length l = length (steps p).
Proof. intros H%Forall2_length. rewrite <-H. unfold _plan_steps, enumerate. by rewrite length_fmap, length_imap. Qed.
Lemma decided_ok l edited line ins o rs o' : edited_plan ins l → resolve_answer l line = Ok o →
  res_kind o = Approved ∨ res_kind o = RefusedPlan → (res_kind o = Approved → Some line ∈ ins) →
  decided l edited o = Ok (rs, o') → decision_ok ins o'.
Proof.
  intros Hl Hr Hk Hin. unfold decided. destruct (answered_payload _ _ _ _); cbn; [|done]. intros [= _ <-].
  destruct (resolve_spec _ _ _ Hr) as [Hs _]. split; [done|]. cbn.
  destruct Hk as [Hk|Hk]; rewrite Hk in *.
  - destruct Hs as [Hs Ha]. split; [done|]. exists line. rewrite (edited_length _ _ Hl) in Ha. auto.
  - by destruct Hs.
Qed.

Lemma ask_plan_ok all ins l edited rs o : ins ⊆ all → edited_plan all l →
  ask_plan l edited ins = Ok (rs, o) → decision_ok all o.
Proof using UL.
  revert ins l edited rs. cut (∀ k ins l edited rs, length ins ≤ k → ins ⊆ all → edited_plan all l →
    ask_plan l edited ins = Ok (rs, o) → decision_ok all o); [intros H ins l edited rs; by apply (H (length ins))|].
  assert (∀ l edited rs, edited_plan all l →
    (o ← resolve_answer l "cancel"; decided l edited o) = Ok (rs, o) → decision_ok all o) as Hend.
  { intros l edited rs Hl. destruct (resolve_answer l "cancel") as [o'|] eqn:E; [|done]. cbn.
    pose proof (cancel_refuses _ _ E) as Hk. intros Hd.
    eapply (decided_ok l edited "cancel" all o' rs); [done|done|by right|congruence|done]. }
  assert (∀ rs0 rs r, then_reports rs0 r = Ok (rs, o) → ∃ rs', r = Ok (rs', o)) as Hthen.
  { intros rs0 rs r. destruct r as [[rs' o']|]; cbn; [|done]. intros [= _ ->]. eauto. }
  induction k as [|k IH]; intros ins l edited rs Hlen Hsub Hl.
  { destruct ins; [|cbn in Hlen; lia]. by apply Hend. }
  destruct ins as [|line ins]; [by apply Hend|]. cbn in Hlen. cbn [ask_plan].
  destruct (resolve_answer l (default "cancel" line)) as [o1|] eqn:Er; [|done]. cbn [mbind result_bind].
  destruct (resolve_spec _ _ _ Er) as [Hs Hn].
  assert (∀ line', line = Some line' → Some line' ∈ all) as Hline by (intros ? ->; apply Hsub; left).
  assert (ins ⊆ all) as Hrest by set_solver.
  destruct (res_kind o1) eqn:Ek; cbn in Hn.
  - intros Hd. destruct line as [line|].
    + eapply (decided_ok l edited line _ o1 rs); eauto.
    + pose proof (cancel_refuses _ _ Er). congruence.
  - intros Hd. eapply (decided_ok l edited _ _ o1 rs); eauto; congruence.
  - intros [rs' Hd]%Hthen. eapply IH; [|exact Hrest|exact Hl|exact Hd]. lia.
  - destruct Hn as [k' ->].
    assert (∀ input rest, (∀ text, input = Some text → Some text ∈ all) →
      (∀ l edited rs, edited_plan all l → rest l edited = Ok (rs, o) → decision_ok all o) →
      match _edit_step l k' input with
      | (l', None) => rs ← announce l'; then_reports rs (rest l' (Some k'))
      | (l', Some e) => then_reports [Printed e] (rest l' edited)
      end = Ok (rs, o) → decision_ok all o) as Hround.
    { intros input rest Hin Hgo. destruct (_edit_step l k' input) as [l' [e|]] eqn:Ee;
        pose proof (edit_step_spec _ _ _ _ _ _ Hl Hin Ee) as Hl'.
      - intros [rs' Hd]%Hthen. by eapply Hgo.
      - destruct (announce l'); cbn; [|done]. intros [rs' Hd]%Hthen. by eapply Hgo. }
    destruct ins as [|text ins].
    + by apply (Hround None (λ s e, o ← resolve_answer s "cancel"; decided s e o)).
    + apply (Hround text (λ s e, ask_plan s e ins)); [intros ? ->; apply Hrest; left|].
      intros l' e' rs' Hl'. apply IH; [cbn in Hlen; lia|set_solver|done].
Qed.

Lemma approval_decided ins rs o : console_plan_approval p ins = Ok (Some (rs, o)) → decision_ok ins o.
Proof using UL.
  unfold console_plan_approval. destruct (negb _); [done|].
  destruct (approval_requested_payload _) as [payload|]; cbn; [|done].
  destruct (ask_plan (_plan_steps p) None ins) as [[rs' o']|] eqn:E; cbn; [|done].
  intros [= <- <-]. eapply ask_plan_ok; [reflexivity|apply edited_start|exact E].
Qed.

(** C33: only an answer approves: an approved plan was answered with a word that
    approves or skips; a text that is not the plan's is a line the operator
    typed, and names no file that is not a target of the plan, where a file is a
    word with a separator or with a name and an extension ([names_file]);
    nothing is kept of a refused plan. *)
Theorem approval_is_an_answer ins rs o : console_plan_approval p ins = Ok (Some (rs, o)) →
  decision_ok ins o.
Proof using UL. apply approval_decided. Qed.

(** ** The steps that run *)
Lemma enumerate_lookup {A} (l : list A) i : enumerate l !! i = (λ x, (Z.of_nat i + 1, x)%Z) <$> l !! i.
Proof. unfold enumerate. by rewrite list_lookup_imap. Qed.
Lemma enumerate_numbers {A B} (l : list A) (k : list B) : length l = length k →
  (enumerate l).*1 = (enumerate k).*1.
Proof.
  intros Hl. apply list_eq. intros i. rewrite !list_lookup_fmap, !enumerate_lookup.
  destruct (l !! i) eqn:E1, (k !! i) eqn:E2; cbn; try done.
  - apply lookup_lt_Some in E1. apply lookup_ge_None in E2. lia.
  - apply lookup_ge_None in E1. apply lookup_lt_Some in E2. lia.
Qed.
Lemma enumerate_NoDup {A} (l : list A) : NoDup (enumerate l).*1.
Proof.
  apply NoDup_alt. intros i j x. rewrite !list_lookup_fmap, !enumerate_lookup.
  destruct (l !! i), (l !! j); cbn; intros [= <-] [= H]. lia.
Qed.
Lemma plan_numbers : n <$> _plan_steps p = (enumerate (steps p)).*1.
Proof.
  unfold _plan_steps. rewrite <-list_fmap_compose. apply list_fmap_ext. by intros _ [k s] _.
Qed.

(** A step of the plan that runs and the step that was shown. *)
Definition runs_as (ks : Z * PlanStep) (st : Step) : Prop := ks.1 = n st ∧ ps_action ks.2 = action st.
Lemma edited_number ins l i st : edited_plan ins l → l !! i = Some st → n st = (Z.of_nat i + 1)%Z.
Proof.
  intros Hl Hi. pose proof (edited_numbers _ l Hl) as Hn. rewrite plan_numbers in Hn.
  apply (f_equal (.!! i)) in Hn. rewrite !list_lookup_fmap, enumerate_lookup, Hi in Hn.
  destruct (steps p !! i); cbn in Hn; congruence.
Qed.
Definition shown_step_of (approved : list (Z * string)) (ks : Z * PlanStep) : PlanStep :=
  match Dict.get approved ks.1 with Some text => with_text text ks.2 | None => ks.2 end.
Lemma shown_plan ins l : edited_plan ins l → steps (_plan_with_shown_actions p l) =
  shown_step_of ((λ s, (n s, action s)) <$> l) <$> enumerate (steps p).
Proof.
  intros Hl. pose proof (edited_length _ l Hl) as Hlen. unfold _plan_with_shown_actions.
  assert (Dict.of_pairs ((λ s, (n s, action s)) <$> l) = (λ s, (n s, action s)) <$> l) as Hp.
  { apply Dict.of_pairs_NoDup. unfold Dict.keys. rewrite <-list_fmap_compose.
    change (NoDup (n <$> l)). rewrite (edited_numbers _ l Hl), plan_numbers. apply enumerate_NoDup. }
  destruct l as [|st l]; [by destruct (steps p)|]. cbn [steps with_steps].
  rewrite Hp. apply list_fmap_ext. by intros _ [k s] _.
Qed.
Lemma shown_lookup ins l i s st : edited_plan ins l → steps p !! i = Some s → l !! i = Some st →
  steps (_plan_with_shown_actions p l) !! i = Some (with_text (action st) s).
Proof.
  intros Hl Hs Hi. rewrite (shown_plan _ _ Hl). rewrite list_lookup_fmap, enumerate_lookup, Hs. cbn.
  unfold shown_step_of. cbn. rewrite (Dict.elem_get _ _ (action st)); [done|..].
  - unfold Dict.keys. rewrite <-list_fmap_compose.
    change (NoDup (n <$> l)). rewrite (edited_numbers _ l Hl), plan_numbers. apply enumerate_NoDup.
  - rewrite <-(edited_number _ l i st Hl Hi). apply (list_elem_of_fmap_2 (λ s, (n s, action s))).
    by eapply list_elem_of_lookup_2.
Qed.
Lemma shown_runs ins l : edited_plan ins l →
  Forall2 runs_as (enumerate (steps (_plan_with_shown_actions p l))) l.
Proof.
  intros Hl. pose proof (edited_length _ l Hl) as Hlen. apply Forall2_same_length_lookup. split.
  { unfold enumerate. rewrite length_imap, (shown_plan _ _ Hl). unfold enumerate.
    by rewrite length_fmap, length_imap. }
  intros i [k s'] st Hi Hst. rewrite enumerate_lookup in Hi.
  destruct (steps p !! i) as [s|] eqn:Es.
  2: { apply lookup_ge_None in Es. apply lookup_lt_Some in Hst. lia. }
  rewrite (shown_lookup _ l i s st) in Hi by done. injection Hi as <- <-.
  split; [by rewrite (edited_number _ l i st Hl)|done].
Qed.

Lemma taken_runs ks l (skip : list Z) : Forall2 runs_as ks l →
  (λ ks, (ks.1, ps_action ks.2)) <$> filter (λ ks, bool_decide (ks.1 ∈ skip) = false) ks =
  (λ st, (n st, action st)) <$> filter (λ st, n st ∉ skip) l.
Proof.
  induction 1 as [|[k s] st ks l [Hn Ha] _ IH]; [done|].
  cbn in Hn, Ha. subst k. rewrite !filter_cons. cbn [fst].
  destruct (decide (n st ∈ skip)) as [Hin|Hin].
  - rewrite decide_False by by rewrite bool_decide_true. rewrite decide_False by auto. exact IH.
  - rewrite decide_True by by apply bool_decide_eq_false. rewrite decide_True by done.
    rewrite !fmap_cons, IH. cbn. by rewrite Ha.
Qed.

(** C32: where the model's strength is not [STRONG], a plan is taken as it was
    approved: the steps that run are the kept ones, in order, with the text that
    was shown, and in everything else as the plan has them.  (On the strong path
    a merged step runs: [strong_path_runs_skipped_steps].) *)
Theorem weak_path_runs_what_was_approved ins rs o strength agent_loop taken :
  console_plan_approval p ins = Ok (Some (rs, o)) → strength ≠ STRONG →
  run_approved p (Some o) strength agent_loop = Some taken →
  (λ ks, (ks.1, ps_action ks.2)) <$> taken = (λ st, (n st, action st)) <$> kept o ∧
  ∀ k s, (k, s) ∈ taken → ∃ s0 text, (k, s0) ∈ enumerate (steps p) ∧ s = with_text text s0.
Proof using UL.
  intros [Hl Hk]%approval_decided Hw Hr. unfold run_approved in Hr. case_bool_decide as Hk'; [done|].
  injection Hr as <-. destruct (res_kind o); try done. destruct Hk as [[Hkept _] _].
  assert (∀ q, apply_strong_path q strength agent_loop = q) as ->.
  { intros q. unfold apply_strong_path. apply String.eqb_neq in Hw. by rewrite Hw. }
  split.
  - rewrite Hkept. unfold steps_taken, is_skipped, approved_context. cbn [_skipped].
    by eapply taken_runs, shown_runs.
  - intros k s [_ Hin]%list_elem_of_filter. apply list_elem_of_lookup in Hin as [i Hi].
    rewrite enumerate_lookup in Hi. rewrite (shown_plan _ _ Hl) in Hi.
    rewrite list_lookup_fmap, enumerate_lookup in Hi. destruct (steps p !! i) as [s0|] eqn:Es; [|done].
    cbn in Hi. injection Hi as <- <-. unfold shown_step_of. cbn.
    assert ((Z.of_nat i + 1, s0)%Z ∈ enumerate (steps p)) as Hin.
    { apply (list_elem_of_lookup_2 _ i). by rewrite enumerate_lookup, Es. }
    destruct (Dict.get _ _) as [text|]; [by exists s0, text|].
    exists s0, (ps_action s0). split; [done|]. by destruct s0.
Qed.
End plan.
End laws.

(** ** Examples *)
#[local] Existing Instances plain_runtime plain_unicode.
#[local] Instance zero_digest : Sha256 := λ _, str_concat (replicate 32 "0").
#[local] Instance small_numbers : PyText := {|
  container_str := λ _, "[]"; str_repr := λ s, "'" +:+ s +:+ "'";
  int_of_str := λ s, if String.eqb s "1" then Some 1%Z else if String.eqb s "2" then Some 2%Z
                     else if String.eqb s "3" then Some 3%Z else None;
  float_of_str := λ _, None |}.
Definition writes (text file : string) : PlanStep :=
  {| ps_action := text; provider_hint := "local"; expected_artifact := file; tool_call := None;
     ps_agent := false; opening := None |}.
Definition sample_plan : Plan :=
  {| assumption := "none"; confidence := S754_zero false; planned := true;
     steps := [writes "write the parser" "a.py"; writes "make b.py from a.py" "b.py";
               writes "test b.py" "c.py"] |}.
Definition answered (lines : list string) : option Resolution :=
  match console_plan_approval sample_plan (Some <$> lines) with
  | Ok (Some (_, o)) => Some o
  | _ => None
  end.
Definition ran (lines : list string) (strength : string) : option (list (Z * string)) :=
  match answered lines with
  | Some o => option_map (map (λ ks, (ks.1, ps_action ks.2))) (run_approved sample_plan (Some o) strength true)
  | None => None
  end.
Example approve_all : ran ["yes"] WEAK =
  Some [(1%Z, "write the parser"); (2%Z, "make b.py from a.py"); (3%Z, "test b.py")].
Proof. vm_compute. reflexivity. Qed.
Example edit_then_approve : ran ["e 3"; "test c.py only"; "a"] WEAK =
  Some [(1%Z, "write the parser"); (2%Z, "make b.py from a.py"); (3%Z, "test c.py only")].
Proof. vm_compute. reflexivity. Qed.
Example edit_of_another_file : ran ["e 3"; "test d.py"; "a"] WEAK = ran ["a"] WEAK.
Proof. vm_compute. reflexivity. Qed.
Example what_is_that : ran ["maybe"; "approve it"; "skip 9"] WEAK = None.
Proof. vm_compute. reflexivity. Qed.

(** What has neither a separator nor a name before its extension passes as no
    file: an edit may name these though the plan does not. *)
Theorem edit_may_name_bare_files :
  ran ["e 3"; "copy .env and Makefile into 1.py"; "a"] WEAK =
  Some [(1%Z, "write the parser"); (2%Z, "make b.py from a.py"); (3%Z, "copy .env and Makefile into 1.py")].
Proof. vm_compute. reflexivity. Qed.

(** A step that needs what a dropped step makes is kept. *)
Theorem dependents_of_dependents_are_kept : ran ["s 1"] WEAK = Some [(3%Z, "test b.py")].
Proof. vm_compute. reflexivity. Qed.

(** The strong path merges the skipped steps too, and the numbers that were
    skipped are looked up in the merged plan: with step 2 skipped its text runs,
    with step 1 skipped nothing does. *)
Theorem strong_path_runs_skipped_steps :
  (n <$> (default [] (skipped <$> answered ["s 2"])) = [2; 3]%Z) ∧
  ran ["s 2"] STRONG = Some [(1%Z, "Do every step of the approved plan, in order. Step 1: write the parser"
    +:+ " Step 2: make b.py from a.py Step 3: test b.py")] ∧
  ran ["s 1"] STRONG = Some [].
Proof. vm_compute. repeat split. Qed.

Lemma approval_is_an_answer_witness : ∃ rs o,
  console_plan_approval sample_plan [Some "s 2"] = Ok (Some (rs, o)) ∧ decision_ok sample_plan [Some "s 2"] o.
Proof.
  destruct (console_plan_approval sample_plan [Some "s 2"]) as [[[rs o]|]|] eqn:E;
    [|vm_compute in E; discriminate..].
  exists rs, o. split; [reflexivity|]. exact (approval_is_an_answer sample_plan _ _ _ E).
Defined.
Lemma weak_path_runs_what_was_approved_witness : ∃ rs o taken,
  console_plan_approval sample_plan [Some "s 2"] = Ok (Some (rs, o)) ∧
  run_approved sample_plan (Some o) WEAK true = Some taken ∧
  (λ ks, (ks.1, ps_action ks.2)) <$> taken = (λ st, (n st, action st)) <$> kept o.
Proof.
  destruct (console_plan_approval sample_plan [Some "s 2"]) as [[[rs o]|]|] eqn:E;
    [|vm_compute in E; discriminate..].
  destruct (run_approved sample_plan (Some o) WEAK true) as [taken|] eqn:Er.
  2: { vm_compute in E. injection E as <- <-. vm_compute in Er. discriminate. }
  exists rs, o, taken. split; [reflexivity|]. split; [exact Er|].
  assert (WEAK ≠ STRONG) as Hw by (vm_compute; discriminate).
  exact (proj1 (weak_path_runs_what_was_approved sample_plan _ _ _ _ _ _ E Hw Er)).
Defined.
