(* ===== verification/UndoLaws.v ===== *)
(** * What undo promises

    A [scene] is a project, the folders of its turns and the places a turn
    touches.  The journal is followed through a turn by one invariant
    ([journaled]), which the writers of the turn and the restorations of an
    undo both keep. *)

From S2P Require Import Prelude Canonical CanonicalLines JsonText Text Gates FileSystem FileOps FileOpsLaws WorkspacePath WorkspacePathLaws Undo.

(** ** Keys *)
Lemma join_comps key : str_join "/" (comps key) = key.
Proof.
  unfold comps. induction key as [|c key IH]; [done|]. cbn [split_char].
  destruct (Ascii.eqb c "/") eqn:E.
  - apply Ascii.eqb_eq in E as ->. destruct (split_char "/" key) as [|a l] eqn:Es.
    + by apply split_char_nonempty in Es.
    + rewrite str_join_cons2, IH. done.
  - destruct (split_char "/" key) as [|a l] eqn:Es; [by apply split_char_nonempty in Es|].
    destruct l as [|b l].
    + cbn in IH |- *. by rewrite IH.
    + rewrite str_join_cons2 in IH |- *. rewrite str_app_cons. by rewrite IH.
Qed.

Section keys.
Context {U : Unicode}.
(** A path a manifest may name: plain below the project, not RACT's or git's,
    and not the name the manifest itself takes in the turn's folder. *)
Record key_ok (key : string) : Prop := {
  key_names : names (comps key);
  key_head x : head (comps key) = Some x → x ∉ MANIFEST :: _PROTECTED;
  key_backslash : no_char backslash key = true;
  key_nul : contains_char "000" key = false;
  key_strip : strip key ≠ "";
  key_colon : second_is_colon key = false;
  key_utf8 : utf8_valid key = true;
}.
Lemma comps_nonempty key : comps key ≠ [].
Proof. apply split_char_nonempty. Qed.
Lemma comps_inj a b : comps a = comps b → a = b.
Proof. intros E. rewrite <-(join_comps a), <-(join_comps b). by rewrite E. Qed.
Lemma key_abs key : key_ok key → is_abs key = false ∧ startswith key "/" = false.
Proof.
  intros Hk. assert (startswith key "/" = false) as E; [|by split].
  destruct key as [|c key]; [done|]. pose proof (key_names _ Hk) as Hn. unfold comps in Hn. cbn [split_char] in Hn.
  destruct (Ascii.eqb c "/") eqn:Ec.
  - apply Forall_cons in Hn as [[(Hn & _) _] _]. done.
  - unfold startswith. cbn [str_drop_prefix]. by rewrite Ascii.eqb_sym, Ec.
Qed.
Lemma key_join root key : key_ok key → join_root root key = root ++ comps key.
Proof.
  intros Hk. unfold join_root. destruct (key_abs _ Hk) as [-> _]. f_equal.
  apply filter_all. eapply Forall_impl; [apply (key_names _ Hk)|]. by intros x [(H1 & H2 & _) _].
Qed.
Lemma key_posix key : as_posix (comps key) = key.
Proof. unfold as_posix. destruct (comps key) eqn:E; [by apply comps_nonempty in E|]. rewrite <-E. apply join_comps. Qed.
Lemma replace_none a b s : no_char a s = true → replace_char a b s = s.
Proof.
  unfold no_char. induction s as [|c s IH]; [done|]. cbn. intros [Hc Hs]%andb_true_iff.
  apply negb_true_iff in Hc. rewrite Hc. by rewrite IH.
Qed.
Lemma key_text key : key_ok key → replace_char backslash "/" key = key.
Proof. intros Hk. apply replace_none, (key_backslash _ Hk). Qed.
Lemma relative_to_app root rel : relative_to root (root ++ rel) = Some rel.
Proof. unfold relative_to. rewrite bool_decide_true by by exists rel. by rewrite drop_app_length. Qed.
Lemma check_entry_ok F base key : key_ok key → way F base → place F (base ++ comps key) →
  check_entry F base (JStr key) = None.
Proof.
  intros Hk Hb Hp. unfold check_entry. rewrite (key_text _ Hk), (key_nul _ Hk), (key_colon _ Hk).
  destruct (String.eqb_spec (strip key) ""); [by destruct (key_strip _ Hk)|].
  destruct (key_abs _ Hk) as [_ ->]. cbn [orb]. fold (comps key).
  assert (existsb (λ part, bool_decide (part ∈ [""; "."; ".."])) (comps key) = false) as ->.
  { apply not_true_iff_false. intros (x & Hx & Hd)%existsb_exists. apply bool_decide_eq_true in Hd.
    pose proof (key_names _ Hk) as Hn. rewrite Forall_forall in Hn. apply list_elem_of_In in Hx.
    destruct (Hn x Hx) as [(? & ? & ?) _]. set_solver. }
  assert (∀ x, head (comps key) = Some x → bool_decide (x ∈ _PROTECTED) = false) as Hh.
  { intros x Hx%(key_head _ Hk). apply bool_decide_eq_false. set_solver. }
  destruct (comps key) as [|x rel] eqn:Ek; [by apply comps_nonempty in Ek|].
  change (default "" (head (x :: rel))) with x. rewrite (Hh x eq_refl). unfold real. rewrite (realpath_way _ _ Hb), (key_join _ _ Hk), Ek.
  rewrite (realpath_place _ _ Hp), relative_to_app.
  change (default "" (head (x :: rel))) with x. by rewrite (Hh x eq_refl).
Qed.
Lemma head_not_protected key : key_ok key → bool_decide (default "." (head (comps key)) ∈ _PROTECTED) = false.
Proof.
  intros Hk. apply bool_decide_eq_false. destruct (head (comps key)) as [x|] eqn:E.
  - apply (key_head _ Hk) in E. cbn. set_solver.
  - destruct (comps key) eqn:Ek; [by apply comps_nonempty in Ek|done].
Qed.
Lemma no_nul_path root rel : existsb (contains_char "000") root = false → existsb (contains_char "000") rel = false →
  existsb (contains_char "000") (root ++ rel) = false.
Proof. intros H1 H2. by rewrite existsb_app, H1, H2. Qed.

(** ** Places have no links *)
Lemma place_no_links F p q t : place F p → q ≠ [] → q `prefix_of` p → F !! q ≠ Some (SymLink t).
Proof.
  intros Hp Hq Hpre. destruct (prefix_below _ _ Hpre) as [->|Hb].
  - destruct (place_free _ _ Hp) as [->|(d & n & ->)]; done.
  - destruct (place_clear _ _ Hp q Hq Hb) as [->| ->]; done.
Qed.
Lemma place_not_link F p q : wf_fs F → place F p → q `prefix_of` p → islink F q = false.
Proof.
  intros Hwf Hp Hpre. destruct (decide (q = [])) as [->|Hq]; [done|].
  destruct (split_last q Hq) as (x & a & ->). unfold islink, lstat. rewrite last_snoc, parent_snoc.
  assert (x `prefix_of` p) as Hx by (etrans; [by exists [a]|done]).
  destruct (walk F _ [] x) as [[r m]|] eqn:E; [|done].
  apply walk_no_links in E as [-> _].
  - cbn. destruct (is_dir F x); [|done]. destruct (F !! (x ++ [a])) as [[]|] eqn:El; try done.
    by destruct (place_no_links F p (x ++ [a]) target Hp Hq Hpre).
  - pose proof (place_names _ _ Hp) as Hn. destruct Hx as [y ->]. apply Forall_app in Hn as [Hn _].
    eapply Forall_impl; [exact Hn|]. by intros ? [? _].
  - intros k name Hk t. cbn. apply (place_no_links F p); [done| |].
    + destruct x; [done|]. done.
    + etrans; [|exact Hx]. exists (drop (S k) x). by rewrite take_drop.
Qed.
Lemma place_check_state F p : wf_fs F → place F p → check_state_path F p = None.
Proof.
  intros Hwf Hp. unfold check_state_path.
  assert (∀ rest seen found, p = seen ++ rest → state_link F seen found rest = None) as H; [|by apply H].
  induction rest as [|a rest IH]; intros seen found E; [done|]. cbn.
  rewrite (place_not_link F p) by (done || (exists rest; rewrite <-(assoc_L (++)); done)).
  rewrite andb_false_r. apply IH. by rewrite <-(assoc_L (++)).
Qed.
End keys.

(** ** Actions on places *)
Section actions.
Context {U : Unicode}.
Definition on_files (F : fs) (s : undo_world) : undo_world :=
  {| files := F; current := current s; saving := saving s; dropped_refs := dropped_refs s; announced := announced s |}.
Lemma bind_ok {S E A B} (m : action S E A) (f : A → action S E B) s s' a : m s = (s', Ok a) → (m ≫= f) s = f a s'.
Proof. intros Hm. unfold mbind, action_bind. by rewrite Hm. Qed.
Lemma refuse_link_place s p : wf_fs (files s) → place (files s) p → refuse_link p s = (s, Ok ()).
Proof.
  intros Hwf Hp. unfold refuse_link. erewrite bind_ok by done. cbn beta. by rewrite (place_check_state (files s) p).
Qed.
Lemma make_dirs_way s p : wf_fs (files s) → way (files s) p →
  ∃ F', make_dirs p s = (on_files F' s, Ok ()) ∧ made_way (files s) p F'.
Proof.
  intros Hwf Hp. destruct (mkdirs_way (files s) p (length p) Hwf Hp ltac:(done)) as (F' & E & Hm).
  exists F'. split; [|done]. unfold make_dirs. erewrite bind_ok by done. cbn beta. unfold make_dirs_at. rewrite E. done.
Qed.
Lemma made_way_updated F p q d F1 F' : place F p → parent p = q → made_way F q F1 → updated F1 p d F' → updated F p d F'.
Proof.
  intros Hp <- [_ Hm] Hu. destruct (place_split _ _ Hp) as (q & a & -> & Hq & _). rewrite parent_snoc in Hm.
  split; [apply (updated_wf _ _ _ _ Hu)|apply (updated_here _ _ _ _ Hu)|].
  intros x Hx. destruct (updated_rest _ _ _ _ Hu x Hx) as [->|(E1 & E2 & Hb & Hne)].
  - rewrite Hm. case_decide as Hd; [|by left]. destruct Hd as [Hne Hd].
    destruct (way_free _ _ Hq x Hne Hd) as [->| ->]; [|by left]. right. split_and!; [done..|by apply below_snoc|done].
  - rewrite Hm in E1. case_decide; [done|]. by right.
Qed.
Lemma copy_place s src dst d : wf_fs (files s) → place (files s) src → place (files s) dst → apart src dst → src ≠ dst →
  file (files s) src = Some d →
  ∃ s1 F', make_dirs (parent dst) s = (s1, Ok ()) ∧ copyfile src dst s1 = (on_files F' s, Ok ()) ∧
           updated (files s) dst (Some d) F'.
Proof.
  intros Hwf Hs Hd [Ha1 Ha2] Hne Hf. destruct (place_split _ _ Hd) as (q & a & Eq & Hq & _).
  destruct (make_dirs_way s (parent dst) Hwf) as (F1 & Em & Hm); [by rewrite Eq, parent_snoc|].
  assert (∀ p, place (files s) p → ¬ below p dst → place F1 p ∧ file F1 p = file (files s) p) as Hpl.
  { intros p Hp Hb. eapply made_way_place; [done| |exact Hm]. intros x Hx _. subst dst. rewrite parent_snoc in Hx.
    split; [intros ->|intros Hpx%below_prefix]; apply Hb, below_snoc; [done|by etrans]. }
  destruct (Hpl src Hs Ha1) as [Hs1 Hf1]. destruct (Hpl dst Hd (below_irrefl _)) as [Hd1 _].
  assert (is_dir F1 (parent dst) = true) as Hdir by by eapply made_way_dir.
  pose proof (proj1 Hm) as Hwf1.
  destruct (put_place F1 dst d Hwf1 Hd1 Hdir) as (F' & Ep & Hu).
  exists (on_files F1 s), F'. split; [done|]. split; [|by eapply made_way_updated].
  rewrite <-Hf1 in Hf. unfold copyfile. erewrite bind_ok by done. cbn [files on_files].
  assert (same_file F1 src dst = false) as ->.
  { unfold same_file. pose proof (place_walk _ _ Hwf1 Hs1) as W1. pose proof (place_walk _ _ Hwf1 Hd1) as W2.
    rewrite Hdir in W2. rewrite W2. destruct (is_dir F1 (parent src)); [|by destruct W1 as [_ ->]].
    rewrite W1. by apply bool_decide_eq_false. }
  erewrite bind_ok by done. rewrite (place_read _ _ Hwf1 Hs1), Hf. erewrite bind_ok by done. rewrite Ep. done.
Qed.
Lemma write_text_place s p d : wf_fs (files s) → place (files s) p → is_dir (files s) (parent p) = true →
  ∃ F', write_text p d s = (on_files F' s, Ok ()) ∧ updated (files s) p (Some d) F'.
Proof.
  intros Hwf Hp Hd. destruct (put_place _ _ d Hwf Hp Hd) as (F' & E & Hu). exists F'. split; [|done].
  unfold write_text. erewrite bind_ok by done. cbn beta. by rewrite E.
Qed.
End actions.

(** ** A project, its turns' folders and the paths of one turn *)
Section scene.
Context {R : Runtime} {U : Unicode} {T : PyText} {Sh : Sha256}.
Context (state_dir r : path) (keys ids : list string).

Definition turns : path := state_dir ++ ["undo"; String.substring 0 16 (hex (sha256 (path_str r)))].
Definition loc (key : string) : path := r ++ comps key.
Definition copy (id key : string) : path := turns ++ id :: comps key.
Definition man (id : string) : path := turns ++ [id; MANIFEST].

(** The places a turn with one of [ids] may touch. *)
Inductive spot : path → Prop :=
| spot_loc key : key ∈ keys → spot (loc key)
| spot_copy id key : id ∈ ids → key ∈ keys → spot (copy id key)
| spot_man id : real_name id → spot (man id).

(** What does not depend on the disk: no path of the turn is below another,
    the project is not in the turns' folder nor that folder in a path of the
    turn, and the ids are names. *)
Record apart_paths : Prop := {
  ap_ok key : key ∈ keys → key_ok key;
  ap_keys k k' : k ∈ keys → k' ∈ keys → apart (comps k) (comps k');
  ap_loc key : key ∈ keys → ¬ turns `prefix_of` loc key ∧ ¬ loc key `prefix_of` turns;
  ap_root : ¬ turns `prefix_of` r ∧ existsb (contains_char "000") r = false ∧ utf8_valid (path_str r) = true;
  ap_id id : id ∈ ids → real_name id ∧ utf8_valid id = true;
  ap_few : length ids ≤ KEEP_TURNS;
}.
Definition parsed (data : option string) : option (list (string * json)) :=
  match data with
  | Some d => if utf8_valid d then match json_loads d with Some (JObj m) => Some m | _ => None end else None
  | None => None
  end.
Definition hashable (m : list (string * json)) : Prop :=
  match Dict.get m "kind" with Some (JArr _) | Some (JObj _) => False | _ => True end.
Record scene (F : fs) : Prop := {
  sc_wf : wf_fs F;
  sc_root : way F r;
  sc_spot p : spot p → place F p;
  sc_name name : is_Some (F !! (turns ++ [name])) → real_name name;
  sc_kind name m : real_name name → parsed (file F (man name)) = Some m → hashable m;
}.
(** Outside the turns' folder only the files of the turn changed. *)
Definition kept (F F' : fs) : Prop := ∀ p, ¬ turns `prefix_of` p → (∀ key, key ∈ keys → p ≠ loc key) →
  F' !! p = F !! p ∨ (F !! p = None ∧ F' !! p = Some Dir).

Lemma kept_refl F : kept F F.
Proof. intros p _ _. by left. Qed.
Lemma kept_trans F F1 F2 : kept F F1 → kept F1 F2 → kept F F2.
Proof.
  intros H1 H2 p Hp Hk. destruct (H2 p Hp Hk) as [->|[E ->]]; [by apply H1|].
  destruct (H1 p Hp Hk) as [E'|[_ E']]; [|congruence]. right. by rewrite <-E'.
Qed.

Context (AP : apart_paths).
#[local] Set Default Proof Using "Type*".
Lemma loc_turns key x : key ∈ keys → apart (loc key) (turns ++ x) ∧ loc key ≠ turns ++ x.
Proof.
  intros Hk. destruct (ap_loc AP key Hk) as [H1 H2]. split; [split|].
  - intros Hb%below_prefix. destruct (prefix_weak_total (loc key) turns (turns ++ x)) as [?|?]; [done|by exists x|done..].
  - intros Hb%below_prefix. apply H1. etrans; [|exact Hb]. by exists x.
  - intros E. apply H1. rewrite E. by exists x.
Qed.
Lemma loc_neq_man key name : key ∈ keys → loc key ≠ man name.
Proof. intros Hk. by apply loc_turns. Qed.
Lemma loc_neq_copy key id k : key ∈ keys → loc key ≠ copy id k.
Proof. intros Hk. by apply loc_turns. Qed.
Lemma loc_inj k k' : loc k = loc k' → k = k'.
Proof. intros E%app_inv_head. by apply comps_inj. Qed.
Lemma copy_inj id id' k k' : copy id k = copy id' k' → id = id' ∧ k = k'.
Proof. intros E%app_inv_head. injection E as -> E. split; [done|by apply comps_inj]. Qed.
Lemma man_inj id id' : man id = man id' → id = id'.
Proof. intros E%app_inv_head. by injection E. Qed.
Lemma comps_manifest key : key ∈ keys → apart (comps key) [MANIFEST] ∧ comps key ≠ [MANIFEST].
Proof.
  intros Hk. pose proof (key_head _ (ap_ok AP key Hk)) as Hh.
  destruct (comps key) as [|x l] eqn:E; [by apply comps_nonempty in E|]. specialize (Hh x eq_refl).
  split; [split|].
  - intros (a & s & Ea). injection Ea as <- _. set_solver.
  - intros (a & s & Ea). injection Ea as -> _. set_solver.
  - intros [= -> _]. set_solver.
Qed.
Lemma copy_neq_man id k name : k ∈ keys → copy id k ≠ man name.
Proof. intros Hk E%app_inv_head. injection E as _ E. by apply (comps_manifest k Hk). Qed.
Lemma apart_cons a p b q : (a = b → apart p q) → apart (a :: p) (b :: q).
Proof.
  intros H. split; intros (x & s & E); injection E as -> E; destruct (H eq_refl) as [H1 H2];
    [apply H1|apply H2]; by exists x, s.
Qed.
Lemma spots_apart p q : spot p → spot q → apart p q.
Proof.
  intros [k Hk|id k Hi Hk|id Hi] [k' Hk'|id' k' Hi' Hk'|id' Hi'].
  - apply apart_app. by apply (ap_keys AP).
  - by apply loc_turns.
  - by apply loc_turns.
  - by apply apart_places_sym, loc_turns.
  - apply apart_app, apart_cons. intros _. by apply (ap_keys AP).
  - apply apart_app, apart_cons. intros _. by apply comps_manifest.
  - by apply apart_places_sym, loc_turns.
  - apply apart_app, apart_cons. intros _. by apply apart_places_sym, comps_manifest.
  - apply apart_app, apart_cons. intros _. apply apart_refl.
Qed.

Lemma real_root F : scene F → real F r = r.
Proof. intros H. by apply realpath_way, sc_root. Qed.
Lemma turns_dir_root F : scene F → turns_dir state_dir F r = turns.
Proof. intros H. unfold turns_dir, repository_key. by rewrite real_root. Qed.
Lemma repository_key_root F : scene F → repository_key F r = path_str r.
Proof. intros H. unfold repository_key. by rewrite real_root. Qed.
Lemma way_turns F : scene F → way F turns.
Proof.
  intros H. assert (place F (man "x")) as Hp by (apply (sc_spot _ H); constructor; by split).
  assert (man "x" = (turns ++ ["x"]) ++ [MANIFEST]) as E by by rewrite <-(assoc_L (++)).
  rewrite E in Hp. apply place_way in Hp. eapply way_prefix; [exact Hp|]. by exists ["x"].
Qed.
Lemma way_folder F id : scene F → real_name id → way F (turns ++ [id]).
Proof.
  intros H Hi. pose proof (sc_spot _ H _ (spot_man id Hi)) as Hp. apply (place_way _ _ MANIFEST).
  by rewrite <-(assoc_L (++)).
Qed.

(** One update of a spot. *)
Lemma scene_updated F p d F' : scene F → spot p → updated F p d F' →
  (∀ id, p = man id → ∀ m, parsed d = Some m → hashable m) →
  scene F' ∧ (∀ q, spot q → q ≠ p → file F' q = file F q) ∧ kept F F'.
Proof.
  intros Hs Hp Hu Hh. split_and!.
  - split.
    + apply (updated_wf _ _ _ _ Hu).
    + split; [apply (way_names _ _ (sc_root _ Hs))|]. intros q Hq Hr.
      destruct (decide (q = p)) as [->|Hne].
      * exfalso. destruct Hp as [k Hk|id k Hi Hk|id Hi].
        -- apply prefix_length in Hr. unfold loc in Hr. rewrite length_app in Hr.
           destruct (comps k) eqn:E; [by apply comps_nonempty in E|cbn in Hr; lia].
        -- apply (proj1 (ap_root AP)). etrans; [|exact Hr]. by eexists.
        -- apply (proj1 (ap_root AP)). etrans; [|exact Hr]. by eexists.
      * destruct (updated_rest _ _ _ _ Hu q Hne) as [->|(_ & -> & _)]; [|by right].
        by apply (way_free _ _ (sc_root _ Hs)).
    + intros q Hq. eapply updated_place; [exact Hu|by apply (sc_spot _ Hs)..|by apply spots_apart].
    + intros name Hn. assert (real_name name ∨ turns ++ [name] ≠ p) as [?|Hne]; [|done|].
      { destruct Hp as [k Hk|id k Hi Hk|id Hi]; right.
        - intros E. by apply (loc_turns k [name] Hk).
        - intros E%app_inv_head. injection E as -> E. symmetry in E. by apply comps_nonempty in E.
        - intros E%app_inv_head. done. }
      destruct (updated_rest _ _ _ _ Hu _ Hne) as [E|(E1 & E2 & Hb & _)].
      * apply (sc_name _ Hs). by rewrite <-E.
      * destruct Hp as [k Hk|id k Hi Hk|id Hi].
        -- by destruct (loc_turns k [name] Hk) as [[_ ?] _].
        -- destruct Hb as (a & l & E). rewrite <-(assoc_L (++)) in E. apply app_inv_head in E.
           injection E as -> _. by apply (ap_id AP).
        -- destruct Hb as (a & l & E). rewrite <-(assoc_L (++)) in E. apply app_inv_head in E.
           injection E as -> _. done.
    + intros name m Hn Hm. destruct (decide (man name = p)) as [E|Hne].
      * apply (Hh name); [done|]. rewrite E, (updated_file _ _ _ _ Hu) in Hm. done.
      * rewrite (updated_other _ _ _ _ _ Hu Hne) in Hm. by apply (sc_kind _ Hs name).
  - intros q _ Hne. by apply (updated_other _ _ _ _ _ Hu).
  - intros q Hq Hk. destruct (decide (q = p)) as [->|Hne].
    + exfalso. destruct Hp as [k Hk'|id k Hi Hk'|id Hi]; [by eapply Hk|apply Hq; by eexists..].
    + destruct (updated_rest _ _ _ _ Hu q Hne) as [?|(? & ? & _)]; [by left|by right].
Qed.

(** ** The journal while a turn runs

    [F0] is the disk at the start of the turn of [b]. *)
Record journaled (F0 : fs) (b : TurnBackup) (F : fs) : Prop := {
  jr_scene : scene F;
  jr_kept : kept F0 F;
  jr_root : tb_root b = r;
  jr_id : turn_id b ∈ ids;
  jr_nodup : NoDup (saved b ++ created b);
  jr_keys key : key ∈ saved b ++ created b → key ∈ keys;
  jr_saved key : key ∈ saved b → is_Some (file F0 (loc key)) ∧ file F (copy (turn_id b) key) = file F0 (loc key);
  jr_created key : key ∈ created b → file F0 (loc key) = None;
  jr_other key : key ∈ keys → key ∉ saved b ++ created b → file F (loc key) = file F0 (loc key);
  jr_man id : real_name id → file F (man id) = file F0 (man id);
  jr_copy id key : id ∈ ids → id ≠ turn_id b → key ∈ keys → file F (copy id key) = file F0 (copy id key);
  jr_folders name : name ≠ turn_id b → F !! (turns ++ [name]) = F0 !! (turns ++ [name]);
}.

Lemma folder_path F b : scene F → tb_root b = r → folder state_dir F b = turns ++ [turn_id b].
Proof. intros Hs Hr. unfold folder. by rewrite Hr, turns_dir_root. Qed.

(** A file of the turn changes. *)
Lemma journaled_update F0 b F key d F' : journaled F0 b F → key ∈ saved b ++ created b →
  updated F (loc key) d F' → journaled F0 b F'.
Proof.
  intros J Hk Hu. pose proof (jr_keys _ _ _ J key Hk) as Hkey.
  destruct (scene_updated F (loc key) d F' (jr_scene _ _ _ J) (spot_loc key Hkey) Hu) as (Hs & Ho & Hkp).
  { intros id E. by destruct (loc_neq_man key id Hkey). }
  pose proof (jr_id _ _ _ J) as Hid. split; try apply J; try done.
  - eapply kept_trans; [apply J|done].
  - intros k Hks. destruct (jr_saved _ _ _ J k Hks) as [? E]. split; [done|]. rewrite <-E.
    assert (k ∈ keys) by (apply (jr_keys _ _ _ J); set_solver).
    apply Ho; [by constructor|]. by apply not_eq_sym, loc_neq_copy.
  - intros k Hkk Hn. rewrite <-(jr_other _ _ _ J k Hkk Hn). apply Ho; [by constructor|].
    intros E%loc_inj. by subst.
  - intros id Hi. rewrite <-(jr_man _ _ _ J id Hi). apply Ho; [by constructor|]. by apply not_eq_sym, loc_neq_man.
  - intros id k Hi Hne Hkk. rewrite <-(jr_copy _ _ _ J id k Hi Hne Hkk). apply Ho; [by constructor|].
    by apply not_eq_sym, loc_neq_copy.
  - intros name Hn. rewrite <-(jr_folders _ _ _ J name Hn). destruct (loc_turns key [name] Hkey) as [[_ Hb] Hne].
    destruct (updated_rest _ _ _ _ Hu (turns ++ [name]) (not_eq_sym Hne)) as [?|(_ & _ & ? & _)]; done.
Qed.

(** Its bytes are copied to the folder of the turn. *)
Lemma journaled_copy F0 b F key F' : journaled F0 b F → key ∈ keys → key ∉ saved b ++ created b →
  is_Some (file F (loc key)) → updated F (copy (turn_id b) key) (file F (loc key)) F' →
  journaled F0 (with_saved b key) F' ∧ file F' (loc key) = file F (loc key).
Proof.
  intros J Hkey Hn Hf Hu. pose proof (jr_id _ _ _ J) as Hid.
  pose proof (spot_copy (turn_id b) key Hid Hkey) as Hsp.
  destruct (scene_updated F _ _ F' (jr_scene _ _ _ J) Hsp Hu) as (Hs & Ho & Hkp).
  { intros id E. by destruct (copy_neq_man (turn_id b) key id Hkey). }
  assert (∀ k, k ∈ keys → file F' (loc k) = file F (loc k)) as Hloc.
  { intros k Hk. apply Ho; [by constructor|by apply loc_neq_copy]. }
  split; [|by apply Hloc]. cbn in *. split; cbn; try apply J; try done.
  - eapply kept_trans; [apply J|done].
  - pose proof (jr_nodup _ _ _ J) as Hd. rewrite <-(assoc_L (++)). apply NoDup_app in Hd as (H1 & H2 & H3).
    apply NoDup_app. split_and!; [done| |].
    + intros x Hx [->|Hx']%elem_of_cons; [set_solver|by eapply H2].
    + apply NoDup_cons. split; [set_solver|done].
  - intros k Hk. assert (k ∈ saved b ++ created b ∨ k = key) as [?| ->] by set_solver; [by apply J|done].
  - intros k [Hk| ->%list_elem_of_singleton]%elem_of_app.
    + destruct (jr_saved _ _ _ J k Hk) as [? E]. split; [done|]. rewrite <-E. apply Ho.
      * constructor; [done|]. apply (jr_keys _ _ _ J). set_solver.
      * intros [_ ->]%copy_inj. set_solver.
    + rewrite <-(jr_other _ _ _ J key Hkey Hn). split; [done|]. by rewrite (updated_file _ _ _ _ Hu).
  - intros k Hk Hn'. rewrite Hloc by done. apply (jr_other _ _ _ J); set_solver.
  - intros id Hi. rewrite <-(jr_man _ _ _ J id Hi). apply Ho; [by constructor|]. by apply not_eq_sym, copy_neq_man.
  - intros id k Hi Hne Hkk. rewrite <-(jr_copy _ _ _ J id k Hi Hne Hkk). apply Ho; [by constructor|].
    by intros [-> _]%copy_inj.
  - intros name Hne. rewrite <-(jr_folders _ _ _ J name Hne).
    assert (turns ++ [name] ≠ copy (turn_id b) key) as Hneq.
    { intros E%app_inv_head. injection E as -> E. symmetry in E. by apply comps_nonempty in E. }
    destruct (updated_rest _ _ _ _ Hu _ Hneq) as [?|(_ & _ & (a & l & E) & _)]; [done|].
    rewrite <-(assoc_L (++)) in E. apply app_inv_head in E. injection E as E _. by symmetry in E.
Qed.
Lemma journaled_create F0 b F key : journaled F0 b F → key ∈ keys → key ∉ saved b ++ created b →
  file F (loc key) = None → journaled F0 (with_created b key) F.
Proof.
  intros J Hkey Hn Hf. split; cbn; try apply J.
  - rewrite (assoc_L (++)). apply NoDup_app. split_and!; [apply J| |apply NoDup_singleton].
    intros x Hx ->%list_elem_of_singleton. done.
  - intros k Hk. assert (k ∈ saved b ++ created b ∨ k = key) as [?| ->] by set_solver; [by apply J|done].
  - intros k [Hk| ->%list_elem_of_singleton]%elem_of_app; [by apply (jr_created _ _ _ J)|].
    by rewrite <-(jr_other _ _ _ J key Hkey Hn).
  - intros k Hk Hn'. apply (jr_other _ _ _ J); set_solver.
Qed.

(** ** Saving a path *)
Definition same_turn (b b' : TurnBackup) : Prop :=
  turn_id b' = turn_id b ∧ tb_kind b' = tb_kind b ∧ tb_request b' = tb_request b ∧ bases b' = bases b.
Record saves (F0 : fs) (b : TurnBackup) (s : undo_world) (key : string) (s' : undo_world) (b' : TurnBackup) : Prop := {
  sv_current : current s' = Some b';
  sv_journal : journaled F0 b' (files s');
  sv_same : same_turn b b';
  sv_keys k : k ∈ saved b' ++ created b' ↔ k = key ∨ k ∈ saved b ++ created b;
  sv_files k : k ∈ keys → file (files s') (loc k) = file (files s) (loc k);
}.
Lemma save_path_spec F0 b s key : journaled F0 b (files s) → current s = Some b → key ∈ keys →
  ∃ s' b', save_path state_dir b (loc key) s = (s', Ok b') ∧ saves F0 b s key s' b'.
Proof.
  intros J Hc Hkey. pose proof (jr_scene _ _ _ J) as Hs. pose proof (sc_wf _ Hs) as Hwf.
  pose proof (sc_spot _ Hs _ (spot_loc key Hkey)) as Hp. pose proof (jr_id _ _ _ J) as Hid.
  unfold save_path. erewrite bind_ok by done. cbn beta. unfold real.
  rewrite (realpath_place _ _ Hp), (jr_root _ _ _ J). unfold loc at 1. rewrite relative_to_app.
  rewrite (head_not_protected key) by by apply (ap_ok AP). rewrite key_posix.
  erewrite bind_ok by done. cbn beta. case_bool_decide as Hin.
  - eexists _, b. split; [done|]. split; [done|done|done| |done].
    intros k. assert (key ∈ saved b ++ created b) by set_solver. naive_solver.
  - assert (key ∉ saved b ++ created b) as Hn by set_solver.
    rewrite (place_is_file _ _ Hwf Hp).
    case_bool_decide as Hf; cbn [negb].
    + destruct Hf as [d Hd]. pose proof (sc_spot _ Hs _ (spot_copy _ _ Hid Hkey)) as Hcp.
      set (s1 := {| files := files s; current := current s; saving := saving s ++ [(key, loc key)];
        dropped_refs := dropped_refs s; announced := announced s |}).
      rewrite (folder_path _ b Hs (jr_root _ _ _ J)). rewrite <-(assoc_L (++)). cbn [app].
      change (turns ++ turn_id b :: comps key) with (copy (turn_id b) key).
      erewrite bind_ok by by apply refuse_link_place. cbn beta.
      destruct (copy_place s1 (loc key) (copy (turn_id b) key) d) as (s2 & F' & E1 & E2 & Hu); try done.
      { by apply spots_apart; constructor. }
      { by apply loc_neq_copy. }
      erewrite bind_ok by exact E1. cbn beta. erewrite bind_ok by exact E2. cbn beta.
      erewrite bind_ok by done. eexists _, (with_saved b key). split; [done|].
      cbn [files s1] in Hu. rewrite <-Hd in Hu.
      destruct (journaled_copy F0 b (files s) key F' J Hkey Hn ltac:(eauto) Hu) as [J' Hl].
      split; [done|done|done| |].
      * intros k. cbn. set_solver.
      * intros k Hk. cbn. apply (updated_other _ _ _ _ _ Hu). by apply loc_neq_copy.
    + apply eq_None_not_Some in Hf. erewrite bind_ok by done. eexists _, (with_created b key). split; [done|].
      split; [done|by apply journaled_create|done| |done]. intros k. cbn. set_solver.
Qed.

(** ** The manifest *)
Definition digest_of (F : fs) (key : string) : option string := (λ d, hex (sha256 d)) <$> file F (loc key).
Definition after_entry (F : fs) (key : string) : string * json := (key, digest_json (digest_of F key)).
Lemma no_nul_comps key : contains_char "000" key = false → existsb (contains_char "000") (comps key) = false.
Proof.
  intros H. apply not_true_iff_false. intros (x & Hx%list_elem_of_In & Hc)%existsb_exists.
  rewrite <-(join_comps key) in H. revert H. apply not_false_iff_true.
  induction (comps key) as [|a l IH]; [by apply elem_of_nil in Hx|].
  assert (∀ u v, contains_char "000" (u +:+ v) = contains_char "000" u || contains_char "000" v) as Happ.
  { intros u v. unfold contains_char. induction u as [|c u IHu]; [done|]. rewrite str_app_cons. cbn.
    by rewrite IHu, orb_assoc. }
  apply elem_of_cons in Hx as [->|Hx].
  - destruct l as [|b l]; [done|]. rewrite str_join_cons2, Happ, Hc. done.
  - destruct l as [|b l]; [by apply elem_of_nil in Hx|]. rewrite str_join_cons2, !Happ, (IH Hx), !orb_true_r. done.
Qed.
Lemma sha256_loc F key : wf_fs F → place F (loc key) → key ∈ keys →
  _sha256 F (join_root r key) = Ok (digest_of F key).
Proof.
  intros Hwf Hp Hk. rewrite (key_join _ _ (ap_ok AP _ Hk)). fold (loc key). unfold _sha256.
  unfold loc at 1. rewrite no_nul_path; [|apply (ap_root AP)|apply no_nul_comps, (key_nul _ (ap_ok AP _ Hk))].
  rewrite (place_open _ _ Hwf Hp). unfold digest_of. by destruct (file F (loc key)).
Qed.
Lemma digests_loc F l : wf_fs F → (∀ key, key ∈ l → key ∈ keys ∧ place F (loc key)) →
  digests F r l = Ok (after_entry F <$> l).
Proof.
  intros Hwf Hl. unfold digests. apply mapM_Ok, Forall2_fmap_r, Forall_Forall2_diag, Forall_forall.
  intros key Hk. destruct (Hl key Hk). by rewrite sha256_loc.
Qed.

Lemma digest_good d : json_good (digest_json ((λ d, hex (sha256 d)) <$> d)).
Proof. destruct d as [d|]; cbn; [|constructor]. constructor. apply utf8_valid_ascii, hex_ascii. Qed.
Lemma strings_good l : Forall (λ s, utf8_valid s = true) l → json_good (strings l).
Proof. intros H. constructor. apply Forall_fmap. eapply Forall_impl; [exact H|]. intros x Hx. by constructor. Qed.
Lemma after_keys F l : Dict.keys (after_entry F <$> l) = l.
Proof. unfold Dict.keys. rewrite <-list_fmap_compose. apply list_fmap_id. Qed.
Lemma after_good F l : NoDup l → Forall (λ s, utf8_valid s = true) l → json_good (JObj (after_entry F <$> l)).
Proof.
  intros Hd Hu. constructor; [by rewrite after_keys| |].
  - apply Forall_fmap. exact Hu.
  - apply Forall_fmap, Forall_true. intros key. apply digest_good.
Qed.
(** The texts of a turn are UTF-8. *)
Definition utf8_turn (b : TurnBackup) : Prop :=
  utf8_valid (tb_kind b) = true ∧ utf8_valid (tb_request b) = true ∧ Forall (λ s, utf8_valid s = true) (bases b).
Definition manifest_fields (F : fs) (b : TurnBackup) : list (string * json) :=
  [("kind", JStr (tb_kind b)); ("turn", JStr (turn_id b)); ("root", JStr (path_str r));
   ("saved", strings (saved b)); ("created", strings (created b));
   ("after", JObj (after_entry F <$> (saved b ++ created b))); ("bases", strings (bases b));
   ("request", JStr (tb_request b)); ("done", JBool false)].
Lemma manifest_good F0 b F : journaled F0 b F → utf8_turn b → json_good (JObj (manifest_fields F b)).
Proof.
  intros J (Hk & Hr & Hb).
  assert (Forall (λ s, utf8_valid s = true) (saved b ++ created b)) as Hkeys.
  { apply Forall_forall. intros key Hkey%(jr_keys _ _ _ J). apply (key_utf8 _ (ap_ok AP _ Hkey)). }
  pose proof Hkeys as [Hs Hc]%Forall_app.
  constructor.
  - apply (bool_decide_unpack _). by vm_compute.
  - repeat constructor.
  - repeat (constructor; [cbn [snd]|]); try apply strings_good; try (by constructor); try done.
    + constructor. apply (ap_id AP), (jr_id _ _ _ J).
    + constructor. apply (ap_root AP).
    + apply after_good; [apply J|done].
Qed.
Lemma parsed_text m : json_good (JObj m) → parsed (Some (manifest_text (JObj m))) = Some m.
Proof. intros Hm. unfold parsed, manifest_text. by rewrite dumps_utf8, loads_dumps. Qed.

Lemma man_parent id : parent (man id) = turns ++ [id].
Proof.
  unfold man. assert (turns ++ [id; MANIFEST] = (turns ++ [id]) ++ [MANIFEST]) as -> by by rewrite <-(assoc_L (++)).
  apply parent_snoc.
Qed.
Lemma finish_spec F0 b s : journaled F0 b (files s) → changed b = true → utf8_turn b →
  ∃ F', finish state_dir b s = (on_files F' s, Ok ()) ∧
        updated (files s) (man (turn_id b)) (Some (manifest_text (JObj (manifest_fields (files s) b)))) F'.
Proof.
  intros J Hc Hu. set (F := files s). pose proof (jr_scene _ _ _ J) as Hs. pose proof (sc_wf _ Hs) as Hwf.
  destruct (ap_id AP _ (jr_id _ _ _ J)) as [Hid _]. set (id := turn_id b) in *.
  pose proof (sc_spot _ Hs _ (spot_man id Hid)) as Hp.
  unfold finish. rewrite Hc. cbn [negb]. erewrite bind_ok by done. cbn beta zeta. change (files s) with F.
  rewrite (folder_path F b Hs (jr_root _ _ _ J)). fold id. rewrite <-(assoc_L (++)). cbn [app]. fold (man id).
  erewrite bind_ok by by apply refuse_link_place. cbn beta.
  destruct (make_dirs_way s (turns ++ [id]) Hwf (way_folder F id Hs Hid)) as (F1 & E1 & Hm).
  erewrite bind_ok by exact E1. cbn beta. erewrite bind_ok by done. cbn beta. cbn [files on_files].
  assert (∀ key, key ∈ keys → place F1 (loc key) ∧ file F1 (loc key) = file F (loc key)) as Hl.
  { intros key Hk. eapply made_way_place; [apply (sc_spot _ Hs); by constructor| |exact Hm].
    intros x Hx _. destruct (loc_turns key [id] Hk) as [[Ha _] Hne]. split.
    - intros ->. destruct (prefix_below _ _ Hx); done.
    - intros Hb. apply Ha. destruct Hb as (a & l & ->). destruct Hx as [y ->]. exists a, (l ++ y). by rewrite <-(assoc_L (++)). }
  assert (way F1 r) as Hr1.
  { split; [apply (way_names _ _ (sc_root _ Hs))|]. intros q Hq Hqr. rewrite (proj2 Hm).
    case_decide; [by right|]. by apply (way_free _ _ (sc_root _ Hs)). }
  rewrite (jr_root _ _ _ J), digests_loc; [|apply Hm|].
  2: { intros key Hk%(jr_keys _ _ _ J). split; [done|by apply Hl]. }
  erewrite bind_ok by done. cbn beta.
  assert (place F1 (man id)) as Hp1.
  { eapply made_way_place; [exact Hp| |exact Hm]. intros x Hx _. apply prefix_length in Hx. unfold man. split.
    - intros ->. rewrite !length_app in Hx. cbn in Hx. lia.
    - intros Hb%below_length. rewrite !length_app in *. cbn in *. lia. }
  assert (after_entry F1 <$> saved b ++ created b = after_entry F <$> saved b ++ created b) as ->.
  { apply list_fmap_ext. intros i key Hk%list_elem_of_lookup_2%(jr_keys _ _ _ J).
    unfold after_entry, digest_of. by rewrite (proj2 (Hl key Hk)). }
  assert (manifest_of F1 b (after_entry F <$> saved b ++ created b) = JObj (manifest_fields F b)) as ->.
  { unfold manifest_of, manifest_fields, repository_key, real. rewrite (jr_root _ _ _ J), (realpath_way _ _ Hr1).
    by rewrite Dict.of_pairs_NoDup by (rewrite after_keys; apply J). }
  destruct (write_text_place (on_files F1 s) (man id) (manifest_text (JObj (manifest_fields F b)))) as (F' & -> & Hu').
  - apply Hm.
  - done.
  - rewrite man_parent. by eapply made_way_dir.
  - exists F'. split; [done|]. eapply made_way_updated; [exact Hp|apply man_parent|exact Hm|done].
Qed.

(** ** The folders of the turns *)
Definition before (x y : string) : Prop := String.leb x y = true ∧ x ≠ y.
Lemma before_trans x y z : before x y → before y z → before x z.
Proof.
  intros [H1 N1] [H2 N2]. split; [by eapply str_leb_trans|]. intros ->. apply N1. by apply str_leb_antisym.
Qed.
Notation folders F := (plain_folders F turns).
Lemma sorted_filter {A} (R' : A → A → Prop) (P : A → Prop) `{∀ x, Decision (P x)} l :
  StronglySorted R' l → StronglySorted R' (filter P l).
Proof.
  induction 1 as [|x l _ IH Hx]; [constructor|]. rewrite filter_cons. case_decide; [|done].
  constructor; [done|]. rewrite Forall_forall in Hx |- *. intros y [_ Hy]%list_elem_of_filter. by apply Hx.
Qed.
Lemma folders_spec F : scene F → NoDup (folders F) ∧ StronglySorted String.leb (folders F) ∧
  ∀ name, name ∈ folders F ↔ F !! (turns ++ [name]) = Some Dir.
Proof.
  intros Hs. pose proof (way_walk _ _ (sc_wf _ Hs) (way_turns F Hs)) as Hw. unfold plain_folders.
  assert (walk F MAXSYMLINKS [] turns = None ∧ (∀ name, F !! (turns ++ [name]) = None) ∨
          ∃ m, walk F MAXSYMLINKS [] turns = Some (turns, m)) as [[-> Hn]|[m ->]].
  { destruct (is_dir F turns) eqn:Hd; [right; eauto|]. destruct Hw as [Hf Hw].
    destruct (walk F _ [] turns) as [[q m]|]; [right; exists m; by rewrite (Hw q m eq_refl)|left]. split; [done|].
    intros name. destruct (F !! (turns ++ [name])) eqn:E; [|done].
    by rewrite (sc_wf _ Hs turns name ltac:(eauto)) in Hd. }
  { split_and!; [constructor..|]. intros name. rewrite Hn. split; [by intros ?%elem_of_nil|done]. }
  split_and!.
  - apply NoDup_filter. rewrite py_sorted_perm. apply NoDup_children.
  - apply sorted_filter, py_sorted_ssorted; [exact str_leb_total|exact str_leb_trans].
  - intros name. rewrite list_elem_of_filter, elem_of_py_sorted, elem_of_children.
    split; [by intros [? _]|]. intros E. split; [done|]. by eexists.
Qed.
(** The newest folder comes last. *)
Definition newest (F : fs) (id : string) : Prop :=
  F !! (turns ++ [id]) = Some Dir ∧ ∀ name, is_Some (F !! (turns ++ [name])) → name = id ∨ before name id.
Lemma newest_last F id : scene F → newest F id → ∃ l, folders F = l ++ [id].
Proof.
  intros Hs [Hid Hn]. destruct (folders_spec F Hs) as (Hd & Hso & Hin).
  apply Hin in Hid. apply list_elem_of_split in Hid as (l1 & l2 & E). rewrite E in Hd, Hso, Hin.
  destruct l2 as [|x l2]; [by exists l1|]. exfalso.
  assert (String.leb id x = true) as Hle.
  { apply Is_true_true, (StronglySorted_app_1_elem_of (λ a b, String.leb a b) (l1 ++ [id]) (x :: l2));
      [by rewrite <-(assoc_L (++))|set_solver..]. }
  destruct (Hn x) as [->|[Hle' Hne]].
  - apply mk_is_Some with Dir. apply Hin. set_solver.
  - apply NoDup_app in Hd as (_ & _ & Hd). apply NoDup_cons in Hd as [Hd _]. set_solver.
  - apply Hne. by apply str_leb_antisym.
Qed.

(** ** Removing old folders *)
Definition ids_newer (F : fs) : Prop :=
  ∀ name id, is_Some (F !! (turns ++ [name])) → name ∉ ids → id ∈ ids → before name id.
Record pruned (F F' : fs) : Prop := {
  pr_scene : scene F';
  pr_spot p : spot p → (∀ name, name ∉ ids → p ≠ man name) → file F' p = file F p;
  pr_man name : real_name name →
    (F' !! (turns ++ [name]) = F !! (turns ++ [name]) ∧ file F' (man name) = file F (man name)) ∨
    (name ∉ ids ∧ F' !! (turns ++ [name]) = None);
  pr_kept : kept F F';
}.
Lemma pruned_refl F : scene F → pruned F F.
Proof. intros Hs. split; [done|done|by left|apply kept_refl]. Qed.
Lemma pruned_trans F F1 F2 : pruned F F1 → pruned F1 F2 → pruned F F2.
Proof.
  intros H1 H2. split; [apply H2| | |].
  - intros p Hp Hm. by rewrite (pr_spot _ _ H2), (pr_spot _ _ H1).
  - intros name Hn. destruct (pr_man _ _ H2 name Hn) as [[-> ->]|?]; [|by right]. by apply (pr_man _ _ H1).
  - eapply kept_trans; [apply H1|apply H2].
Qed.
Lemma place_rmtree F q p : place F p → place (rmtree F q) p.
Proof.
  intros [? ? Hc Hf]. split; [done..| |].
  - intros x Hx Hb. rewrite rmtree_lookup. case_decide; [by left|]. by apply Hc.
  - rewrite rmtree_lookup. case_decide; [by left|done].
Qed.
Lemma rmtree_pruned F name : scene F → name ∉ ids → pruned F (rmtree F (turns ++ [name])).
Proof.
  intros Hs Hn. set (q := turns ++ [name]).
  assert (∀ p, ¬ q `prefix_of` p → rmtree F q !! p = F !! p) as Ho by (intros p Hp; by rewrite rmtree_lookup, decide_False).
  assert (∀ n x, q `prefix_of` turns ++ n :: x → n = name) as Hq.
  { intros n x [y E]. unfold q in E. rewrite <-(assoc_L (++)) in E. apply app_inv_head in E. by injection E. }
  assert (∀ p, ¬ turns `prefix_of` p → ¬ q `prefix_of` p) as Ht.
  { intros p Hp Hpre. apply Hp. etrans; [|exact Hpre]. by exists [name]. }
  assert (∀ n, real_name n → rmtree F q !! man n = if decide (n = name) then None else F !! man n) as Hm.
  { intros n _. rewrite rmtree_lookup. destruct (decide (n = name)) as [->|Hne].
    - rewrite decide_True; [done|]. exists [MANIFEST]. unfold q, man. by rewrite <-(assoc_L (++)).
    - rewrite decide_False; [done|]. intros Hp%Hq. done. }
  split; [split| | |].
  - apply rmtree_wf, Hs.
  - split; [apply (way_names _ _ (sc_root _ Hs))|]. intros x Hx Hr. rewrite rmtree_lookup. case_decide; [by left|].
    by apply (way_free _ _ (sc_root _ Hs)).
  - intros p Hp. by apply place_rmtree, (sc_spot _ Hs).
  - intros n. rewrite rmtree_lookup. case_decide; [by intros []|]. apply (sc_name _ Hs).
  - intros n m Hr. unfold file. rewrite Hm by done. case_decide; [done|]. by apply (sc_kind _ Hs).
  - intros p Hp Hmn. unfold file. rewrite Ho; [done|]. destruct Hp as [k Hk|id k Hi Hk|id Hi].
    + apply Ht, (ap_loc AP k Hk).
    + intros ->%Hq. done.
    + intros ->%Hq. by destruct (Hmn name Hn).
  - intros n Hr. destruct (decide (n = name)) as [->|Hne]; [right|left].
    + split; [done|]. by rewrite rmtree_lookup, decide_True.
    + split; [apply Ho; by intros ?%Hq|]. unfold file. by rewrite Hm, decide_False.
  - intros p Hp _. left. by apply Ho, Ht.
Qed.
Lemma prune_folders_spec s names : scene (files s) → (∀ name, name ∈ names → name ∉ ids) →
  ∃ s', prune_folders turns names s = (s', Ok ()) ∧ pruned (files s) (files s') ∧ current s' = current s.
Proof.
  revert s. induction names as [|name names IH]; intros s Hs Hn.
  { exists s. split; [done|]. split; [by apply pruned_refl|done]. }
  cbn [prune_folders]. erewrite bind_ok by done. cbn beta.
  assert (∃ s1, (if has_bases (read_json (files s) (turns ++ [name; MANIFEST])) then drop_checkpoint_refs name else mret ()) s
    = (s1, Ok ()) ∧ files s1 = files s ∧ current s1 = current s) as (s1 & E1 & Ef & Ec).
  { destruct (has_bases _); eexists; (split; [done|]); done. }
  erewrite bind_ok by exact E1. cbn beta. erewrite bind_ok by done. cbn beta.
  set (s2 := {| files := _ |}).
  assert (pruned (files s) (files s2)) as Hp.
  { unfold s2. cbn [files]. rewrite Ef. pose proof (way_walk _ _ (sc_wf _ Hs) (way_turns _ Hs)) as Hw.
    destruct (is_dir (files s) turns) eqn:Hd.
    - rewrite Hw. apply rmtree_pruned; [done|]. apply Hn. by left.
    - destruct Hw as [_ Hw]. destruct (walk (files s) MAXSYMLINKS [] turns) as [[q m]|]; [|by apply pruned_refl].
      rewrite (Hw q m eq_refl). apply rmtree_pruned; [done|]. apply Hn. by left. }
  destruct (IH s2) as (s' & -> & Hp' & Hc'); [apply Hp|intros; apply Hn; by right|].
  exists s'. split; [done|]. split; [by eapply pruned_trans|]. rewrite Hc'. done.
Qed.
Lemma take_old (l : list string) x n : NoDup l → StronglySorted String.leb l → length ids ≤ n →
  (∀ a b, a ∈ l → a ∉ ids → b ∈ ids → before a b) → x ∈ take (length l - n) l → x ∉ ids.
Proof.
  intros Hd Hso Hlen Hnew Hx Hid.
  rewrite <-(take_drop (length l - n) l) in Hd, Hso. apply NoDup_app in Hd as (_ & Hd1 & Hd2).
  assert (n = length (drop (length l - n) l)) as Hn.
  { rewrite length_drop. assert (0 < length (take (length l - n) l)) as Hpos.
    { destruct (take (length l - n) l); [by apply elem_of_nil in Hx|cbn; lia]. }
    rewrite length_take in Hpos. lia. }
  assert (x :: drop (length l - n) l ⊆+ ids) as Hsub.
  { apply NoDup_submseteq; [apply NoDup_cons; split; [by apply Hd1|done]|].
    intros y [->|Hy]%elem_of_cons; [done|]. destruct (decide (y ∈ ids)) as [?|Hny]; [done|]. exfalso.
    pose proof (StronglySorted_app_1_elem_of _ _ _ x y Hso Hx Hy) as Hle.
    destruct (Hnew y x) as [Hle' Hne]; [rewrite <-(take_drop (length l - n) l); set_solver|done..|].
    apply Hne. apply str_leb_antisym; [done|by apply Is_true_true]. }
  apply submseteq_length in Hsub. cbn in Hsub. lia.
Qed.
Lemma prune_spec s : scene (files s) → ids_newer (files s) →
  ∃ s', prune state_dir r s = (s', Ok ()) ∧ pruned (files s) (files s') ∧ current s' = current s.
Proof.
  intros Hs Hnew. unfold prune. erewrite bind_ok by done. cbn beta zeta. rewrite (turns_dir_root _ Hs).
  destruct (negb _); [exists s; split; [done|]; split; [by apply pruned_refl|done]|].
  apply prune_folders_spec; [done|]. intros name Hname. destruct (folders_spec _ Hs) as (Hd & Hso & Hin).
  eapply take_old; [exact Hd|exact Hso|apply (ap_few AP)| |exact Hname].
  intros a b Ha Hna Hb. apply (Hnew a b); [|done..]. apply Hin in Ha. eauto.
Qed.

(** ** The end of a turn *)

(** The folder of a turn: what it saved are the files as they [was], and the
    manifest has the digests of the files as the turn [lft] them. *)
Record fields (m : list (string * json)) (kind : string) (sv cr : list string) (lft : string → option string) : Prop := {
  fd_good : json_good (JObj m);
  fd_kind : Dict.get m "kind" = Some (JStr kind);
  fd_root : Dict.get m "root" = Some (JStr (path_str r));
  fd_saved : Dict.get m "saved" = Some (strings sv);
  fd_created : Dict.get m "created" = Some (strings cr);
  fd_done : is_done m = false;
  fd_after key : key ∈ sv ++ cr → get_or (after_of m) key JNull = digest_json (lft key);
}.
Record turn_record (F : fs) (id kind : string) (sv cr : list string) (was lft : string → option string) : Prop := {
  tr_id : id ∈ ids;
  tr_dir : F !! (turns ++ [id]) = Some Dir;
  tr_man : ∃ m, parsed (file F (man id)) = Some m ∧ fields m kind sv cr lft;
  tr_nodup : NoDup (sv ++ cr);
  tr_keys key : key ∈ sv ++ cr → key ∈ keys;
  tr_saved key : key ∈ sv → is_Some (was key) ∧ file F (copy id key) = was key;
  tr_created key : key ∈ cr → was key = None;
}.
(** The disk after a turn of [id] that started at [F0] and left its files as
    in [F]. *)
Record ended (F0 F F' : fs) (id : string) : Prop := {
  en_scene : scene F';
  en_newer : ids_newer F';
  en_kept : kept F0 F';
  en_loc key : key ∈ keys → file F' (loc key) = file F (loc key);
  en_folders name : is_Some (F' !! (turns ++ [name])) → name = id ∨ is_Some (F0 !! (turns ++ [name]));
  en_dir id' : id' ∈ ids → id' ≠ id → F' !! (turns ++ [id']) = F0 !! (turns ++ [id']);
  en_man id' : id' ∈ ids → id' ≠ id → file F' (man id') = file F0 (man id');
  en_copy id' key : id' ∈ ids → id' ≠ id → key ∈ keys → file F' (copy id' key) = file F0 (copy id' key);
}.

Lemma get_after F l key : key ∈ l → Dict.get (after_entry F <$> l) key = Some (digest_json (digest_of F key)).
Proof.
  induction l as [|k l IH]; [by intros ?%elem_of_nil|]. cbn. intros Hk.
  destruct (decide (key = k)) as [->|Hne]; [done|]. apply IH. set_solver.
Qed.
Lemma as_left_digest m key d d' : get_or (after_of m) key JNull = digest_json d' → as_left m key d = bool_decide (d = d').
Proof.
  unfold as_left. intros ->. destruct d as [h|], d' as [h'|]; cbn; try done.
  destruct (String.eqb_spec h' h); symmetry; [apply bool_decide_eq_true|apply bool_decide_eq_false]; congruence.
Qed.
Lemma journaled_fields F0 b F : journaled F0 b F → utf8_turn b →
  fields (manifest_fields F b) (tb_kind b) (saved b) (created b) (digest_of F).
Proof.
  intros J Hu. split; try done; [by eapply manifest_good|]. intros key Hk.
  unfold get_or. change (after_of _) with (after_entry F <$> (saved b ++ created b)). by rewrite get_after.
Qed.
Lemma end_turn_spec F0 b s : journaled F0 b (files s) → changed b = true → utf8_turn b → ids_newer F0 →
  ∃ s', end_turn state_dir b s = (s', Ok ()) ∧ current s' = None ∧
    ended F0 (files s) (files s') (turn_id b) ∧
    turn_record (files s') (turn_id b) (tb_kind b) (saved b) (created b) (λ key, file F0 (loc key)) (digest_of (files s)).
Proof.
  intros J Hc Hu Hnew. set (id := turn_id b). pose proof (jr_id _ _ _ J) as Hid.
  destruct (ap_id AP _ Hid) as [Hreal _]. pose proof (jr_scene _ _ _ J) as Hs.
  unfold end_turn. erewrite bind_ok by done. cbn beta. rewrite Hc.
  destruct (finish_spec F0 b (bind_backup None s) J Hc Hu) as (F1 & E1 & Hup). cbn [files bind_backup] in Hup.
  erewrite bind_ok by exact E1. cbn beta. rewrite (jr_root _ _ _ J). fold id in Hup, Hid, Hreal.
  pose proof (journaled_fields F0 b _ J Hu) as Hfd.
  pose proof (parsed_text _ (fd_good _ _ _ _ _ Hfd)) as Hpt.
  destruct (scene_updated _ _ _ _ Hs (spot_man id Hreal) Hup) as (Hs1 & Ho1 & Hk1).
  { intros _ _ m Hm. rewrite Hpt in Hm. by injection Hm as <-. }
  assert (∀ name, F1 !! (turns ++ [name]) = files s !! (turns ++ [name]) ∨ name = id) as Hdirs.
  { intros name. destruct (updated_rest _ _ _ _ Hup (turns ++ [name])) as [?|(_ & _ & (a & l & E) & _)].
    - intros E%app_inv_head. done.
    - by left.
    - right. unfold man in E. rewrite <-(assoc_L (++)) in E. apply app_inv_head in E. by injection E. }
  assert (F1 !! (turns ++ [id]) = Some Dir) as Hdir.
  { assert (is_dir F1 (turns ++ [id]) = true) as Hd.
    { apply (sc_wf _ Hs1 _ MANIFEST). rewrite <-(assoc_L (++)). destruct (updated_here _ _ _ _ Hup) as [n E]. eauto. }
    by apply is_dir_snoc in Hd. }
  assert (ids_newer F1) as Hnew1.
  { intros name id' Hn Hnot Hin. apply (Hnew name id'); [|done..].
    assert (name ≠ id) as Hne by (intros ->; by apply Hnot). destruct (Hdirs name) as [E|?]; [|done].
    rewrite E in Hn. by rewrite (jr_folders _ _ _ J) in Hn. }
  destruct (prune_spec (on_files F1 (bind_backup None s)) Hs1 Hnew1) as (s2 & E2 & Hpr & Hc2).
  cbn [files on_files] in Hpr. erewrite bind_ok by exact E2. cbn beta.
  assert (∃ s', (if bool_decide (saved b ≠ []) then announce (describe b) else mret ()) s2 = (s', Ok ()) ∧
    files s' = files s2 ∧ current s' = current s2) as (s' & E' & Ef & Ec).
  { case_bool_decide; eexists; (split; [done|]); done. }
  exists s'. split; [done|]. rewrite Ec, Ef, Hc2. split; [done|].
  assert (∀ key, key ∈ keys → file (files s2) (loc key) = file (files s) (loc key)) as Hloc.
  { intros key Hk. rewrite (pr_spot _ _ Hpr); [|by constructor|intros; by apply loc_neq_man].
    apply Ho1; [by constructor|by apply loc_neq_man]. }
  assert (∀ id' key, id' ∈ ids → key ∈ keys → file (files s2) (copy id' key) = file (files s) (copy id' key)) as Hcopy.
  { intros id' key Hi Hk. rewrite (pr_spot _ _ Hpr); [|by constructor|intros; by apply copy_neq_man].
    apply Ho1; [by constructor|by apply copy_neq_man]. }
  assert (∀ name, name ∈ ids → files s2 !! (turns ++ [name]) = F1 !! (turns ++ [name]) ∧
    file (files s2) (man name) = file F1 (man name)) as Hman.
  { intros name Hn. destruct (pr_man _ _ Hpr name) as [?|[? _]]; [by apply (ap_id AP)|done..]. }
  split.
  - split; [apply Hpr| | |done| | | |].
    + intros name id' Hn. apply Hnew1. destruct (pr_man _ _ Hpr name) as [[<- _]|[_ E]]; [|done|].
      * by apply (sc_name _ (pr_scene _ _ Hpr)).
      * rewrite E in Hn. by destruct Hn.
    + eapply kept_trans; [apply J|]. eapply kept_trans; [exact Hk1|apply Hpr].
    + intros name Hn. destruct (decide (name = id)) as [->|Hne]; [by left|right].
      destruct (Hdirs name) as [E|?]; [|done]. rewrite <-(jr_folders _ _ _ J), <-E by done.
      destruct (pr_man _ _ Hpr name) as [[<- _]|[_ En]]; [by apply (sc_name _ (pr_scene _ _ Hpr))|done|].
      rewrite En in Hn. by destruct Hn.
    + intros id' Hi Hne. rewrite (proj1 (Hman id' Hi)). destruct (Hdirs id') as [->|?]; [|done]. by apply (jr_folders _ _ _ J).
    + intros id' Hi Hne. rewrite (proj2 (Hman id' Hi)), Ho1; [| |by intros ?%man_inj].
      * apply (jr_man _ _ _ J). by apply (ap_id AP).
      * constructor. by apply (ap_id AP).
    + intros id' key Hi Hne Hk. rewrite Hcopy by done. by apply (jr_copy _ _ _ J).
  - split; [done| | |apply J|apply J| |apply J].
    + by rewrite (proj1 (Hman id Hid)).
    + exists (manifest_fields (files s) b). rewrite (proj2 (Hman id Hid)), (updated_file _ _ _ _ Hup). done.
    + intros key Hk. destruct (jr_saved _ _ _ J key Hk) as [? E]. split; [done|]. rewrite <-E. apply Hcopy; [done|].
      apply (jr_keys _ _ _ J). set_solver.
Qed.

(** ** Reversing a turn *)
Lemma names_strings l : _names (strings l) = l.
Proof. unfold strings, _names. induction l as [|x l IH]; [done|]. cbn. by f_equal. Qed.
Lemma not_paths_strings l : not_paths (strings l) = [].
Proof. unfold strings, not_paths. by induction l. Qed.
Lemma not_refused F id key sv : scene F → id ∈ ids → key ∈ keys → why_refused F r (turns ++ [id]) sv key = None.
Proof.
  intros Hs Hi Hk. unfold why_refused. rewrite check_entry_ok; [|by apply (ap_ok AP)|apply Hs|apply (sc_spot _ Hs); by constructor].
  case_bool_decide; [|done]. apply check_entry_ok; [by apply (ap_ok AP)|apply way_folder; [done|by apply (ap_id AP)]|].
  rewrite <-(assoc_L (++)). apply (sc_spot _ Hs). by constructor.
Qed.

Section reversed.
Context (F0 : fs) (id kind : string) (sv cr : list string) (was lft : string → option string).
Context (m : list (string * json)) (force : bool).
Context (TR : turn_record F0 id kind sv cr was lft) (FD : fields m kind sv cr lft).
(** The file changed after the turn, and the undo is not forced. *)
Definition stale (key : string) : Prop := force = false ∧ digest_of F0 key ≠ lft key.
#[local] Instance stale_dec key : Decision (stale key).
Proof. unfold stale. apply _. Defined.

Lemma manifest_saved : entries m "saved" = sv.
Proof. unfold entries, get_or. rewrite (fd_saved _ _ _ _ _ FD). apply names_strings. Qed.
Lemma manifest_created : entries m "created" = cr.
Proof. unfold entries, get_or. rewrite (fd_created _ _ _ _ _ FD). apply names_strings. Qed.

Lemma not_stale key : negb (bool_decide (stale key)) = force || bool_decide (digest_of F0 key = lft key).
Proof.
  case_bool_decide as H1; case_bool_decide as H2; unfold stale in H1; destruct force; cbn; try done;
    exfalso; naive_solver.
Qed.
(** The keys [done] are as they were, and the undo's own journal has them. *)
Record reversing (b0 : TurnBackup) (done_ : list string) (s : undo_world) (st : TurnBackup * UndoResult) : Prop := {
  rv_current : current s = Some st.1;
  rv_journal : journaled F0 st.1 (files s);
  rv_same : same_turn b0 st.1;
  rv_keys k : k ∈ saved st.1 ++ created st.1 ↔ k ∈ done_ ∧ ¬ stale k;
  rv_was k : k ∈ done_ → ¬ stale k → file (files s) (loc k) = was k;
  rv_clean : left_alone st.2 = filter stale done_ ∧ refused st.2 = [];
  rv_restored : restored st.2 = filter (λ k, k ∈ sv ∧ ¬ stale k) done_;
}.
Lemma same_turn_trans b b1 b2 : same_turn b b1 → same_turn b1 b2 → same_turn b b2.
Proof. unfold same_turn. intros (?&?&?&?) (?&?&?&?). split_and!; congruence. Qed.
Lemma loc_other F key d F' k : updated F (loc key) d F' → k ≠ key → file F' (loc k) = file F (loc k).
Proof. intros Hu Hne. apply (updated_other _ _ _ _ _ Hu). by intros ?%loc_inj. Qed.

Lemma reverse_entry_spec b0 done_ s st key : turn_id b0 ≠ id → reversing b0 done_ s st → key ∈ sv ++ cr → key ∉ done_ →
  ∃ s' st', reverse_entry state_dir r (turns ++ [id]) m force st key s = (s', Ok st') ∧
            reversing b0 (done_ ++ [key]) s' st'.
Proof.
  intros Hid0 V Hkey Hnd. destruct st as [b res]. pose proof (rv_journal _ _ _ _ V) as J. cbn [fst snd] in J.
  pose proof (tr_keys _ _ _ _ _ _ _ TR key Hkey) as Hk. pose proof (jr_scene _ _ _ J) as Hs.
  pose proof (tr_id _ _ _ _ _ _ _ TR) as Hid. pose proof (sc_wf _ Hs) as Hwf.
  pose proof (sc_spot _ Hs _ (spot_loc key Hk)) as Hp.
  assert (key ∉ saved b ++ created b) as Hnb by (rewrite (rv_keys _ _ _ _ V); tauto).
  assert (file (files s) (loc key) = file F0 (loc key)) as Hsame by by apply (jr_other _ _ _ J).
  unfold reverse_entry. erewrite bind_ok by done. cbn beta. rewrite not_refused by done.
  rewrite (key_join r key) by by apply (ap_ok AP). fold (loc key).
  assert ((if force then mret true
     else d ← lift_result (_sha256 (files s) (loc key)); mret (as_left m key d)) s
     = (s, Ok (negb (bool_decide (stale key))))) as E1.
  { rewrite not_stale. destruct force; [done|]. erewrite bind_ok.
    2: { unfold lift_result. unfold loc at 1. rewrite <-(key_join r key) by by apply (ap_ok AP).
         rewrite sha256_loc by done. done. }
    cbn beta. assert (digest_of (files s) key = digest_of F0 key) as -> by (unfold digest_of; by rewrite Hsame).
    rewrite (as_left_digest _ _ _ _ (fd_after _ _ _ _ _ FD key Hkey)).
    done. }
  erewrite bind_ok by exact E1. cbn beta. rewrite negb_involutive. case_bool_decide as Hst.
  { eexists _, _. split; [done|]. split; cbn [fst snd]; try apply V.
    - intros k. rewrite (rv_keys _ _ _ _ V). set_solver.
    - intros k Hk' Hns. apply (rv_was _ _ _ _ V); [set_solver|done].
    - destruct (rv_clean _ _ _ _ V) as [E2 E3]. cbn [snd] in E2, E3. split; [|done].
      cbn [add_left left_alone]. by rewrite E2, filter_app, filter_cons_True, filter_nil.
    - pose proof (rv_restored _ _ _ _ V) as E2. cbn [snd] in E2. cbn [add_left restored].
      rewrite E2, filter_app, filter_cons_False, filter_nil, app_nil_r; [done|tauto]. }
  cbn [negb save].
  destruct (save_path_spec F0 b s key J (rv_current _ _ _ _ V) Hk) as (s1 & b1 & E2 & Sv).
  assert ((b' ← save_path state_dir b (loc key); mret b') s = (s1, Ok b1)) as E3 by by (erewrite bind_ok by exact E2).
  erewrite bind_ok by exact E3. cbn beta. rewrite manifest_saved.
  pose proof (sv_journal _ _ _ _ _ _ Sv) as J1. pose proof (jr_scene _ _ _ J1) as Hs1. pose proof (sc_wf _ Hs1) as Hwf1.
  pose proof (sc_spot _ Hs1 _ (spot_loc key Hk)) as Hp1.
  assert (turn_id b1 ≠ id) as Hne.
  { destruct (same_turn_trans _ _ _ (rv_same _ _ _ _ V) (sv_same _ _ _ _ _ _ Sv)) as [-> _]. done. }
  assert (key ∈ saved b1 ++ created b1) as Hin by (apply (sv_keys _ _ _ _ _ _ Sv); by left).
  assert (∀ d F' res', was key = d → updated (files s1) (loc key) d F' →
    restored res' = restored res ++ (if decide (key ∈ sv) then [key] else []) →
    left_alone res' = left_alone res → refused res' = refused res →
    reversing b0 (done_ ++ [key]) (on_files F' s1) (b1, res')) as Hgo.
  { intros d F' res' Hd Hu Hr Hl Hf. split; cbn [fst snd files current on_files].
    - apply Sv.
    - by eapply journaled_update.
    - eapply same_turn_trans; [apply V|apply Sv].
    - intros k. rewrite (sv_keys _ _ _ _ _ _ Sv), (rv_keys _ _ _ _ V). set_solver.
    - intros k Hkd Hns. destruct (decide (k = key)) as [->|Hnk]; [by rewrite (updated_file _ _ _ _ Hu)|].
      assert (k ∈ done_) as Hkd' by set_solver. rewrite (loc_other _ _ _ _ _ Hu Hnk), (sv_files _ _ _ _ _ _ Sv).
      + by apply (rv_was _ _ _ _ V).
      + apply (jr_keys _ _ _ J). by apply (rv_keys _ _ _ _ V).
    - destruct (rv_clean _ _ _ _ V) as [Ec Ef]. cbn [snd] in Ec, Ef. rewrite Hl, Hf. split; [|done].
      rewrite Ec, filter_app, filter_cons_False, filter_nil, app_nil_r; done.
    - pose proof (rv_restored _ _ _ _ V) as Hrs. cbn [snd] in Hrs. rewrite Hr, filter_app, Hrs, filter_cons, filter_nil.
      f_equal. do 2 case_decide; tauto. }
  destruct (decide (key ∈ sv)) as [Hsv|Hsv].
  - rewrite bool_decide_true by done. destruct (tr_saved _ _ _ _ _ _ _ TR key Hsv) as [[d Hd] Hcp].
    rewrite <-(jr_copy _ _ _ J1 id key Hid (not_eq_sym Hne) Hk) in Hcp. rewrite Hd in Hcp.
    rewrite (key_join _ key) by by apply (ap_ok AP). rewrite <-(assoc_L (++)). cbn [app]. fold (copy id key).
    pose proof (sc_spot _ Hs1 _ (spot_copy id key Hid Hk)) as Hpc.
    destruct (copy_place s1 (copy id key) (loc key) d) as (s2 & F' & E4 & E5 & Hu); try done.
    { by apply spots_apart; constructor. }
    { by apply not_eq_sym, loc_neq_copy. }
    erewrite bind_ok by exact E4. cbn beta. erewrite bind_ok by exact E5. cbn beta.
    eexists _, _. split; [done|]. by eapply (Hgo (Some d)).
  - rewrite bool_decide_false by done. assert (key ∈ cr) as Hcr by set_solver.
    pose proof (tr_created _ _ _ _ _ _ _ TR key Hcr) as Hd.
    erewrite bind_ok by done. cbn beta. rewrite (place_exists _ _ Hwf1 Hp1).
    case_bool_decide as Hf.
    + destruct (unlink_place _ _ Hwf1 Hp1 Hf) as (F' & E4 & Hu). rewrite E4.
      erewrite bind_ok by done. cbn beta. erewrite bind_ok by done. cbn beta.
      eexists _, _. split; [done|]. eapply (Hgo None); [done|exact Hu| |done..]. by rewrite app_nil_r.
    + apply eq_None_not_Some in Hf. eexists _, _. split; [done|].
      assert (on_files (files s1) s1 = s1) as <- by by destruct s1.
      eapply (Hgo None); [done| |by rewrite app_nil_r|done..]. split; [done| |by left].
      unfold file in Hf. destruct (place_free _ _ Hp1) as [?|(x & n & E)]; [done|]. by rewrite E in Hf.
Qed.
Lemma reverse_entries_spec b0 done_ s st l : turn_id b0 ≠ id → reversing b0 done_ s st → done_ ++ l = sv ++ cr →
  ∃ s' st', reverse_entries state_dir r (turns ++ [id]) m force st l s = (s', Ok st') ∧
            reversing b0 (sv ++ cr) s' st'.
Proof.
  intros Hid0. revert done_ s st. induction l as [|key l IH]; intros done_ s st V E.
  { rewrite app_nil_r in E. subst. eauto. }
  cbn [reverse_entries].
  destruct (reverse_entry_spec b0 done_ s st key Hid0 V) as (s1 & st1 & E1 & V1).
  - rewrite <-E. set_solver.
  - pose proof (tr_nodup _ _ _ _ _ _ _ TR) as Hd. rewrite <-E in Hd. apply NoDup_app in Hd as (_ & Hd & _).
    intros Hin. apply (Hd key Hin). by left.
  - erewrite bind_ok by exact E1. cbn beta. apply (IH (done_ ++ [key]) s1 st1 V1). by rewrite <-(assoc_L (++)).
Qed.
End reversed.

(** ** Finding the turn to reverse *)
Lemma read_json_man F name : scene F → real_name name →
  match read_json F (man name) with Some (JObj m) => Some m | _ => None end = parsed (file F (man name)).
Proof.
  intros Hs Hn. unfold read_json, parsed. rewrite (place_read F _ (sc_wf _ Hs) (sc_spot _ Hs _ (spot_man name Hn))).
  destruct (file F (man name)) as [d|]; [|done]. destruct (utf8_valid d); [|done]. destruct (json_loads d) as [[]|]; done.
Qed.
Lemma manifests_last F id m l : scene F → folders F = l ++ [id] → id ∈ ids → parsed (file F (man id)) = Some m →
  Dict.get m "root" = Some (JStr (path_str r)) →
  ∃ X, _manifests state_dir F r = X ++ [(id, m)] ∧ Forall (λ x, hashable x.2) X.
Proof.
  intros Hs El Hid Hm Hr. destruct (folders_spec F Hs) as (_ & _ & Hin).
  assert (F !! (turns ++ [id]) = Some Dir) as Hdir by (apply Hin; rewrite El; set_solver).
  unfold _manifests. rewrite (turns_dir_root _ Hs), (repository_key_root _ Hs).
  assert (is_folder F turns = true) as ->.
  { pose proof (sc_wf _ Hs turns id ltac:(eauto)) as Hd. pose proof (way_walk _ _ (sc_wf _ Hs) (way_turns F Hs)) as Hw.
    rewrite Hd in Hw. unfold is_folder, stat. rewrite Hw. apply node_at_dir in Hd. by rewrite Hd. }
  cbn [negb]. rewrite El, omap_app. cbn [omap list_omap].
  pose proof (read_json_man F id Hs ltac:(by apply (ap_id AP))) as Hj. rewrite Hm in Hj. fold (man id).
  destruct (read_json F (man id)) as [[]|]; try done. injection Hj as ->.
  assert (is_text (get_or m "root" JNull) (path_str r) = true) as -> by (unfold get_or; rewrite Hr; apply String.eqb_refl).
  eexists. split; [done|]. apply Forall_forall. intros [name m'] (n & Hn & E)%list_elem_of_omap.
  assert (real_name n) as Hrn.
  { apply (sc_name _ Hs). exists Dir. apply Hin. rewrite El. set_solver. }
  pose proof (read_json_man F n Hs Hrn) as Hj. fold (man n) in E.
  destruct (read_json F (man n)) as [[]|]; try done. destruct (is_text _ _); [|done]. injection E as <- <-.
  cbn. apply (sc_kind _ Hs n _ Hrn). by rewrite <-Hj.
Qed.
Lemma pending_last kinds X id m kind : Forall (λ x, hashable x.2) X → Dict.get m "kind" = Some (JStr kind) →
  kind ∈ kinds → is_done m = false → ∃ Y, pending kinds (X ++ [(id, m)]) = Ok (Y ++ [(id, m)]).
Proof.
  intros HX Hk Hin Hd. induction HX as [|x X Hx _ IH]; cbn [pending app].
  - unfold kind_in. cbn [snd]. rewrite Hk, bool_decide_true by done. cbn. rewrite Hd. by exists [].
  - assert (∃ b, kind_in kinds x.2 = Ok b) as [b ->].
    { unfold kind_in, hashable in *. destruct (Dict.get x.2 "kind") as [[]|]; eauto; done. }
    destruct IH as [Y ->]. cbn. destruct (b && negb (is_done x.2)); [by exists (x :: Y)|by exists Y].
Qed.

Lemma journaled_start F b : scene F → tb_root b = r → turn_id b ∈ ids → saved b = [] → created b = [] → journaled F b F.
Proof.
  intros Hs Hr Hi E1 E2. split; try done; rewrite ?E1, ?E2; try (intros ? H; by apply elem_of_nil in H); [apply kept_refl|constructor].
Qed.

(** What a reversal leaves: each file of the turn as it was, or as it is now
    when it changed since. *)
Section reversal.
Context (F0 : fs) (sv cr : list string) (was lft : string → option string) (force : bool).
Notation stale := (stale F0 lft force).
#[local] Existing Instance stale_dec.
Record reversal (F' : fs) (id2 kind2 : string) (res : UndoResult) : Prop := {
  rs_scene : scene F';
  rs_newer : ids_newer F';
  rs_kept : kept F0 F';
  rs_was key : key ∈ sv ++ cr → ¬ stale key → file F' (loc key) = was key;
  rs_other key : key ∈ keys → key ∉ sv ++ cr ∨ stale key → file F' (loc key) = file F0 (loc key);
  rs_folders name : is_Some (F' !! (turns ++ [name])) → name = id2 ∨ is_Some (F0 !! (turns ++ [name]));
  rs_record : sv ++ cr ≠ [] → (∀ key, key ∈ sv ++ cr → ¬ stale key) →
    ∃ sv' cr', turn_record F' id2 kind2 sv' cr' (λ key, file F0 (loc key)) (digest_of F') ∧
               ∀ key, key ∈ sv' ++ cr' ↔ key ∈ sv ++ cr;
  rs_restored : restored res = filter (λ key, key ∈ sv ∧ ¬ stale key) (sv ++ cr);
  rs_left : left_alone res = filter stale (sv ++ cr);
  rs_refused : refused res = [];
}.
End reversal.
Lemma set_done_good m : json_good (JObj m) → json_good (JObj (Dict.set m "done" (JBool true))).
Proof.
  intros Hg. inversion Hg as [| | | | | |kvs Hd Hu Hv]; subst.
  constructor; [by apply Dict.NoDup_keys_set| |]; apply Forall_forall; intros kv [->|Hk]%Dict.elem_of_set; try done;
    [by eapply Forall_forall in Hu|constructor|by eapply Forall_forall in Hv].
Qed.
Lemma done_hashable m : hashable m → hashable (Dict.set m "done" (JBool true)).
Proof. unfold hashable. by rewrite Dict.get_set_ne. Qed.

Lemma end_turn_any F0 b s : journaled F0 b (files s) → utf8_turn b → ids_newer F0 →
  ∃ s', end_turn state_dir b s = (s', Ok ()) ∧ current s' = None ∧
    ended F0 (files s) (files s') (turn_id b) ∧
    (saved b ++ created b ≠ [] →
     turn_record (files s') (turn_id b) (tb_kind b) (saved b) (created b) (λ key, file F0 (loc key)) (digest_of (files s))).
Proof.
  intros J Hu Hnew. destruct (changed b) eqn:Hc.
  - destruct (end_turn_spec F0 b s J Hc Hu Hnew) as (s' & ? & ? & ? & ?). exists s'. by split_and!.
  - unfold end_turn. erewrite bind_ok by done. cbn beta. rewrite Hc. eexists. split; [done|]. split; [done|].
    apply bool_decide_eq_false in Hc. split.
    + split; cbn [files bind_backup]; try apply J; try done.
      * intros name id Hn Hnot Hin. apply (Hnew name id); [|done..]. rewrite (jr_folders _ _ _ J) in Hn; [done|].
        intros ->. by apply Hnot, (jr_id _ _ _ J).
      * intros name Hn. destruct (decide (name = turn_id b)) as [->|Hne]; [by left|right].
        by rewrite <-(jr_folders _ _ _ J).
      * intros id' _ Hne. by apply (jr_folders _ _ _ J).
      * intros id' Hi _. apply (jr_man _ _ _ J). by apply (ap_id AP).
    + intros Hne. destruct (saved b) eqn:E1, (created b) eqn:E2; try done; destruct Hc; [by right|by left..].
Qed.
Lemma turn_record_updated F id kind sv cr was lft id' d F' : scene F → turn_record F id kind sv cr was lft → id' ≠ id →
  id' ∈ ids → updated F (man id') d F' → turn_record F' id kind sv cr was lft.
Proof.
  intros Hs TR Hne Hi Hu. pose proof (tr_id _ _ _ _ _ _ _ TR) as Hid.
  assert (∀ p, p ≠ man id' → file F' p = file F p) as Ho by (intros; by apply (updated_other _ _ _ _ _ Hu)).
  split; try apply TR.
  - rewrite <-(tr_dir _ _ _ _ _ _ _ TR). destruct (updated_rest _ _ _ _ Hu (turns ++ [id])) as [?|(_ & _ & (a & l & E) & _)].
    + intros E%app_inv_head. done.
    + done.
    + unfold man in E. rewrite <-(assoc_L (++)) in E. apply app_inv_head in E. injection E as E _. by destruct Hne.
  - destruct (tr_man _ _ _ _ _ _ _ TR) as (m & Hm & Hf). exists m. rewrite Ho; [done|by intros ?%man_inj].
  - intros key Hk. destruct (tr_saved _ _ _ _ _ _ _ TR key Hk) as [? E]. split; [done|]. rewrite <-E.
    apply Ho, copy_neq_man, (tr_keys _ _ _ _ _ _ _ TR). set_solver.
Qed.
(** The manifest of the reversed turn is marked as done. *)
Lemma mark_done s id kind sv cr m lft : scene (files s) → fields m kind sv cr lft → id ∈ ids →
  files s !! (turns ++ [id]) = Some Dir →
  ∃ F', write_text (man id) (manifest_text (JObj (Dict.set m "done" (JBool true)))) s = (on_files F' s, Ok ()) ∧
        scene F' ∧ kept (files s) F' ∧ (∃ d, updated (files s) (man id) d F') ∧
        ∀ name, F' !! (turns ++ [name]) = files s !! (turns ++ [name]).
Proof.
  intros Hs FD Hi Hd. destruct (ap_id AP _ Hi) as [Hr _]. pose proof (spot_man id Hr) as Hsp.
  set (text := manifest_text _).
  assert (parsed (Some text) = Some (Dict.set m "done" (JBool true))) as Hpt by apply parsed_text, set_done_good, FD.
  destruct (write_text_place s (man id) text (sc_wf _ Hs) (sc_spot _ Hs _ Hsp)) as (F' & -> & Hu).
  { rewrite man_parent. by apply is_dir_snoc. }
  exists F'. split; [done|]. destruct (scene_updated _ _ _ _ Hs Hsp Hu) as (Hs' & _ & Hk).
  { intros _ _ m'. rewrite Hpt. intros [= <-]. apply done_hashable. unfold hashable. by rewrite (fd_kind _ _ _ _ _ FD). }
  split_and!; [done..|eauto|]. intros name.
  destruct (updated_rest _ _ _ _ Hu (turns ++ [name])) as [?|(E & _ & (a & x & Ex) & _)]; [|done|].
  - intros E%app_inv_head. done.
  - unfold man in Ex. rewrite <-(assoc_L (++)) in Ex. apply app_inv_head in Ex. injection Ex as -> _. congruence.
Qed.
Lemma reverse_spec s id kind sv cr was lft kinds id2 kind2 force :
  scene (files s) → current s = None → ids_newer (files s) → newest (files s) id →
  turn_record (files s) id kind sv cr was lft → kind ∈ kinds →
  id2 ∈ ids → id2 ≠ id → utf8_valid kind2 = true →
  ∃ s' res, _reverse state_dir id2 r kinds kind2 force s = (s', Ok res) ∧ current s' = None ∧
            reversal (files s) sv cr was lft force (files s') id2 kind2 res.
Proof.
  intros Hs Hc Hnew Htop TR Hkind Hid2 Hneq Hutf. set (F0 := files s) in *.
  pose proof (tr_id _ _ _ _ _ _ _ TR) as Hid.
  destruct (tr_man _ _ _ _ _ _ _ TR) as (m & Hm & FD). destruct (newest_last F0 id Hs Htop) as [l El].
  destruct (manifests_last F0 id m l Hs El Hid Hm (fd_root _ _ _ _ _ FD)) as (X & EX & HX).
  destruct (pending_last kinds X id m kind HX (fd_kind _ _ _ _ _ FD) Hkind (fd_done _ _ _ _ _ FD)) as [Y EY].
  unfold _reverse. erewrite bind_ok by done. cbn beta zeta. change (files s) with F0.
  rewrite (real_root F0 Hs), EX, EY. erewrite bind_ok by done. cbn beta. rewrite last_snoc.
  rewrite (turns_dir_root F0 Hs), (manifest_saved _ _ _ _ _ _ _ _ TR FD), (manifest_created _ _ _ _ _ _ _ _ TR FD).
  unfold get_or. rewrite (fd_saved _ _ _ _ _ FD), (fd_created _ _ _ _ _ FD).
  change (default JNull (Some (strings sv))) with (strings sv). change (default JNull (Some (strings cr))) with (strings cr).
  rewrite !not_paths_strings. cbn [app].
  set (b0 := new_backup F0 r id2 kind2 ""). set (start := {| restored := [] |}).
  assert (reversing F0 id kind sv cr was lft m force TR FD b0 [] (bind_backup (Some b0) s) (b0, start)) as V0.
  { split; cbn [fst snd files bind_backup current]; try done.
    - apply journaled_start; [done|by apply real_root|done..].
    - intros k. split; [intros Hk|intros [Hk _]]; by apply elem_of_nil in Hk.
    - intros k Hk. by apply elem_of_nil in Hk. }
  destruct (reverse_entries_spec F0 id kind sv cr was lft m force TR FD b0 [] (bind_backup (Some b0) s) (b0, start) (sv ++ cr))
    as (s1 & [b1 res] & E1 & V); [done|exact V0|done|].
  pose proof (rv_journal _ _ _ _ _ _ _ _ _ _ _ _ _ _ _ V) as J. cbn [fst] in J.
  destruct (rv_same _ _ _ _ _ _ _ _ _ _ _ _ _ _ _ V) as (Ei & Ek & Er & Eb). cbn in Ei, Ek, Er, Eb.
  destruct (end_turn_any F0 b1 s1 J) as (s2 & E2 & Hc2 & En & TR2); [|done|].
  { split_and!; [by rewrite Ek|by rewrite Er|by rewrite Eb]. }
  rewrite Ei, Ek in *.
  assert (turn state_dir r id2 kind2 "" (λ b, st ← reverse_entries state_dir r (turns ++ [id]) m force (b, start) (sv ++ cr); mret st.2) s
    = (s2, Ok res)) as E3.
  { unfold turn. rewrite Hc. change (files s) with F0. fold b0.
    erewrite bind_ok by exact E1. cbn beta. unfold mret, action_ret.
    rewrite (rv_current _ _ _ _ _ _ _ _ _ _ _ _ _ _ _ V). cbn [fst]. change (default b0 (Some b1)) with b1. by rewrite E2. }
  erewrite bind_ok by exact E3. cbn beta.
  destruct (rv_clean _ _ _ _ _ _ _ _ _ _ _ _ _ _ _ V) as [Hl Hr]. pose proof (rv_restored _ _ _ _ _ _ _ _ _ _ _ _ _ _ _ V) as Hrs.
  cbn [snd] in Hl, Hr, Hrs.
  assert (∀ F', scene F' → ids_newer F' → kept F0 F' → (∀ k, k ∈ keys → file F' (loc k) = file (files s1) (loc k)) →
    (∀ name, is_Some (F' !! (turns ++ [name])) → name = id2 ∨ is_Some (F0 !! (turns ++ [name]))) →
    (saved b1 ++ created b1 ≠ [] → turn_record F' id2 kind2 (saved b1) (created b1) (λ k, file F0 (loc k)) (digest_of (files s1))) →
    reversal F0 sv cr was lft force F' id2 kind2 res) as Hgo.
  { intros F' Hs' Hn' Hk' Hloc Hf' TR'. split; try done.
    - intros k Hk Hns. rewrite Hloc by by apply (tr_keys _ _ _ _ _ _ _ TR). by apply (rv_was _ _ _ _ _ _ _ _ _ _ _ _ _ _ _ V).
    - intros k Hk Hn. rewrite Hloc by done. apply (jr_other _ _ _ J); [done|]. pose proof (rv_keys _ _ _ _ _ _ _ _ _ _ _ _ _ _ _ V k) as Hkk.
      cbn [fst] in Hkk. rewrite Hkk. tauto.
    - intros Hne Hns. assert (∀ k, k ∈ saved b1 ++ created b1 ↔ k ∈ sv ++ cr) as Hiff.
      { intros k. pose proof (rv_keys _ _ _ _ _ _ _ _ _ _ _ _ _ _ _ V k) as Hkk. cbn [fst] in Hkk. rewrite Hkk. naive_solver. }
      exists (saved b1), (created b1). split; [|done].
      assert (saved b1 ++ created b1 ≠ []) as Hne'.
      { intros E. destruct (sv ++ cr) as [|k x] eqn:Ex; [done|]. assert (k ∈ []) as Hk by (rewrite <-E; apply Hiff; by left).
        by apply elem_of_nil in Hk. }
      destruct (TR' Hne') as [? ? (m' & ? & Hf) ? ? ? ?]. split; try done. exists m'. split; [done|]. destruct Hf. split; try done.
      intros k Hk. rewrite fd_after0 by done. unfold digest_of. by rewrite Hloc by by eapply jr_keys. }
  case_bool_decide as Hcl.
  - destruct (mark_done s2 id kind sv cr m lft (en_scene _ _ _ _ En) FD Hid) as (F' & E4 & Hs' & Hk' & [d Hu] & Hdirs).
    { rewrite (en_dir _ _ _ _ En id Hid (not_eq_sym Hneq)). apply TR. }
    rewrite <-(assoc_L (++)). cbn [app]. fold (man id). erewrite bind_ok by exact E4. cbn beta.
    exists (on_files F' s2), res. split; [done|]. split; [done|]. apply Hgo; cbn [files on_files]; [done| | | | |].
    + intros name id' Hn. rewrite Hdirs in Hn. by apply (en_newer _ _ _ _ En).
    + eapply kept_trans; [apply (en_kept _ _ _ _ En)|done].
    + intros k Hk. rewrite (updated_other _ _ _ _ _ Hu (loc_neq_man k id Hk)). by apply (en_loc _ _ _ _ En).
    + intros name Hn. rewrite Hdirs in Hn. by apply (en_folders _ _ _ _ En).
    + intros Hne. eapply (turn_record_updated _ _ _ _ _ _ _ id); [apply (en_scene _ _ _ _ En)|by apply TR2|done|done|done].
  - exists s2, res. split; [done|]. split; [done|]. apply Hgo; [apply En..|done].
Qed.
End scene.
