(* ===== verification/UndoClaims.v ===== *)
(** * A turn, its undo and its redo

    The writers of a turn save a file before they replace or remove it
    ([save_before_replace]); what they leave is undone and redone.  Between
    the turn and the undo the user may change files by hand. *)

From stdpp Require Import pretty.
From S2P Require Import Prelude Canonical CanonicalLines JsonText Text Gates FileSystem FileOps FileOpsLaws WorkspacePath WorkspacePathLaws Undo UndoLaws.

(** A tool of the turn writes or removes a file. *)
Inductive edit :=
| Put (key data : string)
| Drop (key : string).
Definition edit_key (e : edit) : string := match e with Put key _ | Drop key => key end.
Definition edit_data (e : edit) : option string := match e with Put _ data => Some data | Drop _ => None end.
(** What a file holds after the edits. *)
Fixpoint held_after (es : list edit) (was : string → option string) (key : string) : option string :=
  match es with
  | [] => was key
  | e :: es => held_after es (λ k, if decide (k = edit_key e) then edit_data e else was k) key
  end.

Lemma held_snoc es e was k :
  held_after (es ++ [e]) was k = if decide (k = edit_key e) then edit_data e else held_after es was k.
Proof. revert was. induction es as [|e' es IH]; intros was; [done|]. cbn. apply IH. Qed.
Lemma held_other es was k : k ∉ edit_key <$> es → held_after es was k = was k.
Proof.
  revert was. induction es as [|e es IH]; intros was Hk; [done|]. cbn in *. rewrite IH by set_solver.
  rewrite decide_False; [done|set_solver].
Qed.

Section writers.
Context {R : Runtime} {U : Unicode} {T : PyText} {Sh : Sha256}.
Context (state_dir r : path) (keys ids : list string).
Definition writer (root : path) (e : edit) : journal unit :=
  _ ← save_before_replace state_dir root [edit_key e];
  s ← get_state;
  match e with
  | Put key data => F ← or_os (put_file (files s) (join_root root key) data); set_files F
  | Drop key =>
      if exists_at (files s) (join_root root key)
      then F ← or_os (unlink (files s) (join_root root key)); set_files F
      else mret ()
  end.
Fixpoint writers (root : path) (es : list edit) : journal unit :=
  match es with [] => mret () | e :: es => _ ← writer root e; writers root es end.

Context (AP : apart_paths state_dir r keys ids).
#[local] Set Default Proof Using "Type*".
Notation scene := (scene state_dir r keys ids).
Notation journaled := (journaled state_dir r keys ids).
Notation loc := (loc r).
(** A turn of [b] goes on: the keys [es] wrote are journaled. *)
Record editing (F0 : fs) (b0 : TurnBackup) (es : list edit) (s : undo_world) (b : TurnBackup) : Prop := {
  ed_current : current s = Some b;
  ed_journal : journaled F0 b (files s);
  ed_same : same_turn b0 b;
  ed_keys k : k ∈ saved b ++ created b ↔ k ∈ edit_key <$> es;
  ed_files k : k ∈ keys → file (files s) (loc k) = held_after es (λ k, file F0 (loc k)) k;
}.
Lemma editing_update F0 b0 es s b s1 b1 e F' : editing F0 b0 es s b → edit_key e ∈ keys →
  saves state_dir r keys ids F0 b s (edit_key e) s1 b1 → updated (files s1) (loc (edit_key e)) (edit_data e) F' →
  editing F0 b0 (es ++ [e]) (on_files F' s1) b1.
Proof.
  intros V Hk Sv Hu. destruct (sv_same _ _ _ _ _ _ _ _ _ _ Sv) as (Ei & Ek & Er & Eb).
  destruct (ed_same _ _ _ _ _ V) as (Ei' & Ek' & Er' & Eb').
  split; cbn [current files on_files].
  - apply Sv.
  - eapply journaled_update; [done|apply Sv| |exact Hu]. apply (sv_keys _ _ _ _ _ _ _ _ _ _ Sv). by left.
  - split_and!; congruence.
  - intros k. rewrite (sv_keys _ _ _ _ _ _ _ _ _ _ Sv), (ed_keys _ _ _ _ _ V), fmap_app. set_solver.
  - intros k Hkk. rewrite held_snoc. case_decide as E; [subst k; apply (updated_file _ _ _ _ Hu)|].
    rewrite (updated_other _ _ _ _ _ Hu) by (by intros ?%(loc_inj state_dir r keys ids AP)).
    rewrite (sv_files _ _ _ _ _ _ _ _ _ _ Sv) by done. by apply (ed_files _ _ _ _ _ V).
Qed.

Lemma writer_spec F0 b0 es s b e : editing F0 b0 es s b → edit_key e ∈ keys →
  ∃ s' b', writer r e s = (s', Ok ()) ∧ editing F0 b0 (es ++ [e]) s' b'.
Proof.
  intros V Hk. pose proof (ed_journal _ _ _ _ _ V) as J. pose proof (ap_ok _ _ _ _ AP _ Hk) as Hok.
  unfold writer, save_before_replace.
  destruct (save_path_spec state_dir r keys ids AP F0 b s _ J (ed_current _ _ _ _ _ V) Hk) as (s1 & b1 & E1 & Sv).
  assert ((s0 ← get_state; match current s0 with
    | Some b' => void (save state_dir b' (join_root (real (files s0) r) <$> [edit_key e]))
    | None => mret () end) s = (s1, Ok ())) as E2.
  { erewrite bind_ok by done. cbn beta. rewrite (ed_current _ _ _ _ _ V).
    rewrite (real_root state_dir r keys ids AP _ (jr_scene _ _ _ _ _ _ _ J)). cbn [fmap list_fmap save].
    rewrite key_join by done. unfold void. erewrite bind_ok by exact E1. done. }
  erewrite bind_ok by exact E2. cbn beta. erewrite bind_ok by done. cbn beta.
  pose proof (jr_scene _ _ _ _ _ _ _ (sv_journal _ _ _ _ _ _ _ _ _ _ Sv)) as Hs1. pose proof (sc_wf _ _ _ _ _ Hs1) as Hwf1.
  pose proof (sc_spot _ _ _ _ _ Hs1 _ (spot_loc state_dir r keys ids _ Hk)) as Hp1.
  destruct e as [key data|key]; cbn [edit_key] in *; rewrite key_join by done; fold (loc key).
  - destruct (put_file_place _ _ data Hwf1 Hp1) as (F' & -> & Hu). eexists _, _. split; [done|].
    by apply (editing_update _ _ _ _ _ _ _ (Put key data) F' V Hk Sv).
  - rewrite (place_exists _ _ Hwf1 Hp1). case_bool_decide as Hf.
    + destruct (unlink_place _ _ Hwf1 Hp1 Hf) as (F' & -> & Hu). eexists _, _. split; [done|].
      by apply (editing_update _ _ _ _ _ _ _ (Drop key) F' V Hk Sv).
    + eexists _, _. split; [done|]. assert (on_files (files s1) s1 = s1) as <- by by destruct s1.
      apply (editing_update _ _ _ _ _ _ _ (Drop key) (files s1) V Hk Sv). by apply updated_absent.
Qed.
Lemma writers_spec F0 b0 done_ es s b : editing F0 b0 done_ s b → (∀ e, e ∈ es → edit_key e ∈ keys) →
  ∃ s' b', writers r es s = (s', Ok ()) ∧ editing F0 b0 (done_ ++ es) s' b'.
Proof.
  revert done_ s b. induction es as [|e es IH]; intros done_ s b V Hk.
  { exists s, b. by rewrite app_nil_r. }
  destruct (writer_spec F0 b0 done_ s b e V (Hk e ltac:(by left))) as (s1 & b1 & E1 & V1).
  destruct (IH _ _ _ V1) as (s' & b' & E2 & V2); [intros; apply Hk; by right|].
  exists s', b'. cbn [writers]. erewrite bind_ok by exact E1. split; [done|]. by rewrite <-(assoc_L (++)) in V2.
Qed.

(** ** The turn *)
Notation ids_newer := (ids_newer state_dir r ids).
Notation kept := (kept state_dir r keys).
Notation turn_record := (turn_record state_dir r keys ids).
Notation turns := (turns state_dir r).
(** The folders of the turns are older than [id]. *)
Definition older (F : fs) (id : string) : Prop := ∀ name, is_Some (F !! (turns ++ [name])) → before name id.
Record turned (F0 : fs) (es : list edit) (id : string) (s : undo_world) : Prop := {
  tn_current : current s = None;
  tn_scene : scene (files s);
  tn_newer : ids_newer (files s);
  tn_kept : kept F0 (files s);
  tn_folders name : is_Some (files s !! (turns ++ [name])) → name = id ∨ is_Some (F0 !! (turns ++ [name]));
  tn_files key : key ∈ keys → file (files s) (loc key) = held_after es (λ k, file F0 (loc k)) key;
  tn_record : es ≠ [] → ∃ sv cr, (∀ key, key ∈ sv ++ cr ↔ key ∈ edit_key <$> es) ∧
    turn_record (files s) id "turn" sv cr (λ key, file F0 (loc key)) (digest_of r (files s));
}.
Lemma fields_digests m kind sv cr lft lft' : (∀ key, key ∈ sv ++ cr → lft key = lft' key) →
  fields r m kind sv cr lft → fields r m kind sv cr lft'.
Proof. intros H []. split; try done. intros key Hk. rewrite <-H by done. auto. Qed.
Lemma turn_record_digests F id kind sv cr was lft lft' : (∀ key, key ∈ sv ++ cr → lft key = lft' key) →
  turn_record F id kind sv cr was lft → turn_record F id kind sv cr was lft'.
Proof.
  intros H [? ? (m & ? & ?) ? ? ? ?]. split; try done. exists m. split; [done|]. by eapply fields_digests.
Qed.
Lemma turn_spec s es id request : scene (files s) → current s = None → ids_newer (files s) → id ∈ ids →
  utf8_valid request = true → (∀ e, e ∈ es → edit_key e ∈ keys) →
  ∃ s', turn state_dir r id "turn" request (λ _, writers r es) s = (s', Ok ()) ∧ turned (files s) es id s'.
Proof.
  intros Hs Hc Hnew Hid Hutf Hk. unfold turn. rewrite Hc. set (b0 := new_backup _ _ _ _ _).
  assert (editing (files s) b0 [] (bind_backup (Some b0) s) b0) as V0.
  { split; cbn [current files bind_backup]; try done.
    apply (journaled_start _ _ _ _ AP); [done|by apply (real_root _ _ _ _ AP)|done..]. }
  destruct (writers_spec _ _ [] es _ _ V0 Hk) as (s1 & b1 & E1 & V). cbn [app] in V. rewrite E1.
  rewrite (ed_current _ _ _ _ _ V). change (default b0 (Some b1)) with b1.
  pose proof (ed_journal _ _ _ _ _ V) as J. destruct (ed_same _ _ _ _ _ V) as (Ei & Ek & Er & Eb).
  cbn in Ei, Ek, Er, Eb.
  destruct (end_turn_any state_dir r keys ids AP (files s) b1 s1 J) as (s2 & E2 & Hc2 & En & TR); [|done|].
  { split_and!; [by rewrite Ek|by rewrite Er|by rewrite Eb]. }
  rewrite E2. rewrite Ei in *. exists s2. split; [done|]. split; [done|apply En..| |].
  - intros key Hkk. rewrite (en_loc _ _ _ _ _ _ _ _ En) by done. by apply (ed_files _ _ _ _ _ V).
  - intros Hne. exists (saved b1), (created b1). split; [apply (ed_keys _ _ _ _ _ V)|]. rewrite <-Ek.
    apply (turn_record_digests _ _ _ _ _ _ (digest_of r (files s1))).
    { intros key Hkk. unfold digest_of. rewrite (en_loc _ _ _ _ _ _ _ _ En); [done|by apply J]. }
    apply TR. intros E. destruct es as [|e es]; [done|]. assert (edit_key e ∈ []) as He; [|by apply elem_of_nil in He].
    rewrite <-E. apply (ed_keys _ _ _ _ _ V). by left.
Qed.

(** The user changes files of the turn by hand. *)
Inductive by_hand : fs → fs → Prop :=
| by_hand_none F : by_hand F F
| by_hand_step F key d F1 F2 : key ∈ keys → updated F (loc key) d F1 → by_hand F1 F2 → by_hand F F2.
Lemma turn_record_by_hand F id kind sv cr was lft key d F' : turn_record F id kind sv cr was lft →
  key ∈ keys → updated F (loc key) d F' → turn_record F' id kind sv cr was lft.
Proof.
  intros TR Hk Hu. split; try apply TR.
  - rewrite <-(tr_dir _ _ _ _ _ _ _ _ _ _ _ TR). destruct (loc_turns state_dir r keys ids AP key [id] Hk) as [[_ Hb] Hne].
    destruct (updated_rest _ _ _ _ Hu (turns ++ [id]) (not_eq_sym Hne)) as [?|(_ & _ & ? & _)]; done.
  - destruct (tr_man _ _ _ _ _ _ _ _ _ _ _ TR) as (m & ? & ?). exists m.
    rewrite (updated_other _ _ _ _ _ Hu) by (by apply not_eq_sym, (loc_neq_man _ _ _ _ AP)). done.
  - intros k Hks. destruct (tr_saved _ _ _ _ _ _ _ _ _ _ _ TR k Hks) as [? E]. split; [done|]. rewrite <-E.
    apply (updated_other _ _ _ _ _ Hu). by apply not_eq_sym, (loc_neq_copy _ _ _ _ AP).
Qed.
Lemma by_hand_folders F F' name : by_hand F F' → F' !! (turns ++ [name]) = F !! (turns ++ [name]).
Proof.
  induction 1 as [|F key d F1 F2 Hk Hu _ IH]; [done|]. rewrite IH.
  destruct (loc_turns state_dir r keys ids AP key [name] Hk) as [[_ Hb] Hne].
  destruct (updated_rest _ _ _ _ Hu _ (not_eq_sym Hne)) as [?|(_ & _ & ? & _)]; done.
Qed.
Lemma by_hand_spec F F' : by_hand F F' → scene F → scene F' ∧ kept F F' ∧
  ∀ id kind sv cr was lft, turn_record F id kind sv cr was lft → turn_record F' id kind sv cr was lft.
Proof.
  induction 1 as [F|F key d F1 F2 Hk Hu _ IH]; intros Hs; [split_and!; [done|apply kept_refl|done]|].
  destruct (scene_updated state_dir r keys ids AP F _ d F1 Hs (spot_loc _ _ _ _ key Hk) Hu) as (Hs1 & _ & Hk1).
  { intros id E. by destruct (loc_neq_man _ _ _ _ AP key id Hk). }
  destruct (IH Hs1) as (? & ? & HT). split_and!; [done|by eapply kept_trans|].
  intros id kind sv cr was lft TR. apply HT. by eapply turn_record_by_hand.
Qed.

Lemma turned_newest F0 es id s F2 : older F0 id → es ≠ [] → turned F0 es id s → by_hand (files s) F2 →
  newest state_dir r F2 id.
Proof.
  intros Hold Hne Ht Hb. destruct (tn_record _ _ _ _ Ht Hne) as (sv & cr & _ & TR). split.
  - rewrite (by_hand_folders _ _ _ Hb). apply TR.
  - intros name Hn. rewrite (by_hand_folders _ _ _ Hb) in Hn.
    destruct (tn_folders _ _ _ _ Ht name Hn) as [?|?]; [by left|right; by apply Hold].
Qed.
(** What an undo of the turn leaves, and what it says. *)
Record undone (F0 F1 F2 : fs) (es : list edit) (force : bool) (F3 : fs) (res : UndoResult) : Prop := {
  un_kept : kept F0 F3;
  un_refused : refused res = [];
  un_back key : key ∈ edit_key <$> es → force = true ∨ digest_of r F2 key = digest_of r F1 key →
    file F3 (loc key) = file F0 (loc key) ∧ key ∉ left_alone res;
  un_left key : key ∈ edit_key <$> es → force = false → digest_of r F2 key ≠ digest_of r F1 key →
    file F3 (loc key) = file F2 (loc key) ∧ key ∈ left_alone res;
  un_other key : key ∈ keys → key ∉ edit_key <$> es → file F3 (loc key) = file F2 (loc key);
}.
Lemma undo_spec F0 es id s F2 id2 force : older F0 id → es ≠ [] → turned F0 es id s → by_hand (files s) F2 →
  id2 ∈ ids → id2 ≠ id →
  ∃ sv cr s' res, undo state_dir id2 r force (on_files F2 s) = (s', Ok res) ∧ current s' = None ∧
    (∀ key, key ∈ sv ++ cr ↔ key ∈ edit_key <$> es) ∧
    reversal state_dir r keys ids F2 sv cr (λ key, file F0 (loc key)) (digest_of r (files s)) force (files s') id2 "undo" res.
Proof.
  intros Hold Hne Ht Hb Hi2 Hneq. destruct (tn_record _ _ _ _ Ht Hne) as (sv & cr & Hk & TR).
  destruct (by_hand_spec _ _ Hb (tn_scene _ _ _ _ Ht)) as (Hs2 & _ & HT).
  destruct (reverse_spec state_dir r keys ids AP (on_files F2 s) id "turn" sv cr (λ key, file F0 (loc key))
    (digest_of r (files s)) ["turn"; "redo"] id2 "undo" force) as (s' & res & E & Hc & V); try done.
  - apply Ht.
  - intros name id'. cbn [files on_files]. rewrite (by_hand_folders _ _ _ Hb). apply Ht.
  - by eapply turned_newest.
  - cbn [files on_files]. by apply HT.
  - set_solver.
  - by exists sv, cr, s', res.
Qed.
Lemma reversal_undone F0 es id s F2 sv cr force F3 id2 kind2 res : turned F0 es id s → by_hand (files s) F2 →
  (∀ key, key ∈ sv ++ cr ↔ key ∈ edit_key <$> es) →
  reversal state_dir r keys ids F2 sv cr (λ key, file F0 (loc key)) (digest_of r (files s)) force F3 id2 kind2 res →
  undone F0 (files s) F2 es force F3 res.
Proof.
  intros Ht Hb Hk V. destruct (by_hand_spec _ _ Hb (tn_scene _ _ _ _ Ht)) as (_ & Hkept & _).
  split; [|apply V|..].
  - eapply kept_trans; [apply Ht|]. eapply kept_trans; [exact Hkept|apply V].
  - intros key Hkey Hf. assert (¬ stale r F2 (digest_of r (files s)) force key) as Hns.
    { intros [-> ?]. by destruct Hf. }
    rewrite (rs_left _ _ _ _ _ _ _ _ _ _ _ _ _ _ V). split; [|by intros [? _]%list_elem_of_filter].
    apply (rs_was _ _ _ _ _ _ _ _ _ _ _ _ _ _ V); [by apply Hk|done].
  - intros key Hkey Hf Hd. assert (stale r F2 (digest_of r (files s)) force key) as Hst by done.
    rewrite (rs_left _ _ _ _ _ _ _ _ _ _ _ _ _ _ V). split.
    + apply (rs_other _ _ _ _ _ _ _ _ _ _ _ _ _ _ V); [|by right].
      destruct (tn_record _ _ _ _ Ht) as (sv' & cr' & Hk' & TR); [by intros ->; apply elem_of_nil in Hkey|].
      eapply tr_keys; [exact TR|]. by apply Hk'.
    + apply list_elem_of_filter. split; [done|]. by apply Hk.
  - intros key Hkey Hn. apply (rs_other _ _ _ _ _ _ _ _ _ _ _ _ _ _ V); [done|left]. by rewrite Hk.
Qed.

(** C3: a turn that replaces, creates and removes files is undone: with the
    keys and ids of [apart_paths] in a [scene], the undo gives each file of the
    turn back as it was before, and leaves alone, and names, only those that the
    user changed since, when it is not forced.  The keys are decodable paths
    below the project through no link, not below [.git], [.ract] or the name
    [manifest.json], with no backslash, NUL or drive colon, and none below
    another ([key_ok], [apart]); at most [KEEP_TURNS] ids, newer than every turn
    on disk, are used, so that no folder of the turn is pruned.  Outside of this
    it may fail: [undo_loses_manifest_json], [folder_for_file_not_recorded],
    [undo_through_backslash_link], [undo_refuses_colon], [undo_prunes_its_turn]. *)
Theorem undo_restores_turn s es id id2 request force F2 :
  scene (files s) → current s = None → ids_newer (files s) → older (files s) id → es ≠ [] →
  id ∈ ids → id2 ∈ ids → id2 ≠ id → utf8_valid request = true → (∀ e, e ∈ es → edit_key e ∈ keys) →
  ∃ s1, turn state_dir r id "turn" request (λ _, writers r es) s = (s1, Ok ()) ∧
    (∀ key, key ∈ keys → file (files s1) (loc key) = held_after es (λ k, file (files s) (loc k)) key) ∧
    (by_hand (files s1) F2 → ∃ s2 res, undo state_dir id2 r force (on_files F2 s1) = (s2, Ok res) ∧
       undone (files s) (files s1) F2 es force (files s2) res).
Proof.
  intros Hs Hc Hnew Hold Hne Hid Hid2 Hneq Hutf Hk.
  destruct (turn_spec s es id request Hs Hc Hnew Hid Hutf Hk) as (s1 & E1 & Ht).
  exists s1. split_and!; [done|apply Ht|]. intros Hb.
  destruct (undo_spec _ _ _ _ _ id2 force Hold Hne Ht Hb Hid2 Hneq) as (sv & cr & s2 & res & E2 & _ & Hkk & V).
  exists s2, res. split; [done|]. by eapply reversal_undone.
Qed.

(** C23: under the conditions of [undo_restores_turn] on paths and ids, and
    where no one else changes the files, the undo of a turn gives its files back
    as before it, and a redo then gives every one back as the turn left it, with
    nothing left alone or refused. *)
Theorem redo_reverses_undo s es id id2 id3 request force :
  scene (files s) → current s = None → ids_newer (files s) → older (files s) id → es ≠ [] →
  id ∈ ids → id2 ∈ ids → id3 ∈ ids → before id id2 → id3 ≠ id2 → utf8_valid request = true →
  (∀ e, e ∈ es → edit_key e ∈ keys) →
  ∃ s1 s2 s3 res res', turn state_dir r id "turn" request (λ _, writers r es) s = (s1, Ok ()) ∧
    undo state_dir id2 r force s1 = (s2, Ok res) ∧ redo state_dir id3 r force s2 = (s3, Ok res') ∧
    left_alone res' = [] ∧ refused res' = [] ∧ kept (files s) (files s3) ∧
    ∀ key, key ∈ keys → file (files s2) (loc key) = file (files s) (loc key) ∧
                       file (files s3) (loc key) = file (files s1) (loc key).
Proof.
  intros Hs Hc Hnew Hold Hne Hid Hid2 Hid3 Hb Hneq Hutf Hk.
  destruct (turn_spec s es id request Hs Hc Hnew Hid Hutf Hk) as (s1 & E1 & Ht).
  assert (on_files (files s1) s1 = s1) as Eon by by destruct s1.
  destruct (undo_spec _ _ _ _ _ id2 force Hold Hne Ht (by_hand_none _) Hid2) as (sv & cr & s2 & res & E2 & Hc2 & Hkk & V).
  { intros ->. by destruct Hb as [_ []]. }
  rewrite Eon in E2. assert (∀ k, ¬ stale r (files s1) (digest_of r (files s1)) force k) as Hns by (intros k [_ Hd]; by apply Hd).
  destruct (rs_record _ _ _ _ _ _ _ _ _ _ _ _ _ _ V) as (sv' & cr' & TR & Hk'); [|done|].
  { intros E. destruct es as [|e es]; [done|]. assert (edit_key e ∈ []) as He; [|by apply elem_of_nil in He].
    rewrite <-E. apply Hkk. by left. }
  destruct (reverse_spec state_dir r keys ids AP s2 id2 "undo" sv' cr' (λ key, file (files s1) (loc key))
    (digest_of r (files s2)) ["undo"] id3 "redo" force (rs_scene _ _ _ _ _ _ _ _ _ _ _ _ _ _ V) Hc2
    (rs_newer _ _ _ _ _ _ _ _ _ _ _ _ _ _ V)) as (s3 & res' & E3 & _ & V'); try done; [|set_solver|].
  { split; [apply TR|]. intros name Hn. destruct (rs_folders _ _ _ _ _ _ _ _ _ _ _ _ _ _ V name Hn) as [?|Hn']; [by left|right].
    destruct (tn_folders _ _ _ _ Ht name Hn') as [->|?]; [done|]. eapply before_trans; [by apply Hold|done]. }
  assert (∀ k, ¬ stale r (files s2) (digest_of r (files s2)) force k) as Hns' by (intros k [_ Hd]; by apply Hd).
  exists s1, s2, s3, res, res'. split_and!; [done..| | | |].
  - rewrite (rs_left _ _ _ _ _ _ _ _ _ _ _ _ _ _ V'). apply filter_none, Forall_true, Hns'.
  - apply V'.
  - eapply kept_trans; [apply Ht|]. eapply kept_trans; [apply V|apply V'].
  - intros key Hkey. destruct (decide (key ∈ edit_key <$> es)) as [He|He].
    + split; [apply (rs_was _ _ _ _ _ _ _ _ _ _ _ _ _ _ V)|apply (rs_was _ _ _ _ _ _ _ _ _ _ _ _ _ _ V')]; try done.
      * by apply Hkk.
      * by apply Hk', Hkk.
    + rewrite (rs_other _ _ _ _ _ _ _ _ _ _ _ _ _ _ V'), (rs_other _ _ _ _ _ _ _ _ _ _ _ _ _ _ V); try done.
      * split; [|done]. rewrite (tn_files _ _ _ _ Ht) by done. by apply held_other.
      * left. by rewrite Hkk.
      * left. by rewrite Hk', Hkk.
Qed.
End writers.

(** ** A concrete project *)
Definition open_at (F : fs) (p : path) : bool :=
  match F !! p with None | Some Dir => true | _ => false end.
Definition open_way (F : fs) (p : path) : bool := forallb (λ n, open_at F (take n p)) (seq 1 (length p)).
Definition free_at (F : fs) (p : path) : bool :=
  match F !! p with None | Some (Regular _ _) => true | _ => false end.
Definition in_folders (F : fs) : bool := forallb (λ x, is_dir F (parent x.1)) (map_to_list F).
Lemma open_way_spec F p : names p → open_way F p = true → way F p.
Proof.
  intros Hn Ho. split; [done|]. intros q Hq Hp. unfold open_way in Ho. rewrite forallb_forall in Ho.
  specialize (Ho (length q)). pose proof (prefix_length _ _ Hp). destruct Hp as [x ->]. rewrite take_app_length in Ho.
  assert (open_at F q = true) as E.
  { apply Ho, in_seq. destruct q; [done|cbn in *; lia]. }
  unfold open_at in E. destruct (F !! q) as [[]|]; auto; done.
Qed.
Lemma open_place F q a : names (q ++ [a]) → open_way F q = true → free_at F (q ++ [a]) = true → place F (q ++ [a]).
Proof.
  intros Hn Ho Hf. split; [done|by destruct q| |].
  - intros x Hx Hb%below_snoc. apply (way_free F q); [|done..]. apply open_way_spec; [|done].
    by apply Forall_app in Hn as [? _].
  - unfold free_at in Hf. destruct (F !! _) as [[]|]; eauto; done.
Qed.
Lemma in_folders_wf F : in_folders F = true → wf_fs F.
Proof.
  unfold in_folders. rewrite forallb_forall. intros H p name [x Hx].
  specialize (H (p ++ [name], x)). cbn in H. rewrite parent_snoc in H. apply H, list_elem_of_In, elem_of_map_to_list, Hx.
Qed.
Lemma free_below F p x : wf_fs F → p ≠ [] → F !! p = None → x ≠ [] → F !! (p ++ x) = None.
Proof.
  intros Hwf Hp Hn Hx. destruct (F !! (p ++ x)) eqn:E; [|done].
  assert (is_dir F p = true) as Hd by (eapply wf_prefix; eauto).
  apply node_at_dir in Hd. unfold node_at in Hd. destruct p; [done|congruence].
Qed.
Lemma fresh_scene `{Runtime} `{Sha256} state_dir r keys ids F : wf_fs F → way F r → (∀ key, key ∈ keys → names (comps key) ∧ place F (loc r key)) →
  (∀ id, id ∈ ids → real_name id) → way F (turns state_dir r) → F !! turns state_dir r = None →
  scene state_dir r keys ids F.
Proof.
  intros Hwf Hr Hk Hid Hw Hn.
  assert (∀ x, x ≠ [] → F !! (turns state_dir r ++ x) = None) as Hfree.
  { intros x. apply free_below; [done| |done]. unfold turns. by destruct state_dir. }
  assert (∀ x, x ≠ [] → names x → place F (turns state_dir r ++ x)) as Hp.
  { intros x Hx Hnx. split; [apply Forall_app; split; [apply Hw|done]|by destruct x, (turns state_dir r)| |left; by apply Hfree].
    intros q Hq (a & y & E). destruct (prefix_weak_total q (turns state_dir r) (turns state_dir r ++ x)) as [?|[z ->]];
      [by exists (a :: y)|by exists x|by apply (way_free _ _ Hw)|]. left.
    destruct z; [by rewrite app_nil_r|by apply Hfree]. }
  split; [done..| | |].
  - intros p [key Hkey|id key Hi Hkey|id Hi]; [by apply Hk|apply Hp; [done|]..].
    + constructor; [by apply Hid|]. by apply Hk.
    + constructor; [done|]. by repeat constructor.
  - intros name. rewrite Hfree by done. by intros [].
  - intros name m _. unfold file, man. rewrite Hfree by done. done.
Qed.

Section sample.
#[local] Existing Instance plain_runtime.
#[local] Existing Instance plain_unicode.
#[local] Existing Instance plain_pytext.
#[local] Instance sample_sha : Sha256 := λ s, s.
Definition sample_files : fs :=
  list_to_map [(["p"], Dir); (["p"; "a.txt"], Regular "one" 1); (["p"; "b.txt"], Regular "old" 1); (["s"], Dir)].
Definition sample_world : undo_world :=
  {| files := sample_files; current := None; saving := []; dropped_refs := []; announced := [] |}.
Definition sample_edits : list edit := [Put "a.txt" "two"; Put "d/x" "new"; Drop "b.txt"; Put "a.txt" "three"].
Definition sample_keys : list string := ["a.txt"; "d/x"; "b.txt"].
Definition sample_ids : list string := ["t1"; "t2"; "t3"].
Lemma sample_key_ok key : key ∈ sample_keys → key_ok key.
Proof.
  intros Hk. repeat (apply elem_of_cons in Hk as [->|Hk]); [..|by apply elem_of_nil in Hk].
  all: split; try done; [repeat constructor; done|]; intros x [= <-]; apply (bool_decide_unpack _); by vm_compute.
Qed.
Lemma sample_apart : apart_paths ["s"] ["p"] sample_keys sample_ids.
Proof.
  split.
  - apply sample_key_ok.
  - intros k k' Hk Hk'. repeat (apply elem_of_cons in Hk as [->|Hk]); [..|by apply elem_of_nil in Hk].
    all: repeat (apply elem_of_cons in Hk' as [->|Hk']); [..|by apply elem_of_nil in Hk'].
    all: split; intros (a & x & E); destruct x as [|? [|? ?]]; discriminate.
  - intros key Hk. split; intros [x E]; discriminate.
  - split_and!; [|done..]. intros [x E]; discriminate.
  - intros id Hi. repeat (apply elem_of_cons in Hi as [->|Hi]); [..|by apply elem_of_nil in Hi]; repeat split; done.
  - cbn. unfold KEEP_TURNS. lia.
Qed.
Lemma sample_scene : scene ["s"] ["p"] sample_keys sample_ids sample_files.
Proof.
  apply fresh_scene.
  - apply in_folders_wf. by vm_compute.
  - apply open_way_spec; [|by vm_compute]. repeat constructor; done.
  - intros key Hk. split; [by apply key_names, sample_key_ok|].
    repeat (apply elem_of_cons in Hk as [->|Hk]); [..|by apply elem_of_nil in Hk].
    + apply (open_place _ ["p"] "a.txt"); [repeat constructor; done|by vm_compute..].
    + apply (open_place _ ["p"; "d"] "x"); [repeat constructor; done|by vm_compute..].
    + apply (open_place _ ["p"] "b.txt"); [repeat constructor; done|by vm_compute..].
  - intros id Hi. by apply sample_apart.
  - apply open_way_spec; [|by vm_compute]. repeat constructor; done.
  - by vm_compute.
Qed.
Lemma sample_no_turns name : ¬ is_Some (files sample_world !! (turns ["s"] ["p"] ++ [name])).
Proof.
  rewrite free_below; [by intros []|apply sample_scene|done|by vm_compute|done].
Qed.

Lemma undo_restores_turn_witness :
  ∃ s1 s2 res, turn ["s"] ["p"] "t1" "turn" "fix it" (λ _, writers ["s"] ["p"] sample_edits) sample_world = (s1, Ok ()) ∧
    file (files s1) ["p"; "a.txt"] = Some "three" ∧
    undo ["s"] "t2" ["p"] false (on_files (files s1) s1) = (s2, Ok res) ∧
    undone ["s"] ["p"] sample_keys sample_files (files s1) (files s1) sample_edits false (files s2) res.
Proof.
  destruct (undo_restores_turn ["s"] ["p"] sample_keys sample_ids sample_apart sample_world sample_edits "t1" "t2" "fix it" false
    (files (turn ["s"] ["p"] "t1" "turn" "fix it" (λ _, writers ["s"] ["p"] sample_edits) sample_world).1))
    as (s1 & E1 & Hf & Hu).
  - exact sample_scene.
  - done.
  - intros name id Hn. by destruct (sample_no_turns name).
  - intros name Hn. by destruct (sample_no_turns name).
  - done.
  - unfold sample_ids. set_solver.
  - unfold sample_ids. set_solver.
  - done.
  - done.
  - unfold sample_edits, sample_keys. intros e He. repeat (apply elem_of_cons in He as [->|He]); [set_solver..|by apply elem_of_nil in He].
  - rewrite E1 in Hu. destruct Hu as (s2 & res & E2 & Hu); [constructor|].
    exists s1, s2, res. split; [exact E1|]. split; [|by split].
    etrans; [apply (Hf "a.txt"); by left|by vm_compute].
Defined.
Lemma redo_reverses_undo_witness :
  ∃ s1 s2 s3 res res', turn ["s"] ["p"] "t1" "turn" "fix it" (λ _, writers ["s"] ["p"] sample_edits) sample_world = (s1, Ok ()) ∧
    undo ["s"] "t2" ["p"] false s1 = (s2, Ok res) ∧ redo ["s"] "t3" ["p"] false s2 = (s3, Ok res') ∧
    file (files s2) ["p"; "b.txt"] = Some "old" ∧ file (files s3) ["p"; "b.txt"] = file (files s1) ["p"; "b.txt"].
Proof.
  destruct (redo_reverses_undo ["s"] ["p"] sample_keys sample_ids sample_apart sample_world sample_edits "t1" "t2" "t3" "fix it" false)
    as (s1 & s2 & s3 & res & res' & E1 & E2 & E3 & _ & _ & _ & Hf).
  - exact sample_scene.
  - done.
  - intros name id Hn. by destruct (sample_no_turns name).
  - intros name Hn. by destruct (sample_no_turns name).
  - done.
  - unfold sample_ids. set_solver.
  - unfold sample_ids. set_solver.
  - unfold sample_ids. set_solver.
  - done.
  - done.
  - done.
  - unfold sample_edits, sample_keys. intros e He. repeat (apply elem_of_cons in He as [->|He]); [set_solver..|by apply elem_of_nil in He].
  - exists s1, s2, s3, res, res'. split; [done|]. split; [done|]. split; [done|]. apply (Hf "b.txt").
    by right; right; left.
Defined.

(** ** Where the journal falls short *)
Definition world_of (l : list (path * fnode)) : undo_world :=
  {| files := list_to_map l; current := None; saving := []; dropped_refs := []; announced := [] |}.
Definition edit_turn (es : list edit) (s : undo_world) : undo_world * result undo_error () :=
  turn ["s"] ["p"] "t1" "turn" "fix it" (λ _, writers ["s"] ["p"] es) s.
Definition undo_now (id : string) (force : bool) (s : undo_world) : undo_world * result undo_error UndoResult :=
  undo ["s"] id ["p"] force s.
Definition with_manifest : undo_world := world_of [(["p"], Dir); (["p"; "manifest.json"], Regular "mine" 1); (["s"], Dir)].
(** The copy of a project's own [manifest.json] is overwritten by the
    manifest of the turn, and an undo writes that manifest into the project. *)
Lemma undo_loses_manifest_json :
  let s1 := (edit_turn [Put "manifest.json" "theirs"] with_manifest).1 in
  let s2 := (undo_now "t2" false s1).1 in
  restored <$> (undo_now "t2" false s1).2 = Ok ["manifest.json"] ∧
  read_json (files s2) ["p"; "manifest.json"] = Some (manifest_of (files s1)
    {| tb_root := ["p"]; tb_request := "fix it"; turn_id := "t1"; tb_kind := "turn";
       saved := ["manifest.json"]; created := []; bases := [] |}
    [("manifest.json", JStr (hex (sha256 "theirs")))]).
Proof. split; by vm_compute. Qed.

(** A turn that puts a folder where a file was raises at its end, and leaves
    no manifest: nothing of it can be undone. *)
Lemma folder_for_file_not_recorded :
  let '(s1, r) := edit_turn [Drop "a.txt"; Put "a.txt/x" "new"] sample_world in
  r = Err OsError ∧ file (files s1) ["p"; "a.txt"] = None ∧
  file (files s1) (copy ["s"] ["p"] "t1" "a.txt") = Some "one" ∧
  last_turn ["s"] (files s1) ["p"] = None.
Proof. by vm_compute. Qed.

(** An entry with a backslash is checked as a path of two names and used as
    one name: when that name became a link out of the project, a forced undo
    writes through it. *)
Definition with_backslash : undo_world := world_of [(["p"], Dir); (["p"; "a\b"], Regular "old" 1); (["s"], Dir); (["out"], Regular "theirs" 1)].
Lemma undo_through_backslash_link :
  let s1 := (edit_turn [Put "a\b" "new"] with_backslash).1 in
  let s2 := on_files (<[["p"; "a\b"] := SymLink "/out"]> (files s1)) s1 in
  let '(s3, r) := undo_now "t2" true s2 in
  restored <$> r = Ok ["a\b"] ∧ file (files s2) ["out"] = Some "theirs" ∧ file (files s3) ["out"] = Some "old".
Proof. by vm_compute. Qed.

(** A name whose second character is a colon is journaled and then refused. *)
Definition with_colon : undo_world := world_of [(["p"], Dir); (["p"; "a:b"], Regular "old" 1); (["s"], Dir)].
Lemma undo_refuses_colon :
  let '(s2, r) := undo_now "t2" false (edit_turn [Put "a:b" "new"] with_colon).1 in
  refused <$> r = Ok [("a:b", "an absolute path")] ∧ file (files s2) ["p"; "a:b"] = Some "new".
Proof. by vm_compute. Qed.

(** The undo journals itself: as the twenty-first folder it drops the oldest,
    which can be the one it reverses. *)
Definition many_turns (s : undo_world) : undo_world :=
  on_files (foldr (λ n, <[turns ["s"] ["p"] ++ ["t2" +:+ pretty n] := Dir]>) (files s) (seq 10 19)) s.
Lemma undo_prunes_its_turn :
  let '(s2, r) := undo_now "t3" false (many_turns (edit_turn [Put "a.txt" "two"] sample_world).1) in
  r = Err OsError ∧ file (files s2) ["p"; "a.txt"] = Some "one" ∧ files s2 !! (turns ["s"] ["p"] ++ ["t1"]) = None.
Proof. by vm_compute. Qed.
End sample.
