(* ===== verification/Allowlist.v ===== *)
(** * Entry points and what may run unasked

    Models [policy/allowlist.py], and [is_test_file] of [import_check.py]: the
    files that decide what an allowed command does, their digests when the
    grant was signed and now, and the session's approvals.  The listing of git
    and the clock are arguments. *)

From S2P Require Import Prelude Canonical CanonicalLines JsonText Text FileSystem FileOps WorkspacePath Matcher.

Definition RUNNER_FILES : list string :=
  ["conftest.py"; "pytest.ini"; ".pytest.ini"; "pytest.toml"; "pyproject.toml"; "tox.ini"; "setup.cfg"; "setup.py";
   "noxfile.py"; "mypy.ini"; ".mypy.ini"; ".flake8"; "ruff.toml"; ".ruff.toml"; "Makefile"; "makefile"; "GNUmakefile";
   "Cargo.toml"; "build.rs"; "package.json"; "tsconfig.json"].
Definition _CONFIG_PREFIXES : list string :=
  ["jest.config."; "vitest.config."; "eslint.config."; ".eslintrc"; "prettier.config."; ".prettierrc";
   "babel.config."; ".babelrc"].
Definition _JS_TEST : list string := [".test."; ".spec."].
Definition _JS_SUFFIXES : list string := [".js"; ".jsx"; ".ts"; ".tsx"; ".mjs"; ".cjs"].
Definition _NOT_COLLECTED : list string :=
  ["node_modules"; "venv"; "build"; "dist"; "site-packages"; "__pycache__"; "_darcs"; "CVS"].
Definition MAX_ENTRY_POINTS : nat := Z.to_nat 5000.
Definition MAX_ENTRY_BYTES : N := 64 * 1024 * 1024.

Inductive change_reason : Type := LINKED | WRITTEN | CHANGED | UNKNOWN | NAMED_UNCOVERED.
Record Change := { change_path : string; change_reason_of : change_reason }.
#[export] Instance change_reason_eq_dec : EqDecision change_reason.
Proof. solve_decision. Defined.
#[export] Instance change_eq_dec : EqDecision Change.
Proof. solve_decision. Defined.
(** What stands for a link among the digests. *)
Definition linked_text : string := "a link: what it points at decides what runs".

(** [Path(s).parts] *)
Definition all_parts (s : string) : list string :=
  (if String.eqb (path_root s) "" then [] else [path_root s]) ++ path_parts s.
Definition ends_with (suffix s : string) : bool :=
  match drop_suffix suffix s with Some _ => true | None => false end.
Definition has_infix (s sub : string) : bool := contains s sub.

Section allowlist.
Context {U : Unicode} {Sh : Sha256}.

(** ** Entry points *)
Definition is_test_file (p : string) : bool :=
  let posix := replace_char "\" "/" p in
  let name := default "" (last (split_char "/" posix)) in
  if negb (ends_with ".py" name) || String.eqb name "__init__.py" || String.eqb name "conftest.py" then false
  else startswith name "test_" || ends_with "_test.py" name
       || has_infix ("/" +:+ posix) "/tests/" || has_infix ("/" +:+ posix) "/test/".
Definition not_collected (part : string) : bool :=
  startswith part "." || mem part _NOT_COLLECTED || ends_with ".egg" part.
Definition _collected (rel : string) : bool := negb (existsb not_collected (removelast (all_parts rel))).
Definition is_entry_point (p : string) : bool :=
  let folded := casefold (replace_char "\" "/" p) in
  let name := path_name folded in
  if mem name (casefold <$> RUNNER_FILES) || existsb (startswith name) _CONFIG_PREFIXES || is_test_file folded then true
  else if (length (all_parts folded) =? 1)%nat && ends_with ".py" name then true
  else existsb (λ x, ends_with x name) _JS_SUFFIXES
       && (existsb (has_infix name) _JS_TEST || mem "__tests__" (all_parts folded)).

(** ** Their digests: [git ls-files] of a project, and whether the deadline has
    passed at the [n]th file that is read *)
Context (ls_files : fs → path → option (list string)) (late : nat → bool).
(** One file of the listing: [None] is a bound that was hit. *)
Record reading := { digests : list (string * string); read_bytes_ : N; asked_ : nat }.
Definition read_entry (F : fs) (project : path) (st : reading) (rel : string) : option reading :=
  if String.eqb rel "" || negb (is_entry_point rel) || negb (_collected rel) then Some st
  else if (MAX_ENTRY_POINTS <=? length (digests st))%nat then None
  else if late (asked_ st) then None
  else
    let full := join_root project rel in
    let st' d n := Some {| digests := d; read_bytes_ := n; asked_ := S (asked_ st) |} in
    if islink F full then st' (Dict.set (digests st) rel linked_text) (read_bytes_ st)
    else if negb (FileOps.is_file F full) then st' (digests st) (read_bytes_ st)
    else match FileOps.read_bytes F full with
         | None => st' (digests st) (read_bytes_ st)
         | Some data =>
             let n := (read_bytes_ st + N.of_nat (String.length data))%N in
             if (MAX_ENTRY_BYTES <? n)%N then None
             else st' (Dict.set (digests st) rel (hex (sha256 data))) n
         end.
Fixpoint read_entries (F : fs) (project : path) (st : reading) (rels : list string) : option reading :=
  match rels with
  | [] => Some st
  | rel :: rels => st ← read_entry F project st rel; read_entries F project st rels
  end.
Definition entry_point_digests (F : fs) (project : path) : option (list (string * string)) :=
  rels ← ls_files F project;
  digests <$> read_entries F project {| digests := []; read_bytes_ := 0; asked_ := 0 |} rels.

(** ** The record of a signing

    One file for a project and the digest of its grant, in the folder of the
    user.  What is not canonical raises. *)
Notation records := (gmap (string * string) string).
Definition record_key (F : fs) (project : path) (grant_digest : string) : string * string :=
  (String.substring 0 16 (hex (sha256 (FileSystem.path_str (realpath_from F [] project)))), grant_digest).
Context {R : Runtime}.
Definition digests_json (l : list (string * string)) : json := JObj ((λ x, (x.1, JStr x.2)) <$> l).
Definition record_signed (F : fs) (rs : records) (project : path) (grant_digest : string)
    : result jcs_error records :=
  match entry_point_digests F project with
  | None => Ok rs
  | Some ds => text ← encode (digests_json ds); Ok (<[record_key F project grant_digest := text]> rs)
  end.
Definition _signed_digests (F : fs) (rs : records) (project : path) (grant_digest : option string)
    : option (list (string * json)) :=
  match grant_digest with
  | None | Some "" => None
  | Some d =>
      text ← rs !! record_key F project d;
      if utf8_valid text then match json_loads text with Some (JObj kvs) => Some kvs | _ => None end else None
  end.

(** ** What changed *)
Fixpoint rstrip_char (c : ascii) (s : string) : string :=
  match s with
  | "" => ""
  | String d t =>
      let t := rstrip_char c t in if String.eqb t "" && Ascii.eqb d c then "" else String d t
  end.
Definition strip_char (c : ascii) (s : string) : string := rstrip_char c (lstrip_char c s).
(** [token.split("::", 1)[0]] *)
Fixpoint before_colons (s : string) : string :=
  match s with
  | String ":" (String ":" _) | "" => ""
  | String c s => String c (before_colons s)
  end.
Definition uncovered (token : string) : option string :=
  if String.eqb token "" || startswith token "-" then None
  else
    let rel := strip_char "/" (replace_char "\" "/" (before_colons token)) in
    if negb (String.eqb rel "") && negb (_collected (rel +:+ "/x")) then Some rel else None.
Definition _named_uncovered (argv : list string) : list string := omap uncovered (tail argv).
Definition same_digest (now : option string) (signed : option json) : bool :=
  match now, default JNull signed with
  | Some h, JStr t => String.eqb h t
  | None, JNull => true
  | _, _ => false
  end.
Definition change_of (now : list (string * string)) (signed : list (string * json)) (p : string) : option Change :=
  if bool_decide (Dict.get now p = Some linked_text) then Some {| change_path := p; change_reason_of := LINKED |}
  else if negb (same_digest (Dict.get now p) (Dict.get signed p))
  then Some {| change_path := p; change_reason_of := CHANGED |} else None.
Definition changed_entry_points (F : fs) (rs : records) (project : path) (grant_digest : option string)
    (model_written : gset string) (record_project : path) (argv : list string) : list Change :=
  let changes :=
    ((λ p, {| change_path := p; change_reason_of := WRITTEN |}) <$>
       filter (λ p, is_entry_point p = true) (py_sorted String.leb (elements model_written)))
    ++ ((λ p, {| change_path := p; change_reason_of := NAMED_UNCOVERED |}) <$> _named_uncovered argv) in
  let shown := change_path <$> changes in
  let unshown l := filter (λ p, p ∉ shown) l in
  match entry_point_digests F project, _signed_digests F rs record_project grant_digest with
  | None, _ => changes ++ [{| change_path := "."; change_reason_of := UNKNOWN |}]
  | Some now, None =>
      changes ++ ((λ p, {| change_path := p; change_reason_of := CHANGED |}) <$>
                    unshown (py_sorted String.leb (Dict.keys now)))
  | Some now, Some signed =>
      changes ++ omap (change_of now signed)
                   (unshown (py_sorted String.leb (remove_dups (Dict.keys now ++ Dict.keys signed))))
  end.
End allowlist.

(** ** The session's approvals *)
Definition covers (approved : gset (list string)) (argv : list string) : bool := bool_decide (argv ∈ approved).
Definition add_approval (approved : gset (list string)) (argv : list string) : gset (list string) := {[argv]} ∪ approved.
