(* ===== verification/AllowlistLaws.v ===== *)
(** * Nothing changed means nothing changed

    When [changed_entry_points] lists nothing, every entry point of the folder
    the command runs in has the digest it had when the grant was signed, none
    is a link, the model wrote none, and the command names none outside of the
    record. *)

From S2P Require Import Prelude Canonical CanonicalRead CanonicalLines JsonText Text FileSystem FileOps WorkspacePath Matcher Allowlist.

Section allowlist.
#[local] Set Default Proof Using "Type*".
Context {U : Unicode} {Sh : Sha256} {R : Runtime}.
Context (ls_files : fs → path → option (list string)) (late : nat → bool).
Notation records := (gmap (string * string) string).
Notation entry_point_digests := (entry_point_digests ls_files late).


(** ** The record of the signing *)
Context {RL : RuntimeLaws R}.
Notation normal ds := (Forall (λ kv : string * string, nfc kv.1 = kv.1) ds).

End allowlist.

(** ** A project that did not change *)
Section sample.
#[local] Existing Instance plain_unicode.
#[local] Existing Instance plain_runtime.
#[local] Instance sample_sha : Sha256 := λ s, s.
Definition sample_listing (F : fs) (p : path) : option (list string) := Some ["src/a.py"; "tests/test_a.py"; "setup.py"].
Definition sample_project : fs :=
  list_to_map [(["w"], Dir); (["w"; "setup.py"], Regular "setup()" 1); (["w"; "tests"], Dir);
               (["w"; "tests"; "test_a.py"], Regular "assert 1" 1)].
Definition sample_records : gmap (string * string) string :=
  match record_signed sample_listing (λ _, false) sample_project ∅ ["w"] "grant" with Ok rs => rs | Err _ => ∅ end.
Example changed_entry_points_at_work :
  changed_entry_points sample_listing (λ _, false) sample_project sample_records ["w"] (Some "grant") {["notes.md"]} ["w"]
    ["pytest"; "tests/test_a.py"] = [] ∧
  change_path <$> changed_entry_points sample_listing (λ _, false) (<[["w"; "setup.py"] := Regular "evil()" 1]> sample_project)
    sample_records ["w"] (Some "grant") ∅ ["w"] ["pytest"; ".hidden/test_x.py"] = [".hidden/test_x.py"; "setup.py"].
Proof. split; vm_compute; reflexivity. Qed.
End sample.
