(* ===== verification/Grant.v ===== *)
(** * The tier-3 grant

    Models [policy/grant.py]: the rules a policy may have, the policy with its
    validity, its signature, the revocation list, and [load_grant].  What YAML
    and the schema library make of the text of a policy (the values, typed) is
    an argument; the constraints the source declares on them and its own
    validators are here.  Times are microseconds. *)

From S2P Require Import Prelude Canonical JsonText Text Handshake Matcher.

Definition MAX_DAYS : Z := 365.
Definition SIG_FORMAT : string := "ract-policy-sig/1".
Definition _DOMAIN : string := "ract-policy/1" +:+ String newline "".
Definition _TOO_BROAD : list string :=
  ["python"; "python3"; "py"; "node"; "deno"; "bun"; "ruby"; "perl"; "php"; "bash"; "sh"; "zsh"; "fish"; "cmd"; "cmd.exe";
   "powershell"; "pwsh"; "powershell.exe"; "pwsh.exe"; "python.exe"; "env"; "npx"; "uv"; "uvx"].
Definition _RUNTIME_RUNNERS : list string :=
  ["command"; "exec"; "flock"; "setsid"; "taskset"; "strace"; "chroot"; "unshare"; "xvfb-run"; "fakeroot"; "npx"; "uvx"; "pipx"].
Definition _CODE_MODULES : list string := ["pip"; "ensurepip"; "runpy"; "code"; "idlelib"].

(** ** A policy *)
Inductive home_kind := isolated | real.
Inductive backend_kind := host | wsl2 | container.
Inductive mode := ask | allowlist | unrestricted.
Inductive sandbox_kind := enforced | best_effort.
#[export] Instance mode_eq_dec : EqDecision mode.
Proof. solve_decision. Defined.
#[export] Instance backend_eq_dec : EqDecision backend_kind.
Proof. solve_decision. Defined.
Record Binding := { project_root : string; repo_root_commit : option string }.
Record AllowRule := {
  rule_id_ : string;
  rule_argv : list string;
  network : bool;
  cwd : string;
  timeout_s : Z;
  max_output_bytes : Z;
  home : home_kind;
  rule_env_extra : list string;
  git_hooks : bool;
  backend : backend_kind;
  image : option string;
}.
Record Limits := { max_procs : Z; memory_mb : Z; cpu_seconds : Z }.
(** A time as written: naive, or with its offset. *)
Record datetime := { written : Z; offset : option Z }.
Record Policy := {
  binding : Binding;
  issued : datetime;
  expires : datetime;
  policy_key : string;
  max_mode : mode;
  sandbox : sandbox_kind;
  allow_rules : list AllowRule;
  deny_rules : list (list string);
  shell_enabled : bool;
  allow_domains : option (list string);
  limits : Limits;
}.
(** [_utc] *)
Definition _utc (d : datetime) : Z := written d - default 0%Z (offset d).
Definition issued_at (p : Policy) : Z := _utc (issued p).
Definition expires_at (p : Policy) : Z := _utc (expires p).

Inductive problem : Type :=
| NotReadable (line : string)
| OutOfBounds (field : string)
| EmptyElement | TooBroad (argv : list string) | RunsCode (argv : list string)
| RunsAnother (argv : list string) (name : string) | UvRun | CodeModule (name : string)
| BadCwd | CwdLeaves | ImageNotPinned | ImageWithoutContainer
| Unrestricted | NotAfterIssue | TooLong.

Section rules.
Context {U : Unicode}.

(** ** The validators *)
Definition points (s : string) : Z := Z.of_nat (length (utf8_decode s)).
Definition between (lo hi n : Z) : bool := ((lo <=? n) && (n <=? hi))%Z.
Definition bounded (field : string) (ok : bool) : list problem := if ok then [] else [OutOfBounds field].
Definition hex_char (c : ascii) : bool :=
  let n := ord c in ((48 <=? n) && (n <=? 57) || (97 <=? n) && (n <=? 102))%N.
Definition lower_hex (n : nat) (s : string) : bool := (String.length s =? n)%nat && str_forall hex_char s.
Definition alnum_char (lower_only : bool) (extra : list ascii) (c : ascii) : bool :=
  let n := ord c in
  ((97 <=? n) && (n <=? 122) || (48 <=? n) && (n <=? 57) || negb lower_only && (65 <=? n) && (n <=? 90))%N
  || bool_decide (c ∈ extra).
(** Its [$] also matches before a final newline. *)
Definition _PINNED_IMAGE (s : string) : bool :=
  let body := default s (drop_suffix (String newline "") s) in
  let (name, hash) := partition_at "@" body in
  let (repo, tag) := partition_at ":" name in
  match hash with
  | Some hash =>
      match str_drop_prefix "sha256:" hash with Some h => lower_hex 64 h | None => false end
      && match repo with
         | String c rest => alnum_char true [] c && str_forall (alnum_char true ["."%char; "_"%char; "/"%char; "-"%char]) rest
         | "" => false
         end
      && match tag with
         | Some t => negb (String.eqb t "") && str_forall (alnum_char false ["."%char; "_"%char; "-"%char]) t
         | None => true
         end
  | None => false
  end.

Definition _narrow (argv : list string) : list problem :=
  match argv with
  | [] => []
  | first :: args =>
      let name := _name first in
      if existsb (λ part, String.eqb part "" || contains_char "000" part) argv then [EmptyElement]
      else if (length argv =? 1)%nat && mem (lower (path_name first)) _TOO_BROAD then [TooBroad argv]
      else if mem name _SHELLS || inline_code name args || bool_decide (is_Some (wrapped_code args)) then [RunsCode argv]
      else if mem name _WRAPPERS || Dict.mem _NEVER name || mem name _RUNTIME_RUNNERS then [RunsAnother argv name]
      else if bool_decide (take 2 argv = ["uv"; "run"]) then [UvRun]
      else match args with
           | "-m" :: m :: _ =>
               if mem name ["python"; "pypy"; "py"] && mem m _CODE_MODULES then [CodeModule m] else []
           | _ => []
           end
  end.
Definition _cwd (s : string) : list problem :=
  if negb (String.eqb s "step_worktree") && negb (startswith s "step_worktree/") then [BadCwd]
  else if mem ".." (split_char "/" s) then [CwdLeaves] else [].
Definition _image_pinned (r : AllowRule) : list problem :=
  match backend r with
  | container =>
      match image r with
      | None | Some "" => [ImageNotPinned]
      | Some i => if _PINNED_IMAGE i then [] else [ImageNotPinned]
      end
  | _ => match image r with Some _ => [ImageWithoutContainer] | None => [] end
  end.
(** A validator of a field runs when its bounds hold, that of the rule when
    every field is good. *)
Definition first_of (l l' : list problem) : list problem := match l with [] => l' | _ => l end.
Definition rule_problems (r : AllowRule) : list problem :=
  first_of
    (bounded "id" (between 1 64 (points (rule_id_ r)))
     ++ first_of (bounded "argv" (between 1 32 (Z.of_nat (length (rule_argv r))))) (_narrow (rule_argv r))
     ++ _cwd (cwd r)
     ++ bounded "timeout_s" (between 1 3600 (timeout_s r))
     ++ bounded "max_output_bytes" (between 1 (64 * 1048576) (max_output_bytes r))
     ++ bounded "image" (match image r with Some i => points i <=? 300 | None => true end)%Z)
    (_image_pinned r).
Definition binding_problems (b : Binding) : list problem :=
  bounded "project_root" (1 <=? points (project_root b))%Z
  ++ bounded "repo_root_commit" (match repo_root_commit b with Some c => lower_hex 40 c | None => true end).
Definition limits_problems (l : Limits) : list problem :=
  bounded "max_procs" (between 1 4096 (max_procs l)) ++ bounded "memory_mb" (between 64 1048576 (memory_mb l))
  ++ bounded "cpu_seconds" (between 1 86400 (cpu_seconds l)).
Definition key_id_ok (s : string) : bool :=
  match str_drop_prefix "ed25519:" s with Some h => lower_hex 16 h | None => false end.
Definition policy_problems (p : Policy) : list problem :=
  binding_problems (binding p) ++ bounded "key_id" (key_id_ok (policy_key p))
  ++ (if bool_decide (max_mode p = unrestricted) then [Unrestricted] else [])
  ++ flat_map rule_problems (allow_rules p)
  ++ flat_map (λ argv, bounded "argv" (1 <=? Z.of_nat (length argv))%Z) (deny_rules p)
  ++ limits_problems (limits p).

(** What [yaml.safe_load] and the types of the fields make of the text. *)
Context (typed : string → list string + Policy).
Definition parse_policy (text : string) : list problem + Policy :=
  match typed text with
  | inl lines => inl (NotReadable <$> lines)
  | inr p =>
      match policy_problems p with
      | [] =>
          let span := (expires_at p - issued_at p)%Z in
          if (span <=? 0)%Z then inl [NotAfterIssue]
          else if (MAX_DAYS * day <? span)%Z then inl [TooLong] else inr p
      | problems => inl problems
      end
  end.
(** What the matcher reads of a policy. *)
Definition for_matcher (p : Policy) : Matcher.Policy :=
  {| Matcher.allow := (λ r, {| Matcher.id := rule_id_ r; Matcher.allow_argv := rule_argv r;
                               Matcher.env_extra := rule_env_extra r |}) <$> allow_rules p;
     Matcher.deny := deny_rules p |}.
End rules.

(** ** The files *)

(** [.ract/policy.yaml], its signature, and the list of the user's folder
    ([Some None]: there and not readable). *)
Record grant_files := {
  policy_yaml : option string;
  policy_sig : option string;
  revoked_list : option (option string);
}.
Inductive grant_error : Type := RevocationListUnreadable.
Inductive Status := none | unsigned | invalid | not_yet | expired | revoked_ | suspended | ok_.
Inductive why_not : Type :=
| Holds | NoGrant | WasRevoked | ListUnreadable | NotSigned | NoKey | SignatureUnreadable | OtherKey
| SignatureMismatch | DoesNotValidate (problems : list problem) | NamesOtherKey | OtherFolder | OtherRepository
| CannotConfine | TooEarly | Expired | SUSPENDED_REASON.
Record GrantState := {
  grant_status : Status;
  grant_reason : why_not;
  grant_policy : option Policy;
  grant_digest : option string;
  pin : option string;
}.
Definition holds (g : GrantState) : bool := match grant_status g with ok_ => true | _ => false end.

Section grants.
Context {U : Unicode} {T : PyText} {R : Runtime} {Sh : Sha256} {Sg : Signing}.
Context (typed : string → list string + Policy) (H : Matcher.Host).
Context (repo_commit : string → option string) (sandbox_confines_commands : bool).

Definition _message (data : string) : string := _DOMAIN +:+ data.
Definition _same_folder (a b : string) : bool := String.eqb (realpath H a) (realpath H b).
Definition _pin_of (policy signature : string) : string := hex (sha256 (policy +:+ String "000" signature)).
Definition pin_digest (d : grant_files) : string := _pin_of (default "" (policy_yaml d)) (default "" (policy_sig d)).

(** ** Revocation *)
Definition revoked (d : grant_files) : result grant_error (list string) :=
  match revoked_list d with
  | None => Ok []
  | Some None => Err RevocationListUnreadable
  | Some (Some text) =>
      match (if utf8_valid text then json_loads text else None) with
      | Some (JArr l) => Ok (omap (λ x, match x with JStr s => Some s | _ => None end) l)
      | _ => Err RevocationListUnreadable
      end
  end.
Definition revoke (d : grant_files) : grant_files * result grant_error (option string) :=
  match policy_yaml d with
  | None => ({| policy_yaml := None; policy_sig := None; revoked_list := revoked_list d |}, Ok None)
  | Some data =>
      let digest := hex (sha256 data) in
      match revoked d with
      | Err e => (d, Err e)
      | Ok listed =>
          let text := json_dumps None (JArr (JStr <$> py_sorted String.leb (remove_dups (digest :: listed)))) in
          ({| policy_yaml := Some data; policy_sig := None; revoked_list := Some (Some text) |}, Ok (Some digest))
      end
  end.

(** ** Loading *)
Definition str_is (v : option json) (s : string) : bool :=
  match v with Some (JStr t) => String.eqb t s | _ => false end.
(** The signature file: its fields and the bytes of the signature. *)
Definition read_signature (sig_bytes : string) : option (list (string * json) * string) :=
  match (if utf8_valid sig_bytes then json_loads sig_bytes else None) with
  | Some (JObj sig) =>
      match Dict.get sig "signature" with
      | Some (JStr text) => signature ← b64decode text; Some (sig, signature)
      | _ => None
      end
  | _ => None
  end.
(** The checks after the signature matched. *)
Definition check_policy (project : string) (now : Z) (key_id data : string) : Status * why_not * option Policy :=
  match (if utf8_valid data then parse_policy typed data else inl [NotReadable "not UTF-8"]) with
  | inl problems => (invalid, DoesNotValidate problems, None)
  | inr policy =>
      if negb (String.eqb (policy_key policy) key_id) then (invalid, NamesOtherKey, None)
      else if negb (_same_folder (project_root (binding policy)) project) then (invalid, OtherFolder, None)
      else if match repo_root_commit (binding policy) with
              | Some c => negb (bool_decide (repo_commit project = Some c)) | None => false end
      then (invalid, OtherRepository, None)
      else if match sandbox policy with enforced => negb sandbox_confines_commands | best_effort => false end
      then (invalid, CannotConfine, Some policy)
      else if (now <? issued_at policy - 300 * second)%Z then (not_yet, TooEarly, Some policy)
      else if (expires_at policy <=? now)%Z then (expired, Expired, Some policy)
      else (ok_, Holds, Some policy)
  end.
Definition decide_grant (d : grant_files) (project : string) (now : Z) (data : string)
    : Status * why_not * option Policy :=
  let digest := hex (sha256 data) in
  match revoked d with
  | Err _ => (invalid, ListUnreadable, None)
  | Ok listed =>
      if bool_decide (digest ∈ listed) then (revoked_, WasRevoked, None)
      else match policy_sig d, pinned with
      | None, _ => (unsigned, NotSigned, None)
      | Some _, None => (unsigned, NoKey, None)
      | Some sig_bytes, Some (key_id, key) =>
          match read_signature sig_bytes with
          | None => (invalid, SignatureUnreadable, None)
          | Some (sig, signature) =>
              if negb (str_is (Dict.get sig "format") SIG_FORMAT && str_is (Dict.get sig "key_id") key_id)
              then (invalid, OtherKey, None)
              else if negb (str_is (Dict.get sig "sha256") digest && verify key signature (_message data))
              then (invalid, SignatureMismatch, None)
              else check_policy project now key_id data
          end
      end
  end.
Definition load_grant (d : grant_files) (project : string) (now : Z) : GrantState :=
  let '(st, why, policy) :=
    match policy_yaml d with None => (none, NoGrant, None) | Some data => decide_grant d project now data end in
  {| grant_status := st; grant_reason := why; grant_policy := policy;
     grant_digest := (λ data, hex (sha256 data)) <$> policy_yaml d; pin := Some (pin_digest d) |}.

(** ** Signing *)
Inductive sign_error : Type := SignProblems (problems : list problem) | NotText | NotYourKey | NotThisFolder | NoPolicyFile | LinkedState.
(** [link] says that a link stands on the way to the signature file. *)
Definition sign_policy (d : grant_files) (project : string) (signer : string * private_key) (link : bool)
    : result sign_error (grant_files * string) :=
  match policy_yaml d with
  | None => Err NoPolicyFile
  | Some data =>
      if negb (utf8_valid data) then Err NotText
      else match parse_policy typed data with
      | inl problems => Err (SignProblems problems)
      | inr policy =>
          if negb (String.eqb (policy_key policy) signer.1) then Err NotYourKey
          else if negb (_same_folder (project_root (binding policy)) project) then Err NotThisFolder
          else
            let digest := hex (sha256 data) in
            let sig := JObj [("format", JStr SIG_FORMAT); ("key_id", JStr signer.1); ("sha256", JStr digest);
                             ("signature", JStr (b64encode (sign signer.2 (_message data))))] in
            if link then Err LinkedState
            else Ok ({| policy_yaml := Some data; policy_sig := Some (json_dumps (Some 2) sig);
                        revoked_list := revoked_list d |}, digest)
      end
  end.
End grants.
