(* ===== verification/GrantLaws.v ===== *)
(** * What a grant that holds means

    A grant holds exactly when its bytes are signed by the pinned key, not
    revoked, valid, bound here and in its time; a revoked one never holds
    again; the pin fixes the files. *)

From S2P Require Import Prelude Canonical CanonicalLines JsonText Text Handshake HandshakeLaws Matcher MatcherLaws Grant.

Section laws.
#[local] Set Default Proof Using "Type*".
Context {U : Unicode} {T : PyText} {R : Runtime} {Sh : Sha256} {Sg : Signing}.
Context (typed : string → list string + Policy) (H : Matcher.Host).
Context (repo_commit : string → option string) (confines : bool).
Notation load_grant := (load_grant typed H repo_commit confines).
Notation parse_policy := (parse_policy typed).

Lemma parse_policy_inr text p : parse_policy text = inr p ↔
  typed text = inr p ∧ policy_problems p = [] ∧ (issued_at p < expires_at p ≤ issued_at p + MAX_DAYS * day)%Z.
Proof.
  unfold Grant.parse_policy. destruct (typed text) as [|q]; [by split; [|intros [? _]]|].
  destruct (policy_problems q) as [|x l] eqn:E.
  - destruct (Z.leb_spec (expires_at q - issued_at q) 0); [|destruct (Z.ltb_spec (MAX_DAYS * day) (expires_at q - issued_at q))].
    + split; [done|]. intros ([= ->] & _ & ?). lia.
    + split; [done|]. intros ([= ->] & _ & ?). lia.
    + split; [intros [= ->]; split_and!; [done..|lia|lia]|by intros ([= ->] & _)].
  - split; [done|]. intros ([= ->] & ? & _). congruence.
Qed.

(** ** A grant that holds *)
Record signed_here (d : grant_files) (data key_id : string) : Prop := {
  sh_sig : ∃ sig_bytes fields signature key, policy_sig d = Some sig_bytes ∧ pinned = Some (key_id, key) ∧
    read_signature sig_bytes = Some (fields, signature) ∧
    str_is (Dict.get fields "format") SIG_FORMAT = true ∧ str_is (Dict.get fields "key_id") key_id = true ∧
    str_is (Dict.get fields "sha256") (hex (sha256 data)) = true ∧ verify key signature (_message data) = true;
}.
Record grant_good (d : grant_files) (project : string) (now : Z) (data : string) (p : Policy) : Prop := {
  gg_data : policy_yaml d = Some data;
  gg_listed : ∃ listed, revoked d = Ok listed ∧ hex (sha256 data) ∉ listed;
  gg_signed : signed_here d data (policy_key p);
  gg_parsed : utf8_valid data = true ∧ parse_policy data = inr p;
  gg_folder : realpath H (project_root (binding p)) = realpath H project;
  gg_commit c : repo_root_commit (binding p) = Some c → repo_commit project = Some c;
  gg_sandbox : sandbox p = enforced → confines = true;
  gg_time : (issued_at p - 300 * second ≤ now < expires_at p)%Z;
}.
Lemma check_policy_ok project now key_id data why o : check_policy typed H repo_commit confines project now key_id data = (ok_, why, o) ↔
  why = Holds ∧ ∃ p, o = Some p ∧ utf8_valid data = true ∧ parse_policy data = inr p ∧ policy_key p = key_id ∧
    realpath H (project_root (binding p)) = realpath H project ∧
    (∀ c, repo_root_commit (binding p) = Some c → repo_commit project = Some c) ∧
    (sandbox p = enforced → confines = true) ∧ (issued_at p - 300 * second ≤ now < expires_at p)%Z.
Proof.
  unfold check_policy, _same_folder. split.
  - destruct (utf8_valid data); [|done]. destruct (parse_policy data) as [?|p]; [done|].
    destruct (String.eqb_spec (policy_key p) key_id) as [Hk|]; [|done].
    destruct (String.eqb_spec (realpath H (project_root (binding p))) (realpath H project)) as [Hf|]; [|done].
    cbn [negb]. destruct (match repo_root_commit (binding p) with Some c => _ | None => false end) eqn:Ec; [done|].
    destruct (match sandbox p with enforced => _ | best_effort => false end) eqn:Es; [done|].
    destruct (Z.ltb_spec now (issued_at p - 300 * second)); [done|].
    destruct (Z.leb_spec (expires_at p) now); [done|]. intros [= <- <-]. split; [done|]. exists p. split_and!; try done.
    + intros c E. rewrite E in Ec. by apply negb_false_iff, bool_decide_eq_true in Ec.
    + intros E. rewrite E in Es. by apply negb_false_iff in Es.
  - intros (-> & p & -> & -> & -> & -> & -> & Hc & Hs & Ht). rewrite !String.eqb_refl. cbn [negb].
    destruct (repo_root_commit (binding p)) as [c|].
    + rewrite bool_decide_true by by apply Hc. cbn [negb]. destruct (sandbox p); [rewrite Hs by done; cbn [negb]|].
      all: destruct (Z.ltb_spec now (issued_at p - 300 * second)); [lia|]; by destruct (Z.leb_spec (expires_at p) now); [lia|].
    + destruct (sandbox p); [rewrite Hs by done; cbn [negb]|].
      all: destruct (Z.ltb_spec now (issued_at p - 300 * second)); [lia|]; by destruct (Z.leb_spec (expires_at p) now); [lia|].
Qed.

Lemma load_grant_ok d project now p :
  grant_status (load_grant d project now) = ok_ ∧ grant_policy (load_grant d project now) = Some p ↔
  ∃ data, grant_good d project now data p.
Proof.
  unfold Grant.load_grant, decide_grant. split.
  - destruct (policy_yaml d) as [data|] eqn:Ed; [|by intros [? _]].
    destruct (revoked d) as [listed|] eqn:El; [|by intros [? _]]. case_bool_decide as Hl; [by intros [? _]|].
    destruct (policy_sig d) as [sb|] eqn:Es; [|by intros [? _]].
    destruct pinned as [[kid key]|] eqn:Ep; [|by intros [? _]].
    destruct (read_signature sb) as [[fields sg]|] eqn:Er; [|by intros [? _]].
    destruct (str_is _ SIG_FORMAT && _) eqn:E1; [|by intros [? _]]. apply andb_true_iff in E1 as [E1 E2].
    destruct (str_is _ _ && _) eqn:E3; [|by intros [? _]]. apply andb_true_iff in E3 as [E3 E4]. cbn [negb].
    destruct (check_policy _ _ _ _ _ _ _ _) as [[st why] o] eqn:Ec. cbn. intros [-> ->].
    apply check_policy_ok in Ec as (_ & q & [= <-] & Hu & Hp & Hk & ? & ? & ? & ?). exists data.
    split; try done; [by exists listed|]. split. exists sb, fields, sg, key. by subst kid.
  - intros (data & [-> (listed & -> & Hl) [(sb & fields & sg & key & -> & Ep & -> & E1 & E2 & E3 & E4)] (Hu & Hp) Hf Hc Hs Ht]).
    rewrite bool_decide_false, Ep, E1, E2, E3, E4 by done. cbn [andb negb].
    destruct (check_policy typed H repo_commit confines project now (policy_key p) data) as [[st why] o] eqn:Ec.
    assert (check_policy typed H repo_commit confines project now (policy_key p) data = (ok_, Holds, Some p)) as E.
    { apply check_policy_ok. split; [done|]. by exists p. }
    rewrite Ec in E. by injection E as -> -> ->.
Qed.

(** C24: the grant holds exactly when its bytes are signed by the pinned key and
    not revoked, and the policy in them is valid, bound to this folder and
    repository, and in its time. *)
Theorem grant_holds_iff d project now p :
  grant_status (load_grant d project now) = ok_ ∧ grant_policy (load_grant d project now) = Some p ↔
  ∃ data, grant_good d project now data p.
Proof. apply load_grant_ok. Qed.
End laws.

(** ** Revocation *)
Section revocation.
#[local] Set Default Proof Using "Type*".
Context {R : Runtime} {Sh : Sha256}.
Notation valid l := (Forall (λ s, utf8_valid s = true) l).
Lemma strings_read l : valid l → (if utf8_valid (json_dumps None (JArr (JStr <$> l)))
  then json_loads (json_dumps None (JArr (JStr <$> l))) else None) = Some (JArr (JStr <$> l)).
Proof.
  intros Hl. assert (json_good (JArr (JStr <$> l))) as Hg.
  { constructor. apply Forall_fmap. eapply Forall_impl; [exact Hl|]. intros s Hs. by constructor. }
  by rewrite dumps_utf8, loads_dumps.
Qed.
Lemma texts_of_strings (l : list string) : omap (λ x, match x with JStr s => Some s | _ => None end) (JStr <$> l) = l.
Proof. induction l as [|x l IH]; [done|]. cbn. by f_equal. Qed.
(** The digests revoked on this machine: the list starts empty, the files of
    the project change in any way, and grants are revoked. *)
Inductive revocations : grant_files → list string → Prop :=
| no_list y s : revocations {| policy_yaml := y; policy_sig := s; revoked_list := None |} []
| other_files d l y s : revocations d l →
    revocations {| policy_yaml := y; policy_sig := s; revoked_list := revoked_list d |} l
| one_more d l d' dg : revocations d l → revoke d = (d', Ok (Some dg)) → revocations d' (dg :: l).
Lemma hex_valid s : utf8_valid (hex (sha256 s)) = true.
Proof. apply utf8_valid_ascii, hex_ascii. Qed.
Lemma revocations_listed d l : revocations d l → ∃ listed, revoked d = Ok listed ∧ valid listed ∧ l ⊆ listed.
Proof.
  induction 1 as [y s|d l y s _ IH|d l d' dg _ (listed & El & Hv & Hl) Hr].
  - by exists [].
  - exact IH.
  - unfold revoke in Hr. destruct (policy_yaml d) as [data|]; [|done]. rewrite El in Hr. injection Hr as <- <-.
    unfold revoked. cbn [revoked_list]. set (all := py_sorted _ _).
    assert (∀ x, x ∈ all ↔ x ∈ hex (sha256 data) :: listed) as Hall.
    { intros x. unfold all. rewrite elem_of_py_sorted. apply (elem_of_remove_dups (hex (sha256 data) :: listed)). }
    assert (valid all) as Ha.
    { apply Forall_forall. intros x [->|Hx]%Hall%elem_of_cons; [apply hex_valid|]. by eapply Forall_forall in Hv. }
    rewrite strings_read by done. exists all. rewrite texts_of_strings. split_and!; [done..|]. intros x Hx. apply Hall. set_solver.
Qed.

(** ** The pin *)

(** Two pairs of files with one pin are equal up to a file that is empty, or
    they are a collision of the digest. *)
Lemma app_nul_inj a b c d : contains_char "000" a = false → contains_char "000" c = false →
  a +:+ String "000" b = c +:+ String "000" d → a = c ∧ b = d.
Proof.
  revert c. induction a as [|x a IH]; intros [|y c] Ha Hc E; cbn in *.
  - by injection E.
  - injection E as <- _. done.
  - injection E as -> _. done.
  - injection E as <- E. apply orb_false_iff in Ha as [_ Ha], Hc as [_ Hc]. by destruct (IH c Ha Hc E) as [-> ->].
Qed.
Lemma pin_same d d' : contains_char "000" (default "" (policy_yaml d)) = false →
  contains_char "000" (default "" (policy_yaml d')) = false → pin_digest d = pin_digest d' →
  default "" (policy_yaml d) = default "" (policy_yaml d') ∧ default "" (policy_sig d) = default "" (policy_sig d') ∨
  ∃ a b, a ≠ b ∧ sha256 a = sha256 b.
Proof.
  intros H1 H2 E%(inj hex). destruct (decide (default "" (policy_yaml d) +:+ String "000" (default "" (policy_sig d)) =
    default "" (policy_yaml d') +:+ String "000" (default "" (policy_sig d')))) as [E'|Hne]; [left|right; eauto].
  by apply app_nul_inj in E'.
Qed.
End revocation.

Section revoked_grants.
#[local] Set Default Proof Using "Type*".
Context {U : Unicode} {T : PyText} {R : Runtime} {Sh : Sha256} {Sg : Signing}.
Context (typed : string → list string + Policy) (H : Matcher.Host).
Context (repo_commit : string → option string) (confines : bool).
(** C28: a grant revoked once is revoked ever after, also when its files come
    back, signed or not. *)
Theorem revoked_never_holds d l project now data : revocations d l → policy_yaml d = Some data →
  hex (sha256 data) ∈ l →
  grant_status (load_grant typed H repo_commit confines d project now) = revoked_.
Proof.
  intros Hd Ed Hin. destruct (revocations_listed d l Hd) as (listed & El & _ & Hl).
  unfold load_grant, decide_grant. rewrite Ed, El, bool_decide_true by set_solver. done.
Qed.

(** ** Signing *)
Context {SgL : SigningLaws Sg}.
Definition signature_fields (signer : string * private_key) (data : string) : list (string * json) :=
  [("format", JStr SIG_FORMAT); ("key_id", JStr signer.1); ("sha256", JStr (hex (sha256 data)));
   ("signature", JStr (b64encode (sign signer.2 (_message data))))].
Lemma signature_reads signer data : utf8_valid signer.1 = true →
  read_signature (json_dumps (Some 2) (JObj (signature_fields signer data))) =
  Some (signature_fields signer data, sign signer.2 (_message data)).
Proof.
  intros Hs. assert (json_good (JObj (signature_fields signer data))) as Hg.
  { constructor.
    - apply (bool_decide_unpack _). by vm_compute.
    - repeat constructor.
    - repeat (apply Forall_cons; split; cbn [snd]); constructor; try done; apply utf8_valid_ascii;
        auto using hex_ascii, b64_ascii. }
  unfold read_signature. rewrite dumps_utf8, loads_dumps by done.
  change (Dict.get (signature_fields signer data) "signature")
    with (Some (JStr (b64encode (sign signer.2 (_message data))))).
  cbn [mbind option_bind]. by rewrite b64_roundtrip.
Qed.
(** a policy the operator signs is a grant that holds in its time, unless
    it was revoked, is for another repository or asks for a confinement this
    machine does not have. *)
Theorem signing_grants d d' project signer digest listed now :
  sign_policy typed H d project signer false = Ok (d', digest) →
  pinned = Some (signer.1, public_of signer.2) → utf8_valid signer.1 = true →
  revoked d = Ok listed → digest ∉ listed →
  ∃ data p, policy_yaml d' = Some data ∧ parse_policy typed data = inr p ∧
    (grant_status (load_grant typed H repo_commit confines d' project now) = ok_ ↔
     (issued_at p - 300 * second ≤ now < expires_at p)%Z ∧ (sandbox p = enforced → confines = true) ∧
     ∀ c, repo_root_commit (binding p) = Some c → repo_commit project = Some c).
Proof.
  intros E Hp Hu El Hl. unfold sign_policy in E. destruct (policy_yaml d) as [data|] eqn:Ed; [|done].
  destruct (utf8_valid data) eqn:Eu; [|done]. cbn [negb] in E. destruct (parse_policy typed data) as [|p] eqn:Ep; [done|].
  destruct (String.eqb_spec (policy_key p) signer.1) as [Hk|]; [|done]. cbn [negb] in E.
  destruct (_same_folder H _ project) eqn:Ef; [|done]. cbn [negb] in E. injection E as <- <-. exists data, p.
  split; [done|]. split; [done|]. apply String.eqb_eq in Ef.
  pose proof (signature_reads signer data Hu) as Hr. unfold signature_fields in Hr. split.
  - intros Hst. set (g := load_grant _ _ _ _ _ _ _) in Hst.
    assert (∃ q, grant_policy g = Some q) as [q Hq].
    { unfold g, load_grant, decide_grant in *. cbn [policy_yaml policy_sig] in *. unfold revoked in *. cbn [revoked_list] in *.
      rewrite El in *. rewrite bool_decide_false in * by done. rewrite Hp, Hr in *.
      destruct (str_is _ SIG_FORMAT && _); [|done]. destruct (str_is _ _ && _); [|done]. cbn [negb] in *.
      destruct (check_policy _ _ _ _ _ _ _ _) as [[st why] o] eqn:Ec. cbn in Hst. subst st.
      apply check_policy_ok in Ec as (_ & q & -> & _). by exists q. }
    destruct (proj1 (load_grant_ok typed H repo_commit confines _ project now q) (conj Hst Hq)) as (data' & G).
    pose proof (gg_data _ _ _ _ _ _ _ _ _ G) as E. injection E as <-.
    destruct (gg_parsed _ _ _ _ _ _ _ _ _ G) as [_ E]. rewrite Ep in E. injection E as <-.
    split_and!; apply G.
  - intros (Ht & Hs & Hc). apply (load_grant_ok typed H repo_commit confines _ project now p). exists data. split; try done.
    + by exists listed.
    + split. eexists _, _, _, _. split_and!; [done|by rewrite Hk|exact Hr|done|..].
      * cbn. rewrite Hk. apply String.eqb_refl.
      * cbn. apply String.eqb_refl.
      * apply verify_sign.
Qed.
End revoked_grants.

(** ** A grant on a concrete machine *)
Section sample.
#[local] Existing Instance plain_unicode.
#[local] Existing Instance plain_runtime.
#[local] Existing Instance plain_pytext.
#[local] Existing Instance HandshakeLaws.sample_sha.
Definition operator_key : string := "ed25519:0123456789abcdef".
#[local] Instance grant_signing : Signing := {|
  private_key := string; public_key := string;
  sign k m := k +:+ ":" +:+ m; verify k s m := String.eqb s (k +:+ ":" +:+ m);
  public_of k := k; pinned := Some (operator_key, "secret");
  b64encode := hex; b64decode := fromhex;
  utc_format := @utc_format HandshakeLaws.sample_signing; utc_parse := @utc_parse HandshakeLaws.sample_signing |}.
#[local] Instance grant_signing_laws : SigningLaws grant_signing.
Proof. destruct HandshakeLaws.sample_signing_laws as [? ? ? ? ?]. by split. Qed.
Definition rule_of (argv : list string) : AllowRule :=
  {| rule_id_ := "tests"; rule_argv := argv; network := false; cwd := "step_worktree"; timeout_s := 900;
     max_output_bytes := 1048576; home := isolated; rule_env_extra := []; git_hooks := false; backend := host; image := None |}.
Definition policy_of (argv : list string) : Policy :=
  {| binding := {| project_root := "/work"; repo_root_commit := None |};
     issued := {| written := 0; offset := None |}; expires := {| written := 90 * day; offset := Some (0%Z) |};
     policy_key := operator_key; max_mode := allowlist; sandbox := best_effort; allow_rules := [rule_of argv];
     deny_rules := []; shell_enabled := false; allow_domains := None;
     limits := {| max_procs := 64; memory_mb := 4096; cpu_seconds := 900 |} |}.
Definition sample_typed (text : string) : list string + Policy :=
  if String.eqb text "policy" then inr (policy_of ["pytest"]) else inl ["not YAML"].
Definition no_commit (project : string) : option string := None.
Definition unsigned_files : grant_files := {| policy_yaml := Some "policy"; policy_sig := None; revoked_list := None |}.
Definition operator : string * string := (operator_key, "secret").
Definition signed_files : grant_files :=
  match sign_policy sample_typed MatcherLaws.sample_host unsigned_files "/work" operator false with
  | Ok (d, _) => d | Err _ => unsigned_files end.

Lemma signing_grants_witness : ∃ data p,
  policy_yaml signed_files = Some data ∧ parse_policy sample_typed data = inr p ∧
  (grant_status (load_grant sample_typed MatcherLaws.sample_host no_commit false signed_files "/work" 5) = ok_ ↔
   (issued_at p - 300 * second ≤ 5 < expires_at p)%Z ∧ (sandbox p = enforced → false = true) ∧
   ∀ c, repo_root_commit (binding p) = Some c → no_commit "/work" = Some c).
Proof.
  apply (signing_grants (SgL := grant_signing_laws) sample_typed MatcherLaws.sample_host no_commit false
    unsigned_files signed_files "/work" operator (hex (sha256 "policy")) [] 5);
    [vm_compute; reflexivity|reflexivity|reflexivity|reflexivity|by intros ?%elem_of_nil].
Defined.
Lemma revoked_never_holds_witness :
  let d := (revoke signed_files).1 in
  let back := {| policy_yaml := Some "policy"; policy_sig := policy_sig signed_files; revoked_list := revoked_list d |} in
  grant_status (load_grant sample_typed MatcherLaws.sample_host no_commit false back "/work" 5) = revoked_.
Proof.
  intros d back. apply (revoked_never_holds sample_typed MatcherLaws.sample_host no_commit false back [hex (sha256 "policy")]
    "/work" 5 "policy"); [|reflexivity|by left].
  apply (other_files d). apply (one_more signed_files [] d (hex (sha256 "policy"))); [|vm_compute; reflexivity].
  apply no_list.
Defined.

(** ** Where the rules are wider than they say *)

(** An interpreter alone is too broad; one that names its version is not, and
    stands for every command of that interpreter. *)
Definition with_python : Matcher.Host := {|
  is_file := λ p, mem p ["/usr/bin/python"]; can_execute := λ _, true; realpath := path_str;
  digest := λ _, Some "d"; environ_path := "/usr/bin" |}.
Lemma versioned_interpreter_alone :
  _narrow ["python3"] = [TooBroad ["python3"]] ∧ rule_problems (rule_of ["python3.12"]) = [] ∧
  outcome (classify with_python ["python"; "anything.py"] (Some (for_matcher (policy_of ["python3.12"]))) "/work" [] None [])
    = matches.
Proof. split_and!; vm_compute; reflexivity. Qed.
(** A module joined to its option is not looked at. *)
Lemma joined_code_module :
  _narrow ["python"; "-m"; "pip"; "install"] = [CodeModule "pip"] ∧ _narrow ["python"; "-mpip"; "install"] = [] ∧
  outcome (classify with_python ["python"; "-mpip"; "install"; "x"]
    (Some (for_matcher (policy_of ["python"; "-mpip"; "install"]))) "/work" [] None []) = matches.
Proof. split_and!; vm_compute; reflexivity. Qed.
(** The end of an image also matches before a newline. *)
Lemma pinned_image_newline :
  let i := "name@sha256:" +:+ str_join "" (replicate 64 "a") in
  _PINNED_IMAGE i = true ∧ _PINNED_IMAGE (i +:+ String newline "") = true.
Proof. split; vm_compute; reflexivity. Qed.
End sample.
