(* ===== verification/Tier3.v ===== *)
(** * A tier-3 command, from the grant to the run

    Models [policy/tier3.py] and the decision of [tools/tests_tool.py]: the
    context of a step, the pin of the grant's files, the test rule and its
    selectors, and [run_under_rule], the one path every tier-3 tool takes, up
    to the call of [run_command].  The operator's answer is an argument: what
    they answer to the facts shown, and the files as they are after it. *)

From S2P Require Import Prelude Canonical JsonText Text FileSystem FileOps WorkspacePath Handshake Matcher Allowlist Grant.

#[export] Instance outcome_eq_dec : EqDecision Outcome.
Proof. solve_decision. Defined.

(** ** The context of a step *)
Inductive answer := Declined | Approved | ForSession.
Record Facts := {
  f_argv : list string;
  f_executable : option string;
  f_network : bool;
  f_confined : option string;
  f_rule : string;
  f_timeout : Z;
  f_why : Matcher.reason;
  f_reason : string;
  f_notes : list string;
  f_follows : bool;
  f_entry_points : list Change;
  f_session_choice : bool;
}.
Record Tier3Context := {
  grant : GrantState;
  ctx_mode : mode;
  model_written : gset string;
  expected_pin : option string;
  session_approvals : option (gset (list string));
}.
Definition suspend (g : GrantState) : GrantState :=
  {| grant_status := suspended; grant_reason := SUSPENDED_REASON; grant_policy := None;
     grant_digest := grant_digest g; pin := pin g |}.
Definition with_grant (c : Tier3Context) (g : GrantState) : Tier3Context :=
  {| grant := g; ctx_mode := ctx_mode c; model_written := model_written c;
     expected_pin := expected_pin c; session_approvals := session_approvals c |}.
Definition with_approval (c : Tier3Context) (argv : list string) : Tier3Context :=
  {| grant := grant c; ctx_mode := ctx_mode c; model_written := model_written c; expected_pin := expected_pin c;
     session_approvals := (λ a, add_approval a argv) <$> session_approvals c |}.
Definition is_suspended (g : GrantState) : bool := match grant_status g with suspended => true | _ => false end.

(** Why nothing ran. *)
Inductive refusal : Type :=
| TierOff (why : why_not)
| NoTestRule
| CommandRefused (why : Matcher.reason)
| OtherBackend (rule : string)
| NobodyAnswers
| YouDeclined.
Inductive approval := ByRule | BySession | ByOperator | ByOperatorForSession.
(** What [run_command] is called with. *)
Record run := {
  run_match : Match;
  run_rule : Grant.AllowRule;
  run_digest : option string;
  run_approved : approval;
}.

Section tier3.
Context {U : Unicode} {T : PyText} {R : Runtime} {Sh : Sha256} {Sg : Signing}.
Context (typed : string → list string + Grant.Policy) (H : Matcher.Host).
Context (repo_commit : string → option string) (sandbox_confines_commands : bool) (backend_name : option string).
Context (ls_files : fs → path → option (list string)) (late : nat → bool).
Notation records := (gmap (string * string) string).
Notation load_grant := (load_grant typed H repo_commit sandbox_confines_commands).

Definition check_pin (d : grant_files) (c : Tier3Context) : Tier3Context :=
  if is_suspended (grant c) then c
  else match expected_pin c with
       | None => c
       | Some p => if String.eqb (pin_digest d) p then c else with_grant c (suspend (grant c))
       end.
Definition for_project (d : grant_files) (project : string) (now : Z) (pin_ : option string) (asked : mode)
    (written : gset string) (approvals : option (gset (list string))) : Tier3Context :=
  let g := load_grant d project now in
  let g := match pin_ with
           | Some p => if bool_decide (pin g = Some p) then g else suspend g
           | None => g
           end in
  let allowed := match grant_policy g with Some p => max_mode p | None => ask end in
  {| grant := g;
     ctx_mode := if bool_decide (asked = allowlist ∧ allowed = allowlist) then allowlist else ask;
     model_written := written;
     expected_pin := match pin_ with Some p => Some p | None => pin g end;
     session_approvals := approvals |}.
(** The context with a grant that holds, or why tier 3 is off. *)
Definition tier3_context (d : grant_files) (c : Tier3Context) : Tier3Context * (refusal + Grant.Policy) :=
  let c := check_pin d c in
  match grant_policy (grant c) with
  | Some p => if holds (grant c) then (c, inr p) else (c, inl (TierOff (grant_reason (grant c))))
  | None => (c, inl (TierOff (grant_reason (grant c))))
  end.

(** ** The test rule and the selectors *)
Definition runners : list (list string) := [["python"; "-m"; "pytest"]; ["pytest"]; ["npm"; "test"]].
Definition _test_rule (p : Grant.Policy) : option Grant.AllowRule :=
  match head (filter (λ r, rule_id_ r = "tests") (allow_rules p)) with
  | Some r => Some r
  | None => head (filter (λ r, rule_argv r ∈ runners) (allow_rules p))
  end.
Definition selector_ok (s : string) : bool :=
  let p := replace_char "\" "/" (before_colons s) in
  negb (String.eqb s "" || startswith s "-" || contains_char "000" s || (300 <? length (utf8_decode s))%nat
        || isabs p || contains_char ":" p || mem ".." (path_parts p)).
Definition selectors_ok (selectors : list string) : bool :=
  (length selectors <=? 32)%nat && forallb selector_ok selectors.
Definition is_pytest (r : Grant.AllowRule) : bool :=
  mem "pytest" ((λ a, let n := lower (path_name a) in default n (drop_suffix ".exe" n)) <$> rule_argv r).
Definition test_argv (r : Grant.AllowRule) (selectors : list string) : list string :=
  rule_argv r ++ (if is_pytest r && negb (bool_decide (selectors = [])) then ["--"] else []) ++ selectors.
Definition _RUNNER_FILES : list string :=
  ["conftest.py"; "pytest.ini"; "pyproject.toml"; "tox.ini"; "setup.cfg"; "package.json"; "jest.config.js"; "vitest.config.ts"].
(** The files of the session the prompt names. *)
Definition project_code (written : gset string) : list string :=
  py_sorted String.leb (filter (λ p, mem (path_name p) _RUNNER_FILES || is_test_file p = true) (elements written)).

(** ** [run_under_rule]

    [F] and [root] are the files and the folder the command runs in, [approve]
    the operator, [None] when nobody can answer, and [after] the grant's files
    when the question is over. *)
Definition other_backend (p : Grant.Policy) (r : Grant.AllowRule) (m : Match) : option string :=
  rule_id_ <$> head (filter (λ n, backend n ≠ host)
    (r :: filter (λ n, Some (rule_id_ n) = rule_id m) (allow_rules p))).
Definition may_answer (m : Match) (r : Grant.AllowRule) (changes : list Change) (steered : bool) : bool :=
  bool_decide (outcome m = matches ∧ rule_id m = Some (rule_id_ r) ∧ changes = []) && negb steered.
Definition answers_itself (c : Tier3Context) (m : Match) (r : Grant.AllowRule) (changes : list Change) (steered : bool)
    : option approval :=
  if may_answer m r changes steered then
    if bool_decide (ctx_mode c = allowlist) then Some ByRule
    else match session_approvals c with
         | Some a => if covers a (argv m) then Some BySession else None
         | None => None
         end
  else None.
Definition facts_of (c : Tier3Context) (m : Match) (r : Grant.AllowRule) (changes : list Change) (steered : bool)
    (reason : string) (notes_ : list string) : Facts :=
  {| f_argv := argv m; f_executable := executable m; f_network := network r; f_confined := backend_name;
     f_rule := rule_id_ r; f_timeout := timeout_s r; f_why := why m; f_reason := reason; f_notes := notes m ++ notes_;
     f_follows := steered; f_entry_points := changes;
     f_session_choice := bool_decide (is_Some (session_approvals c)) && may_answer m r changes steered |}.
(** The answer, and the context after it. *)
Definition ask_operator (c : Tier3Context) (facts : Facts) (approve : Facts → answer)
    : Tier3Context * (refusal + approval) :=
  match approve facts with
  | Declined => (c, inl YouDeclined)
  | ForSession => if f_session_choice facts then (with_approval c (f_argv facts), inr ByOperatorForSession)
                  else (c, inr ByOperator)
  | Approved => (c, inr ByOperator)
  end.
Definition run_under_rule (F : fs) (root : path) (project : string) (rs : records) (project_path : path)
    (after : grant_files) (p : Grant.Policy) (steered : bool) (reason : string) (notes_ : list string)
    (approve : option (Facts → answer)) (c : Tier3Context) (r : Grant.AllowRule) (command : list string)
    : Tier3Context * (refusal + run) :=
  let m := classify H command (Some (for_matcher p)) (FileSystem.path_str root) (elements (model_written c)) None [project] in
  if bool_decide (outcome m = refused) then (c, inl (CommandRefused (why m)))
  else match other_backend p r m, approve with
  | Some id, _ => (c, inl (OtherBackend id))
  | None, None => (c, inl NobodyAnswers)
  | None, Some approve =>
      let changes := changed_entry_points ls_files late F rs root (grant_digest (grant c)) (model_written c)
                       project_path (argv m) in
      let '(c, decided) := match answers_itself c m r changes steered with
                           | Some by_ => (c, inr by_)
                           | None => ask_operator c (facts_of c m r changes steered reason notes_) approve
                           end in
      match decided with
      | inl why => (c, inl why)
      | inr by_ =>
          let c := check_pin after c in
          if is_suspended (grant c) then (c, inl (TierOff (grant_reason (grant c))))
          else (c, inr {| run_match := m; run_rule := r; run_digest := grant_digest (grant c); run_approved := by_ |})
      end
  end.
Definition run_tests (F : fs) (root : path) (project : string) (rs : records) (project_path : path)
    (d after : grant_files) (steered : bool) (reason : string) (approve : option (Facts → answer))
    (selectors : list string) (c : Tier3Context) : Tier3Context * (refusal + run) :=
  match tier3_context d c with
  | (c, inl why) => (c, inl why)
  | (c, inr p) =>
      match _test_rule p with
      | None => (c, inl NoTestRule)
      | Some r =>
          run_under_rule F root project rs project_path after p steered reason (project_code (model_written c)) approve c r
            (test_argv r selectors)
      end
  end.
(** [grant.sign]: the signature is written, then the record. *)
Definition sign (F : fs) (rs : records) (d : grant_files) (project : string) (project_path : path)
    (signer : string * private_key) (link : bool) : grant_files * records * result (sign_error + jcs_error) string :=
  match sign_policy typed H d project signer link with
  | Err e => (d, rs, Err (inl e))
  | Ok (d', digest) =>
      match record_signed ls_files late F rs project_path digest with
      | Err e => (d', rs, Err (inr e))
      | Ok rs' => (d', rs', Ok digest)
      end
  end.
End tier3.
