(* ===== verification/Tier3Laws.v ===== *)
(** * What a tier-3 command needs to run

    A command runs only under a grant that holds and whose files are still the
    pinned ones, past the matcher, and with a consent: the operator's answer to
    a question that showed it, or a rule or an earlier answer that may stand
    for one while nothing that decides what it runs has changed. *)

From S2P Require Import Prelude Canonical CanonicalLines JsonText Text FileSystem FileOps WorkspacePath Handshake HandshakeLaws Matcher MatcherLaws Allowlist Grant GrantLaws Tier3.

Section tier3.
#[local] Set Default Proof Using "Type*".
Context {U : Unicode} {T : PyText} {R : Runtime} {Sh : Sha256} {Sg : Signing}.
Context (typed : string → list string + Grant.Policy) (H : Matcher.Host).
Context (repo_commit : string → option string) (confines : bool) (backend_name : option string).
Context (ls_files : fs → path → option (list string)) (late : nat → bool).
Notation records := (gmap (string * string) string).
Notation load_grant := (load_grant typed H repo_commit confines).
Notation for_project := (for_project typed H repo_commit confines).
Notation changes_of F rs root c pp argv :=
  (changed_entry_points ls_files late F rs root (grant_digest (grant c)) (model_written c) pp argv).
Notation run_under_rule := (run_under_rule H backend_name ls_files late).
Notation run_tests := (run_tests H backend_name ls_files late).

(** ** The grant and its pin *)
Lemma is_suspended_spec g : is_suspended g = true ↔ grant_status g = suspended.
Proof. unfold is_suspended. by destruct (grant_status g). Qed.
Lemma check_pin_live d c : is_suspended (grant (check_pin d c)) = false →
  check_pin d c = c ∧ is_suspended (grant c) = false ∧ ∀ q, expected_pin c = Some q → pin_digest d = q.
Proof.
  unfold check_pin. destruct (is_suspended (grant c)) eqn:Es; [congruence|].
  destruct (expected_pin c) as [q|]; [|done]. destruct (String.eqb_spec (pin_digest d) q); [|done].
  intros _. split_and!; [done..|]. by intros ? [= <-].
Qed.
Lemma tier3_context_inr d c c' p : tier3_context d c = (c', inr p) →
  c' = c ∧ grant_status (grant c) = ok_ ∧ grant_policy (grant c) = Some p ∧ ∀ q, expected_pin c = Some q → pin_digest d = q.
Proof.
  unfold tier3_context. destruct (grant_policy (grant (check_pin d c))) as [q|] eqn:Eq; [|done].
  destruct (holds (grant (check_pin d c))) eqn:Eh; [|done]. intros [= <- <-].
  assert (is_suspended (grant (check_pin d c)) = false) as Hs by (unfold holds, is_suspended in *; by destruct (grant_status _)).
  apply check_pin_live in Hs as (E & _ & Hp). rewrite E in *. split_and!; [done| |done|done].
  unfold holds in Eh. by destruct (grant_status (grant c)).
Qed.
Lemma for_project_holds d project now pin_ asked written approvals p :
  let c := for_project d project now pin_ asked written approvals in
  grant_status (grant c) = ok_ → grant_policy (grant c) = Some p →
  (∃ data, grant_good typed H repo_commit confines d project now data p) ∧
  expected_pin c = Some (pin_digest d) ∧ (∀ q, pin_ = Some q → q = pin_digest d) ∧
  (ctx_mode c = allowlist → asked = allowlist ∧ max_mode p = allowlist).
Proof.
  intros c. set (g := load_grant d project now).
  assert (pin g = Some (pin_digest d)) as Epin.
  { unfold g, Grant.load_grant. destruct (policy_yaml d) as [data|] eqn:E; [|done].
    by destruct (decide_grant _ _ _ _ _ _ _ _) as [[? ?] ?]. }
  unfold c, Tier3.for_project. fold g. cbn [grant expected_pin ctx_mode].
  destruct pin_ as [q|].
  - rewrite Epin. case_bool_decide as Hq; [|done]. injection Hq as <-. intros Hst Hp. split_and!.
    + by apply load_grant_ok.
    + done.
    + by intros ? [= <-].
    + rewrite Hp. case_bool_decide; naive_solver.
  - intros Hst Hp. split_and!; [by apply load_grant_ok|done|done|]. rewrite Hp. case_bool_decide; naive_solver.
Qed.

(** ** The decision *)
Definition unasked (m : Match) (r : Grant.AllowRule) (changes : list Change) (steered : bool) : Prop :=
  outcome m = matches ∧ rule_id m = Some (rule_id_ r) ∧ changes = [] ∧ steered = false.
(** What stood for the operator's consent to [m]. *)
Definition consented (c : Tier3Context) (m : Match) (r : Grant.AllowRule) (changes : list Change) (steered : bool)
    (facts : Facts) (approve : Facts → answer) (by_ : approval) : Prop :=
  match by_ with
  | ByRule => unasked m r changes steered ∧ ctx_mode c = allowlist
  | BySession => unasked m r changes steered ∧ ∃ a, session_approvals c = Some a ∧ argv m ∈ a
  | ByOperator => approve facts ≠ Declined
  | ByOperatorForSession => approve facts = ForSession ∧ unasked m r changes steered
  end.
Lemma may_answer_spec m r changes steered : may_answer m r changes steered = true ↔ unasked m r changes steered.
Proof.
  unfold may_answer, unasked. rewrite andb_true_iff, bool_decide_eq_true, negb_true_iff. tauto.
Qed.
Lemma answers_itself_spec c m r changes steered by_ f approve : answers_itself c m r changes steered = Some by_ →
  consented c m r changes steered f approve by_.
Proof.
  unfold answers_itself. destruct (may_answer m r changes steered) eqn:Em; [|done]. apply may_answer_spec in Em.
  case_bool_decide; [by intros [= <-]|]. destruct (session_approvals c) as [a|] eqn:Ea; [|done].
  unfold covers. case_bool_decide; [|done]. intros [= <-]. split; [done|eauto].
Qed.
Lemma ask_operator_spec c m r changes steered reason notes_ approve c' by_ :
  ask_operator c (facts_of backend_name c m r changes steered reason notes_) approve = (c', inr by_) →
  consented c m r changes steered (facts_of backend_name c m r changes steered reason notes_) approve by_ ∧
  (c' = c ∧ by_ = ByOperator ∨ c' = with_approval c (argv m) ∧ by_ = ByOperatorForSession).
Proof.
  unfold ask_operator. set (f := facts_of _ _ _ _ _ _ _ _). destruct (approve f) eqn:Ea; [done| |].
  - intros [= <- <-]. split; [cbn; congruence|by left].
  - destruct (f_session_choice f) eqn:Es; intros [= <- <-]; (split; [cbn|]); [|by right|congruence|by left].
    split; [done|]. apply may_answer_spec. unfold f, facts_of in Es. cbn in Es. by apply andb_true_iff in Es as [_ ?].
Qed.
Lemma other_backend_None p r m : other_backend p r m = None → backend r = host.
Proof.
  unfold other_backend. rewrite filter_cons. case_decide as Hb; [done|]. intros _.
  destruct (decide (backend r = host)); [done|]. by destruct Hb.
Qed.
Lemma run_under_rule_inr F root project rs pp after p steered reason notes_ approve c r command c' x :
  run_under_rule F root project rs pp after p steered reason notes_ approve c r command = (c', inr x) →
  let m := classify H command (Some (for_matcher p)) (FileSystem.path_str root) (elements (model_written c)) None [project] in
  let changes := changes_of F rs root c pp (argv m) in
  run_match x = m ∧ run_rule x = r ∧ outcome m ≠ refused ∧ backend r = host ∧
  (∀ q, expected_pin c = Some q → pin_digest after = q) ∧ is_suspended (grant c) = false ∧
  (∃ f, approve = Some f ∧
    consented c m r changes steered (facts_of backend_name c m r changes steered reason notes_) f (run_approved x)) ∧
  (c' = c ∨ c' = with_approval c (argv m) ∧ run_approved x = ByOperatorForSession).
Proof.
  intros E m changes. unfold Tier3.run_under_rule in E. fold m in E. case_bool_decide as Ho; [done|].
  destruct (other_backend p r m) eqn:Eb; [done|]. apply other_backend_None in Eb.
  destruct approve as [f|]; [|done]. fold changes in E. revert E.
  set (facts := facts_of _ _ _ _ _ _ _ _).
  destruct (match answers_itself c m r changes steered with Some by_ => (c, inr by_) | None => ask_operator c facts f end)
    as [c1 [why|by_]] eqn:Ed; [done|].
  assert (consented c m r changes steered facts f by_ ∧
    (c1 = c ∨ c1 = with_approval c (argv m) ∧ by_ = ByOperatorForSession)) as [Hc Hc1].
  { destruct (answers_itself _ _ _ _ _) as [b|] eqn:Ea.
    - injection Ed as <- <-. split; [by apply answers_itself_spec|by left].
    - apply ask_operator_spec in Ed as [? [[-> ->]|[-> ->]]]; [split; [done|by left]|split; [done|by right]]. }
  destruct (is_suspended (grant (check_pin after c1))) eqn:Es; [done|]. intros [= <- <-].
  apply check_pin_live in Es as (-> & Hs & Hp). cbn.
  assert (expected_pin c1 = expected_pin c ∧ grant c1 = grant c) as [Ep Eg] by by destruct Hc1 as [->|[-> _]].
  rewrite Ep in Hp. rewrite Eg in Hs. split_and!; try done. by exists f.
Qed.

(** C4: a tier-3 command runs only under a signed grant in force whose files
    did not change, past the matcher, on the rule the grant names, and with a
    consent to exactly its words. *)
Theorem tier3_runs_only_with_consent d0 project now pin_ asked written approvals
    F root rs pp d after steered reason approve selectors c' x :
  run_tests F root project rs pp d after steered reason approve selectors
    (for_project d0 project now pin_ asked written approvals) = (c', inr x) →
  ∃ data p f, let c := for_project d0 project now pin_ asked written approvals in
    let r := run_rule x in let m := run_match x in let changes := changes_of F rs root c pp (argv m) in
    grant_good typed H repo_commit confines d0 project now data p ∧ pin_digest d = pin_digest d0 ∧
    pin_digest after = pin_digest d0 ∧ (∀ q, pin_ = Some q → q = pin_digest d0) ∧
    _test_rule p = Some r ∧ backend r = host ∧ outcome m ≠ refused ∧
    m = classify H (test_argv r selectors) (Some (for_matcher p)) (FileSystem.path_str root) (elements written) None [project] ∧
    approve = Some f ∧
    consented c m r changes steered
      (facts_of backend_name c m r changes steered reason (project_code written)) f (run_approved x) ∧
    (run_approved x = ByRule → asked = allowlist ∧ max_mode p = allowlist).
Proof.
  intros E. set (c := for_project _ _ _ _ _ _ _) in *. unfold Tier3.run_tests in E.
  destruct (tier3_context d c) as [c1 [why|p]] eqn:Ec; [done|].
  apply tier3_context_inr in Ec as (-> & Hst & Hp & Hd).
  destruct (for_project_holds d0 project now pin_ asked written approvals p Hst Hp) as ((data & G) & Hpin & Hq & Hm).
  destruct (_test_rule p) as [r|] eqn:Er; [|done].
  apply run_under_rule_inr in E as (Em & Err & Ho & Hb & Ha & _ & (f & Ef & Hc) & _).
  change (model_written c) with written in *. exists data, p, f. cbn zeta.
  rewrite Em, Err. split_and!; try done.
  - by apply Hd.
  - by apply Ha.
  - intros Ey. rewrite Ey in Hc. by apply Hm, Hc.
Qed.

(** ** The session's approvals *)

(** One call of [run_tests] in a session: the files and the operator it meets. *)
Record call := {
  k_start : grant_files; k_project : string; k_now : Z; k_pin : option string; k_mode : mode; k_written : gset string;
  k_files : fs; k_root : path; k_records : records; k_path : path; k_check : grant_files; k_after : grant_files;
  k_steered : bool; k_reason : string; k_operator : option (Facts → answer); k_selectors : list string;
}.
Definition call_with (approved : gset (list string)) (k : call) : Tier3Context * (refusal + run) :=
  run_tests (k_files k) (k_root k) (k_project k) (k_records k) (k_path k) (k_check k) (k_after k) (k_steered k)
    (k_reason k) (k_operator k) (k_selectors k)
    (for_project (k_start k) (k_project k) (k_now k) (k_pin k) (k_mode k) (k_written k) (Some approved)).
Definition after_calls (ks : list call) : gset (list string) :=
  foldl (λ approved k, default approved (session_approvals (call_with approved k).1)) ∅ ks.
(** The operator answered "for this session" to a question that showed [words]
    and offered that answer. *)
Definition answered (k : call) (words : list string) : Prop :=
  ∃ f facts, k_operator k = Some f ∧ f facts = ForSession ∧ f_argv facts = words ∧ f_session_choice facts = true.
Lemma check_pin_approvals d c : session_approvals (check_pin d c) = session_approvals c.
Proof.
  unfold check_pin. destruct (is_suspended _); [done|]. destruct (expected_pin c); [|done]. by destruct (String.eqb _ _).
Qed.
Lemma ask_operator_approvals c facts f c' out : ask_operator c facts f = (c', out) →
  c' = c ∨ (c' = with_approval c (f_argv facts) ∧ f facts = ForSession ∧ f_session_choice facts = true).
Proof.
  unfold ask_operator. destruct (f facts) eqn:Ef; [by intros [= <- _]; left..|].
  destruct (f_session_choice facts) eqn:Es; intros [= <- _]; [by right|by left].
Qed.
Lemma run_under_rule_approvals F root project rs pp after p steered reason notes_ approve c r command words :
  let c' := (run_under_rule F root project rs pp after p steered reason notes_ approve c r command).1 in
  (∃ a, session_approvals c' = Some a ∧ words ∈ a) → (∃ a, session_approvals c = Some a ∧ words ∈ a) ∨
  ∃ f facts, approve = Some f ∧ f facts = ForSession ∧ f_argv facts = words ∧ f_session_choice facts = true.
Proof.
  intros c'. unfold c', Tier3.run_under_rule. set (m := classify _ _ _ _ _ _ _). case_bool_decide; [by left|].
  destruct (other_backend p r m); [by left|]. destruct approve as [f|]; [|by left].
  set (changes := changed_entry_points _ _ _ _ _ _ _ _ _). set (facts := facts_of _ _ _ _ _ _ _ _).
  destruct (match answers_itself c m r changes steered with Some by_ => (c, inr by_) | None => ask_operator c facts f end)
    as [c1 out] eqn:Ed.
  assert (c1 = c ∨ (c1 = with_approval c (f_argv facts) ∧ f facts = ForSession ∧ f_session_choice facts = true)) as Hc.
  { destruct (answers_itself _ _ _ _ _); [injection Ed as <- _; by left|]. by eapply ask_operator_approvals. }
  assert (∀ a, session_approvals c1 = Some a → words ∈ a → (∃ a, session_approvals c = Some a ∧ words ∈ a) ∨
    ∃ f' facts, Some f = Some f' ∧ f' facts = ForSession ∧ f_argv facts = words ∧ f_session_choice facts = true) as Hgo.
  { intros a Ha Hw. destruct Hc as [->|(-> & Hf & Hs)]; [left; eauto|]. cbn in Ha.
    destruct (session_approvals c) as [a0|]; [|done]. injection Ha as <-. unfold add_approval in Hw. apply elem_of_union in Hw as [Hw|Hw]; [right|left; eauto].
    apply elem_of_singleton in Hw as ->. by exists f, facts. }
  intros (a & Ha & Hw). destruct out as [why|by_].
  - by apply (Hgo a).
  - destruct (is_suspended _); cbn [fst] in Ha; rewrite check_pin_approvals in Ha; by apply (Hgo a).
Qed.
Lemma call_approvals approved k words :
  words ∈ default approved (session_approvals (call_with approved k).1) → words ∈ approved ∨ answered k words.
Proof.
  unfold call_with, Tier3.run_tests. set (c := for_project _ _ _ _ _ _ _).
  assert (session_approvals c = Some approved) as Ec by done.
  assert (∀ c1, session_approvals c1 = Some approved → words ∈ default approved (session_approvals c1) →
    words ∈ approved ∨ answered k words) as Hsame.
  { intros c1 E. rewrite E. by left. }
  destruct (tier3_context (k_check k) c) as [c1 [why|p]] eqn:E1.
  - cbn [fst]. apply Hsame. assert (c1 = check_pin (k_check k) c) as ->.
    { unfold tier3_context in E1. destruct (grant_policy _); [destruct (holds _)|]; by injection E1. }
    by rewrite check_pin_approvals.
  - assert (c1 = c) as -> by (apply tier3_context_inr in E1 as [E1 _]; exact E1).
    destruct (_test_rule p) as [r|]; [|by apply Hsame].
    intros Hw. pose proof (run_under_rule_approvals (k_files k) (k_root k) (k_project k) (k_records k) (k_path k) (k_after k)
      p (k_steered k) (k_reason k) (project_code (model_written c)) (k_operator k) c r (test_argv r (k_selectors k)) words) as Hr.
    cbn zeta in Hr. destruct (session_approvals (run_under_rule _ _ _ _ _ _ _ _ _ _ _ _ _ _).1) as [a|] eqn:Ea; [|by left].
    destruct Hr as [(a' & E & ?)|(f & facts & ?)]; [by exists a| |].
    + rewrite Ec in E. injection E as <-. by left.
    + right. by exists f, facts.
Qed.
(** C27: whatever calls a session makes, the only commands it then runs without
    a question as approved for the session are those the operator gave that
    answer to, at a question that showed their exact words. *)
Theorem session_approvals_were_given ks words : words ∈ after_calls ks → ∃ k, k ∈ ks ∧ answered k words.
Proof.
  unfold after_calls. induction ks as [|k ks IH] using rev_ind; [by intros ?%elem_of_empty|].
  rewrite foldl_app. cbn [foldl]. intros [Hw|Hw]%call_approvals.
  - destruct (IH Hw) as (k' & ? & ?). exists k'. set_solver.
  - exists k. set_solver.
Qed.
End tier3.

(** ** A session on a concrete machine *)
Section sample.
#[local] Existing Instance plain_unicode.
#[local] Existing Instance plain_runtime.
#[local] Existing Instance plain_pytext.
#[local] Existing Instance HandshakeLaws.sample_sha.
#[local] Existing Instance grant_signing.
Definition sample_listing (F : fs) (p : path) : option (list string) := Some ["src/a.py"; "tests/test_a.py"; "build/x.py"].
Definition in_time (n : nat) : bool := false.
Definition project_files : fs :=
  list_to_map [(["work"], Dir); (["work"; "tests"], Dir); (["work"; "tests"; "test_a.py"], Regular "assert True" 1)].
Definition signed_state : grant_files * gmap (string * string) string :=
  (sign sample_typed MatcherLaws.sample_host sample_listing in_time project_files ∅ unsigned_files "/work" ["work"] operator false).1.
Definition session_call (m : mode) (operator_says : answer) (selectors : list string) : call :=
  {| k_start := signed_state.1; k_project := "/work"; k_now := 5; k_pin := Some (pin_digest signed_state.1); k_mode := m;
     k_written := ∅; k_files := project_files; k_root := ["work"]; k_records := signed_state.2; k_path := ["work"];
     k_check := signed_state.1; k_after := signed_state.1; k_steered := false; k_reason := "";
     k_operator := Some (λ _, operator_says); k_selectors := selectors |}.
Notation sample_call approved k :=
  (call_with sample_typed MatcherLaws.sample_host no_commit false None sample_listing in_time approved k).
Notation sample_session ks :=
  (after_calls sample_typed MatcherLaws.sample_host no_commit false None sample_listing in_time ks).
Definition approved_by (r : Tier3Context * (refusal + run)) : option approval :=
  match r.2 with inr x => Some (run_approved x) | inl _ => None end.
(** In a session that asks: asked for the first time, then not for the same
    words, and again for others; with allow rules it does not ask. *)
Example session_at_work :
  approved_by (sample_call ∅ (session_call ask ForSession [])) = Some ByOperatorForSession ∧
  approved_by (sample_call (sample_session [session_call ask ForSession []]) (session_call ask Declined [])) = Some BySession ∧
  approved_by (sample_call (sample_session [session_call ask ForSession []]) (session_call ask Approved ["tests/test_a.py"]))
    = Some ByOperator ∧
  approved_by (sample_call ∅ (session_call allowlist Declined [])) = Some ByRule.
Proof. split_and!; vm_compute; reflexivity. Qed.

Definition unasked_call : call := session_call allowlist Declined [].
Notation run_call k approved := (run_tests MatcherLaws.sample_host None sample_listing in_time (k_files k) (k_root k)
  (k_project k) (k_records k) (k_path k) (k_check k) (k_after k) (k_steered k) (k_reason k) (k_operator k) (k_selectors k)
  (for_project sample_typed MatcherLaws.sample_host no_commit false (k_start k) (k_project k) (k_now k) (k_pin k) (k_mode k)
     (k_written k) approved)).
Lemma unasked_call_outcome : approved_by (run_call unasked_call (Some ∅)) = Some ByRule.
Proof. vm_compute. reflexivity. Qed.
Lemma unasked_call_runs : ∃ c' x, run_call unasked_call (Some ∅) = (c', inr x) ∧ run_approved x = ByRule.
Proof.
  generalize unasked_call_outcome. destruct (run_call unasked_call (Some ∅)) as [c' [why|x]]; [discriminate|].
  intros [= Hby]. by exists c', x.
Qed.
Lemma tier3_runs_only_with_consent_witness : ∃ x data p f,
  grant_good sample_typed MatcherLaws.sample_host no_commit false (k_start unasked_call) (k_project unasked_call)
    (k_now unasked_call) data p ∧
  k_operator unasked_call = Some f ∧ _test_rule p = Some (run_rule x) ∧ run_approved x = ByRule ∧ max_mode p = allowlist.
Proof.
  destruct unasked_call_runs as (c' & x & E & Hby).
  destruct (tier3_runs_only_with_consent sample_typed MatcherLaws.sample_host no_commit false None sample_listing in_time
    _ _ _ _ _ _ _ _ _ _ _ _ _ _ _ _ _ c' x E)
    as (data & p & f & G & _ & _ & _ & Hr & _ & _ & _ & Hf & _ & Hm).
  exists x, data, p, f. split; [exact G|]. split; [exact Hf|]. split; [exact Hr|]. split; [exact Hby|].
  exact (proj2 (Hm Hby)).
Defined.
Lemma session_approvals_were_given_witness :
  ∃ k, k ∈ [session_call ask ForSession []] ∧ answered k ["pytest"].
Proof.
  apply (session_approvals_were_given sample_typed MatcherLaws.sample_host no_commit false None sample_listing in_time
    [session_call ask ForSession []] ["pytest"]).
  apply (bool_decide_unpack _). vm_compute. exact I.
Defined.

(** ** Signing a project with a name beyond the basic plane

    The record is canonical JSON, which refuses such a name: [sign] raises
    after it wrote the signature, and no record is kept. *)
Definition astral_listing (F : fs) (p : path) : option (list string) := Some ["tests/test_😀.py"].
Definition astral_files : fs :=
  list_to_map [(["work"], Dir); (["work"; "tests"], Dir); (["work"; "tests"; "test_😀.py"], Regular "assert True" 1)].
Lemma sign_raises_on_astral_name :
  let '(d, rs, r) := sign sample_typed MatcherLaws.sample_host astral_listing in_time astral_files ∅ unsigned_files
                       "/work" ["work"] operator false in
  is_ok r = false ∧ is_Some (policy_sig d) ∧ rs = ∅ ∧
  holds (load_grant sample_typed MatcherLaws.sample_host no_commit false d "/work" 5) = true.
Proof. vm_compute. split_and!; eauto. Qed.
End sample.
